(* ===== verification/_CoqProject ===== *)
-Q . S2P
Prelude.v
PyDict.v
PyStr.v
PyFloat.v
PyJson.v
JsonText.v
PyRandom.v
Heapq.v
Knobs.v
SplitSpace.v
ReorderSpace.v
AnnotateSpace.v
ConfigSpace.v
Tuners.v
TuneLoop.v
Anneal.v
ModelTuner.v
GATuner.v
Wire.v
TcpHandler.v
Scheduler.v
Frames.v
Tracker.v
TrackerInv.v
SearchPolicies.v
TaskScheduler.v
TaskSchedulerInv.v
Features.v
Arith.v
PSAModel.v
Dataset.v
DatasetInv.v
PAMDataset.v
FirstMin.v
Dispatcher.v
DispatcherInv.v
DispatcherNest.v
Record.v
RecordFiles.v
WorkloadKey.v
AnsorDispatcher.v
AnsorHistory.v
AnsorQuery.v
Int64.v
TIR.v
ConstIntBound.v
ConstIntBoundSound.v
ModularSet.v
ModularSetSound.v
ConstFold.v
PatternMatch.v
RewriteRules.v
RewriteRulesSound.v
RewriteSimplify.v
RewriteSimplifySound.v
AnalyzerSound.v
LoopState.v
TransformStep.v
StepReplay.v
AttachMapInv.v
LoopStateInv.v
LoopExtents.v
DmlcJson.v
DmlcJsonInv.v
DoubleText.v
StepRecord.v
MeasureRecord.v
MeasureRecordInv.v
