(* ===== verification/Prelude.v ===== *)
(** * Pruner: a verification development of its tuners and of the native code they stand on

    Pruner is a fork of TVM with the tensor-program tuners AutoTVM and Ansor (the
    "auto-scheduler"), a dataset format for measured programs, and the analyzer and cost models
    that prune the search space. This library models the parts that decide what is measured,
    what is remembered and which schedule is used, the control plane that hands out devices, and
    of the native code the loop states the search transforms, their records and the integer
    analysis of index expressions. A definition has the name of the function or method it translates wherever the
    language allows it. Paths are below [src/].

    ** How the parts interact

    A template declares a configuration space; a tuner picks configurations from it, has them
    measured and learns; measured configurations are written to a log as records; a dispatch
    context loads a log and answers the templates' queries when a network is compiled. The
    auto-scheduler has the same parts for sketches: the task scheduler divides the trials among
    the tasks of a network, search policies rank programs with cost models, one of which is the
    symbol-based analyzer (PSA), on features that the native code packs into a byte array;
    measured programs become datasets; its own dispatch contexts answer queries by workload
    key. A program is a native loop state: the stages of a compute DAG with their loops, changed by
    transform steps. A record of a log holds the steps of a state, and replaying them gives the
    state again. The extents of loops are expressions, which the operators fold, the native
    analyzers bound and the rewriting simplifier simplifies; these three ask each other. Devices are shared through the RPC tracker, which speaks framed JSON.

    ** The files

    Language and standard library.
    - [Prelude]: exceptions ([result]), state with exceptions ([M]), loops, the tactics [mrun],
      [minv], [bool_to_prop], list lemmas.
    - [PyDict] (insertion-ordered dictionaries), [PyStr], [PyFloat] (binary64 through
      [SpecFloat]), [PyJson] and [JsonText] ([json.dumps], [json.loads], their round trip),
      [PyRandom] (draws read from an arbitrary stream), [Heapq] (the heap algorithms of
      CPython, refined to multisets with a minimum), [Arith] (the number operations of numpy,
      with binary64 and exact rationals as instances), [FirstMin] (the first of the cheapest).

    AutoTVM, [python/tvm/autotvm].
    - [SplitSpace], [ReorderSpace], [AnnotateSpace], [ConfigSpace]: [task/space.py]. The entities
      of a space are shared mutable objects and live in a store.
    - [Knobs], [Tuners], [TuneLoop], [Anneal], [ModelTuner], [GATuner]: the tuners of [tuner/];
      [TuningSpace] is the interface through which they see a space.
    - [Dispatcher], [DispatcherInv], [DispatcherNest]: [task/dispatcher.py], with contexts and
      configurations as objects of a store.
    - [Record], [RecordFiles]: [record.py] and the arguments of a [Task] of [task/task.py].

    RPC, [python/tvm/rpc].
    - [Wire]: [base.py]. [TcpHandler]: [tornado_util.py]. [Scheduler], [Frames], [Tracker],
      [TrackerInv]: [tracker.py]; the scheduler and the handler are written against the rest of
      the program as an arbitrary state, and [Tracker] puts them together.

    Auto-scheduler, [python/tvm/auto_scheduler].
    - [SearchPolicies], [TaskScheduler], [TaskSchedulerInv]: [task_scheduler.py].
    - [Features]: [feature.py], with the native packing of [src/auto_scheduler/feature.cc] and
      [feature_pam.cc]. [PSAModel]: [cost_model/psa_model.py].
    - [Dataset], [DatasetInv], [PAMDataset]: [dataset.py].
    - [WorkloadKey]: [workload_registry.py] and the keys of [utils.py].
    - [AnsorDispatcher], [AnsorHistory], [AnsorQuery]: [dispatcher.py].

    Native code, [src/] and [include/tvm].
    - [Int64]: [arith/int_operator.h], on integers of 64 bits. [TIR]: the scalar integer expressions
      of [tir/expr.h] and their values. [ConstFold]: the operators of [tir/op/op.cc] with the
      folding of [arith/const_fold.h].
    - [ConstIntBound], [ConstIntBoundSound]: [arith/const_int_bound.cc]. [ModularSet],
      [ModularSetSound]: [arith/modular_set.cc].
    - [PatternMatch]: [arith/pattern_match.h], with the node constructors of [tir/ir/expr.cc].
      [RewriteRules], [RewriteRulesSound]: the tables of scalar rules of [arith/rewrite_simplify.cc]
      and their meaning. [RewriteSimplify], [RewriteSimplifySound]: the visitor that tries them,
      with [Select] of [arith/ir_mutator_with_analyzer.cc]; its proof is against the class
      [SoundAnalyzers]. [AnalyzerSound]: the instance made of the two analyzers above.
    - [LoopState], [TransformStep]: [auto_scheduler/loop_state.cc], [auto_scheduler/utils.h] and the
      steps of [auto_scheduler/transform_step.cc] on states. A state is threaded explicitly;
      iterators are compared by identity and carry the address at which they were made.
      [StepReplay], [AttachMapInv], [LoopStateInv] and [LoopExtents] hold their theory.
    - [DmlcJson], [DmlcJsonInv], [DoubleText]: the streaming JSON reader and writer of
      [3rdparty/dmlc-core/include/dmlc/json.h] as text, and what is read from what was written.
      [Handler] pairs the writing and reading of a type; [codec] is its law.
    - [StepRecord]: the records of steps in [transform_step.cc]. [MeasureRecord],
      [MeasureRecordInv]: [auto_scheduler/measure_record.cc] and the data it writes.

    ** What the theorems show

    - Spaces: the factor enumeration is exactly the divisors; the split, reorder and annotation
      policies enumerate exactly the intended transformations; applying them keeps loops and
      extents; a space stays well formed under every sequence of its operations, and a knob's current
      entity is its first unless it was assigned another; indices read as mixed-radix knobs, and
      configurations survive JSON.
    - Tuners: the tuning loop terminates within its trials and records the first configuration no
      measurement beats; no tuner measures a configuration twice; annealing returns, best first, the
      best of the initial and of all walked points; generations of the genetic tuner are fresh;
      submodular picking is greedy.
    - Histories and records: a history, of either tuner, holds the first of the cheapest records of
      every workload, a query finds the entry the documentation promises, nested contexts behave
      as a stack (no context entered inside itself), records survive their text, and the reduced log of [pick_best] answers as the
      whole one.
    - Workload keys: keys decode to what they were made from; the distance factor is exact, at
      least 1, and 1 only for the workload itself (for positive arguments).
    - RPC: framed JSON survives every cutting of the stream; buffered writing is first in first
      out; the tracker reassembles messages, serves requests by priority and arrival, always
      finishes an event and leaves no request waiting beside a free resource.
    - Task scheduler: its bookkeeping is consistent in every state that tuning, restoring and
      adjusting reach, what [tune] and [transfer_tune] return included; round robin ends
      within its budget after every task was tuned, the gradient strategy picks the steepest task.
    - Features, analyzer, datasets: unpacking inverts the native packing bit for bit; the estimate
      of the analyzer is never below the roofline; splits partition, merging keeps latencies, and
      a [PAMDataset] refines a [Dataset].
    - Expressions and their analysis: operators keep values whether they fold or build a node; the
      bounds and the modular sets the analyzers compute hold of every value, for whatever true facts
      they were told, constraints entered and left included. Each of the 414 rewriting rules
      keeps the value of what it matches, except five that are shown not to. The simplifier of the
      program, with all rules in force, keeps the value of the expression, with the analyzers that
      it asks and that ask it, in runs where none of these five applies and no expression they are
      asked about overflows; the modular sets, which ask it about dividends, are right in such runs.
    - Loop states: in every state that the methods, and steps applied in replays of whatever
      history, build under the conditions the code relies on, the two directions of the attach map
      agree and attached stages hang on existing loops; splitting covers the loop it replaces and fusing
      keeps the number of iterations.
    - Native records: a log gives back what was appended to it, up to the six digits a number is
      printed with, whose error is bounded; the record of a state is one line, and replaying the
      steps that are read from it gives the state itself, identities of iterators included.
    Lemmas that are not among the properties of the manifest document behaviour that is probably
    not meant, for instance [Anneal.random_walk_single_point], [DispatcherNest.dispatch_reentry],
    [RecordFiles.pick_best_writes_first], [WorkloadKey.dis_factor_negative],
    [ConstIntBoundSound.extreme_sum_unsound], [AnalyzerSound.faulty_rules_change_value], [AnalyzerSound.faulty_rules_wrong_set],
    [GATuner.ga_single_gene_error], [LoopStateInv.empty_fuse_dangles],
    [StepRecord.large_extent_unreadable] and [MeasureRecordInv.stale_record].

    ** Conventions, bounds and fuel

    - [Raise OutOfFuel] marks a run that has not ended; no theorem of a result allows it. Loops
      whose end depends on random draws take a fuel, with a theorem that some fuel is enough where
      the loop ends. The tracker's fuel is the number of its connections, since each is closed
      at most once; a query of the dispatch contexts takes the number of contexts, which suffices
      for nested contexts; the JSON parser takes the length of the text, as do the loops of the
      native reader over the items of an array and the keys of a record, which take a character
      each; the record reader takes the number of lines. The simplifier takes a bound on the depth
      of its calls; a larger bound does not change a result.
    - The value of a simplified expression is the one in unbounded arithmetic ([ival]), since rules
      that move terms may make an intermediate result overflow. Bounds and modular sets are right for
      guarded values only ([eval]), hence the theorems on the simplifier watch the run: the visitor
      reports every rule that applies and every question, and the watched run, which stops at a
      faulty rule or at a question about an overflowing expression, gives the program's result
      whenever it ends.
    - [Raise NotImplementedError] marks an input outside the modelled part of a Python operation
      (and the places where the code raises it).
    - [int(math.sqrt(n))] in [get_factors] is the integer square root, which it is for all [n]
      below 2^48; axis lengths are far below.
    - Integers of Python are unbounded; [Knobs] keeps the 63-bit bound of numpy's integers,
      [Features] the 32-bit words of the native code, [Int64] and the files on it raise
      [OverflowError] where 64-bit arithmetic would overflow, and the native reader reads an [int] of
      32 bits. In native code [AssertionError] is a failed check; other exceptions mark behaviour
      that is undefined there. A state after a failed step is not used.
    - numpy's mean, random choices, the native search policies and cost models, measuring, user
      callbacks and the operating system's answers ([send], [recv]) are parameters. So are, for the
      native files, whether two expressions are the same object, the operations a DAG has after the
      steps that add stages were replayed on a schedule ([ReplayAndGetDAG]), and targets with their
      strings.
    - Theorems about the values of formulas are proved for the exact rational instance of
      [Arith]; the binary64 instance is what the definitions compute with in the program.

    ** Not modelled

    - The rest of the native compiler, in particular schedules of the tensor language (hence
      [ApplyToSchedule] and [PrintAsPythonAPI] of the steps), bound inference, the sketch search,
      the canonical simplifier and integer sets; of the expressions, floats, vectors and memory
      accesses, and in the rewriting simplifier [Let], whose bindings change the analyzer for good,
      and calls; its Python bindings ([python/tvm/{ir,te,tir,relay,topi,arith,target,runtime,_ffi,driver,parser,script,
      contrib,micro}]) and the other languages' runtimes: the tuners only call them.
    - Building and running programs ([autotvm/measure], [auto_scheduler/measure.py],
      [rpc/server.py], [rpc/client.py], [rpc/minrpc.py], [rpc/proxy.py]): processes, sockets and
      devices.
    - Learned models ([cost_model/{xgb,lgbm,mlp,tabnet,pam}_model.py],
      [tuner/xgboost_cost_model.py]): third-party learners on top of numpy and torch.
    - The pickle protocol of records and of the registry, printing and logging, [scripts/], [apps/],
      [vta/] and the documentation. *)

From stdpp Require Export prelude list strings gmap sorting pretty.
From Stdlib Require Export ZArith Lia.

#[global] Open Scope Z_scope.
#[export] Set Warnings "-clear-no-such-hyp,-level-tolerance".

(** ** Python exceptions and fallible computations *)

(** The exception classes the modelled code raises, or lets escape from the
    language's own operations (indexing, dictionary access, [struct], ...).
    [OutOfFuel] is not one of them: it marks a loop of the model that ran out of its
    fuel, that is, a run of the program that has not ended yet. *)
Inductive exc :=
| AssertionError | IndexError | KeyError | ValueError | TypeError
| RuntimeError | AttributeError | IOError | StructError
| ZeroDivisionError | StopIteration | NotImplementedError | UnboundLocalError | NameError | OverflowError
| OutOfFuel.

#[export] Instance exc_eq_dec : EqDecision exc.
Proof. solve_decision. Defined.

Inductive result (A : Type) :=
| Ok (a : A)
| Raise (e : exc).
Arguments Ok {A} a.
Arguments Raise {A} e.

#[export] Instance result_eq_dec `{EqDecision A} : EqDecision (result A).
Proof. solve_decision. Defined.

#[export] Instance result_ret : MRet result := λ A a, Ok a.
#[export] Instance result_bind : MBind result := λ A B f r,
  match r with Ok a => f a | Raise e => Raise e end.
#[export] Instance result_fmap : FMap result := λ A B f r,
  match r with Ok a => Ok (f a) | Raise e => Raise e end.

(** [assert c]. *)
Definition py_assert (c : bool) : result unit :=
  if c then Ok tt else Raise AssertionError.

(** [xs[i]] on a list for a non-negative index, and [d[k]] on a dictionary. *)
Definition of_option {A} (e : exc) (o : option A) : result A :=
  match o with Some a => Ok a | None => Raise e end.

(** A loop whose body may raise: the accumulator is threaded left to right and
    the first exception ends the loop. *)
Fixpoint mfoldl {A B} (f : B → A → result B) (b : B) (l : list A) : result B :=
  match l with
  | [] => Ok b
  | a :: l => match f b a with Ok b' => mfoldl f b' l | Raise e => Raise e end
  end.

(** A list comprehension whose element expression may raise. *)
Fixpoint mmapr {A B} (f : A → result B) (l : list A) : result (list B) :=
  match l with
  | [] => Ok []
  | a :: l => b ← f a; bs ← mmapr f l; Ok (b :: bs)
  end.

Lemma result_bind_ok {A B} (m : result A) (k : A → result B) b :
  m ≫= k = Ok b → ∃ a, m = Ok a ∧ k a = Ok b.
Proof. destruct m as [a|e]; [eauto|done]. Qed.

Lemma mmapr_length {X Y} (f : X → result Y) l ys : mmapr f l = Ok ys → length ys = length l.
Proof.
  revert ys. induction l as [|x l IH]; intros ys Hl; cbn [mmapr] in Hl; [by simplify_eq|].
  apply result_bind_ok in Hl as (y & _ & (zs & Hzs & [= <-])%result_bind_ok). simpl. f_equal. by apply IH.
Qed.

Lemma py_assert_ok c r : py_assert c = Ok r → c = true.
Proof. by destruct c. Qed.

(** ** State with exceptions: an exception leaves the mutations made so far. *)

Definition M (S A : Type) : Type := S → result A * S.

#[export] Instance M_ret {S} : MRet (M S) := λ A a s, (Ok a, s).
#[export] Instance M_bind {S} : MBind (M S) := λ A B f m s,
  match m s with
  | (Ok a, s') => f a s'
  | (Raise e, s') => (Raise e, s')
  end.

Definition raise {S A} (e : exc) : M S A := λ s, (Raise e, s).
Definition get_st {S} : M S S := λ s, (Ok s, s).
Definition put_st {S} (s : S) : M S unit := λ _, (Ok tt, s).
Definition modify {S} (f : S → S) : M S unit := λ s, (Ok tt, f s).
Definition lift {S A} (r : result A) : M S A := λ s, (r, s).

Fixpoint mfor {S A} (f : A → M S unit) (l : list A) : M S unit :=
  match l with
  | [] => mret tt
  | a :: l => f a ≫= λ _, mfor f l
  end.

(** Running a computation step by step. *)
Section run.
Context {S A B : Type}.
Implicit Types (s : S) (k : A → M S B).

Lemma M_bind_ok (m : M S A) k s a s' : m s = (Ok a, s') → (m ≫= k) s = k a s'.
Proof. intros H. unfold mbind, M_bind. by rewrite H. Qed.

Lemma M_bind_raise (m : M S A) k s e s' : m s = (Raise e, s') → (m ≫= k) s = (Raise e, s').
Proof. intros H. unfold mbind, M_bind. by rewrite H. Qed.

Lemma M_ret_bind (a : A) k s : ((mret a : M S A) ≫= k) s = k a s.
Proof. done. Qed.

Lemma M_lift_ok_bind (a : A) k s : (lift (Ok a) ≫= k) s = k a s.
Proof. done. Qed.

Lemma M_lift_raise_bind e k s : (lift (Raise e) ≫= k) s = (Raise e, s).
Proof. done. Qed.

Lemma M_raise_bind e k s : (raise e ≫= k) s = (Raise e, s).
Proof. done. Qed.

Lemma M_get_bind (k : S → M S B) s : (get_st ≫= k) s = k s s.
Proof. done. Qed.

Lemma M_put_bind (k : unit → M S B) s s' : (put_st s' ≫= k) s = k tt s'.
Proof. done. Qed.

Lemma M_modify_bind (k : unit → M S B) (f : S → S) s : (modify f ≫= k) s = k tt (f s).
Proof. done. Qed.
End run.

Lemma M_bind_inv {S A B} (m : M S A) (k : A → M S B) s r s' :
  (m ≫= k) s = (Ok r, s') → ∃ a s1, m s = (Ok a, s1) ∧ k a s1 = (Ok r, s').
Proof. unfold mbind, M_bind. destruct (m s) as [[a|e] s1]; [eauto|discriminate]. Qed.

Lemma lift_inv {S A} (r : result A) (s s' : S) a : lift r s = (Ok a, s') → r = Ok a ∧ s' = s.
Proof. unfold lift. intros [= -> ->]. done. Qed.

Lemma mfor_app_inv {S A} (f : A → M S unit) l k s s' :
  mfor f (l ++ k) s = (Ok tt, s') → ∃ s1, mfor f l s = (Ok tt, s1) ∧ mfor f k s1 = (Ok tt, s').
Proof.
  revert s. induction l as [|a l IH]; intros s H; [by exists s|]. cbn [mfor app] in *.
  apply M_bind_inv in H as ([] & s1 & H1 & H). destruct (IH s1 H) as (s2 & H2 & H3).
  exists s2. by rewrite (M_bind_ok _ _ _ _ _ H1).
Qed.

(** A property that every round of a loop keeps *)
Lemma mfor_keeps {S A} (f : A → M S unit) (P : S → Prop) l s s' :
  (∀ a s s', a ∈ l → P s → f a s = (Ok tt, s') → P s') → P s → mfor f l s = (Ok tt, s') → P s'.
Proof.
  revert s. induction l as [|a l IH]; intros s Hf Hs H; cbn [mfor] in H; [by injection H as <-|].
  apply M_bind_inv in H as ([] & s1 & H1 & H).
  eapply IH; [|eapply Hf; [by left|done..]|exact H]. intros b t t' Hb. apply Hf. by right.
Qed.

(** What holds of the outcome of a run. *)
Definition post {S A} (m : M S A) (Q : result A → S → Prop) (s : S) : Prop := Q (m s).1 (m s).2.

Lemma post_bind {S A B} (m : M S A) (k : A → M S B) Q s :
  post m (λ r s', match r with Ok a => post (k a) Q s' | Raise e => Q (Raise e) s' end) s →
  post (m ≫= k) Q s.
Proof. unfold post, mbind, M_bind. destruct (m s) as [[a|e] s']; done. Qed.

Lemma post_mono {S A} (m : M S A) (Q Q' : result A → S → Prop) s :
  post m Q s → (∀ r s', Q r s' → Q' r s') → post m Q' s.
Proof. unfold post. auto. Qed.

Create Rewrite HintDb mrun.
#[export] Hint Rewrite @M_ret_bind @M_lift_ok_bind @M_lift_raise_bind @M_raise_bind
  @M_get_bind @M_put_bind @M_modify_bind : mrun.

(** ** Tactics *)

(** Execute the next steps of a computation in [M]. *)
Ltac mrun := repeat progress (autorewrite with mrun).

(** Split a successful run of a sequence at its first step. *)
Tactic Notation "minv" hyp(H) "as" simple_intropattern(a) ident(s1) ident(H1) :=
  apply M_bind_inv in H; destruct H as (a & s1 & H1 & H).

(** Case analysis on the scrutinees of the goal and of the hypotheses. *)
Ltac break_match_goal :=
  match goal with
  | |- context [match ?x with _ => _ end] =>
      lazymatch x with
      | context [match _ with _ => _ end] => fail
      | _ => destruct x eqn:?
      end
  end.
Ltac break_match_hyp :=
  match goal with
  | H : context [match ?x with _ => _ end] |- _ =>
      lazymatch x with
      | context [match _ with _ => _ end] => fail
      | _ => destruct x eqn:?
      end
  end.
Ltac break_match := break_match_goal || break_match_hyp.

(** Turn boolean tests of the code into propositions. *)
Ltac bool_to_prop :=
  repeat match goal with
  | H : (_ <? _)%Z = true |- _ => apply Z.ltb_lt in H
  | H : (_ <? _)%Z = false |- _ => apply Z.ltb_ge in H
  | H : (_ <=? _)%Z = true |- _ => apply Z.leb_le in H
  | H : (_ <=? _)%Z = false |- _ => apply Z.leb_gt in H
  | H : (_ =? _)%Z = true |- _ => apply Z.eqb_eq in H
  | H : (_ =? _)%Z = false |- _ => apply Z.eqb_neq in H
  | H : (_ && _) = true |- _ => apply andb_true_iff in H as [? ?]
  | H : (_ || _) = false |- _ => apply orb_false_iff in H as [? ?]
  | H : negb _ = true |- _ => apply negb_true_iff in H
  | H : negb _ = false |- _ => apply negb_false_iff in H
  | H : bool_decide _ = true |- _ => apply bool_decide_eq_true in H
  | H : bool_decide _ = false |- _ => apply bool_decide_eq_false in H
  end.

(** Invert equations between results. *)
Ltac inv_ok :=
  repeat match goal with
  | H : Ok _ = Ok _ |- _ => injection H as H; subst
  | H : Raise _ = Ok _ |- _ => discriminate H
  | H : Ok _ = Raise _ |- _ => discriminate H
  | H : Raise _ = Raise _ |- _ => injection H as H; subst
  end.

Create HintDb pruner discriminated.

(** ** Integers and lists of the language *)

(** [functools.reduce(lambda x, y: x * y, l)] has no initial value: it raises on
    the empty list. *)
Definition reduce_mul (l : list Z) : result Z :=
  match l with
  | [] => Raise TypeError
  | x :: l => Ok (foldl Z.mul x l)
  end.

(** [range(a, b, s)] for a positive step. *)
Definition py_range (a b s : Z) : list Z :=
  (λ i : nat, a + s * Z.of_nat i) <$> seq 0 (Z.to_nat ((b - a + s - 1) / s)).

(** [sorted] of integers: the sorted permutation. *)
Definition py_sorted (l : list Z) : list Z := merge_sort Z.le l.

(** numpy integers are 64 bits wide and wrap around silently. *)
Definition wrap64 (z : Z) : Z := (z + 2 ^ 63) mod 2 ^ 64 - 2 ^ 63.

Definition Zprod (l : list Z) : Z := foldr Z.mul 1 l.

(** [int(np.prod(l))] of a list of ints: an int64 product. *)
Definition np_prod (l : list Z) : Z := foldl (λ a x, wrap64 (a * x)) 1 l.

(** [l.index(x)] *)
Fixpoint py_index `{EqDecision A} (l : list A) (x : A) : result Z :=
  match l with
  | [] => Raise ValueError
  | y :: l => if decide (y = x) then Ok 0 else i ← py_index l x; Ok (i + 1)
  end.

(** [l.remove(x)] drops the first occurrence and raises when there is none. *)
Fixpoint py_remove `{EqDecision A} (l : list A) (x : A) : result (list A) :=
  match l with
  | [] => Raise ValueError
  | y :: l => if decide (y = x) then Ok l else l' ← py_remove l x; Ok (y :: l')
  end.

Lemma py_remove_ok `{EqDecision A} (l : list A) (x : A) : x ∈ l → ∃ l', py_remove l x = Ok l'.
Proof.
  induction l as [|y l IH]; intros Hx; [by apply elem_of_nil in Hx|]. simpl. case_decide; [eauto|].
  apply elem_of_cons in Hx as [->|Hx]; [done|]. destruct (IH Hx) as [l' ->]. eauto.
Qed.

Lemma py_remove_perm `{EqDecision A} (l : list A) (x : A) l' : py_remove l x = Ok l' → l ≡ₚ x :: l'.
Proof.
  revert l'. induction l as [|y l IH]; intros l' H; [done|]. simpl in H. case_decide; [by simplify_eq|].
  destruct (py_remove l x) as [k|]; [|done]. injection H as <-. rewrite (IH k eq_refl). apply Permutation_swap.
Qed.

Lemma imap_pair_snd {A} (l : list A) : (imap pair l).*2 = l.
Proof. rewrite fmap_imap. apply list_eq. intros i. rewrite list_lookup_imap. by destruct (l !! i). Qed.

Lemma mfoldl_snoc {A B} (f : B → A → result B) b b' l x :
  mfoldl f b l = Ok b' → mfoldl f b (l ++ [x]) = f b' x.
Proof.
  revert b. induction l as [|y l IH]; intros b Hl; cbn [mfoldl app] in *.
  - simplify_eq. by destruct (f b' x).
  - destruct (f b y); [by apply IH|done].
Qed.

(** A property that every step keeps *)
Lemma mfoldl_keeps {A B} (f : B → A → result B) (P : B → Prop) l b b' :
  (∀ b a b', a ∈ l → P b → f b a = Ok b' → P b') → P b → mfoldl f b l = Ok b' → P b'.
Proof.
  revert b. induction l as [|x l IH]; intros b Hf Hb H; cbn [mfoldl] in H; [by injection H as <-|].
  destruct (f b x) as [b1|] eqn:E; [|done].
  eapply IH; [|eapply Hf; [by left|done..]|exact H]. intros c a c' Ha. apply Hf. by right.
Qed.

(** A loop whose every round succeeds keeps an invariant over what it has gone through. *)
Lemma mfoldl_inv {A B} (f : B → A → result B) (I : list A → B → Prop) l b0 :
  I [] b0 →
  (∀ pre x rest b, l = pre ++ x :: rest → I pre b → ∃ b', f b x = Ok b' ∧ I (pre ++ [x]) b') →
  ∃ b, mfoldl f b0 l = Ok b ∧ I l b.
Proof.
  intros H0 Hstep. assert (∀ rest pre b, l = pre ++ rest → I pre b →
    ∃ b', mfoldl f b rest = Ok b' ∧ I l b') as Hgen; [|by apply (Hgen l [])].
  induction rest as [|x rest IH]; intros pre b Hl Hb; cbn [mfoldl].
  { rewrite app_nil_r in Hl. subst. eauto. }
  destruct (Hstep pre x rest b Hl Hb) as (b' & -> & Hb').
  apply (IH (pre ++ [x])); [by rewrite <-app_assoc|done].
Qed.

(** [l[i]] with Python's negative indices. *)
Definition py_nth {A} (l : list A) (i : Z) : result A :=
  let j := if i <? 0 then i + Z.of_nat (length l) else i in
  if j <? 0 then Raise IndexError else of_option IndexError (l !! Z.to_nat j).

Lemma py_nth_nat {A} (l : list A) (n : nat) :
  py_nth l (Z.of_nat n) = of_option IndexError (l !! n).
Proof.
  unfold py_nth. destruct (Z.ltb_spec (Z.of_nat n) 0); [lia|].
  destruct (Z.ltb_spec (Z.of_nat n) 0); [lia|]. by rewrite Nat2Z.id.
Qed.

Lemma py_nth_pos {A} (l : list A) (i : Z) :
  0 ≤ i → py_nth l i = of_option IndexError (l !! Z.to_nat i).
Proof. intros Hi. rewrite <-(Z2Nat.id i) at 1 by done. apply py_nth_nat. Qed.

Lemma py_nth_middle {A} (pre l : list A) x :
  py_nth (pre ++ x :: l) (Z.of_nat (length pre)) = Ok x.
Proof. by rewrite py_nth_nat, list_lookup_middle. Qed.

(** The bound of a slice: negative ones count from the end. *)
Definition slice_bound (len : nat) (i : Z) : nat :=
  if i <? 0 then Z.to_nat (Z.of_nat len + i) else Nat.min len (Z.to_nat i).

(** [a[indices]] for an array of indices *)
Definition fancy_index {X} (a : list X) (indices : list nat) : result (list X) :=
  mmapr (λ i, of_option IndexError (a !! i)) indices.

Lemma fancy_index_in {A} (l : list A) idx :
  Forall (λ i, i < length l)%nat idx →
  ∃ out, fancy_index l idx = Ok out ∧ length out = length idx ∧
    ∀ x, x ∈ out → x ∈ l.
Proof.
  induction 1 as [|i idx Hi _ (out & IH & Hl & Hin)]; unfold fancy_index in *; simpl.
  { exists []. split_and!; [done|done|by intros ? ?%not_elem_of_nil]. }
  destruct (lookup_lt_is_Some_2 l i Hi) as [x Hx]. rewrite Hx. simpl. rewrite IH. simpl.
  eexists. split_and!; [done|by simpl; f_equal|].
  intros y [->|Hy]%elem_of_cons; [by eapply list_elem_of_lookup_2|by apply Hin].
Qed.

Lemma mmapr_lookup {A B} (f : A → result B) l ys i y :
  mmapr f l = Ok ys → ys !! i = Some y → ∃ x, l !! i = Some x ∧ f x = Ok y.
Proof.
  revert ys i. induction l as [|x l IH]; intros ys i H Hy; simpl in H; [by simplify_eq|].
  destruct (f x) as [z|] eqn:Hx; [|done]. cbn [mbind result_bind] in H.
  destruct (mmapr f l) as [zs|]; [|done]. injection H as <-. destruct i as [|i]; simpl in *; [|by apply (IH zs)].
  exists x. by simplify_eq.
Qed.

#[export] Instance Z_divide_dec (a b : Z) : Decision (a | b).
Proof.
  refine (if decide (a = 0) then cast_if (decide (b = 0))
          else cast_if (decide (b mod a = 0))); subst.
  - apply Z.divide_0_r.
  - abstract (intros ?%Z.divide_0_l; done).
  - abstract (by apply Z.mod_divide).
  - abstract (by rewrite <-Z.mod_divide).
Defined.

Lemma elem_of_py_range a b s x :
  0 < s → x ∈ py_range a b s ↔ a ≤ x < b ∧ (s | x - a).
Proof.
  intros Hs. unfold py_range. rewrite list_elem_of_fmap. split.
  - intros (i & -> & Hi). apply elem_of_seq in Hi.
    assert (Z.of_nat i < (b - a + s - 1) / s) by lia.
    assert (Hd : (b - a + s - 1) / s * s ≤ b - a + s - 1)
      by (rewrite Z.mul_comm; apply Z.mul_div_le; lia).
    split; [nia|]. exists (Z.of_nat i). lia.
  - intros [[? ?] [k Hk]]. exists (Z.to_nat k). assert (0 ≤ k) by nia.
    split; [lia|]. apply elem_of_seq.
    assert (k < (b - a + s - 1) / s); [|lia].
    apply Z.lt_le_trans with (k + 1); [lia|].
    apply Z.div_le_lower_bound; [lia|]. nia.
Qed.

Lemma NoDup_py_range a b s : 0 < s → NoDup (py_range a b s).
Proof.
  intros Hs. unfold py_range. apply NoDup_fmap_2_strong; [|apply NoDup_seq].
  intros x y _ _ ?. nia.
Qed.

Lemma Zprod_app l k : Zprod (l ++ k) = Zprod l * Zprod k.
Proof. induction l as [|x l IH]; simpl; [by destruct (Zprod k)|]. rewrite IH. ring. Qed.

Lemma foldl_mul x l : foldl Z.mul x l = x * Zprod l.
Proof. revert x. induction l as [|y l IH]; intros x; simpl; [ring|]. rewrite IH. ring. Qed.

Lemma Zprod_pos l : Forall (λ x, 0 < x) l → 0 < Zprod l.
Proof. induction 1; simpl; lia. Qed.

Lemma Zprod_reverse l : Zprod (reverse l) = Zprod l.
Proof.
  induction l as [|x l IH]; [done|].
  rewrite reverse_cons, Zprod_app, IH. simpl. ring.
Qed.

Lemma reduce_mul_ok l : l ≠ [] → reduce_mul l = Ok (Zprod l).
Proof. destruct l as [|x l]; [done|]. intros _. simpl. by rewrite foldl_mul. Qed.

Lemma wrap64_small z : - 2 ^ 63 ≤ z < 2 ^ 63 → wrap64 z = z.
Proof. intros. unfold wrap64. rewrite Z.mod_small; lia. Qed.

Lemma np_prod_exact l :
  Forall (λ x, 1 ≤ x) l → Zprod l < 2 ^ 63 → np_prod l = Zprod l.
Proof.
  intros Hl Hb. unfold np_prod.
  assert (∀ a, 1 ≤ a → a * Zprod l < 2 ^ 63 →
            foldl (λ a x, wrap64 (a * x)) a l = a * Zprod l) as H.
  { clear Hb. induction Hl as [|x l Hx Hl IH]; intros a Ha Hb; simpl in *; [ring|].
    assert (1 ≤ Zprod l).
    { assert (0 < Zprod l); [|lia]. apply Zprod_pos.
      eapply Forall_impl; [exact Hl|]. simpl; lia. }
    rewrite wrap64_small by nia. rewrite IH by nia. ring. }
  rewrite H by lia. ring.
Qed.

Lemma py_sorted_perm l : py_sorted l ≡ₚ l.
Proof. apply merge_sort_Permutation. Qed.

Lemma py_sorted_Sorted l : Sorted Z.le (py_sorted l).
Proof. apply Sorted_merge_sort. intros x y. lia. Qed.

(** All lists of [k] choices, in lexicographic order of the choices. *)
Fixpoint tuples {A} (fs : list A) (k : nat) : list (list A) :=
  match k with
  | O => [[]]
  | S k => fs ≫= λ f, (f ::.) <$> tuples fs k
  end.

Lemma elem_of_tuples {A} (fs : list A) k st :
  st ∈ tuples fs k ↔ length st = k ∧ Forall (.∈ fs) st.
Proof.
  revert st. induction k as [|k IH]; intros st; simpl.
  - rewrite list_elem_of_singleton. split; [intros ->; by split|].
    by intros [->%nil_length_inv _].
  - rewrite list_elem_of_bind. split.
    + intros (f & (st' & -> & [<- Hst]%IH)%list_elem_of_fmap & Hf).
      split; [done|]. by constructor.
    + destruct st as [|f st]; simpl; [lia|]. intros [[= Hl] [Hf Hst]%Forall_cons].
      exists f. split; [|done]. apply list_elem_of_fmap. exists st. split; [done|]. by apply IH.
Qed.

Lemma NoDup_tuples {A} (fs : list A) k : NoDup fs → NoDup (tuples fs k).
Proof.
  intros Hfs. induction k as [|k IH]; simpl; [by apply NoDup_singleton|].
  apply NoDup_bind; [| |done].
  - intros x1 x2 st _ _ (?&->&_)%list_elem_of_fmap (?&?&_)%list_elem_of_fmap.
    by simplify_eq.
  - intros f _. apply NoDup_fmap_2; [intros ?? [=]; done|done].
Qed.

Lemma mmapr_ok {A B} (f : A → result B) (g : A → B) l :
  (∀ a, a ∈ l → f a = Ok (g a)) → mmapr f l = Ok (g <$> l).
Proof.
  induction l as [|a l IH]; intros H; [done|]. simpl.
  rewrite H by constructor. simpl. rewrite IH; [done|].
  intros b Hb. apply H. by constructor.
Qed.

(** Python's [sort] is stable; insertion into a sorted list, after the elements that
    are not greater, gives the same result for a strict weak order [lt]. *)
Section sort.
Context {A : Type} (lt : A → A → bool).

Fixpoint insert_sorted (x : A) (l : list A) : list A :=
  match l with
  | [] => [x]
  | y :: l => if lt x y then x :: y :: l else y :: insert_sorted x l
  end.

Definition sort_by (l : list A) : list A := foldl (λ acc x, insert_sorted x acc) [] l.

Lemma insert_sorted_perm x l : insert_sorted x l ≡ₚ x :: l.
Proof.
  induction l as [|y l IH]; simpl; [done|]. destruct (lt x y); [done|].
  rewrite IH. apply Permutation_swap.
Qed.

Lemma sort_by_perm l : sort_by l ≡ₚ l.
Proof.
  unfold sort_by. assert (∀ acc, foldl (λ acc x, insert_sorted x acc) acc l ≡ₚ l ++ acc) as H.
  { induction l as [|x l IH]; intros acc; simpl; [done|].
    rewrite IH, insert_sorted_perm. by rewrite Permutation_middle. }
  rewrite H. by rewrite app_nil_r.
Qed.

Context (good : A → Prop).
Context (asym : ∀ x y, good x → good y → lt x y = true → lt y x = false).
Context (neg_trans : ∀ x y z, good x → good y → good z →
  lt x y = false → lt y z = false → lt x z = false).

Lemma insert_sorted_sorted x l :
  good x → Forall good l → StronglySorted (λ a b, lt b a = false) l →
  StronglySorted (λ a b, lt b a = false) (insert_sorted x l).
Proof.
  intros Hx Hg Hs. induction Hs as [|y l Hs IH Hy]; simpl; [by repeat constructor|].
  apply Forall_cons in Hg as [Hgy Hg]. destruct (lt x y) eqn:Hxy; constructor.
  - by constructor.
  - constructor; [by apply asym|]. rewrite Forall_forall in Hy, Hg |- *. intros z Hz.
    apply (neg_trans z y x); [by apply Hg|done|done|by apply Hy|by apply asym].
  - by apply IH.
  - rewrite Forall_forall in Hy |- *. intros z Hz. rewrite insert_sorted_perm in Hz.
    apply elem_of_cons in Hz as [->|Hz]; [done|by apply Hy].
Qed.

Lemma sort_by_sorted l : Forall good l → StronglySorted (λ a b, lt b a = false) (sort_by l).
Proof.
  unfold sort_by. intros Hl. assert (∀ acc, Forall good acc → StronglySorted (λ a b, lt b a = false) acc →
    StronglySorted (λ a b, lt b a = false) (foldl (λ acc x, insert_sorted x acc) acc l)) as H.
  { induction Hl as [|x l Hx Hl IH]; intros acc Hg Hs; simpl; [done|].
    apply IH; [|by apply insert_sorted_sorted]. rewrite insert_sorted_perm. by constructor. }
  apply H; constructor.
Qed.
End sort.

(** Sorted lists that grow at the end. *)
Lemma sorted_snoc {A} (R : A → A → Prop) l b :
  StronglySorted R l → Forall (λ x, R x b) l → StronglySorted R (l ++ [b]).
Proof.
  intros Hs. induction Hs as [|x l Hs IH Hx]; intros Hb; simpl; [by repeat constructor|].
  apply Forall_cons in Hb as [Hxb Hb]. constructor; [by apply IH|]. apply Forall_app. by repeat constructor.
Qed.

Lemma sorted_last {A} (R : A → A → Prop) l b x :
  StronglySorted R l → last l = Some b → x ∈ l → x = b ∨ R x b.
Proof.
  intros Hs Hl Hx. apply last_Some in Hl as [k ->].
  apply elem_of_app in Hx as [Hx|Hx%list_elem_of_singleton]; [right|by left].
  induction k as [|y k IH]; [by apply elem_of_nil in Hx|]. simpl in Hs.
  apply StronglySorted_inv in Hs as [Hs Hy]. apply elem_of_cons in Hx as [->|Hx]; [|by apply IH].
  apply Forall_app in Hy as [_ Hy]. by apply Forall_inv in Hy.
Qed.

Lemma list_filter_all {A} (P : A → Prop) `{!∀ x, Decision (P x)} (l : list A) :
  (∀ x, x ∈ l → P x) → filter P l = l.
Proof.
  intros Hall. induction l as [|x l IH]; [done|]. rewrite filter_cons, decide_True by (apply Hall; by left).
  f_equal. apply IH. intros y Hy. apply Hall. by right.
Qed.

#[export] Hint Resolve Zprod_pos wrap64_small py_sorted_Sorted py_sorted_perm : pruner.
