(* ===== verification/PyDict.v ===== *)
(** * Python dictionaries

    A [dict] (or [OrderedDict]) keeps its entries in insertion order; assigning an
    existing key keeps its place. The lookup laws are rewrite hints of the database
    [dict], which the clients use through [dict_simpl]. *)

From S2P Require Import Prelude.

Definition dict (K V : Type) := list (K * V).

Section ops.
Context {K V : Type} `{EqDecision K}.
Implicit Types (d : dict K V) (k : K) (v : V).

Fixpoint dget d k : option V :=
  match d with
  | [] => None
  | (k', v) :: d => if decide (k' = k) then Some v else dget d k
  end.

(** [d[k] = v] *)
Fixpoint dset d k v : dict K V :=
  match d with
  | [] => [(k, v)]
  | (k', v') :: d => if decide (k' = k) then (k', v) :: d else (k', v') :: dset d k v
  end.

(** [d.pop(k, None)] without its result, [del d[k]] when the key is present *)
Fixpoint ddel d k : dict K V :=
  match d with
  | [] => []
  | (k', v') :: d => if decide (k' = k) then d else (k', v') :: ddel d k
  end.

Definition dmem d k : bool := match dget d k with Some _ => true | None => false end.
Definition dkeys d : list K := d.*1.
Definition dvalues d : list V := d.*2.

(** [d[k]] *)
Definition dindex d k : result V := of_option KeyError (dget d k).

Definition dict_wf d : Prop := NoDup (dkeys d).
End ops.

(** The [dict] built by a display or comprehension from pairs in order. *)
Definition dict_of {K V} `{EqDecision K} (l : list (K * V)) : dict K V :=
  foldl (λ d '(k, v), dset d k v) [] l.

Section laws.
Context {K V : Type} `{EqDecision K}.
Implicit Types (d : dict K V) (k : K) (v : V).

Lemma dget_dset_eq d k v : dget (dset d k v) k = Some v.
Proof.
  induction d as [|[k' v'] d IH]; simpl; [by rewrite decide_True|].
  case_decide; simpl; [by rewrite decide_True|by rewrite decide_False].
Qed.

Lemma dget_dset_ne d k k' v : k ≠ k' → dget (dset d k v) k' = dget d k'.
Proof.
  intros Hne. induction d as [|[k1 v1] d IH]; simpl; [by rewrite decide_False|].
  case_decide; simpl; [subst; by rewrite !decide_False|by rewrite IH].
Qed.

Lemma dget_elem d k v : dget d k = Some v → (k, v) ∈ d.
Proof.
  induction d as [|[k' v'] d IH]; simpl; [done|].
  case_decide; intros; simplify_eq; [by left|right; by apply IH].
Qed.

Lemma dget_None d k : dget d k = None ↔ k ∉ dkeys d.
Proof.
  unfold dkeys. induction d as [|[k' v'] d IH]; simpl; [split; [by intros _ ?%not_elem_of_nil|done]|].
  rewrite not_elem_of_cons. case_decide; [subst; split; [done|tauto]|].
  rewrite IH. split; [split; [congruence|done]|tauto].
Qed.

Lemma elem_dkeys_dset d k v k' : k' ∈ dkeys (dset d k v) ↔ k' = k ∨ k' ∈ dkeys d.
Proof.
  unfold dkeys. induction d as [|[k1 v1] d IH]; simpl; [rewrite list_elem_of_singleton, elem_of_nil; tauto|].
  case_decide; simpl; rewrite !elem_of_cons; [subst; tauto|]. rewrite IH. tauto.
Qed.

Lemma dict_wf_dset d k v : dict_wf d → dict_wf (dset d k v).
Proof.
  unfold dict_wf. induction d as [|[k1 v1] d IH]; simpl; [intros _; apply NoDup_singleton|].
  intros [Hnin Hnd]%NoDup_cons. case_decide; [by constructor|].
  apply NoDup_cons. split; [|by apply IH].
  change (k1 ∉ dkeys (dset d k v)). rewrite elem_dkeys_dset. intros [?|?]; [done|by apply Hnin].
Qed.

Lemma dset_fresh d k v : k ∉ dkeys d → dset d k v = d ++ [(k, v)].
Proof.
  unfold dkeys. induction d as [|[k1 v1] d IH]; simpl; [done|].
  rewrite not_elem_of_cons. intros [? ?]. rewrite decide_False by done. by rewrite IH.
Qed.

Lemma dkeys_dset_old d k v : k ∈ dkeys d → dkeys (dset d k v) = dkeys d.
Proof.
  unfold dkeys. induction d as [|[k1 v1] d IH]; simpl; [by intros ?%not_elem_of_nil|].
  case_decide; simpl; [done|]. intros [?|?]%elem_of_cons; [congruence|].
  f_equal. by apply IH.
Qed.

Lemma dict_of_nodup_aux (acc l : dict K V) :
  NoDup (acc ++ l).*1 → foldl (λ d '(k, v), dset (V:=V) d k v) acc l = acc ++ l.
Proof.
  revert acc. induction l as [|[k v] l IH]; intros acc Hnd; simpl; [by rewrite app_nil_r|].
  rewrite dset_fresh.
  - rewrite IH; rewrite <-app_assoc; [done|exact Hnd].
  - rewrite fmap_app in Hnd. apply NoDup_app in Hnd as (_ & Hd & _).
    intros Hin. apply (Hd k Hin). by left.
Qed.

Lemma dict_of_nodup (l : list (K * V)) : NoDup l.*1 → dict_of l = l.
Proof. apply (dict_of_nodup_aux []). Qed.

Lemma dict_wf_of (l : list (K * V)) : dict_wf (dict_of l).
Proof.
  unfold dict_of. assert (∀ acc : dict K V, dict_wf acc →
    dict_wf (foldl (λ d '(k, v), dset d k v) acc l)) as H; [|apply H, NoDup_nil_2].
  induction l as [|[k v] l IH]; intros acc Hacc; simpl; [done|]. by apply IH, dict_wf_dset.
Qed.

Lemma ddel_sublist d k : ddel d k `sublist_of` d.
Proof.
  induction d as [|[k1 v1] d IH]; simpl; [done|].
  case_decide; [by apply sublist_cons|by apply sublist_skip].
Qed.

Lemma dict_wf_ddel d k : dict_wf d → dict_wf (ddel d k).
Proof.
  unfold dict_wf, dkeys. intros H. eapply sublist_NoDup; [exact H|].
  apply (fmap_sublist fst), ddel_sublist.
Qed.

Lemma dget_ddel_ne d k k' : k ≠ k' → dget (ddel d k) k' = dget d k'.
Proof.
  intros Hne. induction d as [|[k1 v1] d IH]; simpl; [done|].
  case_decide; simpl; [subst; by rewrite decide_False|by rewrite IH].
Qed.

End laws.

Create Rewrite HintDb dict.
#[export] Hint Rewrite @dget_dset_eq : dict.
#[export] Hint Rewrite @dget_dset_ne @dget_ddel_ne using congruence : dict.
#[export] Hint Resolve dict_wf_dset dict_wf_of dict_wf_ddel : pruner.

(** Decide lookups in updated dictionaries. *)
Ltac dict_simpl := repeat progress (autorewrite with dict in *; simpl in *; simplify_eq).
