(* ===== verification/PyStr.v ===== *)
(** * Python strings

    The string methods the modelled code uses, over [String.string]. *)

From Stdlib Require Export Ascii.
From S2P Require Import Prelude.

(** [s.startswith(p)] *)
Fixpoint startswith (p s : string) : bool :=
  match p, s with
  | EmptyString, _ => true
  | String a p, String b s => bool_decide (a = b) && startswith p s
  | _, EmptyString => false
  end.

(** [s.split(c)] for a one-character separator *)
Fixpoint split_on (c : ascii) (s : string) : list string :=
  match s with
  | EmptyString => [EmptyString]
  | String a s =>
      if decide (a = c) then EmptyString :: split_on c s
      else match split_on c s with
           | [] => [String a EmptyString]
           | w :: ws => String a w :: ws
           end
  end.

(** [c.join(l)] *)
Fixpoint join (c : string) (l : list string) : string :=
  match l with
  | [] => EmptyString
  | [w] => w
  | w :: l => w +:+ c +:+ join c l
  end.

Fixpoint str_drop (n : nat) (s : string) : string :=
  match n, s with
  | S n, String _ s => str_drop n s
  | _, _ => s
  end.

(** [s.replace(old, new)] for a non-empty [old]: left to right, without overlap.
    [skip] counts the characters of the current occurrence still to drop. *)
Fixpoint str_replace_aux (old new : string) (skip : nat) (s : string) : string :=
  match s with
  | EmptyString => EmptyString
  | String a s' =>
      match skip with
      | S k => str_replace_aux old new k s'
      | O => if startswith old s
             then new +:+ str_replace_aux old new (String.length old - 1) s'
             else String a (str_replace_aux old new O s')
      end
  end.

Definition str_replace (s old new : string) : string := str_replace_aux old new O s.

(** [p in s] *)
Fixpoint str_contains (p s : string) : bool :=
  startswith p s || match s with EmptyString => false | String _ s => str_contains p s end.

(** No character of [s] is [c]. *)
Fixpoint no_char (c : ascii) (s : string) : Prop :=
  match s with EmptyString => True | String a s => a ≠ c ∧ no_char c s end.

#[export] Instance no_char_dec c s : Decision (no_char c s).
Proof. induction s; simpl; apply _. Defined.

Lemma split_on_nonempty c s : split_on c s ≠ [].
Proof. destruct s as [|a s]; simpl; [done|]. case_decide; [done|]. by destruct (split_on c s). Qed.

Lemma split_on_no_char c s : no_char c s → split_on c s = [s].
Proof.
  induction s as [|a s IH]; simpl; [done|]. intros [? ?].
  rewrite decide_False by done. by rewrite IH.
Qed.

Lemma split_on_app c w s :
  no_char c w → split_on c (w +:+ String c s) = w :: split_on c s.
Proof.
  induction w as [|a w IH]; simpl; [intros _; by rewrite decide_True|].
  intros [? ?]. rewrite decide_False by done. by rewrite IH.
Qed.

(** Splitting at a separator undoes joining with it. *)
Lemma split_join c ws :
  ws ≠ [] → Forall (no_char c) ws → split_on c (join (String c EmptyString) ws) = ws.
Proof.
  intros Hne Hws. induction Hws as [|w ws Hw Hws IH]; [done|].
  destruct ws as [|w' ws]; simpl; [by apply split_on_no_char|].
  change (split_on c (w +:+ String c (join (String c EmptyString) (w' :: ws))) = w :: w' :: ws).
  rewrite split_on_app by done. f_equal. by apply IH.
Qed.

Lemma join_split c s : join (String c EmptyString) (split_on c s) = s.
Proof.
  induction s as [|a s IH]; simpl; [done|].
  pose proof (split_on_nonempty c s) as Hne.
  case_decide; subst.
  - destruct (split_on c s) as [|w ws] eqn:Hs; [done|].
    change (String c (join (String c EmptyString) (w :: ws)) = String c s). by rewrite IH.
  - destruct (split_on c s) as [|w ws] eqn:Hs; [done|].
    destruct ws; exact (f_equal (String a) IH).
Qed.
