(* ===== verification/PyFloat.v ===== *)
(** * Python floats

    IEEE 754 binary64 numbers, through the Standard Library's executable
    specification [SpecFloat] (round to nearest, ties to even). The comparison is
    shown to be a strict weak order on the numbers that are not NaN. *)

From Stdlib Require Import SpecFloat.
From S2P Require Import Prelude.

Definition float := spec_float.

#[export] Instance float_eq_dec : EqDecision float.
Proof. solve_decision. Defined.

Definition fadd : float → float → float := SFadd 53 1024.
Definition fsub : float → float → float := SFsub 53 1024.
Definition fmul : float → float → float := SFmul 53 1024.
Definition fdiv : float → float → float := SFdiv 53 1024.
Definition fsqrt : float → float := SFsqrt 53 1024.

Definition flt (x y : float) : bool := SFltb x y.
Definition fle (x y : float) : bool := SFleb x y.
Definition feq (x y : float) : bool := SFeqb x y.

(** [float(z)] for an integer. *)
Definition of_Z (z : Z) : float := binary_normalize 53 1024 z 0 false.

Definition fzero : float := S754_zero false.
Definition finf : float := S754_infinity false.
Definition fninf : float := S754_infinity true.
Definition fnan : float := S754_nan.

(** The decimal literal [m * 10 ^ -k], correctly rounded for the literals used. *)
Definition of_dec (m : Z) (k : nat) : float := fdiv (of_Z m) (of_Z (10 ^ Z.of_nat k)).

Definition is_nan (x : float) : bool := match x with S754_nan => true | _ => false end.
Definition is_finite (x : float) : bool :=
  match x with S754_nan | S754_infinity _ => false | _ => true end.

Definition fneg (x : float) : float := SFopp x.

(** [int(x)] truncates towards zero; infinities and NaN raise. *)
Definition py_int (x : float) : result Z :=
  match x with
  | S754_zero _ => Ok 0
  | S754_finite s m e =>
      let a := if 0 <=? e then Zpos m * 2 ^ e else Zpos m / 2 ^ (- e) in
      Ok (if s then - a else a)
  | S754_infinity _ => Raise OverflowError
  | S754_nan => Raise ValueError
  end.

(** [math.floor(x)] *)
Definition py_floor (x : float) : result Z :=
  match x with
  | S754_zero _ => Ok 0
  | S754_finite s m e =>
      let z := if s then Zneg m else Zpos m in
      Ok (if 0 <=? e then z * 2 ^ e else z / 2 ^ (- e))
  | S754_infinity _ => Raise OverflowError
  | S754_nan => Raise ValueError
  end.

(** ** Order *)

(** A lexicographic key that orders the numbers that are not NaN. *)
Definition fkey (x : float) : Z * Z * Z :=
  match x with
  | S754_infinity true => (-2, 0, 0)
  | S754_finite true m e => (-1, - e, - Zpos m)
  | S754_zero _ => (0, 0, 0)
  | S754_finite false m e => (1, e, Zpos m)
  | S754_infinity false => (2, 0, 0)
  | S754_nan => (0, 0, 0)
  end.

Definition klt (a b : Z * Z * Z) : Prop :=
  let '(a1, a2, a3) := a in let '(b1, b2, b3) := b in
  a1 < b1 ∨ (a1 = b1 ∧ (a2 < b2 ∨ (a2 = b2 ∧ a3 < b3))).

Lemma klt_total a b : klt a b ∨ a = b ∨ klt b a.
Proof.
  destruct a as [[a1 a2] a3], b as [[b1 b2] b3]. unfold klt.
  destruct (Z.lt_total a1 b1) as [|[|]]; [by left; left| |by right; right; left].
  destruct (Z.lt_total a2 b2) as [|[|]]; [by left; right; auto| |by right; right; right; auto].
  destruct (Z.lt_total a3 b3) as [|[|]]; [by left; right; auto|right; left; congruence|
    by right; right; right; auto].
Qed.

Lemma klt_trans a b c : klt a b → klt b c → klt a c.
Proof. destruct a as [[??]?], b as [[??]?], c as [[??]?]. unfold klt. lia. Qed.

Lemma klt_irrefl a : ¬ klt a a.
Proof. destruct a as [[??]?]. unfold klt. lia. Qed.

(** [<] of Python floats is the order of the keys. *)
Lemma flt_iff x y :
  flt x y = true ↔ is_nan x = false ∧ is_nan y = false ∧ klt (fkey x) (fkey y).
Proof.
  unfold flt, SFltb, klt.
  destruct x as [| [] | | [] m1 e1], y as [| [] | | [] m2 e2]; simpl;
    try (split; [done|intros; lia]); try (split; [split_and!; [done|done|lia]|done]);
    try (split; intros; destruct_and?; done).
  all: try (split; intros H; destruct_and?; try done; split_and?; try done; lia).
  all: destruct (Z.compare_spec e1 e2); subst; simpl; fold (Pos.compare m1 m2);
    try (split; [intros; split_and!; (done || lia)|intros; lia || done]).
  all: destruct (Pos.compare_spec m1 m2); simpl;
    (split; [intros; split_and!; (done || lia)|intros; lia || done]).
Qed.

Lemma feq_iff x y :
  feq x y = true ↔ is_nan x = false ∧ is_nan y = false ∧ fkey x = fkey y.
Proof.
  unfold feq, SFeqb.
  destruct x as [| [] | | [] m1 e1], y as [| [] | | [] m2 e2]; simpl;
    try (split; [done|intros (? & ? & ?); congruence]); try done.
  all: destruct (Z.compare_spec e1 e2); subst; simpl; fold (Pos.compare m1 m2);
    try (split; [done|intros (_ & _ & [=]); lia]).
  all: destruct (Pos.compare_spec m1 m2); subst; simpl;
    (split; [done|intros (_ & _ & [=]); lia || done]).
Qed.

Lemma flt_irrefl x : flt x x = false.
Proof. apply not_true_iff_false. rewrite flt_iff. intros (_ & _ & H). by apply klt_irrefl in H. Qed.

Lemma flt_trans x y z : flt x y = true → flt y z = true → flt x z = true.
Proof. rewrite !flt_iff. intros (? & ? & ?) (? & ? & ?). split_and!; eauto using klt_trans. Qed.

Lemma flt_asym x y : flt x y = true → flt y x = false.
Proof.
  intros H1. apply not_true_iff_false. intros H2.
  pose proof (flt_trans _ _ _ H1 H2) as H. by rewrite flt_irrefl in H.
Qed.

(** Negation reverses the order. *)
Lemma flt_fneg x y : flt (fneg x) (fneg y) = flt y x.
Proof.
  apply eq_true_iff_eq. rewrite !flt_iff. unfold klt.
  destruct x as [| [] | | [] ? ?], y as [| [] | | [] ? ?]; simpl; intuition lia.
Qed.

(** Incomparability is transitive once NaN is excluded. *)
Lemma flt_neg_trans x y z :
  is_nan y = false → flt x y = false → flt y z = false → flt x z = false.
Proof.
  intros Hy H1 H2. apply not_true_iff_false. rewrite flt_iff. intros (Hx & Hz & H).
  apply not_true_iff_false in H1, H2. rewrite flt_iff in H1, H2.
  destruct (klt_total (fkey x) (fkey y)) as [?|[Heq|?]].
  - by apply H1.
  - apply H2. by rewrite <-Heq.
  - apply H2. split_and!; eauto using klt_trans.
Qed.

Lemma flt_lt_nlt x y z :
  is_nan z = false → flt x y = true → flt z y = false → flt x z = true.
Proof.
  intros Hz H1 H2. destruct (flt x z) eqn:H; [done|].
  pose proof (flt_neg_trans x z y Hz H H2). congruence.
Qed.

Lemma flt_nlt_lt x y z :
  is_nan x = false → flt y x = false → flt y z = true → flt x z = true.
Proof.
  intros Hx H1 H2. destruct (flt x z) eqn:H; [done|].
  pose proof (flt_neg_trans y x z Hx H1 H). congruence.
Qed.

Lemma flt_not_nan_l x y : flt x y = true → is_nan x = false.
Proof. rewrite flt_iff. tauto. Qed.

Lemma flt_not_nan_r x y : flt x y = true → is_nan y = false.
Proof. rewrite flt_iff. tauto. Qed.

(** Equal numbers compare alike. *)
Lemma flt_feq_l x y z : feq x y = true → flt x z = flt y z.
Proof.
  rewrite feq_iff. intros (Hx & Hy & Heq). apply eq_true_iff_eq. rewrite !flt_iff, Hx, Hy, Heq. done.
Qed.

Lemma flt_feq_r x y z : feq x y = true → flt z x = flt z y.
Proof.
  rewrite feq_iff. intros (Hx & Hy & Heq). apply eq_true_iff_eq. rewrite !flt_iff, Hx, Hy, Heq. done.
Qed.

Lemma flt_total x y :
  is_nan x = false → is_nan y = false → flt x y = true ∨ feq x y = true ∨ flt y x = true.
Proof.
  intros Hx Hy. rewrite !flt_iff, feq_iff. pose proof (klt_total (fkey x) (fkey y)). tauto.
Qed.

Lemma flt_not_feq x y : flt x y = true → feq x y = false.
Proof.
  intros H. apply not_true_iff_false. intros Heq. rewrite (flt_feq_l _ _ _ Heq) in H.
  by rewrite flt_irrefl in H.
Qed.

Lemma feq_sym x y : feq x y = feq y x.
Proof. apply eq_true_iff_eq. rewrite !feq_iff. intuition congruence. Qed.

Lemma fle_or x y : fle x y = flt x y || feq x y.
Proof. unfold fle, flt, feq, SFleb, SFltb, SFeqb. by destruct (SFcompare x y) as [[]|]. Qed.

Lemma fle_flt x y : is_nan x = false → is_nan y = false → fle x y = negb (flt y x).
Proof.
  intros Hx Hy. rewrite fle_or. destruct (flt_total x y Hx Hy) as [H|[H|H]].
  - by rewrite H, (flt_asym _ _ H).
  - rewrite H, orb_true_r, (flt_feq_l y x x), flt_irrefl; [done|]. by rewrite feq_sym.
  - by rewrite H, (flt_asym _ _ H), feq_sym, (flt_not_feq _ _ H).
Qed.

(** No number is below minus infinity or above infinity. *)
Lemma flt_ninf x : flt x fninf = false.
Proof. by destruct x as [|[]| |[]]. Qed.

Lemma flt_inf x : flt finf x = false.
Proof. by destruct x as [|[]| |[]]. Qed.

#[export] Hint Resolve flt_irrefl flt_asym flt_not_nan_l flt_not_nan_r flt_ninf flt_inf : pruner.

(** ** Signs *)

(** The sign bit is not set. *)
Definition unsigned (x : float) : bool :=
  match x with S754_zero s | S754_infinity s | S754_finite s _ _ => negb s | S754_nan => true end.

Lemma round_unsigned m e l : unsigned (binary_round_aux 53 1024 false m e l) = true.
Proof.
  unfold binary_round_aux. destruct (shr_fexp _ _ _) as [r e']. destruct (shr_fexp _ _ _) as [r'' e''].
  destruct (shr_m r''); [done| |done]. by destruct (e'' <=? _).
Qed.

Lemma normalize_unsigned m e : 0 ≤ m → unsigned (binary_normalize 53 1024 m e false) = true.
Proof.
  intros Hm. destruct m as [|m|m]; [done| |lia]. cbn [binary_normalize]. unfold binary_round.
  destruct (shl_align _ _ _). apply round_unsigned.
Qed.

Lemma of_Z_unsigned z : 0 ≤ z → unsigned (of_Z z) = true.
Proof. apply normalize_unsigned. Qed.

Lemma fadd_unsigned x y : unsigned x = true → unsigned y = true → unsigned (fadd x y) = true.
Proof.
  destruct x as [[]|[]| |[] mx ex], y as [[]|[]| |[] my ey]; try done. intros _ _. apply normalize_unsigned. cbn. lia.
Qed.

Lemma fdiv_unsigned x y : unsigned x = true → unsigned y = true → unsigned (fdiv x y) = true.
Proof.
  destruct x as [[]|[]| |[] mx ex], y as [[]|[]| |[] my ey]; try done. intros _ _. unfold fdiv, SFdiv.
  destruct (SFdiv_core_binary _ _ _ _ _) as [[q e] l]. apply round_unsigned.
Qed.

Lemma py_int_unsigned x z : unsigned x = true → py_int x = Ok z → 0 ≤ z.
Proof.
  destruct x as [s|s| |[] m e]; try done; intros _ [= <-]; [done|]. destruct (0 <=? e) eqn:E.
  - apply Z.leb_le in E. pose proof (Z.pow_nonneg 2 e). lia.
  - apply Z.div_pos; [lia|]. apply Z.leb_gt in E. apply Z.pow_pos_nonneg; lia.
Qed.
