(* ===== verification/PyJson.v ===== *)
(** * JSON values

    The Python values the [json] module prints and parses. A tuple prints as a
    list, so it is a [JList] already. *)

From S2P Require Import Prelude PyDict PyFloat.

#[local] Unset Elimination Schemes.
Inductive json :=
| JNull
| JBool (b : bool)
| JInt (z : Z)
| JFloat (f : float)
| JStr (s : string)
| JList (l : list json)
| JObj (d : list (string * json)).
#[local] Set Elimination Schemes.

(** Induction through the nested lists. *)
Section json_ind.
Context (P : json → Prop).
Context (Hnull : P JNull) (Hbool : ∀ b, P (JBool b)) (Hint : ∀ z, P (JInt z))
  (Hfloat : ∀ f, P (JFloat f)) (Hstr : ∀ s, P (JStr s))
  (Hlist : ∀ l, Forall P l → P (JList l))
  (Hobj : ∀ d, Forall (λ kv, P kv.2) d → P (JObj d)).

Fixpoint json_nested_ind (v : json) : P v :=
  match v with
  | JNull => Hnull
  | JBool b => Hbool b
  | JInt z => Hint z
  | JFloat f => Hfloat f
  | JStr s => Hstr s
  | JList l => Hlist l
      ((fix go l : Forall P l :=
          match l with
          | [] => List.Forall_nil _
          | x :: l => List.Forall_cons _ x l (json_nested_ind x) (go l)
          end) l)
  | JObj d => Hobj d
      ((fix go d : Forall (λ kv, P kv.2) d :=
          match d with
          | [] => List.Forall_nil _
          | x :: d => List.Forall_cons _ x d (json_nested_ind x.2) (go d)
          end) d)
  end.
End json_ind.

#[export] Instance json_eq_dec : EqDecision json.
Proof.
  unfold EqDecision, RelDecision. fix go 1. intros v w.
  destruct v as [| b1 | z1 | f1 | s1 | l1 | d1], w as [| b2 | z2 | f2 | s2 | l2 | d2];
    try (right; abstract congruence).
  - by left.
  - refine (cast_if (decide (b1 = b2))); abstract congruence.
  - refine (cast_if (decide (z1 = z2))); abstract congruence.
  - refine (cast_if (decide (f1 = f2))); abstract congruence.
  - refine (cast_if (decide (s1 = s2))); abstract congruence.
  - refine (cast_if (@list_eq_dec json go l1 l2)); abstract congruence.
  - refine (cast_if (@list_eq_dec (string * json)
      (λ p q, @prod_eq_dec string _ json go p q) d1 d2)); abstract congruence.
Defined.

(** [v[key]] on a parsed object. *)
Definition jget (v : json) (key : string) : result json :=
  match v with JObj d => dindex d key | _ => Raise TypeError end.

(** Reading parsed values back at the type the code relies on. *)
Definition as_int (v : json) : result Z :=
  match v with JInt z => Ok z | _ => Raise TypeError end.
Definition as_str (v : json) : result string :=
  match v with JStr s => Ok s | _ => Raise TypeError end.
Definition as_list (v : json) : result (list json) :=
  match v with JList l => Ok l | _ => Raise TypeError end.

(** Truth value of an object in a condition. *)
Definition truthy (v : json) : bool :=
  match v with
  | JNull => false
  | JBool b => b
  | JInt z => negb (z =? 0)
  | JFloat f => negb (feq f fzero)
  | JStr s => negb (bool_decide (s = EmptyString))
  | JList l => negb (bool_decide (l = []))
  | JObj d => negb (bool_decide (length d = O))
  end.
