(* ===== verification/JsonText.v ===== *)
(** * JSON text ([json.dumps] and [json.loads])

    The printer and the parser of the standard library's [json] module with their
    default options, as the tracker protocol, the tuning records and the workload
    keys use them. Strings hold the code points below 256. [repr] of a finite float
    is a parameter; the round trip is for values whose floats are [readable], that is,
    printed so that they are read back, as Python's [repr] guarantees. *)

From Stdlib Require Import SpecFloat.
From S2P Require Import Prelude PyDict PyStr PyFloat PyJson.

Abbreviation text := (list ascii).

Definition chars (s : string) : text := String.list_ascii_of_string s.
Definition of_chars (t : text) : string := String.string_of_list_ascii t.
Definition code (c : ascii) : Z := Z.of_nat (nat_of_ascii c).
Definition chr (z : Z) : ascii := ascii_of_nat (Z.to_nat z).

Definition dquote : ascii := "034".
Definition bslash : ascii := "092".

(** ** Printing *)

Definition hexdigit (z : Z) : ascii := if z <? 10 then chr (48 + z) else chr (87 + z).

(** [py_encode_basestring_ascii]: everything outside the printable range is escaped. *)
Definition escape_char (c : ascii) : text :=
  if decide (c = dquote) then [bslash; dquote]
  else if decide (c = bslash) then [bslash; bslash]
  else if code c =? 10 then [bslash; "n"%char]
  else if code c =? 13 then [bslash; "r"%char]
  else if code c =? 9 then [bslash; "t"%char]
  else if code c =? 12 then [bslash; "f"%char]
  else if code c =? 8 then [bslash; "b"%char]
  else if (32 <=? code c) && (code c <=? 126) then [c]
  else [bslash; "u"%char; "0"%char; "0"%char; hexdigit (code c / 16); hexdigit (code c mod 16)].

Definition dump_str (s : string) : text :=
  dquote :: concat (escape_char <$> chars s) ++ [dquote].

Fixpoint sep_join (l : list text) : text :=
  match l with
  | [] => []
  | [t] => t
  | t :: l => t ++ ","%char :: " "%char :: sep_join l
  end.

Section dumps.
Variable float_repr : float → text.

Definition dump_float (f : float) : text :=
  match f with
  | S754_nan => chars "NaN"
  | S754_infinity false => chars "Infinity"
  | S754_infinity true => chars "-Infinity"
  | _ => float_repr f
  end.

(** [json.dumps(v)] *)
Fixpoint dumps (v : json) : text :=
  match v with
  | JNull => chars "null"
  | JBool b => chars (if b then "true" else "false")
  | JInt z => chars (pretty z)
  | JFloat f => dump_float f
  | JStr s => dump_str s
  | JList l => "["%char :: sep_join (dumps <$> l) ++ ["]"%char]
  | JObj d => "{"%char ::
      sep_join ((λ kv, dump_str kv.1 ++ ":"%char :: " "%char :: dumps kv.2) <$> d) ++ ["}"%char]
  end.
End dumps.

(** ** Parsing *)

Definition is_ws (c : ascii) : bool :=
  bool_decide (c = " "%char) || (code c =? 9) || (code c =? 10) || (code c =? 13).

Fixpoint skip_ws (s : text) : text :=
  match s with c :: r => if is_ws c then skip_ws r else s | [] => [] end.

Definition hexval (c : ascii) : option Z :=
  let z := code c in
  if (48 <=? z) && (z <=? 57) then Some (z - 48)
  else if (97 <=? z) && (z <=? 102) then Some (z - 87)
  else if (65 <=? z) && (z <=? 70) then Some (z - 55)
  else None.

Definition hex4 (a b c d : ascii) : option Z :=
  a ← hexval a; b ← hexval b; c ← hexval c; d ← hexval d;
  Some (((a * 16 + b) * 16 + c) * 16 + d).

Definition unescape (e : ascii) : option ascii :=
  if decide (e = dquote) then Some dquote
  else if decide (e = bslash) then Some bslash
  else if decide (e = "/"%char) then Some "/"%char
  else if decide (e = "b"%char) then Some "008"%char
  else if decide (e = "f"%char) then Some "012"%char
  else if decide (e = "n"%char) then Some "010"%char
  else if decide (e = "r"%char) then Some "013"%char
  else if decide (e = "t"%char) then Some "009"%char
  else None.

(** [scanstring], after the opening quote. An escape beyond the modelled code points
    is [NotImplementedError]. *)
Fixpoint scanstring (s : text) : result (text * text) :=
  match s with
  | [] => Raise ValueError
  | c :: r =>
      if decide (c = dquote) then Ok ([], r)
      else if decide (c = bslash) then
        match r with
        | [] => Raise ValueError
        | e :: r =>
            if decide (e = "u"%char) then
              match r with
              | h1 :: h2 :: h3 :: h4 :: r =>
                  match hex4 h1 h2 h3 h4 with
                  | Some z =>
                      if z <? 256
                      then '(t, rest) ← scanstring r; Ok (chr z :: t, rest)
                      else Raise NotImplementedError
                  | None => Raise ValueError
                  end
              | _ => Raise ValueError
              end
            else match unescape e with
                 | Some e => '(t, rest) ← scanstring r; Ok (e :: t, rest)
                 | None => Raise ValueError
                 end
        end
      else if code c <? 32 then Raise ValueError
      else '(t, rest) ← scanstring r; Ok (c :: t, rest)
  end.

Definition is_digit (c : ascii) : bool := (48 <=? code c) && (code c <=? 57).

Fixpoint span_digits (s : text) : text * text :=
  match s with
  | c :: r => if is_digit c then let '(ds, rest) := span_digits r in (c :: ds, rest) else ([], s)
  | [] => ([], [])
  end.

Definition digits_val (ds : text) : Z := foldl (λ a c, 10 * a + (code c - 48)) 0 ds.

(** [float(s)] of the decimal [m * 10 ^ e], correctly rounded. *)
Definition dec_float (neg : bool) (m e : Z) : float :=
  match m with
  | Zpos p =>
      if 0 <=? e then (if neg then fneg else id) (of_Z (m * 10 ^ e))
      else match 10 ^ (- e) with
           | Zpos q =>
               let '(mz, ez, lz) := SFdiv_core_binary 53 1024 (Zpos p) 0 (Zpos q) 0 in
               binary_round_aux 53 1024 neg mz ez lz
           | _ => S754_nan
           end
  | _ => S754_zero neg
  end.

(** [NUMBER_RE]: the fraction and the exponent are optional groups. *)
Definition scan_frac (s : text) : text * text :=
  match s with
  | c :: r => if decide (c = "."%char) then
                match span_digits r with ([], _) => ([], s) | p => p end
              else ([], s)
  | [] => ([], s)
  end.

Definition scan_exp (s : text) : option Z * text :=
  match s with
  | c :: r =>
      if decide (c = "e"%char ∨ c = "E"%char) then
        let '(sg, r) := match r with
                        | d :: r' => if decide (d = "-"%char) then (-1, r')
                                     else if decide (d = "+"%char) then (1, r') else (1, r)
                        | [] => (1, r) end in
        match span_digits r with ([], _) => (None, s) | (ds, r) => (Some (sg * digits_val ds), r) end
      else (None, s)
  | [] => (None, s)
  end.

(** A number after its sign. *)
Definition scan_unsigned (neg : bool) (r : text) : option (json * text) :=
  match r with
  | c :: r1 =>
      if negb (is_digit c) then None
      else
        let '(ds, rest) := if decide (c = "0"%char) then ([c], r1) else span_digits r in
        let '(fs, rest1) := scan_frac rest in
        let '(ex, rest2) := scan_exp rest1 in
        match fs, ex with
        | [], None => Some (JInt (if neg then - digits_val ds else digits_val ds), rest)
        | _, _ => Some (JFloat (dec_float neg (digits_val (ds ++ fs))
                                  (default 0 ex - Z.of_nat (length fs))), rest2)
        end
  | [] => None
  end.

Definition scan_number (s : text) : option (json * text) :=
  match s with
  | c :: r => if decide (c = "-"%char) then scan_unsigned true r else scan_unsigned false s
  | [] => None
  end.

Definition strip_prefix (p s : text) : option text :=
  if decide (take (length p) s = p) then Some (drop (length p) s) else None.

(** The constants [null], [true], [false], [NaN], [Infinity] and [-Infinity]. *)
Definition constants : list (text * json) :=
  [(chars "null", JNull); (chars "true", JBool true); (chars "false", JBool false);
   (chars "NaN", JFloat fnan); (chars "Infinity", JFloat finf); (chars "-Infinity", JFloat fninf)].

Fixpoint scan_constant (cs : list (text * json)) (s : text) : option (json * text) :=
  match cs with
  | [] => None
  | (p, v) :: cs => match strip_prefix p s with Some r => Some (v, r) | None => scan_constant cs s end
  end.

(** [scan_once], [JSONArray] and [JSONObject]; every character costs at most two units
    of fuel. *)
Fixpoint scan_once (n : nat) (s : text) : result (json * text) :=
  match n with
  | O => Raise OutOfFuel
  | S n =>
      match s with
      | [] => Raise ValueError
      | c :: r =>
          if decide (c = dquote) then '(t, rest) ← scanstring r; Ok (JStr (of_chars t), rest)
          else if decide (c = "{"%char) then
            match skip_ws r with
            | d :: r' => if decide (d = "}"%char) then Ok (JObj [], r') else scan_members n [] (d :: r')
            | [] => Raise ValueError
            end
          else if decide (c = "["%char) then
            match skip_ws r with
            | d :: r' => if decide (d = "]"%char) then Ok (JList [], r') else scan_elements n [] (d :: r')
            | [] => Raise ValueError
            end
          else match scan_number s with
               | Some p => Ok p
               | None => of_option ValueError (scan_constant constants s)
               end
      end
  end
with scan_elements (n : nat) (acc : list json) (s : text) : result (json * text) :=
  match n with
  | O => Raise OutOfFuel
  | S n =>
      '(v, r) ← scan_once n s;
      match skip_ws r with
      | d :: r' => if decide (d = "]"%char) then Ok (JList (acc ++ [v]), r')
                   else if decide (d = ","%char) then scan_elements n (acc ++ [v]) (skip_ws r')
                   else Raise ValueError
      | [] => Raise ValueError
      end
  end
with scan_members (n : nat) (acc : dict string json) (s : text) : result (json * text) :=
  match n with
  | O => Raise OutOfFuel
  | S n =>
      match s with
      | c :: r =>
          if decide (c = dquote) then
            '(k, r) ← scanstring r;
            match skip_ws r with
            | d :: r => if decide (d = ":"%char) then
                          '(v, r) ← scan_once n (skip_ws r);
                          let acc := dset acc (of_chars k) v in
                          match skip_ws r with
                          | d :: r => if decide (d = "}"%char) then Ok (JObj acc, r)
                                      else if decide (d = ","%char) then scan_members n acc (skip_ws r)
                                      else Raise ValueError
                          | [] => Raise ValueError
                          end
                        else Raise ValueError
            | [] => Raise ValueError
            end
          else Raise ValueError
      | [] => Raise ValueError
      end
  end.

(** [json.loads(s)] *)
Definition loads (s : text) : result json :=
  '(v, r) ← scan_once (2 * length s + 1) (skip_ws s);
  if decide (skip_ws r = []) then Ok v else Raise ValueError.

(** ** Strings and numbers read back *)

Lemma of_chars_chars s : of_chars (chars s) = s.
Proof. apply String.string_of_list_ascii_of_string. Qed.

Lemma scan_escape_char c s :
  scanstring (escape_char c ++ s) = ('(t, rest) ← scanstring s; Ok (c :: t, rest)).
Proof. destruct c as [[] [] [] [] [] [] [] []]; reflexivity. Qed.

Lemma scan_dump_str s rest :
  scanstring (concat (escape_char <$> chars s) ++ dquote :: rest) = Ok (chars s, rest).
Proof.
  induction (chars s) as [|c t IH]; [done|].
  rewrite fmap_cons, concat_cons, <-app_assoc, scan_escape_char, IH. done.
Qed.

Definition digit_text (ds : text) : Prop := Forall (λ c, is_digit c = true) ds.

(** What may follow a number without becoming part of it. *)
Definition num_end (rest : text) : Prop :=
  match rest with
  | c :: _ => is_digit c = false ∧ c ≠ "."%char ∧ c ≠ "e"%char ∧ c ≠ "E"%char
  | [] => True
  end.

Lemma span_digits_app ds rest : digit_text ds → num_end rest → span_digits (ds ++ rest) = (ds, rest).
Proof.
  intros Hd Hr. induction Hd as [|c ds Hc _ IH]; simpl.
  - destruct rest as [|c rest]; [done|]. destruct Hr as [Hr _]. simpl. by rewrite Hr.
  - by rewrite Hc, IH.
Qed.

Lemma scan_end rest : num_end rest → scan_frac rest = ([], rest) ∧ scan_exp rest = (None, rest).
Proof.
  destruct rest as [|c rest]; [done|]. intros (_ & ? & ? & ?). simpl.
  rewrite decide_False by done. rewrite decide_False by naive_solver. done.
Qed.

Lemma digits_val_app ds c : digits_val (ds ++ [c]) = 10 * digits_val ds + (code c - 48).
Proof. unfold digits_val. by rewrite foldl_app. Qed.

Lemma pretty_digit (d : N) : (d < 10)%N →
  is_digit (pretty_N_char d) = true ∧ code (pretty_N_char d) - 48 = Z.of_N d ∧
  (d ≠ 0%N → pretty_N_char d ≠ "0"%char).
Proof.
  intros Hd. assert (d = 0 ∨ d = 1 ∨ d = 2 ∨ d = 3 ∨ d = 4 ∨ d = 5 ∨ d = 6 ∨ d = 7 ∨ d = 8 ∨ d = 9)%N
    as Hds by lia.
  destruct_or! Hds; subst d; done.
Qed.

(** The decimal digits of a positive number: they denote it and start with no zero. *)
Lemma pretty_go_digits (x : N) (s : string) : (0 < x)%N →
  ∃ c ds, chars (pretty_N_go x s) = (c :: ds) ++ chars s ∧ digit_text (c :: ds) ∧
    c ≠ "0"%char ∧ digits_val (c :: ds) = Z.of_N x.
Proof.
  revert s. induction (N.lt_wf_0 x) as [x _ IH]. intros s Hx. rewrite pretty_N_go_step by done.
  destruct (pretty_digit (x mod 10)) as (Hd & Hv & Hnz); [apply N.mod_lt; lia|].
  destruct (decide (x / 10 = 0)%N) as [H0|H0].
  - rewrite H0, pretty_N_go_0. exists (pretty_N_char (x mod 10)), []. split_and!.
    + done.
    + by constructor.
    + apply Hnz. intros Hm. pose proof (N.div_mod' x 10). lia.
    + unfold digits_val. simpl. rewrite Hv. pose proof (N.div_mod' x 10). lia.
  - destruct (IH (x / 10)%N) with (s := String (pretty_N_char (x mod 10)) s)
      as (c & ds & Hc & Hds & Hnz' & Hval); [apply N.div_lt; lia|by apply N.neq_0_lt_0|].
    exists c, (ds ++ [pretty_N_char (x mod 10)]). split_and!.
    + rewrite Hc. cbn. by rewrite <-app_assoc.
    + rewrite app_comm_cons. apply Forall_app. split; [done|by constructor].
    + done.
    + rewrite app_comm_cons, digits_val_app, Hval, Hv. pose proof (N.div_mod' x 10). lia.
Qed.

Lemma scan_digits (neg : bool) c ds rest :
  digit_text (c :: ds) → c ≠ "0"%char → num_end rest →
  scan_number ((if neg then ["-"%char] else []) ++ (c :: ds) ++ rest)
  = Some (JInt (if neg then - digits_val (c :: ds) else digits_val (c :: ds)), rest).
Proof.
  intros Hd Hc Hr. pose proof (Forall_inv Hd) as Hdc. destruct (scan_end rest Hr) as [Hf He].
  pose proof (span_digits_app _ _ Hd Hr) as Hs.
  assert (c ≠ "-"%char) as Hm by (intros ->; discriminate).
  unfold scan_number. destruct neg; cbn [app]; unfold scan_unsigned.
  - rewrite decide_True by done. rewrite Hdc. cbn [negb]. rewrite decide_False by done.
    cbn [app] in Hs. by rewrite Hs, Hf, He.
  - rewrite decide_False by done. rewrite Hdc. cbn [negb]. rewrite decide_False by done.
    cbn [app] in Hs. by rewrite Hs, Hf, He.
Qed.

Lemma scan_pretty z rest : num_end rest → scan_number (chars (pretty z) ++ rest) = Some (JInt z, rest).
Proof.
  intros Hr. destruct z as [|p|p].
  - destruct (scan_end rest Hr) as [Hf He].
    change (chars (pretty 0)) with ["0"%char]. unfold scan_number. cbn [app].
    rewrite decide_False by done. unfold scan_unsigned. change (is_digit "0"%char) with true. cbn [negb].
    rewrite decide_True by done. by rewrite Hf, He.
  - destruct (pretty_go_digits (Npos p) EmptyString) as (c & ds & Hc & Hd & Hnz & Hv); [done|].
    change (chars (pretty (Zpos p))) with (chars (pretty_N_go (Npos p) EmptyString)).
    rewrite Hc, app_nil_r. pose proof (scan_digits false c ds rest Hd Hnz Hr) as H.
    cbn [app] in *. by rewrite H, Hv.
  - destruct (pretty_go_digits (Npos p) EmptyString) as (c & ds & Hc & Hd & Hnz & Hv); [done|].
    change (chars (pretty (Zneg p))) with ("-"%char :: chars (pretty_N_go (Npos p) EmptyString)).
    rewrite Hc, app_nil_r. pose proof (scan_digits true c ds rest Hd Hnz Hr) as H.
    cbn [app] in *. by rewrite H, Hv.
Qed.

(** ** The round trip *)

Section plain.
Variable float_repr : float → text.

(** A finite float whose printed form is read back as that float, which Python's [repr]
    guarantees. *)
Definition readable (f : float) : bool :=
  is_finite f && forallb (λ c, code c <? 128) (float_repr f) &&
  match scan_number (float_repr f) with
  | Some (JFloat g, []) => bool_decide (g = f)
  | _ => false
  end.

(** Values whose floats are readable and whose objects have distinct keys. *)
Fixpoint plain (v : json) : bool :=
  match v with
  | JFloat f => readable f
  | JList l => forallb plain l
  | JObj d => bool_decide (NoDup d.*1) && forallb (λ kv, plain kv.2) d
  | _ => true
  end.
End plain.

(** What may follow a value inside a text: the end, or a separator or bracket. *)
Definition value_end (rest : text) : Prop :=
  match rest with
  | c :: _ => c = ","%char ∨ c = "]"%char ∨ c = "}"%char
  | [] => True
  end.

Lemma value_end_num rest : value_end rest → num_end rest.
Proof. destruct rest as [|c rest]; [done|]. intros [->|[->| ->]]; done. Qed.

(** What was scanned stays the same when a separator or a bracket follows. *)
Lemma span_digits_ext s ds r rest : span_digits s = (ds, r) → value_end rest →
  span_digits (s ++ rest) = (ds, r ++ rest).
Proof.
  intros Hs Hr. revert ds Hs. induction s as [|c s IH]; intros ds Hs; cbn [span_digits app] in *.
  - injection Hs as <- <-. apply (span_digits_app [] rest); [constructor|by apply value_end_num].
  - destruct (is_digit c); [|by simplify_eq]. destruct (span_digits s) as [ds' r'] eqn:E.
    injection Hs as <- <-. by rewrite (IH ds' eq_refl).
Qed.

Lemma scan_frac_ext s fs r rest : scan_frac s = (fs, r) → value_end rest →
  scan_frac (s ++ rest) = (fs, r ++ rest).
Proof.
  intros Hs Hr. destruct s as [|c s]; cbn [scan_frac app] in *.
  { injection Hs as <- <-. apply scan_end. by apply value_end_num. }
  case_decide; [|by simplify_eq]. destruct (span_digits s) as [ds r'] eqn:E.
  rewrite (span_digits_ext _ _ _ _ E Hr). destruct ds; by simplify_eq.
Qed.

Lemma scan_exp_ext s ex r rest : scan_exp s = (ex, r) → value_end rest →
  scan_exp (s ++ rest) = (ex, r ++ rest).
Proof.
  intros Hs Hr. destruct s as [|c s]; cbn [scan_exp app] in *.
  { injection Hs as <- <-. apply scan_end. by apply value_end_num. }
  case_decide; [|by simplify_eq].
  assert (∀ sg t, match span_digits t with ([], _) => (None, c :: s)
      | ((_ :: _) as ds, r) => (Some (sg * digits_val ds), r) end = (ex, r) →
    match span_digits (t ++ rest) with ([], _) => (None, c :: s ++ rest)
      | ((_ :: _) as ds, r) => (Some (sg * digits_val ds), r) end = (ex, r ++ rest)) as Hsg.
  { intros sg t Ht. destruct (span_digits t) as [ds r'] eqn:E.
    rewrite (span_digits_ext _ _ _ _ E Hr). destruct ds; by simplify_eq. }
  destruct s as [|d s]; cbn [app].
  - destruct rest as [|d rest]; [by rewrite app_nil_r|]. injection Hs as <- <-.
    by destruct Hr as [->|[->| ->]].
  - repeat case_decide; [by apply Hsg..|by apply (Hsg 1 (d :: s))].
Qed.

Lemma scan_unsigned_ext neg s v r rest : scan_unsigned neg s = Some (v, r) → value_end rest →
  scan_unsigned neg (s ++ rest) = Some (v, r ++ rest).
Proof.
  intros Hs Hr. destruct s as [|c t]; [done|]. cbn [app scan_unsigned] in *.
  destruct (negb (is_digit c)); [done|].
  destruct (if decide (c = "0"%char) then ([c], t) else span_digits (c :: t)) as [ds r1] eqn:E1.
  assert ((if decide (c = "0"%char) then ([c], t ++ rest) else span_digits (c :: t ++ rest))
          = (ds, r1 ++ rest)) as ->.
  { case_decide; [by simplify_eq|]. by apply (span_digits_ext (c :: t)). }
  destruct (scan_frac r1) as [fs r2] eqn:E2. rewrite (scan_frac_ext _ _ _ _ E2 Hr).
  destruct (scan_exp r2) as [ex r3] eqn:E3. rewrite (scan_exp_ext _ _ _ _ E3 Hr).
  destruct fs, ex; by simplify_eq.
Qed.

Lemma scan_number_ext s v r rest : scan_number s = Some (v, r) → value_end rest →
  scan_number (s ++ rest) = Some (v, r ++ rest).
Proof.
  intros Hs Hr. destruct s as [|c s]; [done|]. cbn [app scan_number] in *.
  case_decide; [by apply scan_unsigned_ext|by apply (scan_unsigned_ext _ (c :: s))].
Qed.

Lemma skip_ws_sep rest : value_end rest → skip_ws rest = rest.
Proof. destruct rest as [|c rest]; [done|]. intros [->|[->| ->]]; done. Qed.

(** The first character of a printed value starts a value and is no white space. *)
Definition value_start (c : ascii) : Prop := is_ws c = false ∧ c ≠ "]"%char ∧ c ≠ "}"%char.

Section roundtrip.
Variable float_repr : float → text.
#[local] Abbreviation dumps := (dumps float_repr).
#[local] Abbreviation plain := (plain float_repr).

Definition member_text (kv : string * json) : text :=
  dump_str kv.1 ++ ":"%char :: " "%char :: dumps kv.2.

Lemma pretty_start (z : Z) : ∃ c t, chars (pretty z) = c :: t ∧ value_start c ∧
  c ≠ dquote ∧ c ≠ "{"%char ∧ c ≠ "["%char.
Proof.
  assert (∀ c, is_digit c = true ∨ c = "-"%char → value_start c ∧ c ≠ dquote ∧ c ≠ "{"%char ∧ c ≠ "["%char)
    as Hd.
  { intros c [Hc| ->]; [|done]. unfold value_start.
    destruct c as [[] [] [] [] [] [] [] []]; vm_compute in Hc; done || discriminate. }
  destruct z as [|p|p].
  - exists "0"%char, []. split; [done|]. apply Hd. by left.
  - destruct (pretty_go_digits (Npos p) EmptyString) as (c & ds & Hc & Hds & _); [done|].
    exists c, ds. rewrite app_nil_r in Hc. split; [exact Hc|]. apply Hd. left. by apply Forall_inv in Hds.
  - exists "-"%char, (chars (pretty_N_go (Npos p) EmptyString)). split; [done|]. apply Hd. by right.
Qed.

Lemma number_start s v r : scan_number s = Some (v, r) →
  ∃ c t, s = c :: t ∧ value_start c ∧ c ≠ dquote ∧ c ≠ "{"%char ∧ c ≠ "["%char.
Proof.
  destruct s as [|c s]; [done|]. intros Hs. exists c, s. split; [done|]. cbn [scan_number] in Hs.
  case_decide as Hm; [by subst c|]. cbn [scan_unsigned] in Hs. destruct (is_digit c) eqn:Hc; [|done].
  unfold value_start. destruct c as [[] [] [] [] [] [] [] []]; vm_compute in Hc; done || discriminate.
Qed.

(** What a readable float prints. *)
Lemma readable_dump f : readable float_repr f = true →
  dump_float float_repr f = float_repr f ∧ scan_number (float_repr f) = Some (JFloat f, []) ∧
  forallb (λ c, code c <? 128) (float_repr f) = true.
Proof.
  unfold readable. intros [[Hf Ha]%andb_true_iff Hs]%andb_true_iff.
  destruct (scan_number (float_repr f)) as [[[] []]|] eqn:E; try done.
  apply bool_decide_eq_true in Hs. subst. split_and!; [by destruct f|done|done].
Qed.

Lemma dumps_start v : plain v = true → ∃ c t, dumps v = c :: t ∧ value_start c.
Proof.
  destruct v as [| b | z | f | s | l | d]; intros Hp.
  - by eexists _, _.
  - destruct b; by eexists _, _.
  - destruct (pretty_start z) as (c & t & H & Hs & _). by exists c, t.
  - destruct (readable_dump f Hp) as (E & Hs & _). destruct (number_start _ _ _ Hs) as (c & t & Ht & Hc & _).
    exists c, t. by cbn [JsonText.dumps]; rewrite E.
  - by eexists _, _.
  - by eexists _, _.
  - by eexists _, _.
Qed.

Lemma sep_join_cons t l : l ≠ [] → sep_join (t :: l) = t ++ ","%char :: " "%char :: sep_join l.
Proof. by destruct l. Qed.

Lemma sep_join_start (l : list text) rest :
  l ≠ [] → Forall (λ t, ∃ c t', t = c :: t' ∧ value_start c) l →
  ∃ c t', sep_join l ++ rest = c :: t' ∧ value_start c.
Proof.
  intros Hne Hl. destruct Hl as [|t l (c & t' & -> & Hc) _]; [done|].
  destruct l; simpl; eauto.
Qed.

Lemma skip_ws_start c t : value_start c → skip_ws (c :: t) = c :: t.
Proof. intros [Hc _]. simpl. by rewrite Hc. Qed.

Lemma skip_space_start c t : value_start c → skip_ws (" "%char :: c :: t) = c :: t.
Proof. exact (skip_ws_start c t). Qed.

Definition reads (v : json) : Prop := plain v = true → ∀ n rest,
  (2 * length (dumps v) ≤ n)%nat → value_end rest → scan_once n (dumps v ++ rest) = Ok (v, rest).

Lemma dumps_starts l : forallb plain l = true →
  Forall (λ t, ∃ c t', t = c :: t' ∧ value_start c) (dumps <$> l).
Proof.
  intros Hl. apply Forall_fmap, Forall_forall. intros v Hv. apply dumps_start.
  rewrite forallb_forall in Hl. apply Hl. by apply list_elem_of_In.
Qed.

Lemma scan_elements_dumps l : l ≠ [] → Forall reads l → forallb plain l = true → ∀ n acc rest,
  (2 * length (sep_join (dumps <$> l)) + 1 ≤ n)%nat →
  scan_elements n acc (sep_join (dumps <$> l) ++ "]"%char :: rest) = Ok (JList (acc ++ l), rest).
Proof.
  intros Hne Hl. induction Hl as [|v l Hv Hl IH]; [done|]. intros [Hpv Hpl]%andb_true_iff n acc rest Hn.
  destruct n as [|n]; [lia|]. destruct (decide (l = [])) as [->|Hl'].
  - csimpl in *. rewrite Hv by (done || lia || (simpl; auto)). done.
  - rewrite fmap_cons in *.
    assert (dumps <$> l ≠ []) as Hne' by (by intros ?%fmap_nil_inv).
    rewrite sep_join_cons in * by done. rewrite length_app in Hn. simpl in Hn.
    rewrite <-app_assoc. cbn [scan_elements app].
    rewrite Hv by (done || lia || (simpl; auto)). cbn [mbind result_bind].
    destruct (sep_join_start (dumps <$> l) ("]"%char :: rest) Hne' (dumps_starts l Hpl))
      as (c & t' & Ec & Hc).
    specialize (IH Hl' Hpl n (acc ++ [v]) rest ltac:(lia)). rewrite Ec in *.
    rewrite skip_ws_sep by (simpl; auto). rewrite decide_False, decide_True by done.
    rewrite skip_space_start by done. rewrite IH. by rewrite <-app_assoc.
Qed.

Lemma scan_member k v n acc r :
  reads v → plain v = true → k ∉ dkeys acc → (2 * length (dumps v) ≤ n)%nat → value_end r →
  scan_members (S n) acc (member_text (k, v) ++ r) =
    match r with
    | d :: r => if decide (d = "}"%char) then Ok (JObj (acc ++ [(k, v)]), r)
                else if decide (d = ","%char) then scan_members n (acc ++ [(k, v)]) (skip_ws r)
                else Raise ValueError
    | [] => Raise ValueError
    end.
Proof.
  intros Hv Hpv Hk Hn Hr. unfold member_text, dump_str. cbn [fst snd app scan_members].
  rewrite decide_True by done. rewrite <-!app_assoc. cbn [app]. rewrite scan_dump_str.
  cbn [mbind result_bind skip_ws]. change (is_ws ":"%char) with false. change (is_ws " "%char) with true.
  cbn iota. rewrite decide_True by done. destruct (dumps_start v Hpv) as (c & t & Ec & Hc).
  change (skip_ws (" "%char :: dumps v ++ r)) with (skip_ws (dumps v ++ r)).
  assert (skip_ws (dumps v ++ r) = dumps v ++ r) as -> by (rewrite Ec; by apply skip_ws_start).
  rewrite Hv by done. cbn [mbind result_bind]. rewrite skip_ws_sep by done. rewrite of_chars_chars.
  by rewrite dset_fresh.
Qed.

Lemma member_starts (d : list (string * json)) :
  Forall (λ t, ∃ c t', t = c :: t' ∧ value_start c) (member_text <$> d).
Proof. apply Forall_fmap, Forall_forall. intros [k v] _. by eexists _, _. Qed.

Lemma length_member k v : (length (dumps v) + 4 ≤ length (member_text (k, v)))%nat.
Proof. unfold member_text, dump_str. simpl. rewrite !length_app. simpl. lia. Qed.

Lemma scan_members_dumps d : d ≠ [] → Forall (λ kv, reads kv.2) d →
  forallb (λ kv, plain kv.2) d = true → ∀ n acc rest,
  NoDup (acc ++ d).*1 →
  (2 * length (sep_join (member_text <$> d)) + 1 ≤ n)%nat →
  scan_members n acc (sep_join (member_text <$> d) ++ "}"%char :: rest) = Ok (JObj (acc ++ d), rest).
Proof.
  intros Hne Hd. induction Hd as [|[k v] d Hv Hd IH]; [done|]. cbn [snd] in Hv.
  intros [Hpv Hpl]%andb_true_iff n acc rest Hnd Hn. cbn [snd] in Hpv.
  destruct n as [|n]; [lia|]. pose proof (length_member k v) as Hlen.
  assert (k ∉ dkeys acc) as Hk.
  { rewrite fmap_app in Hnd. apply NoDup_app in Hnd as (_ & Hnd & _). intros Hk. apply (Hnd k Hk). left. }
  destruct (decide (d = [])) as [->|Hd'].
  - rewrite fmap_cons, fmap_nil in *. cbn [sep_join] in *. rewrite scan_member by (done || lia || (simpl; auto)). done.
  - rewrite fmap_cons in *.
    assert (member_text <$> d ≠ []) as Hne' by (by intros ?%fmap_nil_inv).
    rewrite sep_join_cons in * by done. rewrite length_app in Hn. cbn [length] in Hn.
    rewrite <-app_assoc. cbn [app]. rewrite scan_member by (done || lia || (simpl; auto)).
    rewrite decide_False, decide_True by done.
    destruct (sep_join_start (member_text <$> d) ("}"%char :: rest) Hne' (member_starts d))
      as (c & t' & Ec & Hc).
    specialize (IH Hd' Hpl n (acc ++ [(k, v)]) rest). rewrite Ec in *.
    rewrite skip_space_start by done. rewrite IH; [by rewrite <-app_assoc|by rewrite <-app_assoc|lia].
Qed.

Lemma dumps_reads v : reads v.
Proof.
  induction v as [| b | z | f | s | l IH | d IH] using json_nested_ind; intros Hp n rest Hn Hr;
    (destruct n as [|n]; [destruct (dumps_start _ Hp) as (? & ? & E & _); rewrite E in Hn; simpl in Hn; lia|]).
  - done.
  - by destruct b.
  - destruct (pretty_start z) as (c & t & Hc & _ & Hq & Hb & Hs). cbn [JsonText.dumps].
    pose proof (scan_pretty z rest (value_end_num _ Hr)) as H. rewrite Hc in *.
    cbn [scan_once app] in *. rewrite !decide_False by done. by rewrite H.
  - destruct (readable_dump f Hp) as (E & Hs & _). cbn [JsonText.dumps]. rewrite E.
    destruct (number_start _ _ _ Hs) as (c & t & Ht & _ & Hq & Hb & Hl).
    pose proof (scan_number_ext _ _ _ rest Hs Hr) as H. rewrite Ht in *.
    cbn [scan_once app] in *. rewrite !decide_False by done. by rewrite H.
  - cbn [JsonText.dumps]. unfold dump_str. cbn [scan_once app]. rewrite decide_True by done.
    rewrite <-app_assoc. cbn [app]. rewrite scan_dump_str. cbn [mbind result_bind].
    by rewrite of_chars_chars.
  - cbn [JsonText.dumps scan_once app] in *. rewrite decide_False, decide_False, decide_True by done.
    destruct (decide (l = [])) as [->|Hne]; [done|]. rewrite <-app_assoc. cbn [app].
    rewrite <-(scan_elements_dumps l) with (n := n) (acc := []) by
      (done || (simpl in Hn; rewrite length_app in Hn; simpl in Hn; lia)).
    destruct (sep_join_start (dumps <$> l) ("]"%char :: rest)) as (c & t & Ec & Hc);
      [by intros ?%fmap_nil_inv|by apply dumps_starts|].
    rewrite Ec, skip_ws_start by done. by rewrite decide_False by apply Hc.
  - cbn [plain] in Hp. apply andb_true_iff in Hp as [Hnd%bool_decide_eq_true Hp].
    cbn [JsonText.dumps scan_once app] in *. rewrite decide_False, decide_True by done.
    destruct (decide (d = [])) as [->|Hne]; [done|]. rewrite <-app_assoc. cbn [app].
    change (sep_join (_ <$> d)) with (sep_join (member_text <$> d)) in Hn |- *.
    rewrite <-(scan_members_dumps d) with (n := n) (acc := []) by
      (done || (simpl in Hn; rewrite length_app in Hn; simpl in Hn; lia)).
    destruct (sep_join_start (member_text <$> d) ("}"%char :: rest)) as (c & t & Ec & Hc);
      [by intros ?%fmap_nil_inv|by apply member_starts|].
    rewrite Ec, skip_ws_start by done. by rewrite decide_False by apply Hc.
Qed.

Lemma loads_dumps v : plain v = true → loads (dumps v) = Ok v.
Proof.
  intros Hp. unfold loads. destruct (dumps_start v Hp) as (c & t & Ec & Hc).
  assert (skip_ws (dumps v) = dumps v) as -> by (rewrite Ec; by apply skip_ws_start).
  pose proof (dumps_reads v Hp (2 * length (dumps v) + 1)%nat [] ltac:(lia) I) as H.
  rewrite app_nil_r in H. by rewrite H.
Qed.

(** The text is ASCII, so that its UTF-8 encoding has one byte per character. *)
Definition ascii_text (t : text) : Prop := Forall (λ c, code c < 128) t.

Lemma ascii_chars s : forallb (λ c, code c <? 128) (chars s) = true → ascii_text (chars s).
Proof.
  intros H. apply Forall_forall. intros c Hc. apply Z.ltb_lt. rewrite forallb_forall in H.
  by apply H, list_elem_of_In.
Qed.

Lemma dump_str_ascii s : ascii_text (dump_str s).
Proof.
  unfold dump_str. constructor; [done|]. apply Forall_app. split; [|by repeat constructor].
  apply Forall_concat, Forall_fmap, Forall_forall. intros c _. simpl.
  destruct c as [[] [] [] [] [] [] [] []]; repeat constructor.
Qed.

Lemma sep_join_ascii l : Forall ascii_text l → ascii_text (sep_join l).
Proof.
  intros Hl. induction Hl as [|t l Ht Hl IH]; [constructor|].
  destruct (decide (l = [])) as [->|Hne]; [done|]. rewrite sep_join_cons by done.
  apply Forall_app. split; [done|]. by repeat constructor.
Qed.

Lemma pretty_ascii (z : Z) : ascii_text (chars (pretty z)).
Proof.
  assert (∀ c, is_digit c = true → code c < 128) as Hd.
  { intros c. unfold is_digit. bool_to_prop. lia. }
  destruct z as [|p|p]; [by repeat constructor| |];
    destruct (pretty_go_digits (Npos p) EmptyString) as (c & ds & Hc & Hds & _); try done;
    rewrite app_nil_r in Hc.
  - change (ascii_text (chars (pretty_N_go (Npos p) EmptyString))). rewrite Hc. by eapply Forall_impl.
  - change (ascii_text ("-"%char :: chars (pretty_N_go (Npos p) EmptyString))). rewrite Hc.
    constructor; [done|]. by eapply Forall_impl.
Qed.

Lemma dumps_ascii v : plain v = true → ascii_text (dumps v).
Proof.
  induction v as [| b | z | f | s | l IH | d IH] using json_nested_ind; intros Hp.
  - by apply ascii_chars.
  - destruct b; by apply ascii_chars.
  - apply pretty_ascii.
  - destruct (readable_dump f Hp) as (E & _ & Ha). cbn [JsonText.dumps]. rewrite E.
    apply Forall_forall. intros c Hc. apply Z.ltb_lt. rewrite forallb_forall in Ha.
    by apply Ha, list_elem_of_In.
  - apply dump_str_ascii.
  - cbn [JsonText.dumps]. constructor; [done|]. apply Forall_app. split; [|by repeat constructor].
    apply sep_join_ascii, Forall_fmap. rewrite Forall_forall in *. intros v Hv. apply IH; [done|].
    cbn [plain] in Hp. rewrite forallb_forall in Hp. by apply Hp, list_elem_of_In.
  - cbn [JsonText.dumps]. constructor; [done|]. apply Forall_app. split; [|by repeat constructor].
    apply sep_join_ascii, Forall_fmap. rewrite Forall_forall in *. intros [k v] Hv.
    cbn [plain] in Hp. apply andb_true_iff in Hp as [_ Hp]. rewrite forallb_forall in Hp.
    apply Forall_app. split; [apply dump_str_ascii|]. constructor; [done|]. constructor; [done|].
    apply (IH (k, v)); [done|]. by apply (Hp (k, v)), list_elem_of_In.
Qed.
End roundtrip.

(** ** The parser always returns *)

Lemma skip_ws_length s : (length (skip_ws s) ≤ length s)%nat.
Proof. induction s as [|c s IH]; simpl; [lia|]. destruct (is_ws c); simpl; lia. Qed.

Lemma scanstring_length s : match scanstring s with Ok (_, r) => (length r < length s)%nat | Raise e => e ≠ OutOfFuel end.
Proof.
  remember (length s) as m eqn:Hm. revert s Hm. induction (lt_wf m) as [m _ IH]. intros s ->.
  destruct s as [|c s]; [done|]. cbn [scanstring].
  assert (∀ r c' , (length r ≤ length s)%nat →
    match '(t, rest) ← scanstring r; Ok (c' :: t, rest) with
    | Ok (_, r) => (length r < length (c :: s))%nat | Raise e => e ≠ OutOfFuel end) as Hr.
  { intros r c' Hr. specialize (IH (length r) ltac:(simpl; lia) r eq_refl).
    destruct (scanstring r) as [[t rest]|e]; cbn [mbind result_bind]; [simpl; lia|done]. }
  case_decide; [simpl; lia|]. case_decide.
  - destruct s as [|e s]; [done|]. case_decide.
    + destruct s as [|h1 [|h2 [|h3 [|h4 s]]]]; try done. destruct (hex4 h1 h2 h3 h4); [|done].
      destruct (_ <? 256); [|done]. apply Hr. simpl. lia.
    + destruct (unescape e); [|done]. apply Hr. simpl. lia.
  - destruct (code c <? 32); [done|]. by apply Hr.
Qed.

Lemma span_digits_length s : (length (span_digits s).2 ≤ length s)%nat.
Proof.
  induction s as [|c s IH]; simpl; [done|]. destruct (is_digit c); [|done].
  destruct (span_digits s) as [ds r]. simpl in *. lia.
Qed.

Lemma scan_frac_length s : (length (scan_frac s).2 ≤ length s)%nat.
Proof.
  destruct s as [|c s]; simpl; [done|]. case_decide; [|done].
  pose proof (span_digits_length s). destruct (span_digits s) as [[|d ds] r]; simpl in *; lia.
Qed.

Lemma scan_exp_length s : (length (scan_exp s).2 ≤ length s)%nat.
Proof.
  destruct s as [|c s]; simpl; [done|]. case_decide; [|done].
  assert (∀ (sg : Z) r, (length r ≤ length s)%nat →
    (length (match span_digits r with ([], _) => (None, c :: s)
             | (ds, r) => (Some (sg * digits_val ds)%Z, r) end).2 ≤ S (length s))%nat) as Hr.
  { intros sg r Hr. pose proof (span_digits_length r).
    destruct (span_digits r) as [[|d ds] r']; simpl in *; lia. }
  destruct s as [|d s]; [by apply (Hr 1)|]. case_decide; [apply (Hr (-1)); simpl; lia|].
  case_decide; [apply (Hr 1); simpl; lia|by apply (Hr 1)].
Qed.

Lemma scan_unsigned_length neg s v r :
  scan_unsigned neg s = Some (v, r) → (length r < length s)%nat.
Proof.
  destruct s as [|c t]; [done|]. cbn [scan_unsigned]. destruct (is_digit c) eqn:Hc; [|done]. cbn [negb].
  destruct (if decide (c = "0"%char) then ([c], t) else span_digits (c :: t)) as [ds rest] eqn:E.
  assert (length rest < length (c :: t))%nat as Hrest.
  { case_decide; [injection E as _ <-; simpl; lia|]. pose proof (span_digits_length t).
    cbn [span_digits] in E. rewrite Hc in E. destruct (span_digits t) as [ds' r'].
    injection E as _ <-. simpl in *. lia. }
  pose proof (scan_frac_length rest). destruct (scan_frac rest) as [fs r1].
  pose proof (scan_exp_length r1). destruct (scan_exp r1) as [ex r2]. simpl in *.
  destruct fs, ex; intros [= _ <-]; lia.
Qed.

Lemma scan_number_length s v r : scan_number s = Some (v, r) → (length r < length s)%nat.
Proof.
  destruct s as [|c s]; [done|]. cbn [scan_number].
  case_decide; intros Hlen%scan_unsigned_length; simpl in *; lia.
Qed.

Lemma scan_constant_length s v r : scan_constant constants s = Some (v, r) → (length r < length s)%nat.
Proof.
  assert (Forall (λ pv : text * json, pv.1 ≠ []) constants) as Hc by by repeat constructor.
  revert Hc. generalize constants. intros cs Hc. induction Hc as [|[p w] cs Hp _ IH]; simpl; [done|].
  destruct (strip_prefix p s) as [r'|] eqn:Hs; [|done]. intros [= -> ->].
  unfold strip_prefix in Hs. case_decide as Ht; [|done]. injection Hs as <-. rewrite length_drop.
  assert (length s ≠ 0)%nat by (destruct s; [by rewrite take_nil in Ht; simpl in Hp|done]).
  destruct p; [done|]. simpl. lia.
Qed.

Definition shrinks {A} (s : text) (r : result (A * text)) : Prop :=
  match r with Ok (_, r) => (length r < length s)%nat | Raise e => e ≠ OutOfFuel end.

Lemma scan_total n :
  (∀ s, (2 * length s + 1 ≤ n)%nat → shrinks s (scan_once n s)) ∧
  (∀ acc s, (2 * length s + 2 ≤ n)%nat → shrinks s (scan_elements n acc s)) ∧
  (∀ acc s, (2 * length s + 2 ≤ n)%nat → shrinks s (scan_members n acc s)).
Proof.
  induction n as [|n (IH1 & IH2 & IH3)]; [split_and!; intros; lia|].
  assert (∀ s c t, skip_ws s = c :: t → (length t < length s)%nat) as Hws.
  { intros s c t Hs. pose proof (skip_ws_length s) as Hl. rewrite Hs in Hl. simpl in Hl. lia. }
  assert (∀ {A} s t (r : result (A * text)), shrinks t r → (length t ≤ length s)%nat → shrinks s r) as Hmono.
  { intros A s t [[a r]|e] H Hl; simpl in *; [lia|done]. }
  split_and!.
  - intros [|c s] Hn; [done|]. cbn [scan_once length] in *. case_decide.
    { pose proof (scanstring_length s). destruct (scanstring s) as [[t r]|e]; simpl in *; [lia|done]. }
    case_decide.
    { destruct (skip_ws s) as [|d r] eqn:Es; [done|]. pose proof (Hws _ _ _ Es).
      case_decide; [simpl; lia|]. apply (Hmono _ _ (d :: r)); [apply IH3|]; simpl; lia. }
    case_decide.
    { destruct (skip_ws s) as [|d r] eqn:Es; [done|]. pose proof (Hws _ _ _ Es).
      case_decide; [simpl; lia|]. apply (Hmono _ _ (d :: r)); [apply IH2|]; simpl; lia. }
    destruct (scan_number (c :: s)) as [[v r]|] eqn:E; [by eapply scan_number_length|].
    destruct (scan_constant constants (c :: s)) as [[v r]|] eqn:E'; [by eapply scan_constant_length|done].
  - intros acc s Hn. cbn [scan_elements]. specialize (IH1 s ltac:(lia)).
    destruct (scan_once n s) as [[v r]|e]; cbn [mbind result_bind]; [|done]. simpl in IH1.
    destruct (skip_ws r) as [|d r'] eqn:Er; [done|]. pose proof (Hws _ _ _ Er).
    pose proof (skip_ws_length r'). case_decide; [simpl; lia|]. case_decide; [|done].
    apply (Hmono _ _ (skip_ws r')); [apply IH2; lia|lia].
  - intros acc s Hn. cbn [scan_members]. destruct s as [|c s]; [done|]. case_decide; [|done].
    pose proof (scanstring_length s). destruct (scanstring s) as [[k r]|e]; cbn [mbind result_bind]; [|done].
    destruct (skip_ws r) as [|d r1] eqn:Er; [done|]. pose proof (Hws _ _ _ Er). case_decide; [|done].
    cbn [length] in *. pose proof (skip_ws_length r1).
    specialize (IH1 (skip_ws r1) ltac:(lia)).
    destruct (scan_once n (skip_ws r1)) as [[v r2]|e]; cbn [mbind result_bind]; [|done]. simpl in IH1.
    destruct (skip_ws r2) as [|d' r3] eqn:Er2; [done|]. pose proof (Hws _ _ _ Er2).
    pose proof (skip_ws_length r3). case_decide; [simpl; lia|]. case_decide; [|done].
    apply (Hmono _ _ (skip_ws r3)); [apply IH3; lia|simpl; lia].
Qed.

Lemma loads_total s : loads s ≠ Raise OutOfFuel.
Proof.
  unfold loads. pose proof (skip_ws_length s).
  destruct (scan_total (2 * length s + 1)) as [H1 _]. specialize (H1 (skip_ws s) ltac:(lia)).
  destruct (scan_once _ _) as [[v r]|e]; cbn [mbind result_bind].
  - by case_decide.
  - intros [= ->]. by apply H1.
Qed.
