(* ===== verification/PyRandom.v ===== *)
(** * Random draws

    A random generator is an arbitrary stream of integers read at a position; a draw
    below [n] is reduced modulo [n], so that every sequence of draws in range is the
    reading of some stream. Loops that draw until a condition holds have a fuel. *)

From S2P Require Import Prelude.

Section draws.
Variable rnd : nat → Z.

(** [np.random.randint(n)]: raises on an empty range. *)
Definition rand_int (n : Z) (pos : nat) : result Z :=
  if n <=? 0 then Raise ValueError else Ok (rnd pos mod n).

(** [x = randint(n)] followed by [while x in seen: x = randint(n)]. *)
Fixpoint fresh_draw (fuel : nat) (n : Z) (seen : gset Z) (pos : nat) : result (Z * nat) :=
  match fuel with
  | O => Raise OutOfFuel
  | S fuel =>
      x ← rand_int n pos;
      if decide (x ∈ seen) then fresh_draw fuel n seen (S pos) else Ok (x, S pos)
  end.

Lemma rand_int_ok n pos : 0 < n → ∃ x, rand_int n pos = Ok x ∧ 0 ≤ x < n.
Proof.
  intros Hn. unfold rand_int. destruct (Z.leb_spec n 0); [lia|].
  eexists. split; [done|]. apply Z.mod_pos_bound. lia.
Qed.

Lemma fresh_draw_sound fuel n seen pos x pos' :
  fresh_draw fuel n seen pos = Ok (x, pos') → 0 ≤ x < n ∧ x ∉ seen.
Proof.
  revert pos. induction fuel as [|fuel IH]; intros pos; simpl; [done|].
  unfold rand_int. destruct (Z.leb_spec n 0); simpl; [done|].
  case_decide; [by apply IH|]. intros [= <- _]. split; [apply Z.mod_pos_bound; lia|done].
Qed.

(** The loop ends at the first draw outside [seen]. *)
Lemma fresh_draw_ends fuel k n seen pos :
  0 < n → rnd (pos + k)%nat mod n ∉ seen → (k < fuel)%nat →
  ∃ x pos', fresh_draw fuel n seen pos = Ok (x, pos') ∧ 0 ≤ x < n ∧ x ∉ seen.
Proof.
  intros Hn Hk Hf. assert (∃ x pos', fresh_draw fuel n seen pos = Ok (x, pos')) as (x & pos' & Hx).
  { revert pos k Hk Hf. induction fuel as [|fuel IH]; intros pos k Hk Hf; [lia|]. simpl.
    unfold rand_int. destruct (Z.leb_spec n 0); [lia|]. simpl. case_decide as Hin; [|by eexists _, _].
    destruct k as [|k]; [by rewrite Nat.add_0_r in Hk|].
    apply (IH (S pos) k); [by rewrite Nat.add_succ_comm|lia]. }
  exists x, pos'. split; [done|]. by eapply fresh_draw_sound.
Qed.
End draws.

(** The stream [0, 1, 2, ...] runs through all residues, so it finds a fresh number
    below [n] within [n] draws. *)
Lemma sequential_fresh n seen pos :
  Z.of_nat (size seen) < n → ∃ x pos', fresh_draw Z.of_nat (Z.to_nat n) n seen pos = Ok (x, pos').
Proof.
  intros Hsize. assert (∃ v, 0 ≤ v < n ∧ v ∉ seen) as (v & Hv & Hns).
  { destruct (decide (Forall (λ v, v ∈ seen) (py_range 0 n 1))) as [Hall|Hno].
    - exfalso. assert (list_to_set (py_range 0 n 1) ⊆ seen) as Hsub.
      { intros v Hv. apply elem_of_list_to_set in Hv. by eapply Forall_forall in Hall. }
      apply subseteq_size in Hsub. rewrite size_list_to_set in Hsub by (by apply NoDup_py_range).
      unfold py_range in Hsub. rewrite length_fmap, length_seq, Z.div_1_r in Hsub. lia.
    - apply not_Forall_Exists in Hno; [|apply _]. apply Exists_exists in Hno as (v & Hv & ?).
      apply elem_of_py_range in Hv; [|lia]. exists v. split; [lia|done]. }
  edestruct (fresh_draw_ends Z.of_nat (Z.to_nat n) (Z.to_nat ((v - Z.of_nat pos) mod n)) n seen pos)
    as (x & pos' & Hx & _); [lia| | |by eexists _, _].
  - pose proof (Z.mod_pos_bound (v - Z.of_nat pos) n ltac:(lia)).
    rewrite Nat2Z.inj_add, Z2Nat.id, Zplus_mod_idemp_r by lia.
    replace (Z.of_nat pos + (v - Z.of_nat pos)) with v by lia. by rewrite Z.mod_small by lia.
  - pose proof (Z.mod_pos_bound (v - Z.of_nat pos) n ltac:(lia)). lia.
Qed.
