(* ===== verification/Heapq.v ===== *)
(** * Binary heaps ([heapq])

    The list-based heap operations of the standard library, as CPython writes
    them, over any element type with a boolean [<]. The clients are the request
    queue of the RPC tracker and the top-k set of the annealing optimiser; what they
    rely on is that a heap is a multiset whose head is a minimum. *)

From S2P Require Import Prelude.

(** [<] of the elements, with the laws that sorting needs on the elements of interest. *)
Class HeapOrd (A : Type) := { hlt : A → A → bool; hgood : A → Prop }.
Class HeapOrdLaws (A : Type) `{HeapOrd A} := {
  hlt_irrefl : ∀ a, hgood a → hlt a a = false;
  hlt_asym : ∀ a b, hgood a → hgood b → hlt a b = true → hlt b a = false;
  hlt_neg_trans : ∀ a b c, hgood a → hgood b → hgood c →
    hlt a b = false → hlt b c = false → hlt a c = false
}.

(** [(pos - 1) >> 1] *)
Definition parent (pos : nat) : nat := Nat.div2 (pos - 1).

Section ops.
Context {A : Type} `{HeapOrd A}.
Implicit Types (l : list A) (x : A).

(** The loop of [_siftdown]: returns the list (the slot [pos] still to be written)
    and the final position. The position decreases, so it is its own fuel. *)
Fixpoint siftdown_loop (fuel : nat) l (startpos pos : nat) (newitem : A) : list A * nat :=
  match fuel with
  | O => (l, pos)
  | S fuel =>
      if decide (startpos < pos)%nat then
        let parentpos := parent pos in
        match l !! parentpos with
        | Some parent =>
            if hlt newitem parent
            then siftdown_loop fuel (<[pos := parent]> l) startpos parentpos newitem
            else (l, pos)
        | None => (l, pos)
        end
      else (l, pos)
  end.

Definition siftdown l (startpos pos : nat) : list A :=
  match l !! pos with
  | Some newitem =>
      let '(l', pos') := siftdown_loop pos l startpos pos newitem in <[pos' := newitem]> l'
  | None => l
  end.

(** The child of [pos] that moves up: the smaller one, the right one on a tie. *)
Definition smaller_child l (childpos : nat) : nat :=
  let rightpos := S childpos in
  match l !! childpos, l !! rightpos with
  | Some c, Some r => if hlt c r then childpos else rightpos
  | _, _ => childpos
  end.

(** The loop of [_siftup]: the hole descends to a leaf. *)
Fixpoint siftup_loop (fuel : nat) l (pos : nat) : list A * nat :=
  match fuel with
  | O => (l, pos)
  | S fuel =>
      let childpos := (2 * pos + 1)%nat in
      if decide (childpos < length l)%nat then
        let childpos := smaller_child l childpos in
        match l !! childpos with
        | Some c => siftup_loop fuel (<[pos := c]> l) childpos
        | None => (l, pos)
        end
      else (l, pos)
  end.

Definition siftup l (pos : nat) : list A :=
  match l !! pos with
  | Some newitem =>
      let '(l', pos') := siftup_loop (length l) l pos in
      siftdown (<[pos' := newitem]> l') pos pos'
  | None => l
  end.

Definition heappush l x : list A := siftdown (l ++ [x]) 0 (length l).

Definition heappop l : result (A * list A) :=
  match last l with
  | None => Raise IndexError
  | Some lastelt =>
      let l' := take (length l - 1) l in
      match l' with
      | [] => Ok (lastelt, [])
      | returnitem :: _ => Ok (returnitem, siftup (<[O := lastelt]> l') 0)
      end
  end.

Definition heapreplace l x : result (A * list A) :=
  match l with
  | [] => Raise IndexError
  | returnitem :: _ => Ok (returnitem, siftup (<[O := x]> l) 0)
  end.

Definition heapify l : list A :=
  foldl (λ l i, siftup l i) l (reverse (seq 0 (Nat.div2 (length l)))).
End ops.

(** ** Positions *)

Lemma parent_iff c p : (0 < c)%nat → parent c = p ↔ (c = 2 * p + 1 ∨ c = 2 * p + 2)%nat.
Proof.
  intros Hc. unfold parent. pose proof (Nat.div2_odd (c - 1)) as Hd.
  destruct (Nat.odd (c - 1)); simpl Nat.b2n in Hd; lia.
Qed.

Lemma parent_lt c : (0 < c)%nat → (parent c < c)%nat.
Proof. intros Hc. pose proof (proj1 (parent_iff c (parent c) Hc) eq_refl). lia. Qed.

(** [c] is in the subtree of [s]. *)
Inductive desc (s : nat) : nat → Prop :=
| desc_refl : desc s s
| desc_child c : (0 < c)%nat → desc s (parent c) → desc s c.

Lemma desc_le s c : desc s c → (s ≤ c)%nat.
Proof. induction 1 as [|c Hc _ IH]; [lia|]. pose proof (parent_lt c Hc). lia. Qed.

Lemma desc_0 c : desc 0 c.
Proof.
  induction (lt_wf c) as [c _ IH]. destruct (decide (c = 0%nat)) as [->|]; [constructor|].
  apply desc_child; [lia|]. apply IH, parent_lt. lia.
Qed.

Lemma desc_parent s c : desc s c → (s < c)%nat → desc s (parent c) ∧ (0 < c)%nat.
Proof. destruct 1; [lia|done]. Qed.

(** ** Correctness of the sifts *)

Section sift.
Context {A : Type} `{HeapOrdLaws A}.
Implicit Types (l v : list A) (x : A).

(** The edge from [p] to [c] respects the order. *)
Definition le_ok l (p c : nat) : Prop :=
  ∀ x y, l !! p = Some x → l !! c = Some y → hlt y x = false.

Definition heap_from (s : nat) l : Prop :=
  ∀ c, (0 < c)%nat → (s ≤ parent c)%nat → le_ok l (parent c) c.

(** Every edge is right but the one above [pos], whose children are not below its
    parent. *)
Record down_inv (s : nat) v (pos : nat) : Prop := {
  di_edges : ∀ c, (0 < c)%nat → c ≠ pos → (s ≤ parent c)%nat → le_ok v (parent c) c;
  di_grand : ∀ c, (0 < c)%nat → parent c = pos → (s < pos)%nat → le_ok v (parent pos) c;
  di_desc : desc s pos
}.

Lemma down_inv_done s v pos :
  down_inv s v pos → ((s < pos)%nat → le_ok v (parent pos) pos) → heap_from s v.
Proof.
  intros [He _ Hd] Hpos c Hc Hs. destruct (decide (c = pos)) as [->|]; [|by apply He].
  apply Hpos. pose proof (parent_lt pos Hc). lia.
Qed.

Lemma down_inv_step s v pos newitem par :
  Forall hgood v → down_inv s v pos → (s < pos)%nat →
  v !! pos = Some newitem → v !! parent pos = Some par → hlt newitem par = true →
  down_inv s (<[parent pos := newitem]> (<[pos := par]> v)) (parent pos).
Proof.
  intros Hg [He Hgr Hd] Hs Hnew Hpar Hlt. destruct (desc_parent s pos Hd Hs) as [Hdp Hpos].
  set (q := parent pos) in *. pose proof (parent_lt pos Hpos) as Hq. fold q in Hq.
  assert (Hgn : hgood newitem) by (by eapply Forall_lookup_1).
  assert (Hgp : hgood par) by (by eapply Forall_lookup_1).
  assert (Hnp : hlt par newitem = false) by (by apply hlt_asym).
  set (v' := <[q := newitem]> (<[pos := par]> v)).
  assert (Hvq : v' !! q = Some newitem).
  { apply list_lookup_insert_eq. rewrite length_insert. by eapply lookup_lt_Some. }
  assert (Hvp : v' !! pos = Some par).
  { unfold v'. rewrite list_lookup_insert_ne by lia. apply list_lookup_insert_eq.
    by eapply lookup_lt_Some. }
  assert (Hvo : ∀ c, c ≠ q → c ≠ pos → v' !! c = v !! c).
  { intros c ??. unfold v'. by rewrite !list_lookup_insert_ne. }
  pose proof (desc_le _ _ Hdp) as Hsq.
  (* a sibling of [pos] is not below [par] *)
  assert (Hsib : ∀ c y, (0 < c)%nat → c ≠ pos → parent c = q → v !! c = Some y → hlt y par = false).
  { intros c y Hc Hcp Hpc Hy. refine (He c Hc Hcp _ par y _ Hy); rewrite Hpc; [lia|done]. }
  split; [| |done].
  - intros c Hc Hcq Hsc x y Hx Hy. destruct (decide (c = pos)) as [->|Hcp].
    { fold q in Hx. congruence. }
    pose proof (parent_lt c Hc). rewrite Hvo in Hy by done.
    assert (Hgy : hgood y) by (by eapply Forall_lookup_1).
    destruct (decide (parent c = pos)) as [Hpc|Hpc].
    { rewrite Hpc, Hvp in Hx. injection Hx as <-. by eapply (Hgr c Hc Hpc Hs). }
    destruct (decide (parent c = q)) as [Hpq|Hpq].
    { rewrite Hpq, Hvq in Hx. injection Hx as <-.
      apply (hlt_neg_trans _ par); [done..| |done]. exact (Hsib c y Hc Hcp Hpq Hy). }
    rewrite Hvo in Hx by done. by eapply (He c Hc Hcp Hsc).
  - intros c Hc Hpc Hsq' x y Hx Hy. destruct (desc_parent s q Hdp Hsq') as [Hdq Hq0].
    pose proof (parent_lt q Hq0). pose proof (desc_le _ _ Hdq).
    rewrite Hvo in Hx by lia. assert (Hgx : hgood x) by (by eapply Forall_lookup_1).
    assert (Hpx : hlt par x = false) by (by eapply (He q Hq0); [lia|done|done|]).
    destruct (decide (c = pos)) as [->|Hcp]; [congruence|].
    pose proof (parent_lt c Hc). rewrite Hvo in Hy by (done || lia).
    assert (Hgy : hgood y) by (by eapply Forall_lookup_1).
    apply (hlt_neg_trans _ par); [done..| |done]. exact (Hsib c y Hc Hcp Hpc Hy).
Qed.

Lemma siftdown_loop_spec fuel : ∀ l s pos newitem l' pos',
  (pos ≤ fuel)%nat → (pos < length l)%nat → Forall hgood (<[pos := newitem]> l) →
  down_inv s (<[pos := newitem]> l) pos →
  siftdown_loop fuel l s pos newitem = (l', pos') →
  <[pos' := newitem]> l' ≡ₚ <[pos := newitem]> l ∧ heap_from s (<[pos' := newitem]> l').
Proof.
  induction fuel as [|fuel IH]; intros l s pos newitem l' pos' Hf Hlen Hg Hinv Heq; simpl in Heq.
  { injection Heq as <- <-. split; [done|]. eapply down_inv_done; [done|]. lia. }
  destruct (decide (s < pos)%nat) as [Hs|Hs]; cycle 1.
  { injection Heq as <- <-. split; [done|]. eapply down_inv_done; [done|]. lia. }
  assert (Hpos : (0 < pos)%nat) by lia. pose proof (parent_lt pos Hpos) as Hq.
  destruct (lookup_lt_is_Some_2 l (parent pos)) as [par Hpar]; [lia|]. rewrite Hpar in Heq.
  assert (Hvn : <[pos := newitem]> l !! pos = Some newitem) by (by apply list_lookup_insert_eq).
  assert (Hvq : <[pos := newitem]> l !! parent pos = Some par)
    by (by rewrite list_lookup_insert_ne by lia).
  destruct (hlt newitem par) eqn:Hlt.
  - pose proof (down_inv_step s _ pos newitem par Hg Hinv Hs Hvn Hvq Hlt) as Hinv'.
    rewrite list_insert_insert_eq in Hinv'.
    assert (Hp : <[parent pos := newitem]> (<[pos := par]> l) ≡ₚ <[pos := newitem]> l).
    { rewrite <-(Permutation_insert_swap _ pos (parent pos) newitem par Hvn Hvq) at 1.
      by rewrite list_insert_insert_eq. }
    destruct (IH (<[pos := par]> l) s (parent pos) newitem l' pos') as [Hperm Hheap];
      [lia|rewrite length_insert; lia|by rewrite Hp|done|done|].
    split; [|done]. by rewrite Hperm.
  - injection Heq as <- <-. split; [done|]. eapply down_inv_done; [done|].
    intros _ x y Hx Hy. congruence.
Qed.

Lemma siftdown_spec l s pos :
  (pos < length l)%nat → Forall hgood l → down_inv s l pos →
  siftdown l s pos ≡ₚ l ∧ heap_from s (siftdown l s pos).
Proof.
  intros Hlen Hg Hinv. unfold siftdown.
  destruct (lookup_lt_is_Some_2 l pos Hlen) as [x Hx]. rewrite Hx.
  destruct (siftdown_loop pos l s pos x) as [l' pos'] eqn:Heq.
  rewrite <-(list_insert_id l pos x Hx) in Hg, Hinv.
  destruct (siftdown_loop_spec pos l s pos x l' pos') as [Hp Hh]; [lia|done|done|done|done|].
  split; [|done]. by rewrite Hp, list_insert_id.
Qed.

(** The list with a hole at [pos]: the edges away from it are right, and its children
    are not below its parent. *)
Record up_inv (s : nat) l (pos : nat) : Prop := {
  ui_edges : ∀ c, (0 < c)%nat → c ≠ pos → parent c ≠ pos → (s ≤ parent c)%nat → le_ok l (parent c) c;
  ui_grand : ∀ c, (0 < c)%nat → parent c = pos → (s < pos)%nat → le_ok l (parent pos) c;
  ui_desc : desc s pos
}.

Lemma smaller_child_spec l pos :
  (2 * pos + 1 < length l)%nat → Forall hgood l →
  let m := smaller_child l (2 * pos + 1) in
  (m < length l)%nat ∧ (0 < m)%nat ∧ parent m = pos ∧
  ∀ c x y, (0 < c)%nat → parent c = pos → c ≠ m → l !! m = Some x → l !! c = Some y → hlt y x = false.
Proof.
  intros Hlen Hg. unfold smaller_child.
  destruct (lookup_lt_is_Some_2 l (2 * pos + 1) Hlen) as [a Ha]. rewrite Ha.
  destruct (l !! S (2 * pos + 1)) as [b|] eqn:Hb; [destruct (hlt a b) eqn:Hab|].
  - split_and!; [done|lia|apply parent_iff; lia|]. intros c x y Hc Hp Hne Hx Hy.
    apply parent_iff in Hp; [|done]. assert (c = S (2 * pos + 1)) as -> by lia.
    simplify_eq. apply hlt_asym; [by eapply Forall_lookup_1..|done].
  - split_and!; [by eapply lookup_lt_Some|lia|apply parent_iff; lia|].
    intros c x y Hc Hp Hne Hx Hy. apply parent_iff in Hp; [|done].
    assert (c = 2 * pos + 1)%nat as -> by lia. by simplify_eq.
  - split_and!; [done|lia|apply parent_iff; lia|]. intros c x y Hc Hp Hne Hx Hy.
    apply parent_iff in Hp; [|done]. assert (c = S (2 * pos + 1)) as -> by lia. congruence.
Qed.

Lemma up_inv_step s l pos m x :
  up_inv s l pos → (m < length l)%nat → (0 < m)%nat → parent m = pos → l !! m = Some x →
  (∀ c x y, (0 < c)%nat → parent c = pos → c ≠ m → l !! m = Some x → l !! c = Some y → hlt y x = false) →
  up_inv s (<[pos := x]> l) m.
Proof.
  intros [He Hgr Hd] Hm Hm0 Hpm Hx Hmin. pose proof (parent_lt m Hm0) as Hlt. rewrite Hpm in Hlt.
  assert (Hpos : <[pos := x]> l !! pos = Some x) by (apply list_lookup_insert_eq; lia).
  assert (Hoth : ∀ c, c ≠ pos → <[pos := x]> l !! c = l !! c)
    by (intros c ?; by rewrite list_lookup_insert_ne).
  pose proof (desc_le _ _ Hd). split.
  - intros c Hc Hcm Hpc Hs a b Ha Hb. pose proof (parent_lt c Hc).
    destruct (decide (c = pos)) as [->|Hcp].
    { rewrite Hpos in Hb. injection Hb as <-. rewrite Hoth in Ha by lia.
      refine (Hgr m Hm0 Hpm _ a x Ha Hx). lia. }
    rewrite Hoth in Hb by done. destruct (decide (parent c = pos)) as [Hp|Hp].
    { rewrite Hp, Hpos in Ha. injection Ha as <-. exact (Hmin c x b Hc Hp Hcm Hx Hb). }
    rewrite Hoth in Ha by done. exact (He c Hc Hcp Hp Hs a b Ha Hb).
  - intros c Hc Hpc Hs a b Ha Hb. rewrite Hpm, Hpos in Ha. injection Ha as <-.
    pose proof (parent_lt c Hc). rewrite Hoth in Hb by lia.
    refine (He c Hc _ _ _ x b _ Hb); rewrite ?Hpc; (lia || done).
  - apply desc_child; [done|]. by rewrite Hpm.
Qed.

Lemma siftup_loop_spec fuel : ∀ l s pos newitem l' pos',
  (length l ≤ pos + fuel)%nat → (pos < length l)%nat → Forall hgood l → up_inv s l pos →
  siftup_loop fuel l pos = (l', pos') →
  (pos' < length l')%nat ∧ <[pos' := newitem]> l' ≡ₚ <[pos := newitem]> l ∧
  down_inv s (<[pos' := newitem]> l') pos'.
Proof.
  induction fuel as [|fuel IH]; intros l s pos newitem l' pos' Hf Hpos Hg Hinv Heq; cbn [siftup_loop] in Heq.
  { lia. }
  destruct (decide (2 * pos + 1 < length l)%nat) as [Hc|Hc].
  - destruct (smaller_child_spec l pos Hc Hg) as (Hm & Hm0 & Hpm & Hmin).
    set (m := smaller_child l (2 * pos + 1)) in *. pose proof (parent_lt m Hm0).
    destruct (lookup_lt_is_Some_2 l m Hm) as [x Hx]. rewrite Hx in Heq.
    destruct (IH (<[pos := x]> l) s m newitem l' pos') as (Hl & Hp & Hd); [| | | |done|].
    + rewrite length_insert. lia.
    + by rewrite length_insert.
    + apply Forall_insert; [done|by eapply Forall_lookup_1].
    + by apply up_inv_step.
    + split_and!; [done| |done]. rewrite Hp.
      rewrite <-(Permutation_insert_swap (<[pos := newitem]> l) pos m newitem x).
      * by rewrite list_insert_insert_eq.
      * by apply list_lookup_insert_eq.
      * by rewrite list_lookup_insert_ne by lia.
  - injection Heq as <- <-. split_and!; [done|done|]. destruct Hinv as [He Hgr Hd].
    assert (Hleaf : ∀ c, (0 < c)%nat → parent c = pos → l !! c = None).
    { intros c Hc0 Hp. apply parent_iff in Hp; [|done]. apply lookup_ge_None_2. lia. }
    split; [| |done].
    + intros c Hc0 Hne Hs x y Hx Hy. rewrite list_lookup_insert_ne in Hy by done.
      destruct (decide (parent c = pos)) as [Hp|Hp]; [by rewrite Hleaf in Hy|].
      rewrite list_lookup_insert_ne in Hx by done. exact (He c Hc0 Hne Hp Hs x y Hx Hy).
    + intros c Hc0 Hp Hs x y Hx Hy. pose proof (parent_lt c Hc0).
      rewrite list_lookup_insert_ne in Hy by lia. by rewrite Hleaf in Hy.
Qed.

Lemma siftup_spec l s :
  (s < length l)%nat → Forall hgood l → heap_from (S s) l →
  siftup l s ≡ₚ l ∧ heap_from s (siftup l s).
Proof.
  intros Hlen Hg Hheap. unfold siftup.
  destruct (lookup_lt_is_Some_2 l s Hlen) as [x Hx]. rewrite Hx.
  destruct (siftup_loop (length l) l s) as [l' pos'] eqn:Heq.
  destruct (siftup_loop_spec (length l) l s s x l' pos') as (Hl & Hp & Hd); [lia|done|done| |done|].
  { split; [|lia|constructor]. intros c Hc Hne Hpn Hs. apply Hheap; [done|]. lia. }
  rewrite (list_insert_id l s x Hx) in Hp.
  destruct (siftdown_spec (<[pos' := x]> l') s pos') as [Hp' Hh].
  - by rewrite length_insert.
  - by rewrite Hp.
  - done.
  - split; [|done]. by rewrite Hp', Hp.
Qed.

(** ** Heaps *)

Definition is_heap l : Prop := heap_from 0 l.

Lemma is_heap_nil : is_heap [].
Proof. intros c _ _ x y Hx. by rewrite lookup_nil in Hx. Qed.

(** The head of a heap is a minimum. *)
Lemma heap_min l x i y :
  Forall hgood l → is_heap l → l !! 0%nat = Some x → l !! i = Some y → hlt y x = false.
Proof.
  intros Hg Hh Hx. revert y. induction (lt_wf i) as [i _ IH]. intros y Hy.
  assert (hgood x ∧ hgood y) as [? ?] by (split; by eapply Forall_lookup_1).
  destruct (decide (i = 0%nat)) as [->|Hi]; [simplify_eq; by apply hlt_irrefl|].
  pose proof (parent_lt i ltac:(lia)) as Hlt.
  destruct (lookup_lt_is_Some_2 l (parent i)) as [z Hz].
  { apply lookup_lt_Some in Hy. lia. }
  assert (hgood z) by (by eapply Forall_lookup_1).
  apply (hlt_neg_trans _ z); [done..| |by apply (IH (parent i))].
  exact (Hh i ltac:(lia) ltac:(lia) z y Hz Hy).
Qed.

Lemma heap_from_insert_root l x : is_heap l → heap_from 1 (<[O := x]> l).
Proof.
  intros Hh c Hc Hs a b Ha Hb. pose proof (parent_lt c Hc).
  rewrite list_lookup_insert_ne in Ha, Hb by lia. by apply (Hh c Hc ltac:(lia) a b).
Qed.

Lemma is_heap_prefix l k : is_heap l → is_heap (take k l).
Proof.
  intros Hh c Hc Hs a b Ha Hb. apply lookup_take_Some in Ha as [Ha _], Hb as [Hb _].
  by apply (Hh c Hc Hs a b).
Qed.

Lemma heappush_spec l x :
  is_heap l → Forall hgood l → hgood x →
  is_heap (heappush l x) ∧ heappush l x ≡ₚ x :: l.
Proof.
  intros Hh Hg Hx. destruct (siftdown_spec (l ++ [x]) 0 (length l)) as [Hp Hheap].
  - rewrite length_app. simpl. lia.
  - apply Forall_app. by repeat constructor.
  - split; [| |apply desc_0].
    + intros c Hc Hne Hs a b Ha Hb. pose proof (parent_lt c Hc).
      assert (c < length l)%nat.
      { apply lookup_lt_Some in Hb. rewrite length_app in Hb. simpl in Hb. lia. }
      rewrite lookup_app_l in Ha, Hb by lia. by apply (Hh c Hc Hs a b).
    + intros c Hc Hpc Hs a b Ha Hb. pose proof (parent_lt c Hc).
      apply lookup_lt_Some in Hb. rewrite length_app in Hb. simpl in Hb. lia.
  - unfold heappush. split; [done|]. rewrite Hp. by rewrite Permutation_app_comm.
Qed.

Lemma heapreplace_spec l x y r :
  is_heap l → Forall hgood l → hgood x → heapreplace l x = Ok (y, r) →
  l !! 0%nat = Some y ∧ is_heap r ∧ y :: r ≡ₚ x :: l.
Proof.
  intros Hh Hg Hx. destruct l as [|z l]; [done|]. unfold heapreplace. intros [= -> <-].
  destruct (siftup_spec (<[O := x]> (y :: l)) 0) as [Hp Hheap].
  - simpl. lia.
  - apply Forall_insert; done.
  - by apply heap_from_insert_root.
  - split_and!; [done|done|]. rewrite Hp. simpl. by rewrite Permutation_swap.
Qed.

Lemma heappop_spec l :
  is_heap l → Forall hgood l → l ≠ [] →
  ∃ y r, heappop l = Ok (y, r) ∧ l !! 0%nat = Some y ∧ is_heap r ∧ l ≡ₚ y :: r.
Proof.
  intros Hh Hg Hne. destruct (exists_last Hne) as (k & z & ->). unfold heappop.
  rewrite last_snoc, length_app. simpl. replace (length k + 1 - 1)%nat with (length k) by lia.
  rewrite take_app_length. destruct k as [|y k].
  { exists z, []. split_and!; [done|done|apply is_heap_nil|done]. }
  apply Forall_app in Hg as [Hgk Hgz]. apply Forall_cons in Hgz as [Hgz _].
  assert (Hhk : is_heap (y :: k)).
  { rewrite <-(take_app_length (y :: k) [z]). by apply is_heap_prefix. }
  destruct (siftup_spec (<[O := z]> (y :: k)) 0) as [Hp Hheap].
  - simpl. lia.
  - by apply Forall_insert.
  - by apply heap_from_insert_root.
  - eexists _, _. split; [reflexivity|]. split_and!; [done|done|].
    rewrite Hp. simpl. f_equiv. by rewrite Permutation_app_comm.
Qed.

Lemma heapify_spec l : Forall hgood l → is_heap (heapify l) ∧ heapify l ≡ₚ l.
Proof.
  intros Hg. unfold heapify.
  assert (∀ k l', (k ≤ length l)%nat → l' ≡ₚ l → heap_from k l' →
    is_heap (foldl (λ l i, siftup l i) l' (reverse (seq 0 k))) ∧
    foldl (λ l i, siftup l i) l' (reverse (seq 0 k)) ≡ₚ l) as Hk.
  { induction k as [|k IH]; intros l' Hk Hp Hh; [done|].
    rewrite seq_S, reverse_app. simpl.
    destruct (siftup_spec l' k) as [Hp' Hh']; [rewrite Hp; lia|by rewrite Hp|done|].
    apply IH; [lia|by rewrite Hp'|done]. }
  apply Hk; [|done|].
  - pose proof (Nat.div2_odd (length l)). lia.
  - intros c Hc Hs x y Hx Hy. apply lookup_lt_Some in Hy.
    pose proof (Nat.div2_odd (length l)). pose proof (proj1 (parent_iff c (parent c) Hc) eq_refl).
    destruct (Nat.odd (length l)); simpl Nat.b2n in *; lia.
Qed.
End sift.

#[export] Hint Resolve is_heap_nil : pruner.
