(* ===== verification/Knobs.v ===== *)
(** * Knob vectors and points of a configuration space

    [point2knob] and [knob2point] of
    [python/tvm/autotvm/tuner/model_based_tuner.py]: the mixed-radix reading of an
    index, least significant knob first. *)

From S2P Require Import Prelude.

(** [p % dim] and [p // dim] raise on a zero dimension. *)
Fixpoint point2knob (p : Z) (dims : list Z) : result (list Z) :=
  match dims with
  | [] => Ok []
  | dim :: dims =>
      if dim =? 0 then Raise ZeroDivisionError
      else knob ← point2knob (p / dim) dims; Ok (p mod dim :: knob)
  end.

(** [sum(int(np.prod(dims[:j])) * k for j, k in enumerate(knob))]; the product is an
    int64 product. [done] is [dims[:j]]. *)
Fixpoint knob2point_aux (done rest : list Z) (knob : list Z) (p : Z) : Z :=
  match knob with
  | [] => p
  | k :: knob =>
      knob2point_aux (done ++ take 1 rest) (drop 1 rest) knob (p + np_prod done * k)
  end.

Definition knob2point (knob dims : list Z) : Z := knob2point_aux [] dims knob 0.

(** ** Round trips *)

(** A vector whose knobs are within the dimensions. *)
Definition knob_ok (knob dims : list Z) : Prop := Forall2 (λ k d, 0 ≤ k < d) knob dims.

#[export] Instance knob_ok_dec knob dims : Decision (knob_ok knob dims).
Proof. unfold knob_ok. apply _. Defined.

(** The exact mixed-radix value. *)
Fixpoint radix (knob dims : list Z) : Z :=
  match knob, dims with
  | k :: knob, d :: dims => k + d * radix knob dims
  | _, _ => 0
  end.

Lemma knob_ok_dims knob dims : knob_ok knob dims → Forall (λ d, 1 ≤ d) dims.
Proof. induction 1; constructor; [lia|done]. Qed.

Lemma radix_bounds knob dims : knob_ok knob dims → 0 ≤ radix knob dims < Zprod dims.
Proof. induction 1 as [|k d ks ds ? ? IH]; simpl; [lia|nia]. Qed.

Lemma Zprod_take_le j l : Forall (λ d, 1 ≤ d) l → Zprod (take j l) ≤ Zprod l.
Proof.
  intros Hl. rewrite <-(take_drop j l) at 2. rewrite Zprod_app.
  rewrite <-(take_drop j l) in Hl. apply Forall_app in Hl as [H1 H2].
  assert (0 < Zprod (take j l)).
  { apply Zprod_pos. eapply Forall_impl; [exact H1|]. simpl; lia. }
  assert (0 < Zprod (drop j l)).
  { apply Zprod_pos. eapply Forall_impl; [exact H2|]. simpl; lia. }
  nia.
Qed.

Lemma knob2point_radix_aux done rest knob p :
  knob_ok knob rest → Forall (λ d, 1 ≤ d) done → Zprod (done ++ rest) < 2 ^ 63 →
  knob2point_aux done rest knob p = p + Zprod done * radix knob rest.
Proof.
  intros Hk. revert done p.
  induction Hk as [|k d ks ds Hkd Hk IH]; intros done p Hdone Hb; simpl; [lia|].
  rewrite IH.
  - rewrite np_prod_exact; [rewrite Zprod_app; simpl; ring|done|].
    apply Z.le_lt_trans with (Zprod (done ++ d :: ds)); [|done].
    rewrite <-(take_app_length done (d :: ds)) at 1. apply Zprod_take_le.
    apply Forall_app. split; [done|]. constructor; [lia|by apply knob_ok_dims in Hk].
  - apply Forall_app. split; [done|]. constructor; [lia|constructor].
  - by rewrite <-app_assoc.
Qed.

Lemma knob2point_radix knob dims :
  knob_ok knob dims → Zprod dims < 2 ^ 63 → knob2point knob dims = radix knob dims.
Proof.
  intros Hk Hb. unfold knob2point. rewrite knob2point_radix_aux; [simpl; lia|done|constructor|done].
Qed.

Lemma point2knob_ok p dims :
  Forall (λ d, 1 ≤ d) dims → 0 ≤ p < Zprod dims →
  ∃ knob, point2knob p dims = Ok knob ∧ knob_ok knob dims ∧ radix knob dims = p.
Proof.
  intros Hd. revert p. induction Hd as [|d ds Hd Hds IH]; intros p Hp; simpl in *.
  { exists []. split; [done|]. split; [by constructor|simpl; lia]. }
  destruct (Z.eqb_spec d 0); [lia|].
  destruct (IH (p / d)) as (knob & Hk & Hok & Hr).
  { split; [apply Z.div_pos; lia|]. apply Z.div_lt_upper_bound; lia. }
  rewrite Hk. simpl. eexists. split; [reflexivity|]. split.
  - constructor; [apply Z.mod_pos_bound; lia|done].
  - simpl. rewrite Hr. pose proof (Z.div_mod p d). lia.
Qed.

Lemma point2knob_radix knob dims :
  knob_ok knob dims → point2knob (radix knob dims) dims = Ok knob.
Proof.
  induction 1 as [|k d ks ds Hk Hks IH]; simpl; [done|].
  destruct (Z.eqb_spec d 0); [lia|].
  replace (k + d * radix ks ds) with (k + radix ks ds * d) by ring.
  rewrite Z.div_add, (Z.div_small k d), Z.add_0_l, IH by lia.
  simpl. by rewrite Z.mod_add, Z.mod_small by lia.
Qed.

#[export] Hint Resolve knob_ok_dims radix_bounds : pruner.

(** C24: for a space of fewer than [2^63] points, [knob2point] and [point2knob]
    are inverse bijections between the points and the knob vectors within the
    dimensions. *)
Theorem knob_point_bijection (dims : list Z) :
  Forall (λ d, 1 ≤ d) dims → Zprod dims < 2 ^ 63 →
  (∀ p, 0 ≤ p < Zprod dims → ∃ knob, point2knob p dims = Ok knob ∧ knob_ok knob dims ∧
     knob2point knob dims = p) ∧
  (∀ knob, knob_ok knob dims → 0 ≤ knob2point knob dims < Zprod dims ∧
     point2knob (knob2point knob dims) dims = Ok knob).
Proof.
  intros Hd Hb. split.
  - intros p Hp. destruct (point2knob_ok p dims Hd Hp) as (knob & Hk & Hok & Hr).
    exists knob. by rewrite knob2point_radix.
  - intros knob Hk. rewrite knob2point_radix by done. split; [by apply radix_bounds|].
    by apply point2knob_radix.
Qed.

Lemma knob_point_bijection_witness :
  (∀ p, 0 ≤ p < Zprod [4; 3; 5] → ∃ knob, point2knob p [4; 3; 5] = Ok knob ∧
     knob_ok knob [4; 3; 5] ∧ knob2point knob [4; 3; 5] = p) ∧
  (∀ knob, knob_ok knob [4; 3; 5] → 0 ≤ knob2point knob [4; 3; 5] < Zprod [4; 3; 5] ∧
     point2knob (knob2point knob [4; 3; 5]) [4; 3; 5] = Ok knob).
Proof.
  apply (knob_point_bijection [4; 3; 5]); [repeat constructor; lia|simpl; lia].
Defined.
