(* ===== verification/SplitSpace.v ===== *)
(** * Split spaces ([python/tvm/autotvm/task/space.py], lines 47-304)

    Axis placeholders, the factor enumerations [get_factors] and [get_pow2s],
    [SplitSpace] with its depth-first enumeration and [SplitEntity.apply].
    [int(math.sqrt(n))] is [Z.sqrt n] and [math.floor(math.log2(n))] is
    [Z.log2 n]: the double-precision results of CPython agree with them for the
    axis lengths TVM tunes (below [2^48]). *)

From S2P Require Import Prelude.

(** ** Axis placeholders *)

(** What [get_const_int] and [VirtualAxis] tell apart with [isinstance]. *)
Inductive pexpr :=
| PyInt (z : Z)
| IntImm (z : Z)
| OtherExpr (id : nat).

Inductive axis_var :=
| VarInt (z : Z)
| VarIterVar (name : string) (extent : option pexpr)
| VarAxis (length : Z)
| VarOther.

Record VirtualAxis := { ax_name : string; ax_length : Z }.

Section axis.
(** The arithmetic simplifier is C++ code behind the FFI. *)
Variable simplify : pexpr → pexpr.

Definition get_const_int (exp : pexpr) : result Z :=
  match exp with
  | PyInt z => Ok z
  | _ =>
      let exp := match exp with IntImm _ => exp | _ => simplify exp end in
      match exp with IntImm z => Ok z | _ => Raise ValueError end
  end.

(** The state is the class counter [VirtualAxis.name_ct]. *)
Definition VirtualAxis_init (var : axis_var) (name : option string) : M Z VirtualAxis :=
  name ← match name with
         | Some n => mret n
         | None => ct ← get_st; _ ← put_st (ct + 1); mret ("axis_" +:+ pretty ct)
         end;
  match var with
  | VarInt z => mret {| ax_name := name; ax_length := z |}
  | VarIterVar n None => mret {| ax_name := n; ax_length := -1 |}
  | VarIterVar n (Some e) =>
      z ← lift (get_const_int e); mret {| ax_name := n; ax_length := z |}
  | VarAxis len => mret {| ax_name := name; ax_length := len |}
  | VarOther => raise RuntimeError
  end.
End axis.

(** ** Factor enumerations *)

Definition get_factors (n : Z) : result (list Z) :=
  let step := if n mod 2 =? 0 then 1 else 2 in
  if n <? 0 then Raise ValueError else
  match filter (λ i, n mod i = 0) (py_range 1 (Z.sqrt n + 1) step) with
  | [] => Raise TypeError
  | ds => Ok (py_sorted (remove_dups (ds ≫= λ i, [i; n / i])))
  end.

Definition get_pow2s (n : Z) : result (list Z) :=
  if n <=? 0 then Raise ValueError
  else Ok ((λ x, 2 ^ x) <$> py_range 0 (Z.log2 n + 1) 1).

(** ** Split spaces *)

Record SplitEntity := { size : list Z }.

#[export] Instance SplitEntity_eq_dec : EqDecision SplitEntity.
Proof. solve_decision. Defined.

(** The keyword arguments; [None] is an absent keyword. *)
Record SplitKwargs := {
  kw_max_factor : option Z;
  kw_filter : option (SplitEntity → bool);
  kw_num_outputs : option Z;
  kw_no_tail : option bool;
  kw_candidate : option (list (list Z))
}.

Record SplitSpace := {
  sp_policy : string;
  sp_product : Z;
  sp_num_output : Z;
  sp_entities : list SplitEntity
}.

(** [_generate_space]: [k] is [num_output - 1 - now], the slots of [tmp_stack]
    still to be written, and [tmp_stack] is its written prefix. The entities are
    returned in the order the depth-first search appends them. *)
Fixpoint split_generate_space (product : Z) (factors : list Z) (enforce_no_tail : bool)
    (k : nat) (tmp_stack : list Z) : result (list SplitEntity) :=
  match k with
  | O =>
      prod ← reduce_mul tmp_stack;
      if product <? prod then Ok []
      else if prod =? 0 then Raise ZeroDivisionError
      else if (product mod prod =? 0) || (negb enforce_no_tail && (prod <? product))
           then Ok [{| size := -1 :: reverse tmp_stack |}]
           else Ok []
  | S k =>
      es ← mmapr (λ factor,
             split_generate_space product factors enforce_no_tail k (tmp_stack ++ [factor]))
           factors;
      Ok (concat es)
  end.

Section split_space.
(** The iteration order of a Python set of ints. *)
Variable set_iter : list Z → list Z.

Definition split_factors (policy : string) (product max_factor : Z) : result (list Z) :=
  if decide (policy = "verbose") then
    divisibles ← get_factors product;
    pow2s ← get_pow2s product;
    Ok (filter (λ x, x ≤ max_factor) (set_iter (remove_dups (divisibles ++ pow2s))))
  else if decide (policy = "factors") then
    fs ← get_factors product; Ok (filter (λ x, x ≤ max_factor) fs)
  else if decide (policy = "power2") then
    ps ← get_pow2s product; Ok (filter (λ x, x ≤ max_factor) ps)
  else Raise RuntimeError.

Definition SplitSpace_init (axis_length : Z) (policy : string) (kw : SplitKwargs) : result SplitSpace :=
  let max_factor := default (Z.shiftl 1 31) (kw_max_factor kw) in
  let fil := default (λ _, true) (kw_filter kw) in
  let product := axis_length in
  let num_output := default 0 (kw_num_outputs kw) in
  _ ← py_assert (0 <? num_output);
  entities ←
    (if decide (policy = "candidate") then
       cands ← of_option KeyError (kw_candidate kw);
       mmapr (λ sz, _ ← py_assert (Z.of_nat (length sz) =? num_output);
                    Ok {| size := sz |}) cands
     else
       factors ← split_factors policy product max_factor;
       let no_tail := default (bool_decide (policy = "factors")) (kw_no_tail kw) in
       split_generate_space product factors no_tail (Z.to_nat (num_output - 1)) []);
  Ok {| sp_policy := policy; sp_product := product; sp_num_output := num_output;
        sp_entities := filter (λ e, fil e = true) entities |}.
End split_space.

(** ** Applying a split *)

(** The extents the lowering gives to the two axes of a split by a constant
    factor; the inner extent is tightened to the parent's unless an axis
    derived from it is bound to a thread. *)
Definition split_extent (thread_bound : bool) (extent factor : Z) : Z * Z :=
  (if extent mod factor =? 0 then extent / factor else (extent + (factor - 1)) / factor,
   if thread_bound || (extent =? 0) then factor
   else if extent <? factor then extent else factor).

(** [SplitEntity.apply] over axes given by their extents: axis [i] of the
    result is the outer axis of the split by [np.prod(size[i:])]. *)
Fixpoint split_apply_loop (thread_bound : bool) (sizes : list Z) (axis : Z) : list Z :=
  match sizes with
  | [] => [axis]
  | s :: rest =>
      let '(ax0, ax1) := split_extent thread_bound axis (np_prod (s :: rest)) in
      ax0 :: split_apply_loop thread_bound rest ax1
  end.

Definition SplitEntity_apply (thread_bound : bool) (e : SplitEntity) (axis : Z) : list Z :=
  split_apply_loop thread_bound (tail (size e)) axis.

(** ** Lemmas *)

Lemma small_factor_in_range n d :
  0 < n → 0 < d → (d | n) → d ≤ Z.sqrt n →
  d ∈ filter (λ i, n mod i = 0)
        (py_range 1 (Z.sqrt n + 1) (if n mod 2 =? 0 then 1 else 2)).
Proof.
  intros Hn Hd Hdn Hs. apply list_elem_of_filter. split.
  { by apply Z.mod_divide; [lia|]. }
  apply elem_of_py_range; [by destruct (n mod 2 =? 0)|].
  split; [lia|]. destruct (n mod 2 =? 0) eqn:E; bool_to_prop; [apply Z.divide_1_l|].
  destruct (Z.Even_or_Odd d) as [[k ->]|[k ->]].
  - exfalso. apply E. apply Z.mod_divide; [lia|].
    destruct Hdn as [m ->]. exists (m * k). ring.
  - exists k. ring.
Qed.

Lemma factors_elem n d :
  0 < n →
  d ∈ (filter (λ i, n mod i = 0)
         (py_range 1 (Z.sqrt n + 1) (if n mod 2 =? 0 then 1 else 2)) ≫= λ i, [i; n / i])
  ↔ 0 < d ∧ (d | n).
Proof.
  intros Hn. rewrite list_elem_of_bind. split.
  - intros (i & Hd & [Hi Hr]%list_elem_of_filter).
    apply elem_of_py_range in Hr as [[? _] _]; [|by destruct (n mod 2 =? 0)].
    apply Z.mod_divide in Hi; [|lia]. destruct Hi as [m Hm].
    assert (0 < m) by nia. assert (n / i = m) as Hq.
    { subst n. apply Z.div_mul. lia. }
    rewrite Hq in Hd. apply elem_of_cons in Hd as [->|Hd%list_elem_of_singleton]; [|subst d].
    + split; [lia|]. by exists m.
    + split; [lia|]. exists i. lia.
  - intros [Hd [m Hm]]. assert (0 < m) by nia.
    destruct (decide (d ≤ Z.sqrt n)) as [Hs|Hs].
    + exists d. split; [constructor|]. apply small_factor_in_range; try done. by exists m.
    + exists m. split.
      * assert (n / m = d) as ->; [|set_solver]. subst n. rewrite Z.mul_comm. apply Z.div_mul. lia.
      * apply small_factor_in_range; try done; [exists d; lia|].
        pose proof (Z.sqrt_spec n) as Hsq. cbv zeta in Hsq.
        assert (Z.sqrt n < d) by lia.
        destruct (decide (m ≤ Z.sqrt n)); [done|].
        assert (Z.succ (Z.sqrt n) * Z.succ (Z.sqrt n) ≤ m * d) by nia. lia.
Qed.

Lemma Sorted_strict l : Sorted Z.le l → NoDup l → StronglySorted Z.lt l.
Proof.
  intros Hs Hn. apply Sorted_StronglySorted in Hs; [|intros ???; lia].
  induction Hs as [|x l Hs IH Hx]; constructor.
  - apply IH. by apply NoDup_cons in Hn as [_ ?].
  - apply NoDup_cons in Hn as [Hn _]. rewrite Forall_forall in *.
    intros y Hy. specialize (Hx y Hy). assert (x ≠ y) by (intros ->; done). lia.
Qed.

Lemma StronglySorted_lt_NoDup l : StronglySorted Z.lt l → NoDup l.
Proof.
  induction 1 as [|x l _ IH Hx]; constructor; [|done].
  rewrite Forall_forall in Hx. intros Hin. specialize (Hx x Hin). lia.
Qed.

Lemma get_factors_correct n :
  0 < n → ∃ l, get_factors n = Ok l ∧ StronglySorted Z.lt l ∧ (∀ d, d ∈ l ↔ 0 < d ∧ (d | n)).
Proof.
  intros Hn. unfold get_factors. replace (n <? 0) with false by lia.
  pose proof (factors_elem n 1 Hn) as H1.
  pose proof (λ d, factors_elem n d Hn) as Hall.
  destruct (filter _ _) as [|x ds] eqn:E.
  - exfalso. simpl in H1. assert (1 ∈ ([] : list Z)); [|set_solver].
    apply H1. split; [lia|]. apply Z.divide_1_l.
  - eexists. split; [done|]. split.
    + apply Sorted_strict; [apply py_sorted_Sorted|].
      rewrite py_sorted_perm. apply NoDup_remove_dups.
    + intros d. rewrite py_sorted_perm, elem_of_remove_dups. apply Hall.
Qed.

Lemma get_pow2s_correct n :
  0 < n → ∃ l, get_pow2s n = Ok l ∧ (∀ d, d ∈ l ↔ d ≤ n ∧ ∃ k, 0 ≤ k ∧ d = 2 ^ k).
Proof.
  intros Hn. unfold get_pow2s. replace (n <=? 0) with false by lia.
  eexists. split; [done|]. intros d. rewrite list_elem_of_fmap. split.
  - intros (k & -> & [[? ?] _]%elem_of_py_range); [|lia].
    split; [|by exists k]. apply Z.le_trans with (2 ^ Z.log2 n).
    + apply Z.pow_le_mono_r; lia.
    + by apply Z.log2_spec.
  - intros [Hd (k & Hk & ->)]. exists k. split; [done|].
    apply elem_of_py_range; [lia|]. split; [|apply Z.divide_1_l].
    apply Z.log2_le_pow2 in Hd; lia.
Qed.

(** ** The enumeration as a product filtered by the tail condition *)

Definition tail_ok (product : Z) (no_tail : bool) (st : list Z) : Prop :=
  Zprod st ≤ product ∧ ((Zprod st | product) ∨ (no_tail = false ∧ Zprod st < product)).

#[export] Instance tail_ok_dec product no_tail st : Decision (tail_ok product no_tail st).
Proof. unfold tail_ok. apply _. Defined.

Lemma concat_fmap_bind {A B C} (h : list A → list B) (g : C → list A) l :
  h [] = [] → (∀ x y, h (x ++ y) = h x ++ h y) →
  concat ((λ c, h (g c)) <$> l) = h (l ≫= g).
Proof.
  intros Hnil Happ. induction l as [|c l IH]; [done|].
  csimpl. rewrite Happ. by f_equal.
Qed.

Definition mk_split (st : list Z) : SplitEntity := {| size := -1 :: reverse st |}.

Lemma split_generate_space_eq product fs nt k tmp :
  Forall (λ x, 0 < x) fs → Forall (λ x, 0 < x) tmp → (0 < length tmp + k)%nat →
  split_generate_space product fs nt k tmp =
    Ok (mk_split <$> filter (tail_ok product nt) ((tmp ++.) <$> tuples fs k)).
Proof.
  intros Hfs. revert tmp. induction k as [|k IH]; intros tmp Htmp Hlen; simpl.
  - rewrite reduce_mul_ok by (intros ->; simpl in *; lia). cbn [mbind result_bind].
    rewrite app_nil_r. pose proof (Zprod_pos tmp Htmp).
    rewrite filter_cons. unfold tail_ok at 1.
    replace (Zprod tmp =? 0) with false by lia.
    destruct (product <? Zprod tmp) eqn:E1; bool_to_prop.
    { rewrite decide_False; [done|]. intros [? _]; lia. }
    assert (Hdiv : product mod Zprod tmp = 0 ↔ (Zprod tmp | product))
      by (apply Z.mod_divide; lia).
    destruct ((product mod Zprod tmp =? 0) || (negb nt && (Zprod tmp <? product))) eqn:E2.
    + rewrite decide_True; [done|]. split; [done|].
      apply orb_true_iff in E2 as [?|?]; bool_to_prop; [left; tauto|right; auto].
    + apply orb_false_iff in E2 as [E2 E3]. bool_to_prop. rewrite decide_False; [done|].
      intros [_ [?|[-> ?]]]; [tauto|].
      apply andb_false_iff in E3 as [?|?]; bool_to_prop; [done|lia].
  - rewrite (mmapr_ok _ (λ f, mk_split <$>
      filter (tail_ok product nt) ((tmp ++.) <$> ((f ::.) <$> tuples fs k)))).
    2: { intros f Hf. rewrite IH; [| |rewrite length_app; simpl; lia].
         - do 2 f_equal. rewrite <-list_fmap_compose. f_equal.
           apply list_fmap_ext. intros _ st _. simpl. by rewrite <-app_assoc.
         - apply Forall_app. split; [done|]. constructor; [|done].
           by eapply Forall_forall in Hfs. }
    simpl. f_equal.
    apply (concat_fmap_bind (λ l, mk_split <$> filter (tail_ok product nt) ((tmp ++.) <$> l))
             (λ f, (f ::.) <$> tuples fs k)); [done|].
    intros x y. by rewrite fmap_app, filter_app, fmap_app.
Qed.

Lemma split_factors_factors set_iter product m :
  0 < product →
  ∃ fs, split_factors set_iter "factors" product m = Ok fs ∧ NoDup fs ∧
    (∀ d, d ∈ fs ↔ 0 < d ∧ (d | product) ∧ d ≤ m).
Proof.
  intros Hp. destruct (get_factors_correct product Hp) as (l & Hl & Hs & Hd).
  unfold split_factors. rewrite decide_False by done. rewrite decide_True by done.
  rewrite Hl. cbn [mbind result_bind]. eexists. split; [done|]. split.
  - apply NoDup_filter. by apply StronglySorted_lt_NoDup.
  - intros d. rewrite list_elem_of_filter, Hd. tauto.
Qed.

Lemma SplitSpace_init_generate set_iter L policy n kw fs :
  policy ≠ "candidate" → 2 ≤ n → kw_num_outputs kw = Some n →
  split_factors set_iter policy L (default (Z.shiftl 1 31) (kw_max_factor kw)) = Ok fs →
  Forall (λ x, 0 < x) fs →
  SplitSpace_init set_iter L policy kw = Ok {|
    sp_policy := policy; sp_product := L; sp_num_output := n;
    sp_entities := filter (λ e, default (λ _, true) (kw_filter kw) e = true)
      (mk_split <$>
         filter (tail_ok L (default (bool_decide (policy = "factors")) (kw_no_tail kw)))
           (tuples fs (Z.to_nat (n - 1)))) |}.
Proof.
  intros Hc Hn Hkn Hfs Hpos. unfold SplitSpace_init. rewrite Hkn.
  change (default 0 (Some n)) with n. replace (0 <? n) with true by lia. cbn [py_assert mbind result_bind].
  rewrite decide_False by done. rewrite Hfs. cbn [mbind result_bind].
  rewrite split_generate_space_eq; [|done|constructor|simpl; lia].
  cbn [mbind result_bind]. do 5 f_equal. apply (list_fmap_id (tuples _ _)).
Qed.

Lemma Forall_pos_elem (fs : list Z) :
  (∀ d, d ∈ fs → 0 < d) → Forall (λ x, 0 < x) fs.
Proof. by rewrite Forall_forall. Qed.

Lemma elem_of_mk_split L nt fs k e :
  e ∈ mk_split <$> filter (tail_ok L nt) (tuples fs k) ↔
  ∃ st, size e = -1 :: st ∧ length st = k ∧ Forall (.∈ fs) st ∧ tail_ok L nt st.
Proof.
  rewrite list_elem_of_fmap. split.
  - intros (st & -> & [Hok [<- Hst]%elem_of_tuples]%list_elem_of_filter).
    exists (reverse st). split; [done|]. rewrite length_reverse. split; [done|].
    split; [by apply Forall_reverse|]. unfold tail_ok in *. by rewrite Zprod_reverse.
  - intros (st & He & <- & Hst & Hok). exists (reverse st). split.
    + unfold mk_split. rewrite reverse_involutive. destruct e as [sz]. simpl in *. by subst.
    + apply list_elem_of_filter. split.
      * unfold tail_ok in *. by rewrite Zprod_reverse.
      * apply elem_of_tuples. rewrite length_reverse. split; [done|]. by apply Forall_reverse.
Qed.

Lemma NoDup_mk_split (l : list (list Z)) : NoDup l → NoDup (mk_split <$> l).
Proof.
  intros Hl. apply NoDup_fmap_2; [|done].
  intros x y [= H]. by apply (inj reverse).
Qed.

Lemma filter_true {A} (l : list A) : filter (λ _, true = true) l = l.
Proof. induction l as [|x l IH]; [done|]. rewrite filter_cons_True by done. by f_equal. Qed.

(** The loop of [apply] cuts an axis into the sizes themselves when they divide it. *)
Lemma split_apply_loop_sizes tb st axis :
  Forall (λ x, 1 ≤ x) st → (Zprod st | axis) → 0 < axis < 2 ^ 63 →
  split_apply_loop tb st axis = axis / Zprod st :: st.
Proof.
  intros Hst. revert axis. induction Hst as [|s rest Hs Hrest IH]; intros axis Hd Ha.
  { simpl. by rewrite Z.div_1_r. }
  cbn [split_apply_loop].
  assert (0 < Zprod rest).
  { apply Zprod_pos. eapply Forall_impl; [exact Hrest|]. simpl; lia. }
  assert (Hle : Zprod (s :: rest) ≤ axis) by (apply Z.divide_pos_le; [lia|done]).
  rewrite np_prod_exact; [|by constructor|lia].
  unfold split_extent. apply Z.mod_divide in Hd as Hmod; [|simpl; nia].
  replace (axis mod _ =? 0) with true by lia.
  replace (axis =? 0) with false by lia. replace (axis <? _) with false by lia.
  replace (if tb || false then _ else _) with (Zprod (s :: rest)) by (by destruct tb).
  rewrite IH.
  - do 2 f_equal. simpl. apply Z.div_mul. lia.
  - exists s. done.
  - simpl in *. nia.
Qed.

(** ** Properties *)

(** [get_factors] returns, for every positive [n], the strictly increasing
    list of exactly the positive divisors of [n]; the odd-number stride and the
    square-root bound lose none. *)
Theorem get_factors_spec (n : Z) :
  0 < n →
  ∃ l, get_factors n = Ok l ∧ StronglySorted Z.lt l ∧
       (∀ d, d ∈ l ↔ 0 < d ∧ (d | n)).
Proof. apply get_factors_correct. Qed.

Lemma get_factors_spec_witness :
  ∃ l, get_factors 45 = Ok l ∧ StronglySorted Z.lt l ∧
       (∀ d, d ∈ l ↔ 0 < d ∧ (d | 45)).
Proof. apply (get_factors_spec 45). lia. Defined.

(** C3: with the default arguments of the policy "factors", [define_split] into
    [n >= 2] axes enumerates, each exactly once, all the splits [-1 :: st] whose
    [n - 1] inner sizes are divisors of the length (at most the default
    [max_factor]) with a product that divides the length. *)
Theorem split_space_factors_exact set_iter (L n : Z) :
  0 < L → 2 ≤ n →
  ∃ sp, SplitSpace_init set_iter L "factors"
          {| kw_max_factor := None; kw_filter := None; kw_num_outputs := Some n;
             kw_no_tail := None; kw_candidate := None |} = Ok sp ∧
    NoDup (sp_entities sp) ∧
    (∀ e, e ∈ sp_entities sp ↔
       ∃ st, size e = -1 :: st ∧ Z.of_nat (length st) = n - 1 ∧
             Forall (λ d, 0 < d ∧ (d | L) ∧ d ≤ 2 ^ 31) st ∧ (Zprod st | L)).
Proof.
  intros HL Hn.
  destruct (split_factors_factors set_iter L (2 ^ 31) HL) as (fs & Hfs & Hnd & Hd).
  eexists. split.
  { apply (SplitSpace_init_generate _ _ _ n _ fs); try done.
    apply Forall_pos_elem. intros d ?%Hd. tauto. }
  simpl. rewrite filter_true. split.
  { by apply NoDup_mk_split, NoDup_filter, NoDup_tuples. }
  intros e. rewrite elem_of_mk_split. apply exist_proper. intros st.
  assert (Forall (.∈ fs) st ↔ Forall (λ d, 0 < d ∧ (d | L) ∧ d ≤ 2 ^ 31) st) as ->
    by (apply Forall_iff; intros d; apply Hd).
  unfold tail_ok. split.
  - intros (? & ? & ? & ? & [?|[? _]]); [|done]. repeat split; try done; lia.
  - intros (? & ? & ? & ?). repeat split; try done; [lia| |by left].
    by apply Z.divide_pos_le.
Qed.

Lemma split_space_factors_exact_witness :
  ∃ sp, SplitSpace_init (λ l, l) 12 "factors"
          {| kw_max_factor := None; kw_filter := None; kw_num_outputs := Some 3;
             kw_no_tail := None; kw_candidate := None |} = Ok sp ∧
    NoDup (sp_entities sp) ∧
    (∀ e, e ∈ sp_entities sp ↔
       ∃ st, size e = -1 :: st ∧ Z.of_nat (length st) = 3 - 1 ∧
             Forall (λ d, 0 < d ∧ (d | 12) ∧ d ≤ 2 ^ 31) st ∧ (Zprod st | 12)).
Proof. apply (split_space_factors_exact (λ l, l) 12 3); lia. Defined.

(** splitting a loop of extent [L] with any entity of the "factors" space
    gives loops whose extents are the sizes of the entity, the outermost one being
    the quotient: the product of the extents is [L], so there is no tail. *)
Theorem split_apply_no_tail set_iter (L n : Z) (tb : bool) sp e :
  0 < L < 2 ^ 63 → 2 ≤ n →
  SplitSpace_init set_iter L "factors"
    {| kw_max_factor := None; kw_filter := None; kw_num_outputs := Some n;
       kw_no_tail := None; kw_candidate := None |} = Ok sp →
  e ∈ sp_entities sp →
  SplitEntity_apply tb e L = L / Zprod (tail (size e)) :: tail (size e) ∧
  Zprod (SplitEntity_apply tb e L) = L ∧
  Z.of_nat (length (SplitEntity_apply tb e L)) = n.
Proof.
  intros HL Hn Hsp He.
  destruct (split_factors_factors set_iter L (2 ^ 31) ltac:(lia)) as (fs & Hfs & _ & Hd).
  rewrite (SplitSpace_init_generate _ _ _ n _ fs) in Hsp; try done.
  2: { apply Forall_pos_elem. intros d ?%Hd. tauto. }
  inv_ok. simpl in He. rewrite filter_true in He.
  apply elem_of_mk_split in He as (st & Hsz & Hlen & Hst & _ & Hok).
  destruct Hok as [Hok|[? _]]; [|done].
  unfold SplitEntity_apply. rewrite Hsz. simpl tail.
  assert (Forall (λ x, 1 ≤ x) st).
  { eapply Forall_impl; [exact Hst|]. intros x Hx. apply Hd in Hx. lia. }
  rewrite split_apply_loop_sizes by (try done; lia).
  split; [done|]. split; [|simpl; lia]. simpl.
  destruct Hok as [q Hq]. rewrite Hq at 1.
  assert (0 < Zprod st).
  { apply Zprod_pos. eapply Forall_impl; [done|]. simpl. lia. }
  rewrite Z.div_mul by lia. lia.
Qed.

Lemma split_apply_no_tail_witness :
  SplitEntity_apply true {| size := [-1; 2; 3] |} 12 = [2; 2; 3] ∧
  Zprod (SplitEntity_apply true {| size := [-1; 2; 3] |} 12) = 12 ∧
  Z.of_nat (length (SplitEntity_apply true {| size := [-1; 2; 3] |} 12)) = 3.
Proof.
  eapply (split_apply_no_tail (λ l, l) 12 3 true _ {| size := [-1; 2; 3] |});
    [lia|lia|reflexivity|]. apply list_elem_of_lookup. exists 11%nat. reflexivity.
Defined.

(** a split space asked for one output axis cannot be built with the
    policies "factors", "power2" and "verbose": although [num_outputs = 1] passes
    the assertion, the reduction over the empty stack raises [TypeError]. *)
Theorem split_space_single_output set_iter (L : Z) (policy : string) kw :
  0 < L → policy ∈ ["factors"; "power2"; "verbose"] → kw_num_outputs kw = Some 1 →
  SplitSpace_init set_iter L policy kw = Raise TypeError.
Proof.
  intros HL Hp Hn. unfold SplitSpace_init. rewrite Hn. simpl.
  destruct (get_factors_correct L HL) as (fs & Hfs & _).
  destruct (get_pow2s_correct L HL) as (ps & Hps & _).
  rewrite !elem_of_cons, elem_of_nil in Hp.
  destruct Hp as [-> | [-> | [-> | []]]]; unfold split_factors; simpl;
    rewrite ?Hfs, ?Hps; done.
Qed.

Lemma split_space_single_output_witness :
  SplitSpace_init (λ l, l) 12 "factors"
    {| kw_max_factor := None; kw_filter := None; kw_num_outputs := Some 1;
       kw_no_tail := None; kw_candidate := None |} = Raise TypeError.
Proof. apply split_space_single_output; [lia|set_solver|reflexivity]. Defined.
