(* ===== verification/ReorderSpace.v ===== *)
(** * Reorder spaces ([python/tvm/autotvm/task/space.py], lines 307-430)

    [ReorderSpace] with its policies, the chain merge [_merge_chain] /
    [_merge_dfs], and [ReorderEntity.apply]. The axes are any type with decidable
    equality; a permutation is a list of positions. *)

From S2P Require Import Prelude.

Record ReorderEntity := { perm : list Z }.

#[export] Instance ReorderEntity_eq_dec : EqDecision ReorderEntity.
Proof. solve_decision. Defined.

(** ** [itertools.permutations], in the order the library emits them *)

(** Every element of a list with the others, left to right. *)
Fixpoint picks {A} (l : list A) : list (A * list A) :=
  match l with
  | [] => []
  | x :: l => (x, l) :: ((λ '(y, r), (y, x :: r)) <$> picks l)
  end.

Fixpoint permutations_aux {A} (n : nat) (l : list A) : list (list A) :=
  match n with
  | O => [[]]
  | S n => picks l ≫= λ '(x, r), (x ::.) <$> permutations_aux n r
  end.

Definition permutations {A} (l : list A) : list (list A) := permutations_aux (length l) l.

(** ** Merging chains *)

(** [np.argmax]: the first position of a maximum. *)
Fixpoint argmax_aux (best : nat) (besti i : nat) (l : list nat) : nat :=
  match l with
  | [] => besti
  | x :: l => if decide (best < x)%nat then argmax_aux x i (S i) l
              else argmax_aux best besti (S i) l
  end.

Definition np_argmax (l : list nat) : nat :=
  match l with [] => O | x :: l => argmax_aux x O 1 l end.

(** [_merge_dfs]: the stack and the chain pointers are restored after the
    recursive call, so they are arguments; the calls append to [merged] in the
    order of the loop. *)
Fixpoint merge_dfs {A} (fuel : nat) (chains : list (list A)) (size : nat)
    (tmp_pt : list nat) (tmp_stack : list A) : list (list A) :=
  if decide (sum_list tmp_pt = size) then [tmp_stack] else
  match fuel with
  | O => []
  | S fuel =>
      seq 0 (length chains) ≫= λ i,
        if decide (tmp_pt !!! i < length (chains !!! i) ∧
                   i = np_argmax (zip_with (λ c p, length c - p) chains tmp_pt))%nat
        then match (chains !!! i) !! (tmp_pt !!! i) with
             | Some x => merge_dfs fuel chains size
                           (<[i := S (tmp_pt !!! i)]> tmp_pt) (tmp_stack ++ [x])
             | None => []
             end
        else []
  end.

Definition merge_chain {A} (chains : list (list A)) : list (list A) :=
  let size := sum_list (length <$> chains) in
  merge_dfs size chains size (replicate (length chains) O) [].

(** ** Reorder spaces *)

Section reorder_space.
Context {A : Type} `{EqDecision A}.

Record ReorderKwargs := {
  kw_interval : option (Z * Z);
  kw_candidates : option (list (list A));
  kw_spatial : option (list (list A));
  kw_reduce : option (list (list A))
}.

Definition index_chains (axes : list A) (chs : list (list A)) : result (list (list Z)) :=
  mmapr (mmapr (py_index axes)) chs.

(** [x[-1]] raises on an empty chain; [x[:-1]] and [x[-1:]] do not. *)
Definition py_last (l : list Z) : result Z := of_option IndexError (last l).
Definition but_last (l : list Z) : list Z := take (length l - 1) l.
Definition last_slice (l : list Z) : list Z := drop (length l - 1) l.

Definition ReorderSpace_init (axes : list A) (policy : string) (kw : ReorderKwargs)
    : result (list ReorderEntity) :=
  let n := Z.of_nat (length axes) in
  if decide (policy = "identity") then Ok [{| perm := py_range 0 n 1 |}]
  else if decide (policy = "all") then
    Ok (Build_ReorderEntity <$> permutations (py_range 0 n 1))
  else if decide (policy = "interval_all") then
    '(begin_, end_) ← of_option KeyError (kw_interval kw);
    let sub_space := permutations (py_range begin_ end_ 1) in
    Ok ((λ x, {| perm := py_range 0 begin_ 1 ++ x ++ py_range end_ n 1 |}) <$> sub_space)
  else if decide (policy = "candidate") then
    cands ← of_option KeyError (kw_candidates kw);
    ps ← index_chains axes cands; Ok (map Build_ReorderEntity ps)
  else if decide (policy = "interleave") then
    sp ← of_option KeyError (kw_spatial kw);
    rd ← of_option KeyError (kw_reduce kw);
    spatial ← index_chains axes sp;
    reduce ← index_chains axes rd;
    let outer_merged := merge_chain (map but_last spatial) in
    let inner_merged := merge_chain (map last_slice spatial ++ reduce) in
    Ok (o ← outer_merged; i ← inner_merged; [{| perm := o ++ i |}])
  else if decide (policy = "interleave_cuda") then
    sp ← of_option KeyError (kw_spatial kw);
    rd ← of_option KeyError (kw_reduce kw);
    spatial ← index_chains axes sp;
    reduce ← index_chains axes rd;
    let outer_merged := merge_chain (map but_last spatial) in
    let reduce_merged := merge_chain reduce in
    inner_merged ← mmapr py_last spatial;
    Ok (o ← outer_merged; r ← reduce_merged; [{| perm := o ++ r ++ inner_merged |}])
  else Raise RuntimeError.

(** [ReorderEntity.apply] returns the new order of the axes (which it passes to
    [sch[op].reorder]); positions beyond the axes are skipped only when the
    lengths differ. *)
Definition ReorderEntity_apply (e : ReorderEntity) (axes : list A) : result (list A) :=
  if decide (length axes = length (perm e)) then mmapr (py_nth axes) (perm e)
  else mmapr (py_nth axes) (filter (λ i, i < Z.of_nat (length axes)) (perm e)).
End reorder_space.
Arguments ReorderKwargs A : clear implicits.

(** ** Permutations *)

Lemma elem_of_picks {A} (l : list A) x r :
  (x, r) ∈ picks l → l ≡ₚ x :: r.
Proof.
  revert x r. induction l as [|y l IH]; intros x r; simpl; [by intros ?%not_elem_of_nil|].
  intros [Heq|([z q] & Heq & Hin)%list_elem_of_fmap]%elem_of_cons; [by simplify_eq|].
  simplify_eq. rewrite (IH z q Hin). by rewrite Permutation_swap.
Qed.

Lemma picks_complete {A} (l : list A) x : x ∈ l → ∃ r, (x, r) ∈ picks l.
Proof.
  induction 1 as [x l|x y l _ [r Hr]]; simpl; [by exists l; left|].
  exists (y :: r). right. apply list_elem_of_fmap. by exists (x, r).
Qed.

Lemma picks_fst {A} (l : list A) : (picks l).*1 = l.
Proof.
  induction l as [|x l IH]; simpl; [done|]. f_equal. rewrite <-IH at 2.
  rewrite <-list_fmap_compose. by apply list_fmap_ext; intros ? [? ?] ?.
Qed.

Lemma elem_of_permutations_aux {A} n (l p : list A) :
  length l = n → p ∈ permutations_aux n l ↔ p ≡ₚ l.
Proof.
  revert l p. induction n as [|n IH]; intros l p Hl; simpl.
  { apply length_zero_iff_nil in Hl as ->. rewrite list_elem_of_singleton.
    split; [by intros ->|]. apply Permutation_nil_r. }
  rewrite list_elem_of_bind. split.
  - intros ([x r] & (q & -> & Hq)%list_elem_of_fmap & Hin).
    apply elem_of_picks in Hin. rewrite Hin. f_equiv. apply IH; [|done].
    apply Permutation_length in Hin. simpl in Hin. lia.
  - intros Hp. destruct p as [|x q].
    { apply Permutation_length in Hp. simpl in Hp. lia. }
    destruct (picks_complete l x) as [r Hr]; [rewrite <-Hp; by left|].
    exists (x, r). split; [|done]. apply list_elem_of_fmap. exists q. split; [done|].
    apply elem_of_picks in Hr. rewrite Hr in Hp. apply Permutation_cons_inv in Hp.
    apply IH; [|done]. apply Permutation_length in Hr. simpl in Hr. lia.
Qed.

Lemma NoDup_permutations_aux {A} n (l : list A) :
  NoDup l → length l = n → NoDup (permutations_aux n l).
Proof.
  revert l. induction n as [|n IH]; intros l Hnd Hl; simpl; [apply NoDup_singleton|].
  apply NoDup_bind.
  - intros [x1 r1] [x2 r2] p H1 H2 (q1 & -> & _)%list_elem_of_fmap
      (q2 & ? & _)%list_elem_of_fmap. simplify_eq.
    assert (Hf : NoDup (picks l).*1) by by rewrite picks_fst.
    apply list_elem_of_lookup in H1 as [i Hi], H2 as [j Hj].
    assert (i = j) as ->; [|congruence].
    eapply (NoDup_lookup _ i j x2 Hf); rewrite list_lookup_fmap; [by rewrite Hi|by rewrite Hj].
  - intros [x r] Hin%elem_of_picks. rewrite Hin in Hnd. apply NoDup_cons in Hnd as [_ Hnd].
    apply NoDup_fmap_2; [by intros ??[=]|]. apply IH; [done|].
    apply Permutation_length in Hin. simpl in Hin. lia.
  - eapply NoDup_fmap_1. by rewrite picks_fst.
Qed.

(** C23: the ["all"] policy offers every reordering of the axes, each exactly once. *)
Theorem reorder_all_exact {A} `{EqDecision A} (axes : list A) (kw : ReorderKwargs A) :
  ∃ es, ReorderSpace_init axes "all" kw = Ok es ∧ NoDup es ∧
        ∀ p, {| perm := p |} ∈ es ↔ p ≡ₚ py_range 0 (Z.of_nat (length axes)) 1.
Proof.
  eexists. split; [reflexivity|]. split.
  - apply NoDup_fmap_2; [by intros ??[=]|].
    apply NoDup_permutations_aux; [by apply NoDup_py_range|done].
  - intros p. rewrite list_elem_of_fmap. unfold permutations. split.
    + intros (q & [= ->] & Hq). by apply elem_of_permutations_aux in Hq.
    + intros Hp. exists p. split; [done|]. by apply elem_of_permutations_aux.
Qed.

(** ** Merging chains *)

Lemma argmax_aux_spec best besti i l (full : list nat) :
  (besti < i)%nat → drop i full = l → full !! besti = Some best →
  (∀ j x, (j < i)%nat → full !! j = Some x → (x ≤ best)%nat) →
  let k := argmax_aux best besti i l in
  ∃ m, full !! k = Some m ∧ ∀ j x, full !! j = Some x → (x ≤ m)%nat.
Proof.
  revert best besti i. induction l as [|y l IH]; intros best besti i Hb Hd Hbest Hle; simpl.
  { exists best. split; [done|]. intros j x Hj. eapply Hle; [|exact Hj].
    apply lookup_lt_Some in Hj. assert (length (drop i full) = 0)%nat by by rewrite Hd.
    rewrite length_drop in *. lia. }
  assert (Hy : full !! i = Some y).
  { rewrite <-(Nat.add_0_r i), <-lookup_drop. by rewrite Hd. }
  assert (Hd' : drop (S i) full = l) by (eapply drop_S in Hy; rewrite Hd in Hy; congruence).
  assert (Hj : ∀ j x, (j < S i)%nat → full !! j = Some x → (x ≤ best)%nat ∨ x = y).
  { intros j x ? Hx. destruct (decide (j = i)) as [->|]; [right; congruence|].
    left. eapply (Hle j); [lia|done]. }
  case_decide; (eapply IH; [lia|done|done|]); intros j x Hlt Hx;
    destruct (Hj j x Hlt Hx); lia.
Qed.

Lemma np_argmax_spec l :
  l ≠ [] → ∃ m, l !! np_argmax l = Some m ∧ ∀ j x, l !! j = Some x → (x ≤ m)%nat.
Proof.
  destruct l as [|y l]; [done|]. intros _.
  apply (argmax_aux_spec y 0 1 l (y :: l)); [lia|done|done|].
  intros j x Hj Hx. assert (j = 0)%nat as -> by lia. by injection Hx as ->.
Qed.

(** What is left of every chain at the pointers [pt]. *)
Definition rems {A} (chains : list (list A)) (pt : list nat) : list (list A) :=
  zip_with (λ c p, drop p c) chains pt.

Lemma rems_insert {A} (chains : list (list A)) pt i x r :
  rems chains pt !! i = Some (x :: r) →
  rems chains (<[i := S (pt !!! i)]> pt) = <[i := r]> (rems chains pt).
Proof.
  unfold rems. revert pt i. induction chains as [|c cs IH]; intros [|p pt] [|i] H;
    simplify_eq/=; f_equal; eauto.
  replace (S p) with (p + 1)%nat by lia. by rewrite <-drop_drop, H.
Qed.

Lemma rems_lookup {A} (chains : list (list A)) pt i x r :
  rems chains pt !! i = Some (x :: r) →
  (chains !!! i) !! (pt !!! i) = Some x ∧ (pt !!! i < length (chains !!! i))%nat ∧
  (i < length chains)%nat ∧ (i < length pt)%nat.
Proof.
  intros (c & p & Hd & Hc & Hp)%lookup_zip_with_Some.
  rewrite (list_lookup_total_correct _ _ _ Hc), (list_lookup_total_correct _ _ _ Hp).
  assert (Hx : c !! p = Some x) by (rewrite <-(Nat.add_0_r p), <-lookup_drop; by rewrite <-Hd).
  repeat split; [done| |by eapply lookup_lt_Some|by eapply lookup_lt_Some].
  by eapply lookup_lt_Some.
Qed.

Lemma sum_rems {A} (chains : list (list A)) pt :
  Forall2 (λ c p, p ≤ length c)%nat chains pt →
  (sum_list pt + length (concat (rems chains pt)) = sum_list (length <$> chains))%nat.
Proof.
  unfold rems. induction 1 as [|c p cs pt Hp _ IH]; csimpl; [done|].
  rewrite length_app, length_drop. lia.
Qed.

Lemma concat_insert {A} (ls : list (list A)) i x r :
  ls !! i = Some (x :: r) → concat ls ≡ₚ x :: concat (<[i := r]> ls).
Proof.
  revert i. induction ls as [|l ls IH]; intros [|i] H; simplify_eq/=; [done|].
  rewrite (IH i H). by rewrite Permutation_middle.
Qed.

Lemma bind_seq_single {B} n i (f : nat → list B) :
  (i < n)%nat → (∀ j, j ≠ i → f j = []) → seq 0 n ≫= f = f i.
Proof.
  intros Hi Hf. replace n with (i + S (n - S i))%nat by lia.
  rewrite seq_app, bind_app. simpl.
  assert (∀ a k, (i ∉ seq a k) → seq a k ≫= f = []) as Hn.
  { intros a k. revert a. induction k as [|k IH]; intros a Ha; simpl; [done|].
    simpl in Ha. apply not_elem_of_cons in Ha as [? ?]. rewrite Hf by done. by apply IH. }
  rewrite !Hn by (rewrite elem_of_seq; lia). by rewrite app_nil_r.
Qed.

Lemma argmax_rems_nonempty {A} (chains : list (list A)) pt :
  concat (rems chains pt) ≠ [] →
  ∃ x r, rems chains pt !! np_argmax (zip_with (λ c p, length c - p)%nat chains pt) = Some (x :: r).
Proof.
  intros Hne.
  assert (Hlen : zip_with (λ c p, length c - p)%nat chains pt = length <$> rems chains pt).
  { unfold rems. clear Hne. revert pt. induction chains as [|c cs IH]; intros [|p pt]; simpl; try done.
    rewrite length_drop. f_equal. apply IH. }
  rewrite Hlen. destruct (np_argmax_spec (length <$> rems chains pt)) as (m & Hm & Hmax).
  { intros Hnil%fmap_nil_inv. by rewrite Hnil in Hne. }
  rewrite list_lookup_fmap in Hm. destruct (rems chains pt !! _) as [[|x r]|] eqn:Hr in Hm;
    simplify_eq/=; [|by eauto].
  exfalso. apply Hne, concat_nil_Forall, Forall_lookup. intros j l Hl.
  apply nil_length_inv. specialize (Hmax j (length l)).
  rewrite list_lookup_fmap, Hl in Hmax. specialize (Hmax eq_refl). lia.
Qed.

Lemma merge_dfs_spec {A} fuel (chains : list (list A)) size pt st :
  size = sum_list (length <$> chains) →
  Forall2 (λ c p, p ≤ length c)%nat chains pt →
  (length (concat (rems chains pt)) ≤ fuel)%nat →
  ∃ m, merge_dfs fuel chains size pt st = [st ++ m] ∧ m ≡ₚ concat (rems chains pt) ∧
       Forall (λ c, c `sublist_of` m) (rems chains pt).
Proof.
  intros Hsize. revert pt st. induction fuel as [|fuel IH]; intros pt st Hpt Hfuel;
    pose proof (sum_rems chains pt Hpt) as Hsum.
  all: destruct (decide (concat (rems chains pt) = [])) as [Hnil|Hne].
  1,3: exists []; simpl; rewrite decide_True by (rewrite Hnil in Hsum; simpl in Hsum; lia);
    rewrite app_nil_r, Hnil; split_and!; [done|done|];
    apply concat_nil_Forall in Hnil; eapply Forall_impl; [exact Hnil|]; by intros ? ->.
  { destruct (concat (rems chains pt)); simpl in *; [done|lia]. }
  simpl. rewrite decide_False by (destruct (concat (rems chains pt)); simpl in *; [done|lia]).
  destruct (argmax_rems_nonempty chains pt Hne) as (x & r & Hr).
  set (i := np_argmax _) in *. destruct (rems_lookup _ _ _ _ _ Hr) as (Hx & Hlt & Hi & Hip).
  rewrite (bind_seq_single _ i); [|done|]; cycle 1.
  { intros j Hj. by rewrite decide_False by (by intros [_ ?]). }
  rewrite decide_True by done. rewrite Hx.
  pose proof (rems_insert _ _ _ _ _ Hr) as Hins. pose proof (concat_insert _ _ _ _ Hr) as Hcat.
  edestruct (IH (<[i := S (pt !!! i)]> pt) (st ++ [x])) as (m & Hm & Hperm & Hsub).
  { rewrite <-(list_insert_id chains i (chains !!! i)) by (by apply list_lookup_lookup_total_lt).
    apply Forall2_insert; [done|]. lia. }
  { rewrite Hins. apply Permutation_length in Hcat. simpl in Hcat. lia. }
  rewrite Hins in Hperm, Hsub. exists (x :: m). rewrite Hm, <-app_assoc. split_and!; [done| |].
  - by rewrite Hcat, Hperm.
  - apply Forall_lookup. intros j c Hc. destruct (decide (j = i)) as [->|].
    + rewrite Hr in Hc. injection Hc as <-. apply sublist_skip.
      apply (Forall_lookup_1 _ _ i _ Hsub). apply list_lookup_insert_eq.
      by apply lookup_lt_Some in Hr.
    + apply sublist_cons. apply (Forall_lookup_1 _ _ j _ Hsub).
      by rewrite list_lookup_insert_ne by done.
Qed.

Lemma merge_chain_spec {A} (chains : list (list A)) :
  ∃ m, merge_chain chains = [m] ∧ m ≡ₚ concat chains ∧ Forall (λ c, c `sublist_of` m) chains.
Proof.
  assert (Hr : rems chains (replicate (length chains) 0%nat) = chains).
  { unfold rems. induction chains as [|c cs IH]; simpl; [done|]. by f_equal. }
  destruct (merge_dfs_spec (sum_list (length <$> chains)) chains (sum_list (length <$> chains))
    (replicate (length chains) 0%nat) []) as (m & Hm & Hp & Hs); [done| | |].
  - apply Forall2_replicate_r; [done|]. apply Forall_true. intros; simpl; lia.
  - rewrite Hr. clear. induction chains; csimpl; [done|]. rewrite length_app. lia.
  - rewrite Hr in *. eauto.
Qed.

(** ** The interleaving policies reorder the axes *)

Section interleave.
Context {A : Type} `{EqDecision A}.
Implicit Types axes : list A.

(** The position of an axis, and the axis at a position, as total functions. *)
Definition pos axes (x : A) : Z := match py_index axes x with Ok i => i | Raise _ => 0 end.

Lemma py_index_elem axes x :
  x ∈ axes → py_index axes x = Ok (pos axes x) ∧
  0 ≤ pos axes x ∧ axes !! Z.to_nat (pos axes x) = Some x.
Proof.
  unfold pos. induction axes as [|y axes IH]; [by intros ?%not_elem_of_nil|].
  simpl. case_decide as Hy; [subst; done|].
  intros [->|Hin]%elem_of_cons; [done|]. destruct (IH Hin) as (Heq & Hpos & Hl).
  rewrite Heq in *. simpl. split_and!; [done|lia|].
  by rewrite Z.add_1_r, Z2Nat.inj_succ by lia.
Qed.

Lemma py_nth_at_pos axes x : x ∈ axes → py_nth axes (pos axes x) = Ok x.
Proof.
  intros (_ & ? & Hl)%py_index_elem. unfold py_nth.
  destruct (Z.ltb_spec (pos axes x) 0); [lia|].
  destruct (Z.ltb_spec (pos axes x) 0); [lia|]. by rewrite Hl.
Qed.

Lemma mmapr_index axes ch :
  Forall (λ x, x ∈ axes) ch → mmapr (py_index axes) ch = Ok (map (pos axes) ch).
Proof.
  induction 1 as [|x ch Hx _ IH]; simpl; [done|].
  destruct (py_index_elem axes x Hx) as [-> _]. simpl. by rewrite IH.
Qed.

Lemma index_chains_ok axes chs :
  Forall (λ x, x ∈ axes) (concat chs) →
  index_chains axes chs = Ok (map (map (pos axes)) chs).
Proof.
  unfold index_chains. induction chs as [|ch chs IH]; simpl; [done|].
  intros [H1 H2]%Forall_app. rewrite mmapr_index by done. simpl. by rewrite IH.
Qed.

(** Looking up the positions of a merge gives the merge of the axes. *)
Lemma mmapr_nth_positions axes (m : list Z) (src : list A) :
  m ≡ₚ map (pos axes) src → Forall (λ x, x ∈ axes) src →
  ∃ out, mmapr (py_nth axes) m = Ok out ∧ out ≡ₚ src ∧ m = map (pos axes) out.
Proof.
  intros Hm Hsrc. apply Permutation_map_inv in Hm as (out & -> & Hp).
  exists out. rewrite Hp in Hsrc. split_and!; [|done|done].
  clear Hp. induction Hsrc as [|x out Hx _ IH]; simpl; [done|].
  rewrite py_nth_at_pos by done. simpl. by rewrite IH.
Qed.

Lemma sublist_pos_inj axes (c out : list A) :
  Forall (λ x, x ∈ axes) c → Forall (λ x, x ∈ axes) out →
  map (pos axes) c `sublist_of` map (pos axes) out → c `sublist_of` out.
Proof.
  intros Hc Hout. revert c Hc.
  induction Hout as [|x out Hx Hout IH]; intros c Hc Hsub; simpl in Hsub.
  { apply sublist_nil_r in Hsub. destruct c; [done|discriminate]. }
  apply sublist_cons_r in Hsub as [Hsub|(l & Heq & Hsub)]; [by apply sublist_cons, IH|].
  destruct c as [|y c]; [discriminate|]. injection Heq as Hy <-.
  apply Forall_cons in Hc as [Hyin Hc].
  assert (y = x) as ->; [|by apply sublist_skip, IH].
  apply (f_equal (py_nth axes)) in Hy. rewrite !py_nth_at_pos in Hy by done. congruence.
Qed.

Lemma but_last_last (l : list Z) : but_last l ++ last_slice l = l.
Proof. apply take_drop. Qed.

Lemma concat_split_last (ls : list (list Z)) :
  concat (map but_last ls) ++ concat (map last_slice ls) ≡ₚ concat ls.
Proof.
  induction ls as [|l ls IH]; simpl; [done|].
  rewrite <-IH. rewrite <-(but_last_last l) at 3. solve_Permutation.
Qed.
End interleave.

(** When the spatial and reduce chains list every axis once, the
    ["interleave"] space has exactly one entity; applying it reorders the axes (no
    axis is lost or repeated) and every chain keeps its own order. *)
Theorem reorder_interleave_sound {A} `{EqDecision A} (axes : list A) (kw : ReorderKwargs A)
    (sp rd : list (list A)) :
  kw_spatial kw = Some sp → kw_reduce kw = Some rd → concat (sp ++ rd) ≡ₚ axes →
  ∃ e out, ReorderSpace_init axes "interleave" kw = Ok [e] ∧
    ReorderEntity_apply e axes = Ok out ∧ out ≡ₚ axes ∧
    Forall (λ ch, ch `sublist_of` out) (sp ++ rd).
Proof.
  intros Hsp Hrd Hcover.
  assert (Hin : Forall (λ x, x ∈ axes) (concat (sp ++ rd)))
    by (apply Forall_forall; intros x; by rewrite Hcover).
  pose proof Hin as Hin'. rewrite concat_app in Hin'. apply Forall_app in Hin' as [Hin1 Hin2].
  destruct (merge_chain_spec (map but_last (map (map (pos axes)) sp))) as (o & Ho & Hop & Hos).
  destruct (merge_chain_spec (map last_slice (map (map (pos axes)) sp) ++ map (map (pos axes)) rd))
    as (i & Hi & Hip & His).
  assert (Hperm : o ++ i ≡ₚ map (pos axes) (concat (sp ++ rd))).
  { rewrite Hop, Hip, concat_app, app_assoc, concat_split_last.
    by rewrite <-concat_app, <-map_app, concat_map. }
  destruct (mmapr_nth_positions axes (o ++ i) _ Hperm Hin) as (out & Hout & Hp & Heq).
  exists {| perm := o ++ i |}, out. split_and!.
  - unfold ReorderSpace_init. simpl. rewrite Hsp, Hrd. simpl.
    rewrite !index_chains_ok by done. simpl. by rewrite Ho, Hi.
  - unfold ReorderEntity_apply. simpl. rewrite decide_True; [done|].
    rewrite (Permutation_length Hperm), length_map. by rewrite Hcover.
  - by rewrite Hp.
  - assert (Hsub : Forall (λ ch, ch `sublist_of` o ++ i) (map (map (pos axes)) (sp ++ rd))).
    { rewrite map_app. apply Forall_app in His as [His1 His2]. apply Forall_app. split.
      - rewrite Forall_map in Hos, His1. apply Forall_forall. intros c Hc.
        rewrite <-(but_last_last c). apply sublist_app; [by eapply Forall_forall in Hos|].
        by eapply Forall_forall in His1.
      - eapply Forall_impl; [exact His2|]. simpl. intros c Hc. by apply sublist_inserts_l. }
    rewrite Forall_map in Hsub. rewrite Forall_forall in Hsub |- *. intros ch Hch.
    specialize (Hsub ch Hch). simpl in Hsub. rewrite Heq in Hsub.
    apply (sublist_pos_inj axes); [| |exact Hsub].
    + apply Forall_concat in Hin. by eapply Forall_forall in Hin.
    + by rewrite Hp.
Qed.

Lemma reorder_interleave_sound_witness :
  ∃ e out, ReorderSpace_init [10; 11; 12; 20; 21; 30] "interleave"
      {| kw_interval := None; kw_candidates := None;
         kw_spatial := Some [[10; 11]; [20; 21]]; kw_reduce := Some [[12]; [30]] |} = Ok [e] ∧
    ReorderEntity_apply e [10; 11; 12; 20; 21; 30] = Ok out ∧
    out ≡ₚ [10; 11; 12; 20; 21; 30] ∧
    Forall (λ ch, ch `sublist_of` out) ([[10; 11]; [20; 21]] ++ [[12]; [30]]).
Proof.
  apply (reorder_interleave_sound [10; 11; 12; 20; 21; 30]
    {| kw_interval := None; kw_candidates := None;
       kw_spatial := Some [[10; 11]; [20; 21]]; kw_reduce := Some [[12]; [30]] |}
    [[10; 11]; [20; 21]] [[12]; [30]]); [reflexivity|reflexivity|].
  simpl. solve_Permutation.
Defined.
