(* ===== verification/AnnotateSpace.v ===== *)
(** * Annotation spaces ([python/tvm/autotvm/task/space.py], lines 433-655)

    [AnnotateSpace] with its policies and depth-first enumeration,
    [AnnotateEntity.apply], and [OtherOptionSpace]. The schedule the entity is
    applied to is the sequence of primitives it receives; a fused axis is the
    term [IFuse outer inner], whose extent is the product of the two. *)

From S2P Require Import Prelude PyStr PyJson.

(** An annotation is a string, or the axis position of ["locate_cache"]. *)
Inductive annv := Ann (s : string) | AtAxis (i : Z).

#[export] Instance annv_eq_dec : EqDecision annv.
Proof. solve_decision. Defined.

#[export] Instance Ann_inj : Inj (=) (=) Ann.
Proof. by intros ?? [=]. Qed.

Record AnnotateEntity := { anns : list annv }.

#[export] Instance AnnotateEntity_eq_dec : EqDecision AnnotateEntity.
Proof. solve_decision. Defined.

(** ** [itertools.combinations] *)
Fixpoint combinations {A} (r : nat) (l : list A) : list (list A) :=
  match r, l with
  | O, _ => [[]]
  | S _, [] => []
  | S r', x :: l => ((x ::.) <$> combinations r' l) ++ combinations r l
  end.

(** ** Enumeration *)

(** [_generate_space]: [tmp_stack] is one list object, overwritten in place and
    never restored, so it is threaded through the search with the entities;
    [k] is [num_axis - now]. *)
Fixpoint ann_generate_space (choices : list string) (now : Z) (k : nat)
    (st : list string * list AnnotateEntity) : list string * list AnnotateEntity :=
  match k with
  | O =>
      let '(tmp_stack, es) := st in
      let vec_ct := length (filter (λ a, a = "vec") tmp_stack) in
      if decide (vec_ct ≤ 1)%nat then (tmp_stack, es ++ [{| anns := Ann <$> tmp_stack |}])
      else (tmp_stack, es)
  | S k =>
      foldl (λ st ann,
               ann_generate_space choices (now + 1) k (<[Z.to_nat now := ann]> st.1, st.2))
            st choices
  end.

Definition fuses (n : nat) : list string := replicate n "fuse".

Definition bind_gpu_anns (n : nat) : result (list string) :=
  if decide (6 ≤ n)%nat then
    Ok (fuses (n - 6) ++ ["blockIdx.z"; "blockIdx.y"; "blockIdx.x";
                          "threadIdx.z"; "threadIdx.y"; "threadIdx.x"])
  else if decide (4 ≤ n)%nat then
    Ok (fuses (n - 4) ++ ["blockIdx.y"; "blockIdx.x"; "threadIdx.y"; "threadIdx.x"])
  else if decide (2 ≤ n)%nat then Ok (fuses (n - 2) ++ ["blockIdx.x"; "threadIdx.x"])
  else Raise RuntimeError.

Definition bind_gpu_virtual_anns (n : nat) : result (list string) :=
  if decide (9 ≤ n)%nat then
    Ok (fuses (n - 9) ++ ["blockIdx.z"; "blockIdx.y"; "blockIdx.x"; "vthread"; "vthread"; "vthread";
                          "threadIdx.z"; "threadIdx.y"; "threadIdx.x"])
  else if decide (6 ≤ n)%nat then
    Ok (fuses (n - 6) ++ ["blockIdx.y"; "blockIdx.x"; "vthread"; "vthread";
                          "threadIdx.y"; "threadIdx.x"])
  else if decide (3 ≤ n)%nat then
    Ok (fuses (n - 3) ++ ["blockIdx.x"; "vthread"; "threadIdx.x"])
  else Raise RuntimeError.

Definition policy_anns (policy : string) : list string :=
  split_on "_"%char (str_replace policy "try" "none").

(** The entities of [AnnotateSpace(axes, policy, num_anchor=...)] for [num_axis] axes. *)
Definition AnnotateSpace_init (num_axis : nat) (policy : string) (num_anchor : option Z)
    : result (list AnnotateEntity) :=
  if decide (policy = "bind_gpu") then
    a ← bind_gpu_anns num_axis; Ok [{| anns := map Ann a |}]
  else if decide (policy = "bind_gpu_virtual") then
    a ← bind_gpu_virtual_anns num_axis; Ok [{| anns := map Ann a |}]
  else if decide (policy = "locate_cache") then
    n ← of_option KeyError num_anchor;
    if n <? 0 then Raise ValueError else
    Ok (map (λ c, {| anns := AtAxis <$> c |})
            (combinations (Z.to_nat n) (py_range 0 (Z.of_nat num_axis) 1)))
  else
    let choices := policy_anns policy in
    if decide (Forall (λ ann, ann ∈ ["none"; "unroll"; "vec"]) choices)
    then Ok (ann_generate_space choices 0 num_axis (replicate num_axis EmptyString, [])).2
    else Raise RuntimeError.

(** ** Applying annotations *)

Inductive itervar :=
| IVar (id : Z) (extent : Z)
| IFuse (outer inner : itervar).

#[export] Instance itervar_eq_dec : EqDecision itervar.
Proof. solve_decision. Defined.

Fixpoint extent_of (v : itervar) : Z :=
  match v with IVar _ e => e | IFuse a b => extent_of a * extent_of b end.

Inductive prim :=
| Unroll (ax : itervar)
| Vectorize (ax : itervar)
| Bind (ax : itervar) (tag : string)
| Fuse (outer inner : itervar)
| ComputeAt (tensor : Z) (ax : itervar).

#[export] Instance prim_eq_dec : EqDecision prim.
Proof. solve_decision. Defined.

(** What [apply] mutates: the caller's list of axes, the schedule, and the
    errors of [cfg] (absent when no [cfg] is passed). *)
Record astate := { st_axes : list itervar; st_trace : list prim; st_errors : option (list string) }.

Record ApplyArgs := {
  arg_axis_lens : option (list Z);
  arg_max_unroll : option Z;
  arg_vec_size : option (list Z);
  arg_source : option (list (list Z))
}.

Definition thread_tags : list string :=
  ["blockIdx.x"; "blockIdx.y"; "blockIdx.z"; "threadIdx.x"; "threadIdx.y"; "threadIdx.z"; "vthread"].

Definition emit (p : prim) : M astate unit :=
  modify (λ s, {| st_axes := st_axes s; st_trace := st_trace s ++ [p]; st_errors := st_errors s |}).

(** [cfg.raise_error(msg)] *)
Definition cfg_raise_error (msg : string) : M astate unit :=
  s ← get_st;
  match st_errors s with
  | None => raise AttributeError
  | Some es => put_st {| st_axes := st_axes s; st_trace := st_trace s; st_errors := Some (es ++ [msg]) |}
  end.

Definition axis_at (i : Z) : M astate itervar := s ← get_st; lift (py_nth (st_axes s) i).

(** [axis_lens[i]] *)
Definition axis_len (args : ApplyArgs) (i : Z) : M astate Z :=
  match arg_axis_lens args with None => raise TypeError | Some l => lift (py_nth l i) end.

(** [if max_unroll and axis_lens[i] > max_unroll] *)
Definition check_unroll (args : ApplyArgs) (i : Z) : M astate unit :=
  match arg_max_unroll args with
  | Some m => if m =? 0 then mret tt else
      len ← axis_len args i;
      if m <? len then cfg_raise_error "Too large factor for unrolling" else mret tt
  | None => mret tt
  end.

(** [if vec_size and axis_lens[i] not in vec_size] *)
Definition check_vec (args : ApplyArgs) (i : Z) : M astate unit :=
  match arg_vec_size args with
  | Some (v :: vs) =>
      len ← axis_len args i;
      if decide (len ∈ v :: vs) then mret tt
      else cfg_raise_error "Wrong size of lanes in vectorization"
  | _ => mret tt
  end.

Definition apply_ann (args : ApplyArgs) (i : Z) (a : annv) : M astate unit :=
  match a with
  | AtAxis _ => raise TypeError
  | Ann ann =>
      if decide (ann = "none") then mret tt
      else if decide (ann = "unroll") then
        _ ← check_unroll args i; ax ← axis_at i; emit (Unroll ax)
      else if decide (ann = "vec") then
        _ ← check_vec args i; ax ← axis_at i; emit (Vectorize ax)
      else if decide (ann ∈ thread_tags) then ax ← axis_at i; emit (Bind ax ann)
      else if decide (ann = "fuse") then
        s ← get_st;
        _ ← lift (py_assert (i <? Z.of_nat (length (st_axes s)) - 1));
        ax0 ← axis_at i; ax1 ← axis_at (i + 1);
        _ ← emit (Fuse ax0 ax1);
        modify (λ s, {| st_axes := <[Z.to_nat (i + 1) := IFuse ax0 ax1]> (st_axes s);
                        st_trace := st_trace s; st_errors := st_errors s |})
      else raise RuntimeError
  end.

Fixpoint apply_anns (args : ApplyArgs) (i : Z) (l : list annv) : M astate unit :=
  match l with
  | [] => mret tt
  | a :: l => _ ← apply_ann args i a; apply_anns args (i + 1) l
  end.

(** The special case [source is not None]: attach cache stages. *)
Definition attach_caches (source : list (list Z)) (l : list annv) : M astate unit :=
  mfor (λ '(src, to),
          mfor (λ t, match to with
                     | Ann _ => raise TypeError
                     | AtAxis j => ax ← axis_at j; emit (ComputeAt t ax)
                     end) src)
       (zip source l).

Definition AnnotateEntity_apply (e : AnnotateEntity) (args : ApplyArgs) : M astate (list itervar) :=
  _ ← match arg_source args with
      | Some source => attach_caches source (anns e)
      | None => apply_anns args 0 (anns e)
      end;
  s ← get_st; mret (st_axes s).

(** ** General options *)

(** The value of a knob, as the code prints it to a log. *)
Record OtherOptionEntity := { val : json }.

#[export] Instance OtherOptionEntity_eq_dec : EqDecision OtherOptionEntity.
Proof. solve_decision. Defined.

Definition OtherOptionSpace_init (candidate : list json) : list OtherOptionEntity :=
  map Build_OtherOptionEntity candidate.

(** ** The enumeration is a filtered product *)

Definition one_vec (a : list string) : Prop := (length (filter (λ s, s = "vec") a) ≤ 1)%nat.

#[export] Instance one_vec_dec a : Decision (one_vec a).
Proof. unfold one_vec. apply _. Defined.

Definition mk_ann (a : list string) : AnnotateEntity := {| anns := Ann <$> a |}.

Lemma foldl_stack (choices : list string) (now : Z) (pre : list string) (k : nat)
    (f : list string * list AnnotateEntity → string → list string * list AnnotateEntity)
    (g : string → list AnnotateEntity) :
  (∀ junk es c, length junk = S k →
     ∃ junk', length junk' = S k ∧ f (pre ++ junk, es) c = (pre ++ junk', es ++ g c)) →
  ∀ junk es, length junk = S k →
  ∃ junk', length junk' = S k ∧
    foldl f (pre ++ junk, es) choices = (pre ++ junk', es ++ (choices ≫= g)).
Proof.
  intros Hf. induction choices as [|c cs IH]; intros junk es Hj; simpl.
  { exists junk. by rewrite app_nil_r. }
  destruct (Hf junk es c Hj) as (j1 & Hj1 & ->).
  destruct (IH j1 (es ++ g c) Hj1) as (j2 & Hj2 & ->).
  exists j2. by rewrite <-app_assoc.
Qed.

Lemma ann_generate_space_eq choices k : ∀ pre junk es,
  length junk = k →
  ∃ junk', length junk' = k ∧
    ann_generate_space choices (Z.of_nat (length pre)) k (pre ++ junk, es) =
    (pre ++ junk', es ++ (mk_ann <$> filter one_vec ((pre ++.) <$> tuples choices k))).
Proof.
  induction k as [|k IH]; intros pre junk es Hj.
  { apply nil_length_inv in Hj as ->. exists []. split; [done|]. simpl.
    rewrite app_nil_r, filter_cons, filter_nil.
    case_decide; [by rewrite decide_True|rewrite decide_False by done].
    simpl. by rewrite app_nil_r. }
  simpl. edestruct (foldl_stack choices (Z.of_nat (length pre)) pre k) as (junk' & Hj' & ->);
    [|exact Hj|].
  { intros junk0 es0 c Hj0. destruct junk0 as [|y junk0]; [discriminate|]. simpl.
    rewrite Nat2Z.id, insert_app_r_alt, Nat.sub_diag by lia. simpl.
    rewrite cons_middle, app_assoc. destruct (IH (pre ++ [c]) junk0 es0) as (j1 & Hj1 & Heq).
    { simpl in Hj0. lia. }
    rewrite length_app, Nat2Z.inj_add in Heq.
    change (Z.of_nat (length [c])) with 1 in Heq. rewrite Heq.
    exists (c :: j1). split; [simpl; lia|]. rewrite <-app_assoc. reflexivity. }
  exists junk'. split; [done|]. do 2 f_equal. clear IH. generalize (tuples choices k). intros ws.
  induction choices as [|c cs IHc]; [done|]. csimpl.
  rewrite IHc, !fmap_app, filter_app, fmap_app. do 3 f_equal.
  rewrite <-list_fmap_compose. apply list_fmap_ext. intros _ w _. simpl. by rewrite <-app_assoc.
Qed.

(** A policy made of [none], [unroll] and [vec] (with [try] for [none])
    offers exactly the annotations of every axis by one of its words in which at most
    one axis is vectorised, and offers none of them twice when its words are
    distinct. *)
Theorem annotate_default_exact (n : nat) (policy : string) (num_anchor : option Z) :
  policy ∉ ["bind_gpu"; "bind_gpu_virtual"; "locate_cache"] →
  Forall (λ ann, ann ∈ ["none"; "unroll"; "vec"]) (policy_anns policy) →
  ∃ es, AnnotateSpace_init n policy num_anchor = Ok es ∧
    (∀ a, {| anns := Ann <$> a |} ∈ es ↔
       length a = n ∧ Forall (.∈ policy_anns policy) a ∧
       (length (filter (λ s, s = "vec") a) ≤ 1)%nat) ∧
    (NoDup (policy_anns policy) → NoDup es).
Proof.
  rewrite !not_elem_of_cons. intros (H1 & H2 & H3 & _) Hv.
  destruct (ann_generate_space_eq (policy_anns policy) n [] (replicate n EmptyString) [])
    as (junk & _ & Heq); [apply length_replicate|].
  eexists. split; [|split].
  - unfold AnnotateSpace_init. rewrite !decide_False by done. rewrite decide_True by done.
    cbn in Heq. change (Z.of_nat 0) with 0 in Heq. rewrite Heq. reflexivity.
  - intros a. simpl. rewrite list_fmap_id, list_elem_of_fmap. split.
    + intros (b & Hb & [Hone [Hl Ha]%elem_of_tuples]%list_elem_of_filter).
      injection Hb as Hb. apply (inj (fmap Ann)) in Hb as ->. done.
    + intros (Hl & Ha & Hone). exists a. split; [done|].
      apply list_elem_of_filter. split; [done|]. by apply elem_of_tuples.
  - intros Hnd. simpl. rewrite list_fmap_id. apply NoDup_fmap_2.
    + intros a b [= Hb]. by apply (inj (fmap Ann)) in Hb.
    + apply NoDup_filter, NoDup_tuples, Hnd.
Qed.

Lemma annotate_default_exact_witness :
  ∃ es, AnnotateSpace_init 3 "try_unroll_vec" None = Ok es ∧
    (∀ a, {| anns := Ann <$> a |} ∈ es ↔
       length a = 3%nat ∧ Forall (.∈ policy_anns "try_unroll_vec") a ∧
       (length (filter (λ s, s = "vec") a) ≤ 1)%nat) ∧
    (NoDup (policy_anns "try_unroll_vec") → NoDup es).
Proof.
  apply (annotate_default_exact 3 "try_unroll_vec" None).
  - apply (bool_decide_unpack _). vm_compute. exact I.
  - apply (bool_decide_unpack _). vm_compute. exact I.
Defined.

(** ** Binding to GPU threads *)

(** The axes of the computation an axis is made of, outermost first. *)
Fixpoint leaves (v : itervar) : list itervar :=
  match v with IVar _ _ => [v] | IFuse a b => leaves a ++ leaves b end.

Definition binds (tr : list prim) : list (itervar * string) :=
  omap (λ p, match p with Bind a t => Some (a, t) | _ => None end) tr.

Lemma binds_app tr tr' : binds (tr ++ tr') = binds tr ++ binds tr'.
Proof. apply omap_app. Qed.

Section bind.
Context (args : ApplyArgs) (errs : option (list string)).

Definition st axes tr := {| st_axes := axes; st_trace := tr; st_errors := errs |}.

Lemma axis_at_app pre x l tr :
  axis_at (Z.of_nat (length pre)) (st (pre ++ x :: l) tr) = (Ok x, st (pre ++ x :: l) tr).
Proof.
  unfold axis_at, mbind, M_bind, get_st, lift, st. cbn [st_axes]. by rewrite py_nth_middle.
Qed.

Lemma apply_fuse pre x z l tr :
  apply_ann args (Z.of_nat (length pre)) (Ann "fuse") (st (pre ++ x :: z :: l) tr) =
  (Ok tt, st (pre ++ x :: IFuse x z :: l) (tr ++ [Fuse x z])).
Proof.
  unfold apply_ann. rewrite !decide_False by (try done; by apply (bool_decide_unpack _)).
  rewrite decide_True by done. mrun.
  destruct (Z.ltb_spec (Z.of_nat (length pre))
    (Z.of_nat (length (st_axes (st (pre ++ x :: z :: l) tr))) - 1)) as [_|Hlt]; cycle 1.
  { simpl in Hlt. rewrite length_app in Hlt. simpl in Hlt. lia. }
  cbn [py_assert]. mrun. erewrite M_bind_ok by apply axis_at_app.
  rewrite cons_middle, app_assoc. erewrite M_bind_ok; cycle 1.
  { rewrite <-(axis_at_app (pre ++ [x]) z l tr). f_equal. rewrite length_app. simpl. lia. }
  unfold emit. mrun. unfold modify, st. cbn [st_axes st_trace st_errors]. do 2 f_equal.
  rewrite insert_app_r_alt by (rewrite length_app; simpl; lia).
  rewrite length_app, <-app_assoc.
  replace (Z.to_nat (Z.of_nat (length pre) + 1) - (length pre + length [x]))%nat with O by (simpl; lia).
  done.
Qed.

(** A run of [fuse] annotations folds the axes into one. *)
Lemma apply_fuses k : ∀ pre x l1 l2 tr rest,
  length l1 = k →
  ∃ pre' y tr', length pre' = (length pre + k)%nat ∧ leaves y = leaves x ++ (l1 ≫= leaves) ∧
    binds tr' = [] ∧
    apply_anns args (Z.of_nat (length pre)) (map Ann (fuses k ++ rest)) (st (pre ++ x :: l1 ++ l2) tr)
    = apply_anns args (Z.of_nat (length pre')) (map Ann rest) (st (pre' ++ y :: l2) (tr ++ tr')).
Proof.
  induction k as [|k IH]; intros pre x l1 l2 tr rest Hl.
  { apply nil_length_inv in Hl as ->. exists pre, x, []. simpl. rewrite !app_nil_r. by split_and!. }
  destruct l1 as [|z l1]; [discriminate|].
  destruct (IH (pre ++ [x]) (IFuse x z) l1 l2 (tr ++ [Fuse x z]) rest)
    as (pre' & y & tr' & Hp & Hy & Hb & Heq); [by injection Hl|].
  exists pre', y, (Fuse x z :: tr'). split_and!; [|by rewrite Hy; simpl; rewrite <-app_assoc|done|].
  { rewrite Hp, length_app. simpl. lia. }
  rewrite length_app, Nat2Z.inj_add, <-!app_assoc in Heq. simpl in Heq. rewrite <-Heq.
  change (map Ann (fuses (S k) ++ rest)) with (Ann "fuse" :: map Ann (fuses k ++ rest)).
  cbn [apply_anns]. by erewrite M_bind_ok by apply apply_fuse.
Qed.

(** A run of thread annotations binds the remaining axes in order. *)
Lemma apply_binds tags : Forall (.∈ thread_tags) tags → ∀ pre l tr,
  length l = length tags →
  apply_anns args (Z.of_nat (length pre)) (map Ann tags) (st (pre ++ l) tr) =
  (Ok tt, st (pre ++ l) (tr ++ zip_with Bind l tags)).
Proof.
  induction 1 as [|t tags Ht _ IH]; intros pre l tr Hl.
  { apply nil_length_inv in Hl as ->. simpl. by rewrite !app_nil_r. }
  destruct l as [|x l]; [discriminate|]. simpl map. cbn [apply_anns].
  assert (t ≠ "none" ∧ t ≠ "unroll" ∧ t ≠ "vec") as (H1 & H2 & H3).
  { split_and!; intros ->; revert Ht; apply (bool_decide_unpack _); vm_compute; exact I. }
  erewrite M_bind_ok; cycle 1.
  { unfold apply_ann. rewrite !decide_False by done. rewrite decide_True by done.
    erewrite M_bind_ok by apply axis_at_app. reflexivity. }
  specialize (IH (pre ++ [x]) l (tr ++ [Bind x t])).
  rewrite length_app, Nat2Z.inj_add, <-!app_assoc in IH. simpl in IH.
  apply IH. by injection Hl.
Qed.

Lemma binds_zip l tags : length l = length tags → binds (zip_with Bind l tags) = zip l tags.
Proof.
  revert tags. induction l as [|x l IH]; intros [|t tags] Hl; simplify_eq/=; [done|].
  f_equal. by apply IH.
Qed.

Lemma apply_fuses_binds k tags axes :
  tags ≠ [] → Forall (.∈ thread_tags) tags → length axes = (k + length tags)%nat →
  ∃ out tr, apply_anns args 0 (map Ann (fuses k ++ tags)) (st axes []) = (Ok tt, st out tr) ∧
    ((binds tr).*1 ≫= leaves) = (axes ≫= leaves) ∧ (binds tr).*2 = tags.
Proof.
  intros Hne Htags Hlen. destruct axes as [|x axes]; [destruct tags; simpl in *; [done|lia]|].
  simpl in Hlen. destruct (apply_fuses k [] x (take k axes) (drop k axes) [] tags)
    as (pre & y & tr & Hp & Hy & Hb & Heq).
  { rewrite length_take. destruct tags; simpl in *; [done|lia]. }
  simpl in Heq. rewrite take_drop in Heq. change (Z.of_nat 0) with 0 in Heq.
  assert (Hlen' : length (y :: drop k axes) = length tags).
  { simpl. rewrite length_drop. destruct tags; simpl in *; [done|lia]. }
  rewrite (apply_binds tags Htags pre _ _ Hlen') in Heq.
  eexists _, _. split; [exact Heq|]. rewrite binds_app, Hb, app_nil_l, binds_zip by done. split.
  - rewrite fst_zip by lia. simpl. rewrite Hy, <-app_assoc. f_equal.
    by rewrite <-bind_app, take_drop.
  - by rewrite snd_zip by lia.
Qed.
End bind.

(** The two GPU policies annotate with some fusions followed by thread tags. *)
Lemma bind_gpu_shape (policy : string) n :
  policy = "bind_gpu" ∧ (2 ≤ n)%nat ∨ policy = "bind_gpu_virtual" ∧ (3 ≤ n)%nat →
  ∃ k tags, AnnotateSpace_init n policy None = Ok [{| anns := map Ann (fuses k ++ tags) |}] ∧
    tags ≠ [] ∧ Forall (.∈ thread_tags) tags ∧ n = (k + length tags)%nat ∧
    (policy = "bind_gpu" → NoDup tags).
Proof.
  intros [[-> Hn]|[-> Hn]]; unfold AnnotateSpace_init, bind_gpu_anns, bind_gpu_virtual_anns; simpl;
    repeat case_decide; try lia; eexists _, _; (split; [reflexivity|]);
    (split_and!; [done|apply (bool_decide_unpack _); vm_compute; exact I|simpl; lia|]);
    intros ?; try done; apply (bool_decide_unpack _); vm_compute; exact I.
Qed.

(** ["bind_gpu"] (from two axes on) and ["bind_gpu_virtual"] (from three on)
    have one entity. Applying it succeeds, and the axes it binds to thread tags are made of
    the given axes, each exactly once and in order, so that no iteration is lost; with
    ["bind_gpu"] no tag is bound twice. *)
Theorem bind_gpu_covers (policy : string) (axes : list itervar) (args : ApplyArgs)
    (errs : option (list string)) :
  policy = "bind_gpu" ∧ (2 ≤ length axes)%nat ∨ policy = "bind_gpu_virtual" ∧ (3 ≤ length axes)%nat →
  arg_source args = None →
  ∃ e out tr, AnnotateSpace_init (length axes) policy None = Ok [e] ∧
    AnnotateEntity_apply e args {| st_axes := axes; st_trace := []; st_errors := errs |} =
      (Ok out, {| st_axes := out; st_trace := tr; st_errors := errs |}) ∧
    ((binds tr).*1 ≫= leaves) = (axes ≫= leaves) ∧
    (policy = "bind_gpu" → NoDup (binds tr).*2).
Proof.
  intros Hp Hs. destruct (bind_gpu_shape policy (length axes) Hp)
    as (k & tags & Hinit & Hne & Htags & Hlen & Hnd).
  destruct (apply_fuses_binds args errs k tags axes Hne Htags Hlen) as (out & tr & Hap & Hl & Ht).
  eexists _, out, tr. split; [exact Hinit|]. split_and!; [|exact Hl|by rewrite Ht].
  unfold AnnotateEntity_apply. rewrite Hs. erewrite M_bind_ok by exact Hap. by mrun.
Qed.

Lemma bind_gpu_covers_witness :
  ∃ e out tr, AnnotateSpace_init 3 "bind_gpu" None = Ok [e] ∧
    AnnotateEntity_apply e {| arg_axis_lens := None; arg_max_unroll := None;
        arg_vec_size := None; arg_source := None |}
      {| st_axes := [IVar 0 4; IVar 1 5; IVar 2 8]; st_trace := []; st_errors := None |} =
      (Ok out, {| st_axes := out; st_trace := tr; st_errors := None |}) ∧
    ((binds tr).*1 ≫= leaves) = ([IVar 0 4; IVar 1 5; IVar 2 8] ≫= leaves) ∧
    ("bind_gpu" = "bind_gpu" → NoDup (binds tr).*2).
Proof.
  apply (bind_gpu_covers "bind_gpu" [IVar 0 4; IVar 1 5; IVar 2 8]
    {| arg_axis_lens := None; arg_max_unroll := None; arg_vec_size := None; arg_source := None |}
    None); [left; split; [reflexivity|simpl; lia]|reflexivity].
Defined.
