(* ===== verification/ConfigSpace.v ===== *)
(** * Configuration spaces ([python/tvm/autotvm/task/space.py], lines 658-1133)

    [ConfigSpace], [ConfigEntity] and [FallbackConfigEntity]. Transform entities
    are mutable objects shared between a space, the entity map of the space and the
    configurations taken from it, so they live in a store and are named by their
    position in it. *)

From S2P Require Import Prelude PyDict PyFloat PyJson Knobs SplitSpace ReorderSpace AnnotateSpace.

(** ** Objects *)

Inductive entity :=
| ESplit (e : SplitEntity)
| EReorder (e : ReorderEntity)
| EAnnotate (e : AnnotateEntity)
| EOther (e : OtherOptionEntity).

#[export] Instance entity_eq_dec : EqDecision entity.
Proof. solve_decision. Defined.

#[export] Instance pexpr_eq_dec : EqDecision pexpr.
Proof. solve_decision. Defined.
#[export] Instance axis_var_eq_dec : EqDecision axis_var.
Proof. solve_decision. Defined.
#[export] Instance VirtualAxis_eq_dec : EqDecision VirtualAxis.
Proof. solve_decision. Defined.

(** Axis arguments of the [define_*] methods: a placeholder object, the named
    tuple [Axis(space, index)], or a raw schedule axis. Objects compare by identity. *)
Inductive axis_obj :=
| OVirtual (id : nat) (v : VirtualAxis)
| OAxis (space : option nat) (index : Z)
| ORaw (v : axis_var).

#[export] Instance axis_obj_eq_dec : EqDecision axis_obj.
Proof. solve_decision. Defined.

(** Which class of space, with the attributes later code reads. *)
Inductive space_class := CSplit (product : Z) | CReorder | CAnnotate | COther.

Record space := {
  sp_id : nat;
  sp_class : space_class;
  sp_outputs : Z;
  sp_locs : list nat
}.

Record ConfigSpace := {
  space_map : dict string space;
  cs_collect : bool;
  cs_length : option Z;
  entity_map : dict string nat;
  constraints : list Z;
  errors : list string;
  code_hash : option string;
  flop : float;
  is_fallback : bool
}.

Definition ConfigSpace_init : ConfigSpace := {|
  space_map := []; cs_collect := true; cs_length := None; entity_map := [];
  constraints := []; errors := []; code_hash := None; flop := fzero; is_fallback := false |}.

(** [FallbackConfigEntity()] *)
Definition FallbackConfigEntity_init : ConfigSpace := {|
  space_map := []; cs_collect := true; cs_length := None; entity_map := [];
  constraints := []; errors := []; code_hash := None; flop := fzero; is_fallback := true |}.

(** The interpreter state: the entity store, the next object identity, the class
    counter [VirtualAxis.name_ct], and the space under construction. *)
Record world := {
  store : list entity;
  next_id : nat;
  name_ct : Z;
  cfg : ConfigSpace
}.

Definition set_cfg (f : ConfigSpace → ConfigSpace) (w : world) : world :=
  {| store := store w; next_id := next_id w; name_ct := name_ct w; cfg := f (cfg w) |}.
Definition set_store (h : list entity) (w : world) : world :=
  {| store := h; next_id := next_id w; name_ct := name_ct w; cfg := cfg w |}.

Definition with_space_map sm (c : ConfigSpace) : ConfigSpace := {|
  space_map := sm; cs_collect := cs_collect c; cs_length := cs_length c;
  entity_map := entity_map c; constraints := constraints c; errors := errors c;
  code_hash := code_hash c; flop := flop c; is_fallback := is_fallback c |}.
Definition with_entity_map em (c : ConfigSpace) : ConfigSpace := {|
  space_map := space_map c; cs_collect := cs_collect c; cs_length := cs_length c;
  entity_map := em; constraints := constraints c; errors := errors c;
  code_hash := code_hash c; flop := flop c; is_fallback := is_fallback c |}.
Definition with_length len (c : ConfigSpace) : ConfigSpace := {|
  space_map := space_map c; cs_collect := cs_collect c; cs_length := len;
  entity_map := entity_map c; constraints := constraints c; errors := errors c;
  code_hash := code_hash c; flop := flop c; is_fallback := is_fallback c |}.
Definition with_errors es (c : ConfigSpace) : ConfigSpace := {|
  space_map := space_map c; cs_collect := cs_collect c; cs_length := cs_length c;
  entity_map := entity_map c; constraints := constraints c; errors := es;
  code_hash := code_hash c; flop := flop c; is_fallback := is_fallback c |}.
Definition with_flop fl (c : ConfigSpace) : ConfigSpace := {|
  space_map := space_map c; cs_collect := cs_collect c; cs_length := cs_length c;
  entity_map := entity_map c; constraints := constraints c; errors := errors c;
  code_hash := code_hash c; flop := fl; is_fallback := is_fallback c |}.

(** ** Defining knobs *)

(** The space class to build, with its keyword arguments. *)
Inductive define_args :=
| DSplit (policy : string) (kw : SplitKwargs)
| DReorder (policy : string) (kw : ReorderKwargs axis_obj)
| DAnnotate (policy : string) (num_anchor : option Z)
| DKnob (candidate : list json).

Section define.
Variable simplify : pexpr → pexpr.
Variable set_iter : list Z → list Z.

(** [x if isinstance(x, (VirtualAxis, Axis)) else self.axis(x)] *)
Definition convert_axis (x : axis_obj) : M world axis_obj :=
  match x with
  | ORaw v =>
      w ← get_st;
      match VirtualAxis_init simplify v None (name_ct w) with
      | (Ok va, ct) =>
          _ ← put_st {| store := store w; next_id := S (next_id w); name_ct := ct; cfg := cfg w |};
          mret (OVirtual (next_id w) va)
      | (Raise e, ct) =>
          _ ← put_st {| store := store w; next_id := next_id w; name_ct := ct; cfg := cfg w |};
          raise e
      end
  | _ => mret x
  end.

Fixpoint mmap_st {S A B} (f : A → M S B) (l : list A) : M S (list B) :=
  match l with
  | [] => mret []
  | x :: l => y ← f x; ys ← mmap_st f l; mret (y :: ys)
  end.

(** The entities and attributes of [space_class(axes, policy, **kwargs)]. *)
Definition make_space (axes : list axis_obj) (d : define_args)
    : result (space_class * Z * list entity) :=
  let n := Z.of_nat (length axes) in
  match d with
  | DSplit policy kw =>
      ax ← of_option IndexError (axes !! 0%nat);
      len ← match ax with OVirtual _ v => Ok (ax_length v) | _ => Raise AttributeError end;
      sp ← SplitSpace_init set_iter len policy kw;
      Ok (CSplit (sp_product sp), sp_num_output sp, map ESplit (sp_entities sp))
  | DReorder policy kw =>
      es ← ReorderSpace_init axes policy kw; Ok (CReorder, n, map EReorder es)
  | DAnnotate policy num_anchor =>
      es ← AnnotateSpace_init (length axes) policy num_anchor; Ok (CAnnotate, n, map EAnnotate es)
  | DKnob candidate => Ok (COther, 0, map EOther (OtherOptionSpace_init candidate))
  end.

(** The static [get_num_output] of the class. *)
Definition get_num_output (axes : list axis_obj) (d : define_args) : result Z :=
  match d with
  | DSplit _ kw => of_option KeyError (kw_num_outputs kw)
  | DReorder _ _ | DAnnotate _ _ => Ok (Z.of_nat (length axes))
  | DKnob _ => Ok 0
  end.

(** New objects at the end of the store. *)
Definition alloc (es : list entity) : M world (list nat) :=
  w ← get_st;
  _ ← put_st (set_store (store w ++ es) w);
  mret (seq (length (store w)) (length es)).

Definition add_new_transform (name : string) (axes : list axis_obj) (d : define_args)
    : M world (list axis_obj) :=
  w ← get_st;
  if cs_collect (cfg w) then
    axes ← mmap_st convert_axis axes;
    '(cls, outs, es) ← lift (make_space axes d);
    locs ← alloc es;
    w ← get_st;
    let sp := {| sp_id := next_id w; sp_class := cls; sp_outputs := outs; sp_locs := locs |} in
    _ ← put_st {| store := store w; next_id := S (next_id w); name_ct := name_ct w;
                  cfg := with_space_map (dset (space_map (cfg w)) name sp) (cfg w) |};
    loc0 ← lift (of_option IndexError (locs !! 0%nat));
    _ ← modify (set_cfg (λ c, with_entity_map (dset (entity_map c) name loc0) c));
    mret (OAxis (Some (sp_id sp)) <$> py_range 0 outs 1)
  else
    n ← lift (get_num_output axes d);
    mret (OAxis None <$> py_range 0 n 1).

Definition define_split (name : string) (axis : axis_obj) (policy : string) (kw : SplitKwargs) :=
  add_new_transform name [axis] (DSplit policy kw).
Definition define_reorder (name : string) (axes : list axis_obj) (policy : string)
    (kw : ReorderKwargs axis_obj) := add_new_transform name axes (DReorder policy kw).
Definition define_annotate (name : string) (axes : list axis_obj) (policy : string)
    (num_anchor : option Z) := add_new_transform name axes (DAnnotate policy num_anchor).
Definition define_knob (name : string) (candidate : list json) :=
  add_new_transform name [] (DKnob candidate).
End define.

Definition raise_error (msg : string) : M world unit :=
  modify (set_cfg (λ c, with_errors (errors c ++ [msg]) c)).

Definition valid (c : ConfigSpace) : bool := bool_decide (errors c = []).

Definition add_flop (fl : float) : M world unit :=
  modify (set_cfg (λ c, with_flop (fadd (flop c) fl) c)).

(** ** Length and indexing *)

(** [len(self)]: the product is computed once; a negative (wrapped) product makes
    [len] raise. *)
Definition ConfigSpace_len : M world Z :=
  w ← get_st;
  len ← match cs_length (cfg w) with
        | Some l => mret l
        | None =>
            let l := np_prod ((λ s, Z.of_nat (length (sp_locs s))) <$> dvalues (space_map (cfg w))) in
            _ ← modify (set_cfg (with_length (Some l))); mret l
        end;
  if len <? 0 then raise ValueError else mret len.

(** [ConfigEntity(index, code_hash, entity_map, constraints)] *)
Record ConfigEntity := { ce_index : Z; ce_base : ConfigSpace }.

Definition ConfigEntity_init (index : Z) (hash : option string) (em : dict string nat)
    (cons : list Z) : ConfigEntity := {|
  ce_index := index;
  ce_base := {| space_map := []; cs_collect := false; cs_length := None; entity_map := em;
                constraints := cons; errors := []; code_hash := hash; flop := fzero;
                is_fallback := false |} |}.

(** The loop of [get] over [space_map.items()]. *)
Fixpoint get_loop (spaces : dict string space) (t : Z) (acc : dict string nat)
    : result (dict string nat) :=
  match spaces with
  | [] => Ok acc
  | (name, sp) :: spaces =>
      let n := Z.of_nat (length (sp_locs sp)) in
      if n =? 0 then Raise ZeroDivisionError else
      loc ← py_nth (sp_locs sp) (t mod n);
      get_loop spaces (t / n) (dset acc name loc)
  end.

Definition ConfigSpace_get (index : Z) : M world ConfigEntity :=
  len ← ConfigSpace_len;
  if (index <? 0) || (len <=? index) then raise IndexError else
  w ← get_st;
  em ← lift (get_loop (space_map (cfg w)) index []);
  mret (ConfigEntity_init index (code_hash (cfg w)) em (constraints (cfg w))).

(** ** Features and logs of a configuration *)

Definition ann_to_number : dict string Z :=
  [("none", 0); ("vec", 1); ("unroll", 2); ("blockIdx.x", 3); ("blockIdx.y", 4);
   ("blockIdx.z", 5); ("threadIdx.x", 6); ("threadIdx.y", 7); ("threadIdx.z", 8);
   ("vthread", 9); ("fuse", 10)].

(** One-hot encoding of an annotation; a ["locate_cache"] position is not a key. *)
Definition one_hot (a : annv) : result (list json) :=
  match a with
  | AtAxis _ => Raise KeyError
  | Ann s =>
      i ← dindex ann_to_number s;
      Ok (JInt <$> <[Z.to_nat i := 1]> (replicate (length ann_to_number) 0))
  end.

Definition entity_feature (v : entity) : result (list json) :=
  match v with
  | ESplit e => Ok (JInt <$> size e)
  | EReorder e => Ok (JInt <$> perm e)
  | EAnnotate e => ls ← mmapr one_hot (anns e); Ok (concat ls)
  | EOther e => Ok [val e]
  end.

(** [get_flatten_feature]: the list [fea], before numpy casts it to float32. *)
Definition get_flatten_feature (h : list entity) (c : ConfigEntity) : result (list json) :=
  ls ← mmapr (λ loc, v ← of_option KeyError (h !! loc); entity_feature v)
             (dvalues (entity_map (ce_base c)));
  Ok (concat ls).

Definition json_of_ann (a : annv) : json :=
  match a with Ann s => JStr s | AtAxis i => JInt i end.

(** The tag and the payload of an entity in a log. *)
Definition entity_to_json (v : entity) : string * json :=
  match v with
  | ESplit e => ("sp", JList (JInt <$> size e))
  | EReorder e => ("re", JList (JInt <$> perm e))
  | EAnnotate e => ("an", JList (json_of_ann <$> anns e))
  | EOther e => ("ot", val e)
  end.

Definition to_json_dict (h : list entity) (c : ConfigEntity) : result json :=
  items ← mmapr (λ '(k, loc),
            v ← of_option KeyError (h !! loc);
            let '(tag, arg) := entity_to_json v in
            Ok (JList [JStr k; JStr tag; arg]))
          (entity_map (ce_base c));
  Ok (JObj [("index", JInt (ce_index c));
            ("code_hash", match code_hash (ce_base c) with Some s => JStr s | None => JNull end);
            ("entity", JList items)]).

(** The payloads are stored as parsed; the lists of the knob kinds are read back
    at their element types. *)
Definition ann_of_json (v : json) : result annv :=
  match v with JStr s => Ok (Ann s) | JInt i => Ok (AtAxis i) | _ => Raise TypeError end.

Definition entity_of_json (knob_type : string) (knob_args : json) : result entity :=
  if decide (knob_type = "sp") then
    l ← as_list knob_args; zs ← mmapr as_int l; Ok (ESplit {| size := zs |})
  else if decide (knob_type = "re") then
    l ← as_list knob_args; zs ← mmapr as_int l; Ok (EReorder {| perm := zs |})
  else if decide (knob_type = "an") then
    l ← as_list knob_args; vs ← mmapr ann_of_json l; Ok (EAnnotate {| anns := vs |})
  else if decide (knob_type = "ot") then Ok (EOther {| val := knob_args |})
  else Raise RuntimeError.

(** [key, knob_type, knob_args = item] *)
Definition unpack_item (item : json) : result (string * string * json) :=
  l ← as_list item;
  match l with
  | [k; t; a] => k ← as_str k; t ← as_str t; Ok (k, t, a)
  | _ => Raise ValueError
  end.

(** [from_json_dict]: the new entities go to the end of the store. *)
Definition from_json_dict (h : list entity) (d : json) : result (list entity * ConfigEntity) :=
  index ← jget d "index"; index ← as_int index;
  hash ← jget d "code_hash";
  hash ← match hash with JStr s => Ok (Some s) | JNull => Ok None | _ => Raise TypeError end;
  items ← jget d "entity"; items ← as_list items;
  '(h, em) ← mfoldl (λ '(h, em) item,
      '(key, t, a) ← unpack_item item;
      e ← entity_of_json t a;
      Ok (h ++ [e], dset em key (length h))) (h, []) items;
  Ok (h, ConfigEntity_init index hash em []).

(** ** Fallback configurations *)

(** The position chosen by the scan over [factors]; [None] is the constraint
    [1e10] that replaces [-1]. *)
Fixpoint find_factor (limit : Z) (j : Z) (factors : list Z) (find : Z) : Z :=
  match factors with
  | [] => find
  | f :: fs => if limit <? f then j - 1 else find_factor limit (j + 1) fs find
  end.

Definition replace_no_constraint (x : Z) : Z := if x =? -1 then 10 ^ 10 else x.

(** One dimension: the chosen factor of [now]. *)
Definition fallback_dim (limit now : Z) : result Z :=
  factors ← get_factors now;
  let find := find_factor limit 0 factors (Z.of_nat (length factors) - 1) in
  if 0 <=? find then py_nth factors find else Raise RuntimeError.

(** [entity.size[i] = f] on the object at [loc]. *)
Definition set_size (loc : nat) (i : Z) (f : Z) : M world unit :=
  w ← get_st;
  match store w !! loc with
  | Some (ESplit e) =>
      if Z.of_nat (length (size e)) <=? i then raise IndexError
      else put_st (set_store (<[loc := ESplit {| size := <[Z.to_nat i := f]> (size e) |}]> (store w)) w)
  | _ => raise AttributeError
  end.

(** The loop from the innermost dimension; [dims] lists the dimensions still to do. *)
Fixpoint fallback_loop (loc : nat) (limits : list Z) (dims : list Z) (now : Z) : M world Z :=
  match dims with
  | [] => mret now
  | i :: dims =>
      limit ← lift (py_nth limits i);
      f ← lift (fallback_dim limit now);
      _ ← set_size loc i f;
      fallback_loop loc limits dims (now / f)
  end.

Definition fallback_split (name : string) (cons : list Z) : M world unit :=
  w ← get_st;
  sp ← lift (dindex (space_map (cfg w)) name);
  product ← match sp_class sp with CSplit p => mret p | _ => raise AssertionError end;
  _ ← lift (py_assert (Z.of_nat (length cons) =? sp_outputs sp));
  let limits := replace_no_constraint <$> cons in
  loc ← lift (dindex (entity_map (cfg w)) name);
  _ ← fallback_loop loc limits (reverse (py_range 0 (sp_outputs sp) 1)) product;
  mret tt.

(** [cfg[name] = entity] *)
Definition ConfigSpace_setitem (name : string) (loc : nat) : M world unit :=
  modify (set_cfg (λ c, with_entity_map (dset (entity_map c) name loc) c)).

(** ** Fallback from a reference log *)

(** [inp.config[knob_name].size] of a logged configuration. *)
Definition knob_size (h : list entity) (c : ConfigEntity) (name : string) : result (list Z) :=
  loc ← dindex (entity_map (ce_base c)) name;
  match h !! loc with Some (ESplit e) => Ok (size e) | _ => Raise AttributeError end.

Definition is_split (sp : space) : bool := match sp_class sp with CSplit _ => true | _ => false end.

(** [float(len(set(a).intersection(b))) / len(a)] of two lists without repetitions *)
Definition overlap (a b : list Z) : float :=
  fdiv (of_Z (Z.of_nat (length (filter (.∈ b) (remove_dups a))))) (of_Z (Z.of_nat (length a))).

Definition match_state : Type := float * option ConfigEntity.

(** The inner loop: the partial score is compared after every knob. *)
Definition match_step (h : list entity) (c : ConfigEntity) (st : match_state * float)
    (kf : string * list Z) : result (match_state * float) :=
  let '(best, score) := st in
  let '(knob_name, factor_list) := kf in
  sz ← knob_size h c knob_name;
  factors ← get_factors (np_prod sz);
  let score := fadd score (overlap factor_list factors) in
  if flt best.1 score then Ok ((score, Some c), score) else Ok (best, score).

Definition best_match (h : list entity) (knobs : list (string * list Z)) (ref_log : list ConfigEntity)
    : result (option ConfigEntity) :=
  '(_, best) ← mfoldl (λ best c,
      '(best, _) ← mfoldl (match_step h c) (best, fzero) knobs; Ok best) (fzero, None) ref_log;
  Ok best.

Definition fallback_with_reference_log (ref_log : list ConfigEntity) : M world unit :=
  w ← get_st;
  let split_knobs := filter (λ '(_, sp), is_split sp = true) (space_map (cfg w)) in
  knobs ← lift (mmapr (λ '(name, sp),
              match sp_class sp with
              | CSplit p => fs ← get_factors p; Ok (name, fs)
              | _ => Raise AttributeError
              end) split_knobs);
  best ← lift (best_match (store w) knobs ref_log);
  match best with
  | None => mret tt
  | Some c =>
      _ ← mfor (λ '(name, _),
            w ← get_st;
            sz ← lift (knob_size (store w) c name);
            _ ← lift (match sz with [] => Raise IndexError | _ => Ok tt end);
            fallback_split name (<[O := -1]> sz)) split_knobs;
      mfor (λ '(name, sp),
            if is_split sp then mret tt
            else loc ← lift (dindex (entity_map (ce_base c)) name); ConfigSpace_setitem name loc)
           (space_map (cfg w))
  end.

(** ** The fallback split is the greedy largest-divisor split *)

Lemma StronglySorted_lt_lookup l i j x y :
  StronglySorted Z.lt l → (i ≤ j)%nat → l !! i = Some x → l !! j = Some y → x ≤ y.
Proof.
  intros Hs. revert i j. induction Hs as [|z l _ IH Hz]; intros [|i] [|j] Hij Hx Hy;
    simplify_eq/=; try lia.
  - rewrite Forall_lookup in Hz. specialize (Hz _ _ Hy). simpl in Hz. lia.
  - eapply (IH i j); [lia|done|done].
Qed.

Lemma find_factor_spec limit fs : StronglySorted Z.lt fs → ∀ j,
  ∃ k : nat, find_factor limit j fs (j + Z.of_nat (length fs) - 1) = j + Z.of_nat k - 1 ∧
    (k ≤ length fs)%nat ∧ ∀ i x, fs !! i = Some x → (i < k)%nat ↔ x ≤ limit.
Proof.
  induction 1 as [|f fs _ IH Hf]; intros j; cbn [find_factor].
  { exists O. split_and!; [simpl; lia|lia|]. intros i x. by rewrite lookup_nil. }
  destruct (Z.ltb_spec limit f).
  - exists O. split_and!; [lia|lia|]. intros [|i] x Hx; simplify_eq/=; [lia|].
    rewrite Forall_lookup in Hf. specialize (Hf _ _ Hx). simpl in Hf. lia.
  - destruct (IH (j + 1)) as (k & Hk & Hle & Hiff). exists (S k). split_and!; [|simpl; lia|].
    + replace (j + Z.of_nat (length (f :: fs)) - 1)
        with (j + 1 + Z.of_nat (length fs) - 1) by (simpl; lia). rewrite Hk. lia.
    + intros [|i] x Hx; simplify_eq/=; [lia|]. rewrite <-(Hiff i x Hx). lia.
Qed.

Lemma fallback_dim_spec limit now :
  1 ≤ limit → 1 ≤ now →
  ∃ f, fallback_dim limit now = Ok f ∧ 1 ≤ f ≤ limit ∧ (f | now) ∧
       ∀ d, (d | now) → d ≤ limit → d ≤ f.
Proof.
  intros Hl Hn. destruct (get_factors_correct now) as (fs & Hfs & Hs & Hin); [lia|].
  unfold fallback_dim. rewrite Hfs. simpl.
  destruct (find_factor_spec limit fs Hs 0) as (k & Hk & Hle & Hiff).
  change (0 + Z.of_nat (length fs) - 1) with (Z.of_nat (length fs) - 1) in Hk. rewrite Hk.
  assert (H1 : 1 ∈ fs) by (apply Hin; split; [lia|apply Z.divide_1_l]).
  apply list_elem_of_lookup in H1 as [i1 Hi1].
  assert (Hi1k : (i1 < k)%nat) by (by apply (Hiff i1 1 Hi1)).
  destruct (lookup_lt_is_Some_2 fs (k - 1)%nat ltac:(lia)) as [f Hf].
  assert (0 < f ∧ (f | now)) as [? ?] by (apply Hin; by eapply list_elem_of_lookup_2).
  exists f. split_and!.
  - destruct (Z.leb_spec 0 (0 + Z.of_nat k - 1)); [|lia].
    replace (0 + Z.of_nat k - 1) with (Z.of_nat (k - 1)) by lia. by rewrite py_nth_nat, Hf.
  - lia.
  - apply (Hiff (k - 1)%nat); [done|lia].
  - done.
  - intros d Hd Hdl. destruct (Z.le_gt_cases d 0) as [?|Hpos]; [lia|].
    assert (Hdin : d ∈ fs) by (by apply Hin).
    apply list_elem_of_lookup in Hdin as [i Hi].
    assert ((i < k)%nat) by (by apply (Hiff i d Hi)).
    eapply (StronglySorted_lt_lookup fs i (k - 1)); [done|lia|done|done].
Qed.

Lemma reverse_range_S m :
  reverse (py_range 0 (Z.of_nat (S m)) 1) = Z.of_nat m :: reverse (py_range 0 (Z.of_nat m) 1).
Proof.
  unfold py_range. rewrite !Z.sub_0_r, !Z.div_1_r.
  replace (Z.to_nat (Z.of_nat (S m) + 1 - 1)) with (m + 1)%nat by lia.
  replace (Z.to_nat (Z.of_nat m + 1 - 1)) with m by lia.
  rewrite seq_app, fmap_app, reverse_app. simpl. f_equal. lia.
Qed.

(** Every size is the largest divisor, within its limit, of what the inner
    dimensions leave. *)
Definition greedy_split (limits s : list Z) (final : Z) : Prop :=
  ∀ i si li, s !! i = Some si → limits !! i = Some li →
    1 ≤ si ≤ li ∧ ∀ d, (d | final * Zprod (take (S i) s)) → d ≤ li → d ≤ si.

Lemma fallback_loop_spec loc limits m : ∀ w sz now,
  Forall (λ l, 1 ≤ l) limits → (m ≤ length limits)%nat → (m ≤ length sz)%nat → 1 ≤ now →
  store w !! loc = Some (ESplit {| size := sz |}) →
  ∃ s final, fallback_loop loc limits (reverse (py_range 0 (Z.of_nat m) 1)) now w =
      (Ok final, set_store (<[loc := ESplit {| size := s ++ drop m sz |}]> (store w)) w) ∧
    length s = m ∧ now = final * Zprod s ∧ 1 ≤ final ∧ greedy_split limits s final.
Proof.
  induction m as [|m IH]; intros w sz now Hlim Hm Hsz Hnow Hst.
  { exists [], now. split_and!; [|done|simpl; lia|done|by intros ???].
    simpl. rewrite list_insert_id by done. by destruct w. }
  rewrite reverse_range_S. cbn [fallback_loop].
  destruct (lookup_lt_is_Some_2 limits m ltac:(lia)) as [lim Hlm].
  assert (1 ≤ lim) by (by eapply (Forall_lookup_1 _ _ m)).
  destruct (fallback_dim_spec lim now ltac:(lia) Hnow) as (f & Hf & [Hf1 Hfl] & Hdiv & Hmax).
  rewrite py_nth_nat, Hlm. cbn [of_option]. mrun. rewrite Hf. mrun.
  set (sz' := <[m := f]> sz). set (w' := set_store (<[loc := ESplit {| size := sz' |}]> (store w)) w).
  erewrite (M_bind_ok _ _ _ tt w'); cycle 1.
  { unfold set_size. mrun. rewrite Hst. cbn [size].
    destruct (Z.leb_spec (Z.of_nat (length sz)) (Z.of_nat m)); [lia|].
    rewrite Nat2Z.id. reflexivity. }
  destruct Hdiv as [q Hq]. assert (Hq' : now / f = q) by (subst now; apply Z.div_mul; lia).
  rewrite Hq'. assert (1 ≤ q) by nia.
  destruct (IH w' sz' q) as (s & final & Hrun & Hls & Hprod & Hfin & Hg);
    [done|lia|by unfold sz'; rewrite length_insert; lia|done| |].
  { simpl. apply list_lookup_insert_eq. by eapply lookup_lt_Some. }
  exists (s ++ [f]), final. rewrite Hrun. split_and!.
  - f_equal. unfold w', set_store. simpl. rewrite list_insert_insert_eq. do 3 f_equal.
    unfold sz'. rewrite drop_insert_ge, Nat.sub_diag by lia.
    destruct (drop m sz) as [|y t] eqn:Hd.
    { apply (f_equal length) in Hd. rewrite length_drop in Hd. simpl in Hd. lia. }
    simpl. rewrite <-app_assoc. simpl. do 3 f_equal.
    replace (S m) with (m + 1)%nat by lia. by rewrite <-drop_drop, Hd.
  - rewrite length_app. simpl. lia.
  - rewrite Zprod_app, Hq, Hprod. simpl. ring.
  - done.
  - intros i si li Hi Hli. destruct (decide (i < m)%nat) as [Hlt|Hge].
    + rewrite lookup_app_l in Hi by lia. rewrite take_app_le by lia. by apply Hg.
    + apply lookup_lt_Some in Hi as Hlen. rewrite length_app in Hlen. simpl in Hlen.
      assert (i = m) as -> by lia. rewrite lookup_app_r, Hls, Nat.sub_diag in Hi by lia.
      simplify_eq/=. rewrite take_ge by (rewrite length_app; simpl; lia).
      split; [done|]. intros d Hd. apply Hmax. rewrite Hq, Hprod.
      rewrite Zprod_app in Hd. simpl in Hd. by replace (final * Zprod s * si)
        with (final * (Zprod s * (si * 1))) by ring.
Qed.

(** For a split knob over an axis of at most [10^10] iterations,
    [fallback_split] with an unconstrained outermost dimension always succeeds; the
    sizes multiply to the axis length, respect the constraints, and each is the
    largest divisor allowed of what the inner dimensions leave. The sizes are written into
    the entity object itself. *)
Theorem fallback_split_greedy (w : world) (name : string) (sp : space) (p : Z) (loc : nat)
    (sz rest : list Z) :
  dget (space_map (cfg w)) name = Some sp → sp_class sp = CSplit p →
  dget (entity_map (cfg w)) name = Some loc → store w !! loc = Some (ESplit {| size := sz |}) →
  sp_outputs sp = Z.of_nat (length sz) → length sz = S (length rest) →
  1 ≤ p ≤ 10 ^ 10 → Forall (λ c, c = -1 ∨ 1 ≤ c) rest →
  ∃ s, fallback_split name (-1 :: rest) w =
         (Ok tt, set_store (<[loc := ESplit {| size := s |}]> (store w)) w) ∧
    length s = length sz ∧ Zprod s = p ∧
    ∀ i si ci, s !! i = Some si → (-1 :: rest) !! i = Some ci →
      1 ≤ si ∧ (ci = -1 ∨ si ≤ ci) ∧
      ∀ d, (d | Zprod (take (S i) s)) → (ci = -1 ∨ d ≤ ci) → d ≤ si.
Proof.
  intros Hsp Hcls Hem Hst Houts Hlen Hp Hrest.
  set (limits := replace_no_constraint <$> -1 :: rest).
  assert (Hlim : Forall (λ l, 1 ≤ l) limits).
  { apply Forall_fmap. constructor; [by vm_compute|]. eapply Forall_impl; [exact Hrest|].
    intros c. unfold compose, replace_no_constraint. destruct (Z.eqb_spec c (-1)); lia. }
  assert (Hll : length limits = length sz) by (unfold limits; rewrite length_fmap; simpl; lia).
  destruct (fallback_loop_spec loc limits (length sz) w sz p)
    as (s & final & Hrun & Hls & Hprod & Hfin & Hg); [done|lia|lia|lia|done|].
  rewrite drop_all, app_nil_r in Hrun.
  assert (final = 1) as ->.
  { destruct s as [|s0 s]; [simpl in Hls; lia|].
    destruct (Hg 0%nat s0 (10 ^ 10) eq_refl eq_refl) as [Hs0 Hmax]. simpl in Hmax, Hprod.
    assert (0 < Zprod s); [|specialize (Hmax (final * (s0 * 1)) (Z.divide_refl _)); nia].
    apply Zprod_pos, Forall_lookup. intros i si Hi.
    destruct (lookup_lt_is_Some_2 limits (S i)) as [li Hli].
    { apply lookup_lt_Some in Hi. simpl in Hls. lia. }
    destruct (Hg (S i) si li Hi Hli). lia. }
  exists s. split_and!; [|done|lia|].
  - unfold fallback_split. mrun. unfold dindex. rewrite Hsp, Hem. cbn [of_option]. mrun.
    rewrite Hcls. mrun. rewrite Houts.
    replace (Z.of_nat (length (-1 :: rest)) =? Z.of_nat (length sz)) with true
      by (symmetry; apply Z.eqb_eq; simpl; lia).
    cbn [py_assert]. mrun. erewrite M_bind_ok by exact Hrun. done.
  - intros i si ci Hi Hci.
    destruct (Hg i si (replace_no_constraint ci) Hi) as [[H1 H2] Hmax].
    { unfold limits. by rewrite list_lookup_fmap, Hci. }
    unfold replace_no_constraint in *. rewrite Z.mul_1_l in Hmax.
    destruct (Z.eqb_spec ci (-1)) as [->|Hne]; (split_and!; [done|tauto|]).
    + intros d Hd _. apply Hmax; [done|]. apply Z.le_trans with p; [|lia].
      apply Z.divide_pos_le; [lia|]. etransitivity; [exact Hd|].
      exists (Zprod (drop (S i) s)). rewrite Z.mul_comm, <-Zprod_app, take_drop. lia.
    + intros d Hd [?|?]; [done|]. by apply Hmax.
Qed.

(** The example of the method's documentation: 128 with [[-1, 8, 4]]. *)
Definition split_world (sz : list Z) (p : Z) : world := {|
  store := [ESplit {| size := sz |}]; next_id := 1; name_ct := 0;
  cfg := with_entity_map [("tile_0", O)] (with_space_map
    [("tile_0", {| sp_id := 0; sp_class := CSplit p; sp_outputs := 3; sp_locs := [O] |})]
    FallbackConfigEntity_init) |}.

Lemma fallback_split_greedy_witness :
  (∃ s, fallback_split "tile_0" [-1; 8; 4] (split_world [-1; 1; 1] 128) =
         (Ok tt, set_store (<[O := ESplit {| size := s |}]>
                   (store (split_world [-1; 1; 1] 128))) (split_world [-1; 1; 1] 128)) ∧
    length s = 3%nat ∧ Zprod s = 128 ∧
    ∀ i si ci, s !! i = Some si → [-1; 8; 4] !! i = Some ci →
      1 ≤ si ∧ (ci = -1 ∨ si ≤ ci) ∧
      ∀ d, (d | Zprod (take (S i) s)) → (ci = -1 ∨ d ≤ ci) → d ≤ si) ∧
  store (fallback_split "tile_0" [-1; 8; 4] (split_world [-1; 1; 1] 128)).2 =
    [ESplit {| size := [4; 8; 4] |}] ∧
  store (fallback_split "tile_0" [-1; 8; 4] (split_world [-1; 1; 1] 49)).2 =
    [ESplit {| size := [7; 7; 1] |}].
Proof.
  split; [|split; vm_compute; reflexivity].
  apply (fallback_split_greedy (split_world [-1; 1; 1] 128) "tile_0"
    {| sp_id := 0; sp_class := CSplit 128; sp_outputs := 3; sp_locs := [O] |} 128 0
    [-1; 1; 1] [8; 4]); try reflexivity; [lia|].
  repeat constructor; lia.
Defined.

(** ** Indexing a space *)

(** The number of entities of every knob, in the order of the definitions. *)
Definition knob_dims (c : ConfigSpace) : list Z :=
  (λ s, Z.of_nat (length (sp_locs s))) <$> dvalues (space_map c).

(** A space whose knobs are not empty, which has fewer than [2^63] points, and
    whose cached length, if any, is current. *)
Record space_ok (c : ConfigSpace) : Prop := {
  ok_names : dict_wf (space_map c);
  ok_nonempty : Forall (λ s, sp_locs s ≠ []) (dvalues (space_map c));
  ok_bound : Zprod (knob_dims c) < 2 ^ 63;
  ok_cache : cs_length c = None ∨ cs_length c = Some (Zprod (knob_dims c))
}.

Lemma space_ok_dims c : space_ok c → Forall (λ d, 1 ≤ d) (knob_dims c).
Proof.
  intros Hok. apply Forall_fmap. eapply Forall_impl; [exact (ok_nonempty c Hok)|].
  simpl. intros s Hs. destruct (sp_locs s); [by destruct Hs|simpl; lia].
Qed.

Lemma ConfigSpace_len_ok w :
  space_ok (cfg w) →
  ConfigSpace_len w = (Ok (Zprod (knob_dims (cfg w))),
    set_cfg (with_length (Some (Zprod (knob_dims (cfg w))))) w).
Proof.
  intros Hok. pose proof (space_ok_dims _ Hok) as Hd.
  assert (0 < Zprod (knob_dims (cfg w))).
  { apply Zprod_pos. eapply Forall_impl; [exact Hd|]. simpl; lia. }
  unfold ConfigSpace_len. mrun.
  destruct (ok_cache _ Hok) as [Hc|Hc]; rewrite Hc.
  - fold (knob_dims (cfg w)). rewrite np_prod_exact by (done || apply (ok_bound _ Hok)).
    erewrite M_bind_ok by reflexivity. by destruct (Z.ltb_spec (Zprod (knob_dims (cfg w))) 0); [lia|].
  - mrun. destruct (Z.ltb_spec (Zprod (knob_dims (cfg w))) 0); [lia|].
    unfold mret, M_ret. f_equal. destruct w as [? ? ? c]. unfold set_cfg. simpl in *.
    f_equal. destruct c. unfold with_length. simpl in *. by rewrite Hc.
Qed.

Definition pick (ns : string * space) (k : Z) : string * nat :=
  (ns.1, sp_locs ns.2 !!! Z.to_nat k).

Lemma get_loop_radix spaces : ∀ knob acc,
  NoDup (dkeys acc ++ dkeys spaces) →
  knob_ok knob ((λ s, Z.of_nat (length (sp_locs s))) <$> dvalues spaces) →
  get_loop spaces (radix knob ((λ s, Z.of_nat (length (sp_locs s))) <$> dvalues spaces)) acc =
  Ok (acc ++ zip_with pick spaces knob).
Proof.
  induction spaces as [|[name sp] spaces IH]; intros knob acc Hnd Hk.
  { simpl. by rewrite app_nil_r. }
  apply Forall2_cons_inv_r in Hk as (k & knob' & Hkb & Hk & ->).
  simpl dvalues in *. cbn [get_loop]. csimpl. set (n := Z.of_nat (length (sp_locs sp))) in *.
  set (r := radix knob' _) in *. simpl in Hkb.
  destruct (Z.eqb_spec n 0); [lia|].
  replace (k + n * r) with (k + r * n) by ring.
  rewrite Z.mod_add, Z.mod_small, Z.div_add, (Z.div_small k n), Z.add_0_l by lia.
  destruct (lookup_lt_is_Some_2 (sp_locs sp) (Z.to_nat k)) as [loc Hloc]; [lia|].
  rewrite <-(Z2Nat.id k) at 1 by lia. rewrite py_nth_nat, Hloc. simpl of_option. cbn.
  assert (Hfresh : name ∉ dkeys acc).
  { apply NoDup_app in Hnd as (_ & Hd & _). intros Hin. apply (Hd _ Hin). by left. }
  rewrite dset_fresh by done. unfold r. rewrite IH; [|by unfold dkeys in *; rewrite fmap_app, <-app_assoc|done].
  rewrite <-app_assoc. simpl. unfold pick. simpl. by rewrite (list_lookup_total_correct _ _ _ Hloc).
Qed.

Lemma ConfigSpace_get_out w i :
  space_ok (cfg w) → ¬ (0 ≤ i < Zprod (knob_dims (cfg w))) →
  (ConfigSpace_get i w).1 = Raise IndexError.
Proof.
  intros Hok Hi. unfold ConfigSpace_get. erewrite M_bind_ok by exact (ConfigSpace_len_ok w Hok).
  replace ((i <? 0) || (Zprod (knob_dims (cfg w)) <=? i)) with true; [done|].
  symmetry. apply orb_true_iff. rewrite Z.ltb_lt, Z.leb_le. lia.
Qed.

Lemma ConfigSpace_get_radix w knob :
  space_ok (cfg w) → knob_ok knob (knob_dims (cfg w)) →
  (ConfigSpace_get (radix knob (knob_dims (cfg w))) w).1 =
  Ok (ConfigEntity_init (radix knob (knob_dims (cfg w))) (code_hash (cfg w))
        (zip_with pick (space_map (cfg w)) knob) (constraints (cfg w))).
Proof.
  intros Hok Hk. pose proof (radix_bounds _ _ Hk). unfold ConfigSpace_get.
  erewrite M_bind_ok by exact (ConfigSpace_len_ok w Hok).
  replace ((_ <? 0) || _) with false; cycle 1.
  { symmetry. apply orb_false_iff. rewrite Z.ltb_ge, Z.leb_gt. lia. }
  pose proof (get_loop_radix (space_map (cfg w)) knob [] (ok_names _ Hok) Hk) as Hg.
  fold (knob_dims (cfg w)) in Hg. mrun.
  change (space_map (cfg (set_cfg _ w))) with (space_map (cfg w)). by rewrite Hg.
Qed.

(** C25: [get] accepts exactly the indices below the number of points and raises
    [IndexError] on every other one; the configuration at the index of a knob vector
    takes from every knob the entity at the vector's position, so that the indices and the
    knob vectors of the tuners are in bijection. *)
Theorem config_get_exact (w : world) :
  space_ok (cfg w) →
  (∀ i, ¬ (0 ≤ i < Zprod (knob_dims (cfg w))) → (ConfigSpace_get i w).1 = Raise IndexError) ∧
  (∀ knob, knob_ok knob (knob_dims (cfg w)) →
     let i := knob2point knob (knob_dims (cfg w)) in
     (ConfigSpace_get i w).1 = Ok (ConfigEntity_init i (code_hash (cfg w))
        (zip_with pick (space_map (cfg w)) knob) (constraints (cfg w)))).
Proof.
  intros Hok. split; [intros i; by apply ConfigSpace_get_out|].
  intros knob Hk. simpl. rewrite knob2point_radix by (done || apply (ok_bound _ Hok)).
  by apply ConfigSpace_get_radix.
Qed.

Definition two_knobs : world := {|
  store := EOther <$> [{| val := JInt 1 |}; {| val := JInt 2 |}; {| val := JInt 4 |};
                       {| val := JBool true |}; {| val := JBool false |}];
  next_id := 2; name_ct := 0;
  cfg := with_space_map
    [("tile", {| sp_id := 0; sp_class := COther; sp_outputs := 0; sp_locs := [0; 1; 2]%nat |});
     ("unroll", {| sp_id := 1; sp_class := COther; sp_outputs := 0; sp_locs := [3; 4]%nat |})]
    ConfigSpace_init |}.

Lemma config_get_exact_witness :
  ((∀ i, ¬ (0 ≤ i < Zprod (knob_dims (cfg two_knobs))) →
      (ConfigSpace_get i two_knobs).1 = Raise IndexError) ∧
   (∀ knob, knob_ok knob (knob_dims (cfg two_knobs)) →
     let i := knob2point knob (knob_dims (cfg two_knobs)) in
     (ConfigSpace_get i two_knobs).1 = Ok (ConfigEntity_init i (code_hash (cfg two_knobs))
        (zip_with pick (space_map (cfg two_knobs)) knob) (constraints (cfg two_knobs))))) ∧
  entity_map (ce_base (ConfigEntity_init 5 None
    (zip_with pick (space_map (cfg two_knobs)) [2; 1]) [])) = [("tile", 2%nat); ("unroll", 4%nat)].
Proof.
  split; [|reflexivity]. apply (config_get_exact two_knobs). split.
  - apply (bool_decide_unpack _). vm_compute. exact I.
  - repeat constructor; discriminate.
  - vm_compute. reflexivity.
  - left. reflexivity.
Defined.

(** ** Logs of configurations *)

(** The entity of a knob. *)
Definition entity_at (h : list entity) (c : ConfigEntity) (name : string) : option entity :=
  dget (entity_map (ce_base c)) name ≫= λ loc, h !! loc.

Lemma mmapr_as_int zs : mmapr as_int (JInt <$> zs) = Ok zs.
Proof. induction zs as [|z zs IH]; csimpl; [done|]. by rewrite IH. Qed.

Lemma entity_of_to_json v :
  entity_of_json (entity_to_json v).1 (entity_to_json v).2 = Ok v.
Proof.
  destruct v as [[sz]|[p]|[a]|[v]]; unfold entity_of_json; csimpl; rewrite ?mmapr_as_int; try done.
  assert (mmapr ann_of_json (json_of_ann <$> a) = Ok a) as ->; [|done].
  induction a as [|[s|i] a IH]; csimpl; [done| |]; by rewrite IH.
Qed.

Definition item_of (k : string) (v : entity) : json :=
  JList [JStr k; JStr (entity_to_json v).1; (entity_to_json v).2].

Lemma read_items kvs : ∀ (h : list entity) (em : dict string nat),
  mfoldl (λ '(h, em) item, '(key, t, a) ← unpack_item item; e ← entity_of_json t a;
            Ok (h ++ [e], dset em key (length h))) (h, em) (uncurry item_of <$> kvs) =
  Ok (h ++ kvs.*2, foldl (λ d '(k, v), dset d k v) em (zip kvs.*1 (seq (length h) (length kvs)))).
Proof.
  induction kvs as [|[k v] kvs IH]; intros h em; csimpl; [by rewrite app_nil_r|].
  rewrite entity_of_to_json. csimpl. rewrite IH. rewrite <-app_assoc, length_app. simpl.
  by rewrite Nat.add_1_r.
Qed.

Lemma to_json_items (h : list entity) (em : dict string nat) vs :
  mmapr (λ '(k, loc), v ← of_option KeyError (h !! loc);
           let '(tag, arg) := entity_to_json v in Ok (JList [JStr k; JStr tag; arg])) em = Ok vs →
  ∃ kvs, vs = uncurry item_of <$> kvs ∧
    Forall2 (λ '(k, loc) '(k', v), k = k' ∧ h !! loc = Some v) em kvs.
Proof.
  revert vs. induction em as [|[k loc] em IH]; intros vs H; csimpl in H.
  { exists []. simplify_eq. split; [done|constructor]. }
  destruct (h !! loc) as [v|] eqn:Hv; csimpl in H; [|done].
  destruct (entity_to_json v) as [tag arg] eqn:Hj. csimpl in H.
  destruct (mmapr _ em) as [ws|] eqn:Hm; csimpl in H; [|done]. simplify_eq.
  destruct (IH ws eq_refl) as (kvs & -> & Hk). exists ((k, v) :: kvs). split.
  - csimpl. unfold item_of. by rewrite Hj.
  - by constructor.
Qed.

Lemma to_json_total (h : list entity) (em : dict string nat) :
  Forall (λ '(_, loc), (loc < length h)%nat) em →
  ∃ vs, mmapr (λ '(k, loc), v ← of_option KeyError (h !! loc);
           let '(tag, arg) := entity_to_json v in Ok (JList [JStr k; JStr tag; arg])) em = Ok vs.
Proof.
  induction 1 as [|[k loc] em Hl _ [vs IH]]; csimpl; [by eexists|].
  destruct (lookup_lt_is_Some_2 h loc Hl) as [v ->]. simpl.
  destruct (entity_to_json v). csimpl. rewrite IH. by eexists.
Qed.

Lemma config_json_read (h h' : list entity) (c : ConfigEntity) :
  dict_wf (entity_map (ce_base c)) →
  Forall (λ '(_, loc), (loc < length h)%nat) (entity_map (ce_base c)) →
  ∃ j h'' c', to_json_dict h c = Ok j ∧ from_json_dict h' j = Ok (h'', c') ∧
    ce_index c' = ce_index c ∧ code_hash (ce_base c') = code_hash (ce_base c) ∧
    dkeys (entity_map (ce_base c')) = dkeys (entity_map (ce_base c)) ∧
    ∀ name, entity_at h'' c' name = entity_at h c name.
Proof.
  intros Hwf Hloc. destruct (to_json_total h _ Hloc) as [vs Hvs].
  pose proof Hvs as Hvs'. apply to_json_items in Hvs' as (kvs & -> & Hk).
  assert (Hkeys : kvs.*1 = dkeys (entity_map (ce_base c))).
  { unfold dkeys. clear -Hk. induction Hk as [|[k loc] [k' v] em kvs [-> _] _ IH]; csimpl; [done|].
    by rewrite IH. }
  assert (Hzip : (zip kvs.*1 (seq (length h') (length kvs))).*1 = kvs.*1).
  { apply fst_zip. rewrite length_seq, length_fmap. done. }
  unfold to_json_dict. rewrite Hvs. eexists _, _, _. split; [reflexivity|]. split; [|split_and!].
  - unfold from_json_dict. cbn [jget dindex dget]. simpl.
    match goal with |- ?m ≫= _ = _ => assert (m = Ok (code_hash (ce_base c))) as -> end.
    { by destruct (code_hash (ce_base c)). }
    simpl. rewrite read_items. reflexivity.
  - done.
  - done.
  - simpl. fold (dict_of (zip kvs.*1 (seq (length h') (length kvs)))).
    rewrite dict_of_nodup by (rewrite Hzip, Hkeys; exact Hwf). unfold dkeys at 1. by rewrite Hzip.
  - intros name. unfold entity_at. simpl.
    fold (dict_of (zip kvs.*1 (seq (length h') (length kvs)))).
    rewrite dict_of_nodup by (rewrite Hzip, Hkeys; exact Hwf).
    clear -Hk. revert h'. induction Hk as [|[k loc] [k' v] em kvs [-> Hv] _ IH]; intros h'; csimpl; [done|].
    case_decide; csimpl.
    + by rewrite Hv, list_lookup_middle.
    + specialize (IH (h' ++ [v])). rewrite length_app, <-app_assoc, Nat.add_1_r in IH. exact IH.
Qed.

(** C26: reading back what [to_json_dict] writes gives a configuration with the
    same index, the same code hash and, knob by knob and in the same order, equal
    entities. *)
Theorem config_json_roundtrip (h h' : list entity) (c : ConfigEntity) :
  dict_wf (entity_map (ce_base c)) →
  Forall (λ '(_, loc), (loc < length h)%nat) (entity_map (ce_base c)) →
  ∃ j h'' c', to_json_dict h c = Ok j ∧ from_json_dict h' j = Ok (h'', c') ∧
    ce_index c' = ce_index c ∧ code_hash (ce_base c') = code_hash (ce_base c) ∧
    dkeys (entity_map (ce_base c')) = dkeys (entity_map (ce_base c)) ∧
    ∀ name, entity_at h'' c' name = entity_at h c name.
Proof. apply config_json_read. Qed.

Lemma config_json_roundtrip_witness :
  ∃ j h'' c', to_json_dict (store two_knobs)
      (ConfigEntity_init 5 (Some "h") [("tile", 2%nat); ("unroll", 4%nat)] []) = Ok j ∧
    from_json_dict [] j = Ok (h'', c') ∧
    ce_index c' = 5 ∧ code_hash (ce_base c') = Some "h" ∧
    dkeys (entity_map (ce_base c')) = ["tile"; "unroll"] ∧
    ∀ name, entity_at h'' c' name = entity_at (store two_knobs)
      (ConfigEntity_init 5 (Some "h") [("tile", 2%nat); ("unroll", 4%nat)] []) name.
Proof.
  apply (config_json_roundtrip (store two_knobs) []
    (ConfigEntity_init 5 (Some "h") [("tile", 2%nat); ("unroll", 4%nat)] [])).
  - apply (bool_decide_unpack _). vm_compute. exact I.
  - repeat constructor; simpl; lia.
Defined.

(** ** Well-formed spaces *)

Section reachable.
Variable simplify : pexpr → pexpr.
Variable set_iter : list Z → list Z.

(** The operations on a space: what a template does with it, the fallback mechanisms, the
    assignment of an entity to a knob, and the reading of logged configurations. *)
Inductive op :=
| OpDefine (name : string) (axes : list axis_obj) (d : define_args)
| OpFallback (name : string) (cons : list Z)
| OpReference (ref_log : list ConfigEntity)
| OpSet (name : string) (loc : nat)
| OpRead (d : json)
| OpLen
| OpGet (i : Z)
| OpError (msg : string)
| OpFlop (f : float).

Definition run_op (o : op) : M world unit :=
  match o with
  | OpDefine name axes d => _ ← add_new_transform simplify set_iter name axes d; mret tt
  | OpFallback name cs => fallback_split name cs
  | OpReference ref_log => fallback_with_reference_log ref_log
  | OpSet name loc => ConfigSpace_setitem name loc
  | OpRead d => w ← get_st; '(h, _) ← lift (from_json_dict (store w) d); put_st (set_store h w)
  | OpLen => _ ← ConfigSpace_len; mret tt
  | OpGet i => _ ← ConfigSpace_get i; mret tt
  | OpError msg => raise_error msg
  | OpFlop f => add_flop f
  end.

(** The entities that are passed to an operation are objects. *)
Definition op_objects (o : op) (w : world) : Prop :=
  match o with
  | OpSet _ loc => is_Some (store w !! loc)
  | OpReference ref_log => Forall (λ c, ∀ name loc, dget (entity_map (ce_base c)) name = Some loc →
      is_Some (store w !! loc)) ref_log
  | _ => True
  end.

(** The knobs whose current entity an operation replaces: the one that is assigned, and those that
    are copied from a reference log, all but the splits. *)
Definition assigned (o : op) (w : world) : list string :=
  match o with
  | OpSet name _ => [name]
  | OpReference _ => dkeys (filter (λ '(_, sp), is_split sp = false) (space_map (cfg w)))
  | _ => []
  end.

Definition init_world (c : ConfigSpace) : world :=
  {| store := []; next_id := 0; name_ct := 0; cfg := c |}.

(** The worlds that successful operations on the space [c] lead to, with the knobs that were
    assigned. *)
Inductive session (c : ConfigSpace) : list string → world → Prop :=
| session_start : session c [] (init_world c)
| session_op set w o w' : session c set w → op_objects o w → run_op o w = (Ok tt, w') →
    session c (assigned o w ++ set) w'.
End reachable.

(** The object at [loc] is of the class the space holds. *)
Definition loc_ok (h : list entity) (cls : space_class) (loc : nat) : Prop :=
  match cls, h !! loc with
  | CSplit _, Some (ESplit _) | CReorder, Some (EReorder _)
  | CAnnotate, Some (EAnnotate _) | COther, Some (EOther _) => True
  | _, _ => False
  end.

(** A knob outside [set] has the first of its entities as current entity. *)
Record space_wf (set : list string) (h : list entity) (em : dict string nat) (name : string) (sp : space) : Prop := {
  wf_some : sp_locs sp ≠ [];
  wf_current : is_Some (dget em name);
  wf_first : name ∉ set → sp_locs sp !! 0%nat = dget em name;
  wf_locs : Forall (loc_ok h (sp_class sp)) (sp_locs sp);
  wf_nodup : NoDup (sp_locs sp)
}.

Record world_wf (set : list string) (w : world) : Prop := {
  wf_space_map : dict_wf (space_map (cfg w));
  wf_entity_map : dict_wf (entity_map (cfg w));
  wf_objects : ∀ name loc, dget (entity_map (cfg w)) name = Some loc → is_Some (store w !! loc);
  wf_spaces : ∀ name sp, dget (space_map (cfg w)) name = Some sp →
    space_wf set (store w) (entity_map (cfg w)) name sp
}.

(** A store grows or keeps the class of its objects. *)
Definition store_le (h h' : list entity) : Prop := ∀ cls loc, loc_ok h cls loc → loc_ok h' cls loc.

Lemma store_le_refl h : store_le h h.
Proof. by intros ??. Qed.

Lemma store_le_trans h1 h2 h3 : store_le h1 h2 → store_le h2 h3 → store_le h1 h3.
Proof. unfold store_le. eauto. Qed.

Lemma store_le_app h k : store_le h (h ++ k).
Proof.
  intros cls loc. unfold loc_ok. destruct (h !! loc) eqn:Hl; [|by destruct cls].
  by rewrite (lookup_app_l_Some _ _ _ _ Hl).
Qed.

Lemma store_le_resize h loc sz sz' :
  h !! loc = Some (ESplit {| size := sz |}) →
  store_le h (<[loc := ESplit {| size := sz' |}]> h).
Proof.
  intros Hl cls l. unfold loc_ok. destruct (decide (l = loc)) as [->|].
  - rewrite Hl, list_lookup_insert_eq by (by eapply lookup_lt_Some). done.
  - by rewrite list_lookup_insert_ne.
Qed.

#[local] Hint Resolve store_le_refl store_le_app store_le_resize : pruner.

Lemma store_le_object h h' loc : store_le h h' → is_Some (h !! loc) → is_Some (h' !! loc).
Proof.
  intros Hle [e He]. assert (∃ cls, loc_ok h cls loc) as [cls Hcls%Hle].
  { unfold loc_ok. rewrite He.
    destruct e; [exists (CSplit 0)|exists CReorder|exists CAnnotate|exists COther]; done. }
  unfold loc_ok in Hcls. destruct (h' !! loc); [eauto|by destruct cls].
Qed.

(** Changing the store upwards keeps the world well formed. *)
Lemma world_wf_store set w w' :
  world_wf set w → store_le (store w) (store w') → cfg w' = cfg w → world_wf set w'.
Proof.
  intros [H1 H2 H3 H4] Hle Hc. split; rewrite Hc; [done|done| |].
  - intros name loc Hl. by eapply store_le_object, H3.
  - intros name sp Hsp. destruct (H4 name sp Hsp) as [Hs Hcur Hf Hl Hn]. split; [done..| |done].
    eapply Forall_impl; [exact Hl|]. intros loc. apply Hle.
Qed.

Lemma world_wf_weaken set set' w : set ⊆ set' → world_wf set w → world_wf set' w.
Proof.
  intros Hset [H1 H2 H3 H4]. split; [done..|]. intros name sp Hsp.
  destruct (H4 name sp Hsp) as [Hs Hcur Hf Hl Hn]. split; [done..| |done|done]. intros Hin.
  apply Hf. set_solver.
Qed.

Lemma set_size_le loc i f w w' :
  set_size loc i f w = (Ok tt, w') → cfg w' = cfg w ∧ store_le (store w) (store w').
Proof.
  unfold set_size. mrun. destruct (store w !! loc) as [[[sz]| | |]|] eqn:Hl; try discriminate.
  destruct (_ <=? _); [discriminate|]. unfold put_st. intros [= <-]. simpl.
  eauto with pruner.
Qed.

Lemma fallback_loop_le loc limits dims : ∀ now w r w',
  fallback_loop loc limits dims now w = (Ok r, w') →
  cfg w' = cfg w ∧ store_le (store w) (store w').
Proof.
  induction dims as [|i dims IH]; intros now w r w'; cbn [fallback_loop].
  { intros [= _ <-]. eauto with pruner. }
  intros H. minv H as lim w1 H1. minv H as f w2 H2. minv H as [] w3 H3.
  apply lift_inv in H1 as [_ ->]. apply lift_inv in H2 as [_ ->].
  apply IH in H as [Hc Hle]. apply set_size_le in H3 as [Hc' Hle'].
  split; [congruence|]. by eapply store_le_trans.
Qed.

Definition class_ok (cls : space_class) (e : entity) : Prop :=
  match cls, e with
  | CSplit _, ESplit _ | CReorder, EReorder _ | CAnnotate, EAnnotate _ | COther, EOther _ => True
  | _, _ => False
  end.

Lemma loc_ok_fresh h es cls :
  Forall (class_ok cls) es → Forall (loc_ok (h ++ es) cls) (seq (length h) (length es)).
Proof.
  intros Hes. apply Forall_forall. intros loc [Hge Hlt]%elem_of_seq. unfold loc_ok.
  rewrite lookup_app_r by lia.
  destruct (lookup_lt_is_Some_2 es (loc - length h)) as [e He]; [lia|]. rewrite He.
  eapply Forall_lookup_1 in Hes; [|exact He]. by destruct cls, e.
Qed.

Section preserve.
Variable simplify : pexpr → pexpr.
Variable set_iter : list Z → list Z.

Lemma make_space_class axes d cls outs es :
  make_space set_iter axes d = Ok (cls, outs, es) → Forall (class_ok cls) es.
Proof.
  destruct d as [pol kw|pol kw|pol na|cand]; simpl; intros H.
  - destruct (axes !! 0%nat) as [[]|]; simpl in H; try discriminate.
    destruct (SplitSpace_init _ _ _ _); simpl in H; [|discriminate].
    injection H as <- <- <-. apply Forall_map, Forall_true. done.
  - destruct (ReorderSpace_init _ _ _); simpl in H; [|discriminate].
    injection H as <- <- <-. apply Forall_map, Forall_true. done.
  - destruct (AnnotateSpace_init _ _ _); simpl in H; [|discriminate].
    injection H as <- <- <-. apply Forall_map, Forall_true. done.
  - injection H as <- <- <-. apply Forall_map, Forall_true. done.
Qed.

Lemma convert_axis_frame x w a w' :
  convert_axis simplify x w = (Ok a, w') → store w' = store w ∧ cfg w' = cfg w.
Proof.
  destruct x as [id v|sp i|v]; simpl; try (by intros [= _ <-]).
  mrun. destruct (VirtualAxis_init _ _ _ _) as [[va|e] ct]; mrun; [|discriminate].
  by intros [= _ <-].
Qed.

Lemma convert_axes_frame axes : ∀ w r w',
  mmap_st (convert_axis simplify) axes w = (Ok r, w') → store w' = store w ∧ cfg w' = cfg w.
Proof.
  induction axes as [|x axes IH]; intros w r w'; cbn [mmap_st]; [by intros [= _ <-]|].
  intros H. minv H as a w1 H1. minv H as rs w2 H2. injection H as _ <-.
  apply convert_axis_frame in H1 as [? ?]. apply IH in H2 as [? ?]. split; congruence.
Qed.

Lemma define_wf set name axes d w r w' :
  add_new_transform simplify set_iter name axes d w = (Ok r, w') → world_wf set w → world_wf set w'.
Proof.
  intros H Hwf. unfold add_new_transform in H. rewrite M_get_bind in H.
  destruct (cs_collect (cfg w)); cycle 1.
  { minv H as n w1 H1. apply lift_inv in H1 as [_ ->]. by injection H as _ <-. }
  minv H as axes' w1 H1. apply convert_axes_frame in H1 as [Hs1 Hc1].
  minv H as p w2 H2. apply lift_inv in H2 as [Hmk ->]. destruct p as [[cls outs] es].
  apply make_space_class in Hmk. minv H as locs w2 H2. injection H2 as <- <-.
  rewrite M_get_bind, M_put_bind in H. minv H as loc0 w2 H2. apply lift_inv in H2 as [Hloc ->].
  rewrite M_modify_bind in H. injection H as _ <-.
  destruct es as [|e es]; [discriminate|]. injection Hloc as <-. simpl.
  rewrite Hs1, Hc1. destruct Hwf as [Hsm Hem Hob Hsp]. split; simpl; [by apply dict_wf_dset..| |].
  - intros name' loc. destruct (decide (name' = name)) as [->|Hne].
    + rewrite dget_dset_eq. intros [= <-]. rewrite lookup_app_r, Nat.sub_diag by done. by exists e.
    + rewrite dget_dset_ne by done. intros Hl%Hob. eapply store_le_object; [apply store_le_app|done].
  - intros name' sp Hget. destruct (decide (name' = name)) as [->|Hne].
    + rewrite dget_dset_eq in Hget. injection Hget as <-. split; simpl; rewrite ?dget_dset_eq; [done|eauto|done| |].
      * exact (loc_ok_fresh (store w) (e :: es) cls Hmk).
      * exact (NoDup_seq (length (store w)) (S (length es))).
    + rewrite dget_dset_ne in Hget by done. destruct (Hsp _ _ Hget) as [Hs Hcur Hf Hl Hn].
      split; [done|by rewrite dget_dset_ne..| |done].
      eapply Forall_impl; [exact Hl|]. intros loc. apply store_le_app.
Qed.

Lemma len_frame w r w' :
  ConfigSpace_len w = (Ok r, w') → store w' = store w ∧ space_map (cfg w') = space_map (cfg w) ∧
    entity_map (cfg w') = entity_map (cfg w).
Proof.
  unfold ConfigSpace_len. mrun. destruct (cs_length (cfg w)) as [l|]; intros H; minv H as l' w1 H1.
  - injection H1 as <- <-. destruct (_ <? _); [discriminate|]. by injection H as _ <-.
  - injection H1 as <- <-. destruct (_ <? _); [discriminate|]. by injection H as _ <-.
Qed.

(** Nothing the invariant talks about changes. *)
Lemma world_wf_same set w w' :
  store w' = store w → space_map (cfg w') = space_map (cfg w) →
  entity_map (cfg w') = entity_map (cfg w) → world_wf set w → world_wf set w'.
Proof. intros H1 H2 H3 [? ? ? ?]. split; rewrite ?H1, ?H2, ?H3; auto. Qed.

Lemma fallback_split_le name cs w w' :
  fallback_split name cs w = (Ok tt, w') → cfg w' = cfg w ∧ store_le (store w) (store w').
Proof.
  unfold fallback_split. intros H. rewrite M_get_bind in H.
  minv H as sp w2 H1. apply lift_inv in H1 as [_ ->].
  minv H as p w2 H1. destruct (sp_class sp); try discriminate. injection H1 as <- <-.
  minv H as u w2 H1. apply lift_inv in H1 as [_ ->]. minv H as loc w2 H1.
  apply lift_inv in H1 as [_ ->]. minv H as r w2 H1. injection H as <-.
  by apply fallback_loop_le in H1.
Qed.

Lemma setitem_wf set name loc w :
  name ∈ set → is_Some (store w !! loc) → world_wf set w →
  world_wf set (ConfigSpace_setitem name loc w).2.
Proof.
  intros Hin Hloc [H1 H2 H3 H4]. split; cbn; [done|by apply dict_wf_dset| |].
  - intros name' loc'. destruct (decide (name' = name)) as [->|Hne].
    + rewrite dget_dset_eq. by intros [= <-].
    + rewrite dget_dset_ne by done. apply H3.
  - intros name' sp Hsp. destruct (H4 name' sp Hsp) as [Hs Hcur Hf Hl Hn]. split; [done| | |done|done].
    + destruct (decide (name' = name)) as [->|Hne]; [rewrite dget_dset_eq; eauto|by rewrite dget_dset_ne].
    + intros Hout. rewrite dget_dset_ne by (intros ->; done). by apply Hf.
Qed.

(** The best match is a configuration of the reference log. *)
Lemma best_match_in h knobs ref_log c : best_match h knobs ref_log = Ok (Some c) → c ∈ ref_log.
Proof.
  unfold best_match. intros ([f best] & Hb & H)%result_bind_ok. injection H as ->.
  refine (mfoldl_keeps _ (λ b : match_state, ∀ c, b.2 = Some c → c ∈ ref_log) _ _ _ _ _ Hb c eq_refl); [|done].
  clear Hb. intros b c1 b' Hc1 Hb ([b1 sc] & H1 & [= <-])%result_bind_ok.
  refine (mfoldl_keeps _ (λ b : match_state * float, ∀ c, b.1.2 = Some c → c ∈ ref_log) _ _ _ _ _ H1); [|done].
  clear b Hb H1. intros [b sc1] [k fs] b2 _ Hb. unfold match_step.
  intros (sz & _ & (fs' & _ & H)%result_bind_ok)%result_bind_ok. cbv zeta in H.
  destruct (flt _ _); injection H as <-; [|done]. by intros c2 [= <-].
Qed.

Lemma reference_log_wf set ref_log w w' :
  fallback_with_reference_log ref_log w = (Ok tt, w') → op_objects (OpReference ref_log) w →
  world_wf set w → world_wf (assigned (OpReference ref_log) w ++ set) w'.
Proof.
  unfold fallback_with_reference_log. intros H Hobj Hwf. rewrite M_get_bind in H.
  minv H as knobs w1 H1. apply lift_inv in H1 as [_ ->]. minv H as best w1 H1.
  apply lift_inv in H1 as [Hbest ->].
  apply (world_wf_weaken _ (assigned (OpReference ref_log) w ++ set)) in Hwf; [|set_solver].
  destruct best as [c|]; [|by injection H as <-]. apply best_match_in in Hbest.
  cbn in Hobj. rewrite Forall_forall in Hobj. specialize (Hobj c Hbest).
  set (keep w1 := world_wf (assigned (OpReference ref_log) w ++ set) w1 ∧ store_le (store w) (store w1)).
  assert (keep w) as Hk by (split; [done|apply store_le_refl]).
  minv H as u w1 H1. destruct u. apply (mfor_keeps _ keep) in H1; [| |done].
  - apply (mfor_keeps _ keep) in H; [by destruct H| |done].
    intros [name sp] w2 w3 Hin [Hw2 Hle] H2. destruct (is_split sp) eqn:Hsp; [injection H2 as <-; done|].
    minv H2 as loc w4 H3. apply lift_inv in H3 as [Hloc ->].
    assert (w3 = (ConfigSpace_setitem name loc w2).2) as -> by (by rewrite H2).
    split; [|done]. apply setitem_wf; [| |done].
    + apply elem_of_app. left. unfold assigned, dkeys. apply list_elem_of_fmap. exists (name, sp).
      split; [done|]. by apply list_elem_of_filter.
    + eapply store_le_object; [exact Hle|]. eapply (Hobj name). unfold dindex in Hloc.
      destruct (dget _ name); [by injection Hloc as ->|done].
  - intros [name sp] w2 w3 _ [Hw2 Hle] H2. rewrite M_get_bind in H2.
    minv H2 as sz w4 H3. apply lift_inv in H3 as [_ ->]. minv H2 as u w4 H3.
    apply lift_inv in H3 as [_ ->]. apply fallback_split_le in H2 as [Hc Hle2].
    split; [by eapply world_wf_store|by eapply store_le_trans].
Qed.

Lemma read_store_le h d h' c : from_json_dict h d = Ok (h', c) → store_le h h'.
Proof.
  unfold from_json_dict. intros H. do 6 (apply result_bind_ok in H as (? & _ & H)).
  apply result_bind_ok in H as ([h1 em] & Hf & H). injection H as -> _.
  refine (mfoldl_keeps _ (λ p : list entity * dict string nat, store_le h p.1) _ _ _ _ _ Hf); [|apply store_le_refl]. clear Hf.
  intros [h1 em1] item [h2 em2] _ Hle ([[key t] a] & _ & H)%result_bind_ok.
  apply result_bind_ok in H as (e & _ & [= <- <-]). eapply store_le_trans; [exact Hle|apply store_le_app].
Qed.

Lemma run_op_wf set o w w' :
  run_op simplify set_iter o w = (Ok tt, w') → op_objects o w → world_wf set w →
  world_wf (assigned o w ++ set) w'.
Proof.
  intros H Hobj Hwf. destruct o as [name axes d|name cs|log|name loc|d| |i|msg|f]; cbn [assigned app run_op] in *.
  - minv H as r w2 H1. injection H as <-. by eapply define_wf.
  - apply fallback_split_le in H as [Hc Hle]. by eapply world_wf_store.
  - by eapply reference_log_wf.
  - assert (w' = (ConfigSpace_setitem name loc w).2) as -> by (by rewrite H).
    apply setitem_wf; [by left|done|]. eapply world_wf_weaken; [|done]. set_solver.
  - rewrite M_get_bind in H. minv H as p w2 H1. apply lift_inv in H1 as [Hr ->]. destruct p as [h c].
    injection H as <-. by eapply world_wf_store; [..|by eapply read_store_le|].
  - minv H as r w2 H1. injection H as <-. apply len_frame in H1 as (? & ? & ?).
    eapply world_wf_same; [..|exact Hwf]; (done || congruence).
  - minv H as r w2 H1. injection H as <-. unfold ConfigSpace_get in H1. minv H1 as l w3 H2.
    apply len_frame in H2 as (? & ? & ?). destruct (_ || _); [discriminate|].
    rewrite M_get_bind in H1. minv H1 as em w4 H3. apply lift_inv in H3 as [_ ->].
    injection H1 as _ <-. eapply world_wf_same; [..|exact Hwf]; (done || congruence).
  - injection H as <-. eapply world_wf_same; [..|exact Hwf]; (done || congruence).
  - injection H as <-. eapply world_wf_same; [..|exact Hwf]; (done || congruence).
Qed.
End preserve.

(** C27: whatever knobs are defined, whatever fallback splits, fallbacks from reference logs,
    assignments of entities, lengths, configurations and logged configurations are taken, as long
    as every operation succeeds, the space stays well formed: every knob has at least one
    entity, its entities are distinct objects of the class of the knob, and it has a current
    entity, which is an object. Unless the knob was assigned an entity, by [cfg[name] = entity] or
    by the copy from a reference log, its current entity is the first of its entities, the very
    object, so that [fallback_split] also rewrites the space's first entity. *)
Theorem config_space_invariant (simplify : pexpr → pexpr) (set_iter : list Z → list Z)
    (c : ConfigSpace) (set : list string) (w : world) :
  c = ConfigSpace_init ∨ c = FallbackConfigEntity_init →
  session simplify set_iter c set w → world_wf set w.
Proof.
  intros Hc. induction 1 as [|set w o w' _ IH Hobj Hop]; [|by eapply run_op_wf].
  destruct Hc as [->| ->]; split; simpl; try apply NoDup_nil_2; done.
Qed.

(** A logged configuration of a template with a split knob and two options, and the template,
    followed by a fallback split, a fallback from that log and an assignment. *)
Definition logged : json :=
  JObj [("index", JInt 0); ("code_hash", JNull);
        ("entity", JList [JList [JStr "tile_0"; JStr "sp"; JList [JInt 4; JInt 2; JInt 8]];
                          JList [JStr "auto_unroll"; JStr "ot"; JInt 512];
                          JList [JStr "vectorize"; JStr "ot"; JInt 1]])].

Definition template_ops : list op :=
  [OpDefine "tile_0" [ORaw (VarInt 128)] (DSplit "factors" {| kw_max_factor := None;
     kw_filter := None; kw_num_outputs := Some 3; kw_no_tail := None; kw_candidate := None |});
   OpDefine "auto_unroll" [] (DKnob [JInt 0; JInt 512]);
   OpDefine "vectorize" [] (DKnob [JInt 0; JInt 1]);
   OpLen; OpGet 3; OpFallback "tile_0" [-1; 8; 4]; OpRead logged].

Definition reference_ops : list op :=
  template_ops ++
  [OpReference [ConfigEntity_init 0 None [("tile_0", 40%nat); ("auto_unroll", 41%nat); ("vectorize", 42%nat)] []];
   OpSet "vectorize" 38%nat].

(** [op_objects], executed *)
Definition op_objects_b (o : op) (w : world) : bool :=
  match o with
  | OpSet _ loc => bool_decide (loc < length (store w))%nat
  | OpReference ref_log => forallb (λ c : ConfigEntity,
      forallb (λ p : string * nat, bool_decide (p.2 < length (store w))%nat) (entity_map (ce_base c))) ref_log
  | _ => true
  end.

Lemma op_objects_true o w : op_objects_b o w = true → op_objects o w.
Proof.
  destruct o; try done; cbn.
  - intros Hf. apply Forall_forall. intros c Hc name loc Hl.
    rewrite forallb_forall in Hf. specialize (Hf c). rewrite <-list_elem_of_In, forallb_forall in Hf.
    specialize (Hf Hc (name, loc)). rewrite <-list_elem_of_In in Hf. apply lookup_lt_is_Some_2.
    by eapply bool_decide_eq_true_1, Hf, dget_elem.
  - intros H%bool_decide_eq_true_1. by apply lookup_lt_is_Some_2.
Qed.

(** Run operations that all succeed. *)
Fixpoint run_ops simplify set_iter (os : list op) (set : list string) (w : world) : option (list string * world) :=
  match os with
  | [] => Some (set, w)
  | o :: os =>
      match op_objects_b o w, run_op simplify set_iter o w with
      | true, (Ok _, w') => run_ops simplify set_iter os (assigned o w ++ set) w'
      | _, _ => None
      end
  end.

Lemma run_ops_session simplify set_iter c os : ∀ set w set' w',
  session simplify set_iter c set w → run_ops simplify set_iter os set w = Some (set', w') →
  session simplify set_iter c set' w'.
Proof.
  induction os as [|o os IH]; intros set w set' w' Hs H; simpl in H; [by injection H as <- <-|].
  destruct (op_objects_b o w) eqn:Hobj; [|discriminate].
  destruct (run_op _ _ o w) as [[[]|] w1] eqn:Ho; [|discriminate].
  eapply IH; [|exact H]. eapply session_op; [exact Hs|by apply op_objects_true|exact Ho].
Qed.

Definition template_world : list string * world :=
  default ([], init_world ConfigSpace_init)
    (run_ops (λ e, e) (λ l, l) reference_ops [] (init_world FallbackConfigEntity_init)).

Lemma config_space_invariant_witness :
  let w := template_world.2 in
  world_wf ["vectorize"; "auto_unroll"; "vectorize"] w ∧
  (loc ← dget (entity_map (cfg w)) "tile_0"; store w !! loc) = Some (ESplit {| size := [8; 2; 8] |}) ∧
  (sp ← dget (space_map (cfg w)) "tile_0"; loc ← sp_locs sp !! 0%nat; store w !! loc) =
    Some (ESplit {| size := [8; 2; 8] |}) ∧
  (loc ← dget (entity_map (cfg w)) "auto_unroll"; store w !! loc) = Some (EOther {| val := JInt 512 |}).
Proof.
  cbv zeta. split; [|split_and!; vm_compute; reflexivity].
  apply (config_space_invariant (λ e, e) (λ l, l) FallbackConfigEntity_init); [by right|].
  apply (run_ops_session _ _ _ reference_ops [] (init_world FallbackConfigEntity_init)); [apply session_start|].
  vm_compute. reflexivity.
Defined.

(** ** Reference logs *)

Lemma np_prod_neg l :
  Forall (λ x, 1 ≤ x) l → Zprod l < 2 ^ 63 → np_prod (-1 :: l) = - Zprod l.
Proof.
  intros Hl Hb. unfold np_prod. cbn [foldl]. change (wrap64 (1 * -1)) with (-1).
  assert (∀ a, a ≤ -1 → - 2 ^ 63 < a * Zprod l →
            foldl (λ a x, wrap64 (a * x)) a l = a * Zprod l) as H.
  { clear Hb. induction Hl as [|x l Hx Hl IH]; intros a Ha Hb; simpl in *; [ring|].
    assert (0 < Zprod l) by (apply Zprod_pos; eapply Forall_impl; [exact Hl|]; simpl; lia).
    rewrite wrap64_small by nia. rewrite IH by nia. ring. }
  rewrite H by lia. ring.
Qed.

Lemma get_factors_neg n : n < 0 → get_factors n = Raise ValueError.
Proof. intros. unfold get_factors. by replace (n <? 0) with true by lia. Qed.

(** the sizes of a generated split start with [-1], whose product is negative, so
    a reference log whose first configuration has a generated split for the first split knob
    makes [fallback_with_reference_log] raise [ValueError]. *)
Theorem reference_log_generated_split (w : world) (name : string) (sp : space)
    (others : dict string space) (c : ConfigEntity) (log : list ConfigEntity) (rest : list Z) :
  filter (λ '(_, sp), is_split sp = true) (space_map (cfg w)) = (name, sp) :: others →
  Forall (λ '(_, sp), ∃ p, sp_class sp = CSplit p ∧ 0 < p) ((name, sp) :: others) →
  knob_size (store w) c name = Ok (-1 :: rest) →
  Forall (λ x, 1 ≤ x) rest → Zprod rest < 2 ^ 63 →
  fallback_with_reference_log (c :: log) w = (Raise ValueError, w).
Proof.
  intros Hf Hp Hsz Hrest Hb. unfold fallback_with_reference_log. rewrite M_get_bind, Hf.
  assert (∃ fs ks, mmapr (λ '(name, sp), match sp_class sp with
              | CSplit p => fs ← get_factors p; Ok (name, fs)
              | _ => Raise AttributeError end) ((name, sp) :: others) = Ok ((name, fs) :: ks))
    as (fs & ks & Hk).
  { clear Hf. apply Forall_cons in Hp as [(p & Hc & Hp0) Hp]. simpl. rewrite Hc.
    destruct (get_factors_correct p Hp0) as (fs & -> & _). simpl. exists fs.
    induction Hp as [|[n s] l (q & Hq & Hq0) _ [ks IH]]; simpl; [by eexists|].
    rewrite Hq. destruct (get_factors_correct q Hq0) as (gs & -> & _). simpl.
    destruct (mmapr _ l); simpl in *; [by eexists|discriminate]. }
  rewrite Hk. mrun. unfold best_match. simpl. unfold match_step at 1. simpl. rewrite Hsz. simpl.
  assert (0 < Zprod rest) by (apply Zprod_pos; eapply Forall_impl; [exact Hrest|]; simpl; lia).
  rewrite np_prod_neg, get_factors_neg by (done || lia). done.
Qed.

Lemma reference_log_generated_split_witness :
  fallback_with_reference_log [ConfigEntity_init 0 None [("tile_0", O)] []]
    (split_world [-1; 8; 4] 128) = (Raise ValueError, split_world [-1; 8; 4] 128).
Proof.
  apply (reference_log_generated_split (split_world [-1; 8; 4] 128) "tile_0"
    {| sp_id := 0; sp_class := CSplit 128; sp_outputs := 3; sp_locs := [O] |} []
    (ConfigEntity_init 0 None [("tile_0", O)] []) [] [8; 4]).
  - reflexivity.
  - constructor; [|constructor]. exists 128. split; [reflexivity|lia].
  - reflexivity.
  - repeat constructor; lia.
  - simpl. lia.
Defined.
