(* ===== verification/Tuners.v ===== *)
(** * Tuners ([python/tvm/autotvm/tuner/tuner.py], [index_based_tuner.py])

    The tuning loop of [Tuner.tune] over any tuner, and the two index-based
    tuners. A tuner sees its configuration space through [TuningSpace]: its length,
    the sizes of its knobs and [get]; [ConfigSpace] implements it. *)

From S2P Require Import Prelude PyDict PyFloat Knobs ConfigSpace.

(** ** The space a tuner searches *)

Class TuningSpace (C : Type) := {
  ts_dims : list Z;
  ts_len : Z;
  ts_get : Z → result C;
  ts_index : C → Z
}.

Class TuningSpaceLaws (C : Type) `{TuningSpace C} := {
  ts_dims_pos : Forall (λ d, 1 ≤ d) ts_dims;
  ts_len_dims : ts_len = Zprod ts_dims;
  ts_len_bound : ts_len < 2 ^ 63;
  ts_get_in : ∀ i, 0 ≤ i < ts_len → ∃ c, ts_get i = Ok c ∧ ts_index c = i;
  ts_get_out : ∀ i, ¬ (0 ≤ i < ts_len) → ts_get i = Raise IndexError
}.

(** The space of a template. *)
Section config_space_instance.
Context (w : world).

#[local] Instance config_tuning_space : TuningSpace ConfigEntity := {|
  ts_dims := knob_dims (cfg w);
  ts_len := Zprod (knob_dims (cfg w));
  ts_get := λ i, (ConfigSpace_get i w).1;
  ts_index := ce_index
|}.

#[local] Instance config_tuning_space_laws (Hok : space_ok (cfg w)) : TuningSpaceLaws ConfigEntity.
Proof.
  split; simpl.
  - by apply space_ok_dims.
  - done.
  - apply (ok_bound _ Hok).
  - intros i Hi. destruct (point2knob_ok i (knob_dims (cfg w))) as (knob & _ & Hk & <-);
      [by apply space_ok_dims|done|].
    rewrite ConfigSpace_get_radix by done. by eexists.
  - intros i. by apply ConfigSpace_get_out.
Qed.
End config_space_instance.

(** ** Index-based tuners *)

Record IndexBaseTuner := { range_length : Z; index_offset : Z; counter : Z }.

Section index_based.
Context {C : Type} `{TuningSpace C}.

Definition IndexBaseTuner_init (range_idx : option (Z * Z)) : result IndexBaseTuner :=
  match range_idx with
  | None => Ok {| range_length := ts_len; index_offset := 0; counter := 0 |}
  | Some (lo, hi) =>
      _ ← py_assert (lo <? hi);
      _ ← py_assert (0 <=? lo);
      Ok {| range_length := hi - lo + 1; index_offset := lo; counter := 0 |}
  end.

Definition has_next (t : IndexBaseTuner) : bool := counter t <? range_length t.

Definition incr_counter (t : IndexBaseTuner) : IndexBaseTuner :=
  {| range_length := range_length t; index_offset := index_offset t; counter := counter t + 1 |}.

(** [GridSearchTuner.next_batch]; [ret] is the list built so far. *)
Fixpoint grid_next_batch (batch_size : nat) (ret : list C) : M IndexBaseTuner (list C) :=
  match batch_size with
  | O => mret ret
  | S n =>
      t ← get_st;
      if range_length t <=? counter t then mret ret else
      c ← lift (ts_get (counter t + index_offset t));
      _ ← put_st (incr_counter t);
      grid_next_batch n (ret ++ [c])
  end.

(** [np.random.randint(n)]: the stream gives arbitrary integers, the draw is
    reduced to [0 <= r < n]. *)
Variable rnd : nat → Z.

Definition randint (n : Z) (pos : nat) : Z := rnd pos mod n.

Record RandomTuner := {
  rt_base : IndexBaseTuner;
  rand_state : dict Z Z;
  rand_max : Z;
  visited : list Z;
  rng : nat
}.

Definition RandomTuner_init (range_idx : option (Z * Z)) : result RandomTuner :=
  t ← IndexBaseTuner_init range_idx;
  Ok {| rt_base := t; rand_state := []; rand_max := range_length t; visited := []; rng := 0 |}.

(** [self.rand_state.get(i, i)] *)
Definition rand_get (d : dict Z Z) (i : Z) : Z := default i (dget d i).

Fixpoint random_next_batch (batch_size : nat) (ret : list C) : M RandomTuner (list C) :=
  match batch_size with
  | O => mret ret
  | S n =>
      t ← get_st;
      if rand_max t =? 0 then mret ret else
      let index_ := randint (rand_max t) (rng t) in
      let rmax := rand_max t - 1 in
      let index := rand_get (rand_state t) index_ + index_offset (rt_base t) in
      _ ← put_st {| rt_base := rt_base t; rand_state := rand_state t; rand_max := rmax;
                    visited := visited t; rng := S (rng t) |};
      c ← lift (ts_get index);
      let d := ddel (dset (rand_state t) index_ (rand_get (rand_state t) rmax)) rmax in
      _ ← put_st {| rt_base := incr_counter (rt_base t); rand_state := d; rand_max := rmax;
                    visited := visited t ++ [index]; rng := S (rng t) |};
      random_next_batch n (ret ++ [c])
  end.
End index_based.

(** Successive calls of [next_batch] with the given batch sizes. *)
Fixpoint run_batches {S C} (next : nat → M S (list C)) (sizes : list nat) : M S (list C) :=
  match sizes with
  | [] => mret []
  | n :: sizes => cs ← next n; rest ← run_batches next sizes; mret (cs ++ rest)
  end.

(** ** The random tuner draws every index once *)

(** The array the dictionary stands for. *)
Definition virtual (d : dict Z Z) (n : nat) : list Z :=
  (λ i : nat, rand_get d (Z.of_nat i)) <$> seq 0 n.

Lemma virtual_lookup d n i :
  (i < n)%nat → virtual d n !! i = Some (rand_get d (Z.of_nat i)).
Proof. intros Hi. unfold virtual. by rewrite list_lookup_fmap, lookup_seq_lt. Qed.

Lemma virtual_empty n : virtual [] n = Z.of_nat <$> seq 0 n.
Proof. done. Qed.

(** Drawing position [j] moves the last element into its place. *)
Lemma virtual_draw d m j :
  dict_wf d → (j ≤ m)%nat →
  virtual d (S m) ≡ₚ
  rand_get d (Z.of_nat j) ::
    virtual (ddel (dset d (Z.of_nat j) (rand_get d (Z.of_nat m))) (Z.of_nat m)) m.
Proof.
  intros Hwf Hj. set (d' := ddel _ _).
  assert (Hd : virtual d' m = take m (<[j := rand_get d (Z.of_nat m)]> (virtual d (S m)))).
  { apply list_eq. intros i. destruct (decide (i < m)%nat) as [Hi|Hi].
    - rewrite virtual_lookup, lookup_take_lt by done. unfold rand_get, d'.
      rewrite dget_ddel_ne by lia. destruct (decide (i = j)) as [->|Hne].
      + rewrite dget_dset_eq, list_lookup_insert_eq; [done|].
        unfold virtual. rewrite length_fmap, length_seq. lia.
      + rewrite dget_dset_ne, list_lookup_insert_ne, virtual_lookup by lia. done.
    - rewrite !lookup_ge_None_2; [done| |].
      + rewrite length_take. lia.
      + unfold virtual. rewrite length_fmap, length_seq. lia. }
  rewrite Hd. set (v := virtual d (S m)).
  assert (Hlen : length v = S m) by (unfold v, virtual; by rewrite length_fmap, length_seq).
  assert (Hjv : v !! j = Some (rand_get d (Z.of_nat j))) by (apply virtual_lookup; lia).
  assert (Hmv : v !! m = Some (rand_get d (Z.of_nat m))) by (apply virtual_lookup; lia).
  rewrite <-(Permutation_insert_swap v j m _ _ Hjv Hmv) at 1.
  set (u := <[j := _]> v). assert (Hu : length u = S m) by (unfold u; by rewrite length_insert).
  rewrite (insert_take_drop u m) by lia. rewrite drop_ge by lia. by rewrite Permutation_app_comm.
Qed.

Section random.
Context {C : Type} `{TuningSpaceLaws C}.
Variable rnd : nat → Z.
Context (t0 : IndexBaseTuner).

(** What is drawn and what is left make up the range. *)
Record random_inv (t : RandomTuner) : Prop := {
  ri_wf : dict_wf (rand_state t);
  ri_max : 0 ≤ rand_max t;
  ri_offset : index_offset (rt_base t) = index_offset t0;
  ri_length : range_length (rt_base t) = range_length t0;
  ri_counter : counter (rt_base t) + rand_max t = range_length t0;
  ri_perm : visited t ++ ((λ x, x + index_offset t0) <$> virtual (rand_state t) (Z.to_nat (rand_max t)))
            ≡ₚ py_range (index_offset t0) (index_offset t0 + range_length t0) 1
}.

Lemma random_next_batch_spec n : ∀ ret t,
  0 ≤ index_offset t0 → index_offset t0 + range_length t0 ≤ ts_len → random_inv t →
  ∃ cs t', random_next_batch rnd n ret t = (Ok (ret ++ cs), t') ∧ random_inv t' ∧
    Z.to_nat (rand_max t') = (Z.to_nat (rand_max t) - n)%nat ∧
    visited t' = visited t ++ (ts_index <$> cs) ∧
    length cs = Nat.min n (Z.to_nat (rand_max t)).
Proof.
  induction n as [|n IH]; intros ret t Hoff Hrange Hinv; cbn [random_next_batch].
  { exists [], t. rewrite fmap_nil, !app_nil_r. split_and!; [done|done|lia|done|cbn [length]; lia]. }
  rewrite M_get_bind. pose proof (ri_max _ Hinv) as Hmax.
  destruct (Z.eqb_spec (rand_max t) 0) as [Hz|Hz].
  { exists [], t. rewrite fmap_nil, !app_nil_r. split_and!; [done|done|lia|done|cbn [length]; lia]. }
  set (m := Z.to_nat (rand_max t - 1)). set (j := Z.to_nat (randint rnd (rand_max t) (rng t))).
  assert (Hr : 0 ≤ randint rnd (rand_max t) (rng t) < rand_max t) by (apply Z.mod_pos_bound; lia).
  assert (Hj : randint rnd (rand_max t) (rng t) = Z.of_nat j) by lia.
  assert (Hm : rand_max t - 1 = Z.of_nat m) by lia. rewrite Hj, Hm.
  pose proof (virtual_draw (rand_state t) m j (ri_wf _ Hinv) ltac:(lia)) as Hdraw.
  pose proof (ri_perm _ Hinv) as Hperm. replace (Z.to_nat (rand_max t)) with (S m) in Hperm by lia.
  rewrite Hdraw, fmap_cons in Hperm. set (idx := rand_get (rand_state t) (Z.of_nat j)) in *.
  assert (Hin : idx + index_offset t0 ∈ py_range (index_offset t0) (index_offset t0 + range_length t0) 1).
  { rewrite <-Hperm. apply elem_of_app. right. by left. }
  apply elem_of_py_range in Hin as [Hin _]; [|lia].
  destruct (ts_get_in (idx + index_offset t0)) as (c & Hc & Hidx); [lia|].
  rewrite M_put_bind, (ri_offset _ Hinv), Hc, M_lift_ok_bind, M_put_bind.
  edestruct (IH (ret ++ [c])) as (cs & t' & Hrun & Hinv' & Hrm & Hvis & Hlen); [done|done| |].
  2: { rewrite Hrun. exists (c :: cs), t'. rewrite <-app_assoc. split_and!; [done|done| | |].
       - rewrite Hrm. simpl. lia.
       - rewrite Hvis. simpl. by rewrite <-app_assoc, Hidx.
       - cbn [length]. rewrite Hlen. cbn [rand_max]. lia. }
  destruct Hinv as [Hwf _ Ho Hlen Hcnt _].
  split; simpl; [by apply dict_wf_ddel, dict_wf_dset|lia|done|done|lia|].
  rewrite Nat2Z.id, <-app_assoc. exact Hperm.
Qed.
End random.

Lemma py_range_nat lo n :
  0 ≤ n → py_range lo (lo + n) 1 = (λ i : nat, lo + Z.of_nat i) <$> seq 0 (Z.to_nat n).
Proof.
  intros Hn. unfold py_range. rewrite Z.div_1_r.
  replace (lo + n - lo + 1 - 1) with n by lia. apply list_fmap_ext. intros _ i _. lia.
Qed.

Section random_batches.
Context {C : Type} `{TuningSpaceLaws C}.
Variable rnd : nat → Z.

Lemma random_inv_init t0 :
  0 ≤ range_length t0 → counter t0 = 0 →
  random_inv t0 {| rt_base := t0; rand_state := []; rand_max := range_length t0;
                   visited := []; rng := 0 |}.
Proof.
  intros Hr Hc. split; simpl; [apply NoDup_nil_2|done|done|done|lia|].
  rewrite py_range_nat, virtual_empty, <-list_fmap_compose by done.
  match goal with |- ?a ≡ₚ ?b => assert (a = b) as ->; [|done] end.
  apply list_fmap_ext. intros _ i _. simpl. lia.
Qed.

Lemma random_batches_spec t0 sizes : ∀ t,
  0 ≤ index_offset t0 → index_offset t0 + range_length t0 ≤ ts_len → random_inv t0 t →
  ∃ cs t', run_batches (λ n, random_next_batch rnd n []) sizes t = (Ok cs, t') ∧
    random_inv t0 t' ∧ visited t' = visited t ++ (ts_index <$> cs) ∧
    length cs = Nat.min (sum_list sizes) (Z.to_nat (rand_max t)).
Proof.
  induction sizes as [|n sizes IH]; intros t Hoff Hrange Hinv; cbn [run_batches].
  { exists [], t. rewrite fmap_nil, app_nil_r. by split_and!. }
  destruct (random_next_batch_spec rnd t0 n [] t Hoff Hrange Hinv)
    as (cs1 & t1 & H1 & Hinv1 & Hm1 & Hv1 & Hl1).
  destruct (IH t1 Hoff Hrange Hinv1) as (cs2 & t2 & H2 & Hinv2 & Hv2 & Hl2).
  erewrite M_bind_ok by exact H1. erewrite M_bind_ok by exact H2.
  exists (cs1 ++ cs2), t2. split_and!; [done|done| |].
  - by rewrite Hv2, Hv1, fmap_app, app_assoc.
  - rewrite length_app, Hl1, Hl2, Hm1. simpl. lia.
Qed.
End random_batches.

Lemma IndexBaseTuner_init_ok {C} `{TuningSpace C} range_idx t0 :
  IndexBaseTuner_init range_idx = Ok t0 → 0 ≤ index_offset t0 ∧ counter t0 = 0.
Proof.
  destruct range_idx as [[lo hi]|]; simpl; [|by intros [= <-]].
  destruct (lo <? hi); [|discriminate]. destruct (Z.leb_spec 0 lo); [|discriminate].
  by intros [= <-].
Qed.

(** C28: whatever the random numbers and the batch sizes, the random tuner proposes
    configurations of its range only, never the same index twice, and proposes the whole
    range once the batches are large enough. *)
Theorem random_tuner_no_repeat {C} `{TuningSpaceLaws C} (rnd : nat → Z)
    (range_idx : option (Z * Z)) (sizes : list nat) (t : RandomTuner) :
  RandomTuner_init range_idx = Ok t →
  0 ≤ range_length (rt_base t) → index_offset (rt_base t) + range_length (rt_base t) ≤ ts_len →
  ∃ cs t', run_batches (λ n, random_next_batch rnd n []) sizes t = (Ok cs, t') ∧
    NoDup (ts_index <$> cs) ∧
    Forall (λ c, index_offset (rt_base t) ≤ ts_index c
                 < index_offset (rt_base t) + range_length (rt_base t)) cs ∧
    length cs = Nat.min (sum_list sizes) (Z.to_nat (range_length (rt_base t))).
Proof.
  intros Hinit Hr Hrange. unfold RandomTuner_init in Hinit.
  destruct (IndexBaseTuner_init range_idx) as [t0|] eqn:Ht0; [|discriminate].
  injection Hinit as <-. simpl in *.
  destruct (IndexBaseTuner_init_ok range_idx t0 Ht0) as [Hoff Hcnt].
  destruct (random_batches_spec rnd t0 sizes _ Hoff Hrange (random_inv_init t0 Hr Hcnt))
    as (cs & t' & Hrun & Hinv & Hv & Hl).
  exists cs, t'. simpl in Hv, Hl. pose proof (ri_perm _ _ Hinv) as Hp. rewrite Hv in Hp.
  split_and!; [done| | |done].
  - assert (Hnd : NoDup ((ts_index <$> cs) ++ ((λ x, x + index_offset t0) <$>
      virtual (rand_state t') (Z.to_nat (rand_max t'))))) by (rewrite Hp; by apply NoDup_py_range).
    by apply NoDup_app in Hnd as [? _].
  - apply Forall_forall. intros c Hc.
    assert (Hin : ts_index c ∈ py_range (index_offset t0) (index_offset t0 + range_length t0) 1).
    { rewrite <-Hp. apply elem_of_app. left. by apply list_elem_of_fmap_2. }
    by apply elem_of_py_range in Hin as [? _]; [|lia].
Qed.

Lemma two_knobs_ok : space_ok (cfg two_knobs).
Proof.
  split.
  - apply (bool_decide_unpack _). vm_compute. exact I.
  - repeat constructor; discriminate.
  - vm_compute. reflexivity.
  - left. reflexivity.
Qed.

Lemma random_tuner_no_repeat_witness :
  ∃ cs t', run_batches (λ n, @random_next_batch _ (config_tuning_space two_knobs)
      (λ i, 7 * Z.of_nat i + 3) n []) [4; 4]%nat
    {| rt_base := {| range_length := 6; index_offset := 0; counter := 0 |}; rand_state := [];
       rand_max := 6; visited := []; rng := 0 |} = (Ok cs, t') ∧
    NoDup (ce_index <$> cs) ∧ Forall (λ c, 0 ≤ ce_index c < 0 + 6) cs ∧
    length cs = Nat.min (sum_list [4; 4]%nat) (Z.to_nat 6).
Proof.
  apply (@random_tuner_no_repeat _ (config_tuning_space two_knobs)
    (config_tuning_space_laws two_knobs two_knobs_ok) (λ i, 7 * Z.of_nat i + 3) None [4; 4]%nat
    {| rt_base := {| range_length := 6; index_offset := 0; counter := 0 |}; rand_state := [];
       rand_max := 6; visited := []; rng := 0 |}); [reflexivity|simpl; lia|simpl; lia].
Defined.
