(* ===== verification/TuneLoop.v ===== *)
(** * The tuning loop ([python/tvm/autotvm/tuner/tuner.py])

    [Tuner.tune] for any tuner, given as its three operations. Measuring is
    outside the repository's Python code: [measure_batch] is a parameter that may
    answer differently at every call, and numpy's mean is one too. *)

From S2P Require Import Prelude PyFloat ConfigSpace Tuners.

Inductive cost := CFloat (f : float) | CErr (msg : string).

Record MeasureResult := { costs : list cost; error_no : Z }.

(** A tuner as [tune] uses it. *)
Record TunerOps (St C : Type) := {
  to_has_next : St → bool;
  to_next_batch : Z → M St (list C);
  to_update : list C → list MeasureResult → M St unit
}.
Arguments to_has_next {St C} _ _.
Arguments to_next_batch {St C} _ _ _.
Arguments to_update {St C} _ _ _ _.

Section tune.
Context {St C : Type} (T : TunerOps St C).
(** [inp.task.flop], [np.mean] and the measuring callback of the n-th batch. *)
Variable task_flop : float.
Variable np_mean : list cost → float.
Variable measure_batch : nat → list C → list MeasureResult.

Record TuneState := {
  tuner : St;
  best_config : option C;
  best_flops : float;
  best_measure_pair : option (C * MeasureResult);
  best_iter : Z;
  ttl : option Z;
  trial_i : Z;
  error_ct : Z;
  tune_errors : list cost;
  callback_log : list (list C * list MeasureResult)
}.

Definition Tuner_init (s : St) : TuneState := {|
  tuner := s; best_config := None; best_flops := fzero; best_measure_pair := None;
  best_iter := 0; ttl := None; trial_i := 0; error_ct := 0; tune_errors := [];
  callback_log := [] |}.

Definition flops_of (res : MeasureResult) : float :=
  if error_no res =? 0 then fdiv task_flop (np_mean (costs res)) else fzero.

Definition with_tuner (s : St) (st : TuneState) : TuneState := {|
  tuner := s; best_config := best_config st; best_flops := best_flops st;
  best_measure_pair := best_measure_pair st; best_iter := best_iter st; ttl := ttl st;
  trial_i := trial_i st; error_ct := error_ct st; tune_errors := tune_errors st;
  callback_log := callback_log st |}.

(** Run an operation of the tuner object. *)
Definition on_tuner {A} (m : M St A) : M TuneState A := λ st,
  let '(r, s) := m (tuner st) in (r, with_tuner s st).

(** The body of the loop that keeps the best configuration. *)
Definition keep_best (k : Z) (inp : C) (res : MeasureResult) : M TuneState unit :=
  st ← get_st;
  '(ct, errs) ← lift (if error_no res =? 0 then Ok (0, tune_errors st)
                      else error ← of_option IndexError (costs res !! 0%nat);
                           Ok (error_ct st + 1, tune_errors st ++ [error]));
  let flops := flops_of res in
  let better := flt (best_flops st) flops in
  put_st {| tuner := tuner st;
            best_config := if better then Some inp else best_config st;
            best_flops := if better then flops else best_flops st;
            best_measure_pair := if better then Some (inp, res) else best_measure_pair st;
            best_iter := if better then trial_i st + k else best_iter st;
            ttl := ttl st; trial_i := trial_i st; error_ct := ct; tune_errors := errs;
            callback_log := callback_log st |}.

Fixpoint keep_best_loop (k : Z) (pairs : list (C * MeasureResult)) : M TuneState unit :=
  match pairs with
  | [] => mret tt
  | (inp, res) :: pairs => _ ← keep_best k inp res; keep_best_loop (k + 1) pairs
  end.

(** [i += len(results)] and the time to leave. *)
Definition advance (n_trial early_stopping : Z) (results : list MeasureResult) (st : TuneState)
    : TuneState :=
  let i := trial_i st + Z.of_nat (length results) in
  {| tuner := tuner st; best_config := best_config st; best_flops := best_flops st;
     best_measure_pair := best_measure_pair st; best_iter := best_iter st;
     ttl := Some (Z.min (early_stopping + best_iter st) n_trial - i);
     trial_i := i; error_ct := error_ct st; tune_errors := tune_errors st;
     callback_log := callback_log st |}.

(** The callbacks get every batch. *)
Definition log_batch (configs : list C) (results : list MeasureResult) (st : TuneState) : TuneState :=
  {| tuner := tuner st; best_config := best_config st; best_flops := best_flops st;
     best_measure_pair := best_measure_pair st; best_iter := best_iter st; ttl := ttl st;
     trial_i := trial_i st; error_ct := error_ct st; tune_errors := tune_errors st;
     callback_log := callback_log st ++ [(configs, results)] |}.

(** One iteration; [true] asks for another one. *)
Definition tune_step (n_trial n_parallel early_stopping : Z) : M TuneState bool :=
  st ← get_st;
  if negb (trial_i st <? n_trial) then mret false else
  if negb (to_has_next T (tuner st)) then mret false else
  configs ← on_tuner (to_next_batch T (Z.min n_parallel (n_trial - trial_i st)));
  let results := measure_batch (length (callback_log st)) configs in
  _ ← keep_best_loop 0 (zip configs results);
  _ ← modify (advance n_trial early_stopping results);
  _ ← on_tuner (to_update T configs results);
  _ ← modify (log_batch configs results);
  st ← get_st;
  mret (negb (best_iter st + early_stopping <=? trial_i st)).

Fixpoint tune_loop (fuel : nat) (n_trial n_parallel early_stopping : Z) : M TuneState unit :=
  match fuel with
  | O => mret tt
  | S fuel =>
      again ← tune_step n_trial n_parallel early_stopping;
      if again : bool then tune_loop fuel n_trial n_parallel early_stopping else mret tt
  end.

(** [early_stopping or 1e9]; every iteration measures at least one configuration, so
    [n_trial] iterations are enough. *)
Definition tune (n_trial n_parallel : Z) (early_stopping : option Z) : M TuneState unit :=
  let early := match early_stopping with
               | Some e => if e =? 0 then 10 ^ 9 else e
               | None => 10 ^ 9
               end in
  tune_loop (Z.to_nat n_trial) n_trial n_parallel early.

Definition reset (st : TuneState) : TuneState := {|
  tuner := tuner st; best_config := None; best_flops := fzero; best_measure_pair := None;
  best_iter := best_iter st; ttl := ttl st; trial_i := trial_i st; error_ct := error_ct st;
  tune_errors := tune_errors st; callback_log := callback_log st |}.

(** ** What a tuner and a measurer promise *)

(** A tuner that has a next configuration proposes one, and at most the batch size. *)
Class TunerLaws (Inv : St → Prop) := {
  tl_next : ∀ s n, Inv s → to_has_next T s = true → 0 < n →
    ∃ cs s', to_next_batch T n s = (Ok cs, s') ∧ Inv s' ∧ cs ≠ [] ∧ Z.of_nat (length cs) ≤ n;
  tl_update : ∀ s cs rs, Inv s → length rs = length cs →
    ∃ s', to_update T cs rs s = (Ok tt, s') ∧ Inv s'
}.

Class MeasureLaws := {
  ml_length : ∀ n cs, length (measure_batch n cs) = length cs;
  ml_error : ∀ n cs, Forall (λ r, error_no r ≠ 0 → costs r ≠ []) (measure_batch n cs)
}.

(** ** The loop keeps the first best configuration *)

(** Every measurement, in the order of the trials. *)
Definition measured (st : TuneState) : list (C * MeasureResult) :=
  callback_log st ≫= λ '(cs, rs), zip cs rs.

(** The recorded best of the trials [ms]: nothing beats it, and it is the first
    configuration to reach it. *)
Record best_spec (st : TuneState) (ms : list (C * MeasureResult)) : Prop := {
  bs_num : is_nan (best_flops st) = false;
  bs_max : Forall (λ p, flt (best_flops st) (flops_of p.2) = false) ms;
  bs_first : (best_config st = None ∧ best_flops st = fzero ∧ best_iter st = 0) ∨
    ∃ j c r, ms !! j = Some (c, r) ∧ best_config st = Some c ∧
      best_measure_pair st = Some (c, r) ∧ best_flops st = flops_of r ∧
      best_iter st = Z.of_nat j ∧
      ∀ i p, (i < j)%nat → ms !! i = Some p → is_nan (flops_of p.2) = false →
        flt (flops_of p.2) (best_flops st) = true
}.

Lemma keep_best_ok k inp res st ms :
  (error_no res ≠ 0 → costs res ≠ []) → best_spec st ms → trial_i st + k = Z.of_nat (length ms) →
  ∃ st', keep_best k inp res st = (Ok tt, st') ∧ best_spec st' (ms ++ [(inp, res)]) ∧
    tuner st' = tuner st ∧ trial_i st' = trial_i st ∧ callback_log st' = callback_log st.
Proof.
  intros Herr [Hnum Hmax Hfirst] Hk. unfold keep_best. rewrite M_get_bind.
  assert (∃ ct errs, (if error_no res =? 0 then Ok (0, tune_errors st)
    else error ← of_option IndexError (costs res !! 0%nat); Ok (error_ct st + 1, tune_errors st ++ [error]))
    = Ok (ct, errs)) as (ct & errs & ->).
  { destruct (Z.eqb_spec (error_no res) 0); [by eexists _, _|].
    destruct (costs res); [by destruct (Herr n)|]. by eexists _, _. }
  rewrite M_lift_ok_bind. eexists. split; [reflexivity|]. split; [|done].
  destruct (flt (best_flops st) (flops_of res)) eqn:Hb; split; simpl.
  - by eapply flt_not_nan_r.
  - apply Forall_app. split; [|by repeat constructor; apply flt_irrefl].
    eapply Forall_impl; [exact Hmax|]. intros p Hp. simpl in Hp.
    destruct (flt (flops_of res) (flops_of p.2)) eqn:Hc; [|done].
    pose proof (flt_trans _ _ _ Hb Hc). congruence.
  - right. exists (length ms), inp, res. split_and!; try done.
    + by apply list_lookup_middle.
    + intros i p Hi Hp Hn. rewrite lookup_app_l in Hp by done.
      eapply Forall_lookup_1 in Hmax; [|exact Hp]. by eapply flt_nlt_lt.
  - done.
  - apply Forall_app. split; [done|]. by repeat constructor.
  - destruct Hfirst as [?|(j & c & r & Hj & ? & ? & ? & ? & Hlt)]; [by left|right].
    exists j, c, r. split_and!; try done; [by apply lookup_app_l_Some|].
    intros i p Hi Hp. apply (Hlt i p Hi). rewrite lookup_app_l in Hp; [done|].
    apply lookup_lt_Some in Hj. lia.
Qed.

Lemma keep_best_loop_ok pairs : ∀ k st ms,
  Forall (λ p, error_no p.2 ≠ 0 → costs p.2 ≠ []) pairs → best_spec st ms →
  trial_i st + k = Z.of_nat (length ms) →
  ∃ st', keep_best_loop k pairs st = (Ok tt, st') ∧ best_spec st' (ms ++ pairs) ∧
    tuner st' = tuner st ∧ trial_i st' = trial_i st ∧ callback_log st' = callback_log st.
Proof.
  induction pairs as [|[inp res] pairs IH]; intros k st ms Herr Hb Hk; cbn [keep_best_loop].
  { exists st. by rewrite app_nil_r. }
  apply Forall_cons in Herr as [He Herr].
  destruct (keep_best_ok k inp res st ms He Hb Hk) as (st1 & H1 & Hb1 & Ht1 & Hi1 & Hc1).
  destruct (IH (k + 1) st1 (ms ++ [(inp, res)]) Herr Hb1) as (st2 & H2 & Hb2 & Ht2 & Hi2 & Hc2).
  { rewrite length_app. simpl. lia. }
  erewrite M_bind_ok by exact H1. exists st2. rewrite <-app_assoc in Hb2.
  split_and!; [done|done|congruence..].
Qed.

Section correct.
Context (Inv : St → Prop) `{!TunerLaws Inv, !MeasureLaws}.

Record tune_inv (n_trial : Z) (st : TuneState) : Prop := {
  tv_tuner : Inv (tuner st);
  tv_count : trial_i st = Z.of_nat (length (measured st));
  tv_bound : trial_i st ≤ Z.max 0 n_trial;
  tv_best : best_spec st (measured st)
}.

Lemma measured_log cs rs st : measured (log_batch cs rs st) = measured st ++ zip cs rs.
Proof.
  unfold measured. simpl. rewrite bind_app. simpl. by rewrite app_nil_r.
Qed.

(** One iteration makes progress or stops for a reason. *)
Lemma tune_step_ok n_trial n_parallel early st :
  0 < n_parallel → tune_inv n_trial st →
  ∃ again st', tune_step n_trial n_parallel early st = (Ok again, st') ∧ tune_inv n_trial st' ∧
    (again = true → trial_i st < trial_i st' ∧ trial_i st < n_trial) ∧
    (again = false → n_trial ≤ trial_i st' ∨ to_has_next T (tuner st') = false ∨
       best_iter st' + early ≤ trial_i st').
Proof.
  intros Hpar [Hinv Hcnt Hbound Hbest]. unfold tune_step. rewrite M_get_bind.
  destruct (Z.ltb_spec (trial_i st) n_trial) as [Hlt|Hge]; cbn [negb]; cycle 1.
  { exists false, st. split_and!; [done|done|done|]. auto. }
  destruct (to_has_next T (tuner st)) eqn:Hnext; cbn [negb]; cycle 1.
  { exists false, st. split_and!; [done|done|done|]. auto. }
  destruct (tl_next (tuner st) (Z.min n_parallel (n_trial - trial_i st)) Hinv Hnext)
    as (cs & s1 & Hcs & Hinv1 & Hne & Hlen); [lia|].
  erewrite M_bind_ok by (unfold on_tuner; rewrite Hcs; reflexivity).
  set (rs := measure_batch (length (callback_log st)) cs).
  assert (Hrs : length rs = length cs) by apply ml_length.
  destruct (keep_best_loop_ok (zip cs rs) 0 (with_tuner s1 st) (measured st))
    as (st2 & H2 & Hb2 & Ht2 & Hi2 & Hc2).
  { pose proof (ml_error (length (callback_log st)) cs) as Hme. fold rs in Hme.
    apply Forall_forall. intros [c r] Hin. apply list_elem_of_lookup in Hin as [j Hj].
    apply lookup_zip_with_Some in Hj as (? & ? & Heq & _ & Hr). injection Heq as -> ->.
    exact (Forall_lookup_1 _ _ j _ Hme Hr). }
  { by destruct Hbest. }
  { simpl. lia. }
  erewrite M_bind_ok by exact H2. rewrite M_modify_bind.
  destruct (tl_update s1 cs rs Hinv1 Hrs) as (s3 & H3 & Hinv3).
  erewrite M_bind_ok by (unfold on_tuner; simpl; rewrite Ht2; simpl; rewrite H3; reflexivity).
  rewrite M_modify_bind, M_get_bind. eexists _, _. split; [reflexivity|].
  assert (Hlcs : 0 < Z.of_nat (length cs)) by (destruct cs; [done|simpl; lia]).
  split; [split|split]; simpl.
  - done.
  - rewrite measured_log, length_app, length_zip. unfold measured. simpl.
    rewrite Hc2. simpl. rewrite Hi2. simpl. unfold measured in Hcnt. rewrite Hcnt, Hrs. lia.
  - rewrite Hi2. simpl. lia.
  - rewrite measured_log. unfold measured at 1. simpl. rewrite Hc2. by destruct Hb2.
  - intros _. rewrite Hi2. simpl. lia.
  - intros Hfalse. apply negb_false_iff, Z.leb_le in Hfalse. auto.
Qed.

Lemma tune_loop_ok fuel n_trial n_parallel early : ∀ st,
  0 < n_parallel → tune_inv n_trial st → n_trial - trial_i st ≤ Z.of_nat fuel →
  ∃ st', tune_loop fuel n_trial n_parallel early st = (Ok tt, st') ∧ tune_inv n_trial st' ∧
    (n_trial ≤ trial_i st' ∨ to_has_next T (tuner st') = false ∨ best_iter st' + early ≤ trial_i st').
Proof.
  induction fuel as [|fuel IH]; intros st Hpar Hinv Hf; cbn [tune_loop].
  { exists st. split_and!; [done|done|]. left. lia. }
  destruct (tune_step_ok n_trial n_parallel early st Hpar Hinv)
    as ([] & st1 & H1 & Hinv1 & Hagain & Hstop); erewrite M_bind_ok by exact H1.
  - destruct (Hagain eq_refl). apply IH; [done|done|lia].
  - exists st1. split_and!; [done|done|]. auto.
Qed.
End correct.
End tune.
Arguments TuneState : clear implicits.

(** C5: for every tuner that proposes a configuration whenever it says it has one,
    and every measurer that answers once per configuration, [tune] terminates without
    raising after at most [n_trial] measurements, either because the trials or the
    configurations are used up or because of early stopping; the best configuration it has
    recorded is the first measured one that no other measurement beats. *)
Theorem tune_correct {St C} (T : TunerOps St C) (task_flop : float) (np_mean : list cost → float)
    (measure_batch : nat → list C → list MeasureResult) (Inv : St → Prop)
    `{!TunerLaws T Inv, !MeasureLaws measure_batch} (s : St) (n_trial n_parallel early : Z) :
  Inv s → 0 < n_parallel → 0 < early →
  ∃ st, tune T task_flop np_mean measure_batch n_trial n_parallel (Some early) (Tuner_init s) = (Ok tt, st) ∧
    Z.of_nat (length (measured st)) ≤ Z.max 0 n_trial ∧
    best_spec task_flop np_mean st (measured st) ∧
    (n_trial ≤ trial_i st ∨ to_has_next T (tuner st) = false ∨ best_iter st + early ≤ trial_i st).
Proof.
  intros Hs Hpar Hearly. unfold tune. destruct (Z.eqb_spec early 0); [lia|].
  destruct (tune_loop_ok T task_flop np_mean measure_batch Inv (Z.to_nat n_trial) n_trial n_parallel
    early (Tuner_init s)) as (st & Hrun & Hinv & Hstop); [done| |simpl; lia|].
  - split; simpl; [done|done|lia|]. split; simpl; [done|constructor|by left].
  - exists st. split_and!; [done| |apply (tv_best _ _ _ _ _ Hinv)|done].
    rewrite <-(tv_count _ _ _ _ _ Hinv). apply (tv_bound _ _ _ _ _ Hinv).
Qed.

(** ** The random tuner in the loop *)

Section random_ops.
Context {C : Type} `{TuningSpaceLaws C}.
Variable rnd : nat → Z.

(** [RandomTuner]: [update] is the base class's, which does nothing. *)
Definition random_ops : TunerOps RandomTuner C := {|
  to_has_next := λ t, has_next (rt_base t);
  to_next_batch := λ n, random_next_batch rnd (Z.to_nat n) [];
  to_update := λ _ _, mret tt
|}.

#[export] Instance random_ops_laws (t0 : IndexBaseTuner)
    (Hoff : 0 ≤ index_offset t0) (Hrange : index_offset t0 + range_length t0 ≤ ts_len) :
  TunerLaws random_ops (random_inv t0).
Proof.
  split.
  - intros t n Hinv Hnext Hn. destruct (random_next_batch_spec rnd t0 (Z.to_nat n) [] t Hoff Hrange Hinv)
      as (cs & t' & Hrun & Hinv' & _ & _ & Hlen).
    simpl in Hnext. unfold has_next in Hnext. apply Z.ltb_lt in Hnext.
    destruct Hinv as [_ Hmax _ Hl Hc _].
    exists cs, t'. split_and!; [done|done| |lia]. intros ->. simpl in Hlen. lia.
  - intros t cs rs Hinv _. by exists t.
Qed.
End random_ops.

Definition const_measure {C} (_ : nat) (cs : list C) : list MeasureResult :=
  (λ _, {| costs := [CFloat (of_dec 2 3)]; error_no := 0 |}) <$> cs.

Lemma const_measure_laws C : MeasureLaws (@const_measure C).
Proof.
  split; intros n cs; unfold const_measure; [apply length_fmap|].
  apply Forall_fmap, Forall_true. done.
Qed.

Lemma tune_correct_witness :
  ∃ st, tune (@random_ops _ (config_tuning_space two_knobs) (λ i, 7 * Z.of_nat i + 3))
      (of_Z 1000) (λ _, of_dec 2 3) const_measure 10 4 (Some 100)
      (Tuner_init {| rt_base := {| range_length := 6; index_offset := 0; counter := 0 |};
         rand_state := []; rand_max := 6; visited := []; rng := 0 |}) = (Ok tt, st) ∧
    Z.of_nat (length (measured st)) ≤ Z.max 0 10 ∧
    best_spec (of_Z 1000) (λ _, of_dec 2 3) st (measured st) ∧
    (10 ≤ trial_i st ∨ has_next (rt_base (tuner st)) = false ∨ best_iter st + 100 ≤ trial_i st).
Proof.
  apply (@tune_correct _ _ (@random_ops _ (config_tuning_space two_knobs) (λ i, 7 * Z.of_nat i + 3))
    (of_Z 1000) (λ _, of_dec 2 3) const_measure
    (@random_inv {| range_length := 6; index_offset := 0; counter := 0 |})
    (@random_ops_laws _ (config_tuning_space two_knobs)
       (config_tuning_space_laws two_knobs two_knobs_ok) (λ i, 7 * Z.of_nat i + 3)
       {| range_length := 6; index_offset := 0; counter := 0 |} (Z.le_refl 0) (Z.le_refl 6))
    (const_measure_laws _)); [|lia|lia].
  apply (random_inv_init {| range_length := 6; index_offset := 0; counter := 0 |}); [simpl; lia|done].
Defined.
