(* ===== verification/Anneal.v ===== *)
(** * Simulated annealing ([python/tvm/autotvm/tuner/sa_model_optimizer.py])

    [SimulatedAnnealingOptimizer.find_maximums] with its top-k heap,
    [random_walk], and [sample_ints] of [python/tvm/autotvm/utils.py]. The score of
    a point is the cost model's prediction; which moves are accepted ([np.exp] of
    the score difference against a random number) is a parameter. *)

From S2P Require Import Prelude PyFloat PyRandom Heapq Knobs.

(** ** Heap items: [(score, point)] tuples *)

Abbreviation heap := (list (float * Z)).

#[export] Instance item_ord : HeapOrd (float * Z) := {|
  hlt a b := if feq a.1 b.1 then a.2 <? b.2 else flt a.1 b.1;
  hgood a := is_nan a.1 = false
|}.

Lemma item_nlt (a b : float * Z) :
  hgood a → hgood b →
  hlt a b = false ↔ klt (fkey b.1) (fkey a.1) ∨ (fkey a.1 = fkey b.1 ∧ b.2 ≤ a.2).
Proof.
  destruct a as [s p], b as [s' p']. simpl. intros Hs Hs'.
  destruct (feq s s') eqn:Heq.
  - apply feq_iff in Heq as (_ & _ & ->). rewrite Z.ltb_ge. pose proof (klt_irrefl (fkey s')). tauto.
  - assert (Hne : fkey s ≠ fkey s').
    { intros Hk. apply not_true_iff_false in Heq. apply Heq, feq_iff. done. }
    rewrite <-not_true_iff_false, flt_iff. destruct (klt_total (fkey s) (fkey s')) as [H|[H|H]].
    + split; [tauto|]. intros [H'|[? _]]; [|done]. intros _.
      by apply (klt_irrefl (fkey s)), (klt_trans _ (fkey s')).
    + done.
    + split; [tauto|]. intros _ (_ & _ & H'). by apply (klt_irrefl (fkey s)), (klt_trans _ (fkey s')).
Qed.

#[export] Instance item_ord_laws : HeapOrdLaws (float * Z).
Proof.
  split.
  - intros a Ha. apply item_nlt; [done..|]. right. split; [done|lia].
  - intros a b Ha Hb H. apply item_nlt; [done..|]. apply not_false_iff_true in H.
    rewrite item_nlt in H by done. destruct (klt_total (fkey a.1) (fkey b.1)) as [?|[?|?]];
      [by left| |by destruct H; left]. right. split; [done|].
    destruct (Z.le_gt_cases b.2 a.2); [destruct H; by right|lia].
  - intros a b c Ha Hb Hc. rewrite !item_nlt by done.
    intros [H1|[H1 H1']] [H2|[H2 H2']].
    + left. by eapply klt_trans.
    + left. by rewrite <-H2.
    + left. by rewrite H1.
    + right. split; [congruence|lia].
Qed.

(** ** Initial points *)

Section sample.
Variable rnd : nat → Z.

(** [sample_ints(low, high, m)]: the numbers in the order they enter the set. *)
Fixpoint sample_loop (fuel : nat) (low high : Z) (n : nat) (vis : gset Z) (acc : list Z) (pos : nat)
    : result (list Z * nat) :=
  match n with
  | O => Ok (acc, pos)
  | S n =>
      '(x, pos) ← fresh_draw rnd fuel (high - low) (set_map (λ v, v - low) vis) pos;
      sample_loop fuel low high n ({[low + x]} ∪ vis) (acc ++ [low + x]) pos
  end.

(** [list(vis)] reads the set in the interpreter's order. *)
Variable set_iter : list Z → list Z.

Definition sample_ints (fuel : nat) (low high m : Z) (pos : nat) : result (list Z * nat) :=
  _ ← py_assert (m <=? high - low);
  '(l, pos) ← sample_loop fuel low high (Z.to_nat m) ∅ [] pos;
  Ok (set_iter l, pos).
End sample.

(** ** Local moves *)

Section walk.
Variable rnd : nat → Z.
Context (dims : list Z).

(** [while new == old]: two draws per round. *)
Fixpoint walk_loop (fuel : nat) (old new : list Z) (pos : nat) : result (list Z * nat) :=
  if decide (new = old) then
    match fuel with
    | O => Raise OutOfFuel
    | S fuel =>
        from_i ← rand_int rnd (Z.of_nat (length old)) pos;
        dim ← py_nth dims from_i;
        to_v ← rand_int rnd dim (S pos);
        walk_loop fuel old (<[Z.to_nat from_i := to_v]> new) (S (S pos))
    end
  else Ok (new, pos).

Definition random_walk (fuel : nat) (p : Z) (pos : nat) : result (Z * nat) :=
  old ← point2knob p dims;
  '(new, pos) ← walk_loop fuel old old pos;
  Ok (knob2point new dims, pos).
End walk.

(** ** The optimiser *)

Section anneal.
Variable rnd : nat → Z.
Variable set_iter : list Z → list Z.
(** [model.predict] point by point. *)
Variable score : Z → float.
(** The mask [np.random.random(n) < np.exp(np.minimum((new - old) / (t + 1e-5), 1))]
    of an iteration. *)
Variable accept : nat → list float → list float → float → list bool.
Context (dims : list Z) (space_len : Z).
(** Bound on the rejected draws of one walk. *)
Context (fuel : nat).

(** [if s > heap_items[0][0] and p not in in_heap: heapreplace(...)]; the flag says
    whether the heap changed. *)
Definition offer (st : heap * gset Z) (p : Z) : result (heap * gset Z * bool) :=
  let '(items, in_heap) := st in
  top ← of_option IndexError (items !! 0%nat);
  if flt top.1 (score p) && bool_decide (p ∉ in_heap) then
    '(pop, items) ← heapreplace items (score p, p);
    if decide (pop.2 ∈ in_heap)
    then Ok (items, {[p]} ∪ (in_heap ∖ {[pop.2]}), true)
    else Raise KeyError
  else Ok (items, in_heap, false).

Fixpoint offer_all (st : heap * gset Z) (changed : bool) (ps : list Z)
    : result (heap * gset Z * bool) :=
  match ps with
  | [] => Ok (st.1, st.2, changed)
  | p :: ps => '(st1, st2, b) ← offer st p; offer_all (st1, st2) (changed || b) ps
  end.

(** [new_points[i] = random_walk(p, dims)] for every point. *)
Fixpoint walk_all (ps : list Z) (pos : nat) : result (list Z * nat) :=
  match ps with
  | [] => Ok ([], pos)
  | p :: ps =>
      '(q, pos) ← random_walk rnd dims fuel p pos;
      '(qs, pos) ← walk_all ps pos;
      Ok (q :: qs, pos)
  end.

(** [points[ac_index] = new_points[ac_index]] *)
Definition masked {A} (mask : list bool) (new old : list A) : list A :=
  zip_with (λ (b : bool) (no : A * A), if b then no.1 else no.2) mask (zip new old).

Record sa_state := {
  sa_points : list Z;
  sa_scores : list float;
  sa_heap : heap;
  sa_in_heap : gset Z;
  sa_k : Z;
  sa_last_modify : Z;
  sa_t : float;
  sa_rng : nat
}.

(** One iteration of the annealing loop. *)
Definition sa_step (cool : float) (st : sa_state) : result sa_state :=
  '(new_points, pos) ← walk_all (sa_points st) (sa_rng st);
  let new_scores := score <$> new_points in
  let mask := accept (Z.to_nat (sa_k st)) new_scores (sa_scores st) (sa_t st) in
  '(items, in_heap, changed) ← offer_all (sa_heap st, sa_in_heap st) false new_points;
  Ok {| sa_points := masked mask new_points (sa_points st);
        sa_scores := masked mask new_scores (sa_scores st);
        sa_heap := items; sa_in_heap := in_heap;
        sa_k := sa_k st + 1;
        sa_last_modify := if changed : bool then sa_k st else sa_last_modify st;
        sa_t := fsub (sa_t st) cool;
        sa_rng := pos |}.

(** [while k < n_iter and k < k_last_modify + early_stop]; [n] is [n_iter - k]. *)
Fixpoint sa_loop (n : nat) (early_stop : Z) (cool : float) (st : sa_state) : result sa_state :=
  match n with
  | O => Ok st
  | S n =>
      if sa_k st <? sa_last_modify st + early_stop
      then st ← sa_step cool st; sa_loop n early_stop cool st
      else Ok st
  end.

(** The optimiser object. *)
Record SimulatedAnnealingOptimizer := {
  n_iter : Z;
  temp : float + (float * float);
  persistent : bool;
  parallel_size : Z;
  early_stop : Z;
  points : option (list Z)
}.

(** [early_stop or 1e9], and no more walkers than points. *)
Definition SA_init (n_iter : Z) (temp : float + (float * float)) (persistent : bool)
    (parallel_size : Z) (early_stop : option Z) : SimulatedAnnealingOptimizer := {|
  n_iter := n_iter; temp := temp; persistent := persistent;
  parallel_size := Z.min parallel_size space_len;
  early_stop := match early_stop with
                | Some e => if e =? 0 then 10 ^ 9 else e
                | None => 10 ^ 9
                end;
  points := None |}.

(** [(float("-inf"), -1 - i)] fillers. *)
Definition initial_items (num : Z) : heap := (λ i, (fninf, -1 - i)) <$> py_range 0 num 1.

Definition initial_points (o : SimulatedAnnealingOptimizer) (pos : nat) : result (list Z * nat) :=
  match persistent o, points o with
  | true, Some pts => Ok (pts, pos)
  | _, _ => sample_ints rnd set_iter fuel 0 space_len (parallel_size o) pos
  end.

Definition cooling (o : SimulatedAnnealingOptimizer) : float * float :=
  match temp o with
  | inr (t0, t1) => (t0, fdiv (fmul (of_Z 1) (fsub t0 t1)) (of_Z (n_iter o + 1)))
  | inl t => (t, fzero)
  end.

(** [heap_items.sort(key=lambda item: -item[0])], then the items with a score of at
    least 0. *)
Definition sa_result (items : heap) : list Z :=
  (filter (λ x, fle fzero x.1 = true)
     (sort_by (λ a b, flt (fneg a.1) (fneg b.1)) items)).*2.

Definition find_maximums (o : SimulatedAnnealingOptimizer) (num : Z) (exclusive : gset Z) (pos : nat)
    : result (list Z * SimulatedAnnealingOptimizer * nat) :=
  '(pts, pos) ← initial_points o pos;
  let scores := score <$> pts in
  let items := heapify (initial_items num) in
  let in_heap := exclusive ∪ list_to_set items.*2 in
  '(items, in_heap, _) ← offer_all (items, in_heap) false pts;
  let '(t, cool) := cooling o in
  st ← sa_loop (Z.to_nat (n_iter o)) (early_stop o) cool
    {| sa_points := pts; sa_scores := scores; sa_heap := items; sa_in_heap := in_heap;
       sa_k := 0; sa_last_modify := 0; sa_t := t; sa_rng := pos |};
  Ok (sa_result (sa_heap st),
      {| n_iter := n_iter o; temp := temp o; persistent := persistent o;
         parallel_size := parallel_size o; early_stop := early_stop o;
         points := if persistent o then Some (sa_points st) else points o |},
      sa_rng st).
End anneal.

(** ** The heap holds the best points seen *)

Section top_k.
Variable score : Z → float.
Context (num : nat) (exclusive : gset Z).

(** [seen] are the points offered so far. *)
Record heap_inv (seen : list Z) (items : heap) (in_heap : gset Z) : Prop := {
  hi_heap : is_heap items;
  hi_good : Forall hgood items;
  hi_length : length items = num;
  hi_score : Forall (λ x, (x.2 < 0 ∧ x.1 = fninf) ∨ (x.2 ∈ seen ∧ x.1 = score x.2)) items;
  hi_nodup : NoDup items.*2;
  hi_in : ∀ p, p ∈ in_heap ↔ p ∈ exclusive ∨ p ∈ items.*2;
  hi_disj : ∀ p, p ∈ items.*2 → p ∉ exclusive;
  hi_seen : Forall (λ p, 0 ≤ p) seen;
  hi_top : ∀ p, p ∈ seen → p ∉ exclusive →
    p ∈ items.*2 ∨ Forall (λ x, flt x.1 (score p) = false) items
}.

Lemma hlt_false_flt (a b : float * Z) : hlt a b = false → flt a.1 b.1 = false.
Proof.
  simpl. destruct (feq a.1 b.1) eqn:He; [|done]. intros _.
  rewrite (flt_feq_l _ _ _ He). apply flt_irrefl.
Qed.

Lemma heap_inv_min seen items in_heap top x :
  heap_inv seen items in_heap → items !! 0%nat = Some top → x ∈ items → flt x.1 top.1 = false.
Proof.
  intros Hinv Htop Hx. apply hlt_false_flt. apply list_elem_of_lookup in Hx as [i Hi].
  by eapply (heap_min items); [apply (hi_good _ _ _ Hinv)|apply (hi_heap _ _ _ Hinv)| |].
Qed.

(** A point that is not taken is not better than any item. *)
Lemma offer_skip seen items in_heap top p :
  heap_inv seen items in_heap → items !! 0%nat = Some top → 0 ≤ p →
  flt top.1 (score p) = false ∨ p ∈ in_heap → heap_inv (seen ++ [p]) items in_heap.
Proof.
  intros Hinv Htop Hp Hskip. destruct Hinv as [H1 H2 H3 H4 H5 H6 H7 H8 H9] eqn:E. split; try done.
  - eapply Forall_impl; [exact H4|]. intros x [?|[? ?]]; [by left|right].
    split; [apply elem_of_app; by left|done].
  - apply Forall_app. by repeat constructor.
  - intros q Hq Hex. apply elem_of_app in Hq as [Hq|Hq%list_elem_of_singleton]; [by apply H9|subst q].
    destruct Hskip as [Hlt|Hin]; [right|left; by apply H6 in Hin as [?|?]].
    apply Forall_forall. intros x Hx. pose proof (heap_inv_min _ _ _ top x Hinv Htop Hx) as Hmin.
    destruct (flt x.1 (score p)) eqn:Hc; [|done].
    assert (is_nan top.1 = false) by exact (Forall_lookup_1 _ _ _ _ H2 Htop).
    rewrite (flt_nlt_lt top.1 x.1 (score p)) in Hlt; done.
Qed.

(** A point that is taken replaces a minimum. *)
Lemma offer_take seen items in_heap top p r :
  heap_inv seen items in_heap → items !! 0%nat = Some top → 0 ≤ p →
  flt top.1 (score p) = true → p ∉ in_heap → heapreplace items (score p, p) = Ok (top, r) →
  heap_inv (seen ++ [p]) r ({[p]} ∪ (in_heap ∖ {[top.2]})).
Proof.
  intros Hinv Htop Hp Hlt Hin Hr. pose proof (λ x, heap_inv_min _ _ _ top x Hinv Htop) as Hmin.
  destruct Hinv as [H1 H2 H3 H4 H5 H6 H7 H8 H9].
  assert (Hgs : is_nan (score p) = false) by (by eapply flt_not_nan_r).
  destruct (heapreplace_spec items (score p, p) top r H1 H2 Hgs Hr) as (_ & Hh & Hperm).
  assert (∃ rest, items ≡ₚ top :: rest) as [rest Hrest].
  { destruct items as [|y rest]; [done|]. injection Htop as ->. by exists rest. }
  assert (Hr' : r ≡ₚ (score p, p) :: rest).
  { rewrite Hrest, Permutation_swap in Hperm. by apply Permutation_cons_inv in Hperm. }
  rewrite Hrest in H2, H4, H5. setoid_rewrite Hrest in H6. setoid_rewrite Hrest in H7.
  setoid_rewrite Hrest in H9. setoid_rewrite Hrest in Hmin.
  apply Forall_cons in H2 as [Hg2 H2], H4 as [Ht4 H4]. rewrite fmap_cons in H5.
  apply NoDup_cons in H5 as [Hn5 H5].
  assert (Hpex : p ∉ exclusive) by (intros ?; apply Hin, H6; by left).
  assert (Hprest : p ∉ rest.*2) by (intros ?; apply Hin, H6; right; rewrite fmap_cons; by right).
  split; [done| | | | | | | |].
  - rewrite Hr'. by constructor.
  - rewrite <-H3, Hrest, Hr'. done.
  - rewrite Hr'. constructor; [right; split; [apply elem_of_app; right; by left|done]|].
    eapply Forall_impl; [exact H4|]. intros x [?|[? ?]]; [by left|right].
    split; [apply elem_of_app; by left|done].
  - rewrite Hr'. rewrite fmap_cons. by apply NoDup_cons.
  - intros q. rewrite Hr', fmap_cons, elem_of_cons, elem_of_union, elem_of_difference, H6,
      !elem_of_singleton, fmap_cons, elem_of_cons. simpl.
    destruct (decide (q = top.2)) as [->|]; [|tauto].
    assert (top.2 ∉ exclusive) by (apply H7; rewrite fmap_cons; by left). tauto.
  - intros q. rewrite Hr', fmap_cons, elem_of_cons. intros [->|Hq]; [done|].
    apply H7. rewrite fmap_cons. by right.
  - apply Forall_app. by repeat constructor.
  - intros q Hq Hex. rewrite Hr', fmap_cons, elem_of_cons, Forall_cons. simpl.
    apply elem_of_app in Hq as [Hq|Hq%list_elem_of_singleton]; [|by left; left].
    assert (Hnew : flt top.1 (score q) = false → flt (score p) (score q) = false).
    { intros Hn. destruct (flt (score p) (score q)) eqn:Hc; [|done].
      by rewrite (flt_trans _ _ _ Hlt Hc) in Hn. }
    destruct (H9 q Hq Hex) as [Hqi|Hqi].
    + rewrite fmap_cons in Hqi. apply elem_of_cons in Hqi as [->|?]; [|by left; right].
      right. destruct Ht4 as [[Hneg _]|[_ Hts]].
      { eapply Forall_forall in H8; [|exact Hq]. simpl in H8. lia. }
      rewrite <-Hts. split; [by apply flt_asym|]. apply Forall_forall. intros x Hx.
      apply Hmin. by right.
    + apply Forall_cons in Hqi as [Hqt Hqi]. right. auto.
Qed.

Lemma offer_ok seen items in_heap p :
  heap_inv seen items in_heap → (0 < num)%nat → 0 ≤ p →
  ∃ items' in_heap' b, offer score (items, in_heap) p = Ok (items', in_heap', b) ∧
    heap_inv (seen ++ [p]) items' in_heap'.
Proof.
  intros Hinv Hnum Hp. unfold offer. cbn beta iota zeta.
  destruct (lookup_lt_is_Some_2 items 0) as [top Htop]; [by rewrite (hi_length _ _ _ Hinv)|].
  rewrite Htop. cbn [of_option mbind result_bind].
  destruct (flt top.1 (score p)) eqn:Hlt; cbn [andb].
  - case_bool_decide as Hin; cycle 1.
    { eexists _, _, _. split; [done|]. eapply offer_skip; [done..|]. by right. }
    destruct items as [|y rest]; [done|]. injection Htop as ->. simpl.
    rewrite decide_True by (apply (hi_in _ _ _ Hinv); right; rewrite fmap_cons; by left).
    eexists _, _, _. split; [done|]. by eapply (offer_take seen (top :: rest)).
  - eexists _, _, _. split; [done|]. eapply offer_skip; [done..|]. by left.
Qed.

Lemma offer_all_ok ps : ∀ seen items in_heap b,
  heap_inv seen items in_heap → (0 < num)%nat → Forall (λ p, 0 ≤ p) ps →
  ∃ items' in_heap' b', offer_all score (items, in_heap) b ps = Ok (items', in_heap', b') ∧
    heap_inv (seen ++ ps) items' in_heap'.
Proof.
  induction ps as [|p ps IH]; intros seen items in_heap b Hinv Hnum Hps; cbn [offer_all fst snd].
  { eexists _, _, _. rewrite app_nil_r. done. }
  apply Forall_cons in Hps as [Hp Hps].
  destruct (offer_ok seen items in_heap p Hinv Hnum Hp) as (i1 & h1 & b1 & -> & Hinv1).
  cbn [mbind result_bind].
  destruct (IH (seen ++ [p]) i1 h1 (b || b1) Hinv1 Hnum Hps) as (i2 & h2 & b2 & -> & Hinv2).
  eexists _, _, _. split; [done|]. by rewrite <-app_assoc in Hinv2.
Qed.

(** What [find_maximums] returns for the heap: distinct points that were seen and are not
    excluded, with a score of at least 0, the best first; a seen point that is missing has no
    such score, or all [num] places are taken by points that are not worse. *)
Definition top_points (seen : list Z) (r : list Z) : Prop :=
  NoDup r ∧ (length r ≤ num)%nat ∧
  (∀ p, p ∈ r → p ∈ seen ∧ (p ∉ exclusive) ∧ fle fzero (score p) = true) ∧
  (∀ p, p ∈ seen → p ∉ exclusive → p ∉ r →
    fle fzero (score p) = false ∨
    (length r = num ∧ ∀ q, q ∈ r → flt (score q) (score p) = false)) ∧
  StronglySorted (λ p q, flt (score p) (score q) = false) r.

Lemma fle_fninf : fle fzero fninf = false.
Proof. done. Qed.

Lemma StronglySorted_filter {A} (R : A → A → Prop) (P : A → Prop) `{∀ x, Decision (P x)} l :
  StronglySorted R l → StronglySorted R (filter P l).
Proof.
  induction 1 as [|x l Hs IH Hx]; [constructor|]. rewrite filter_cons. case_decide; [|done].
  constructor; [done|]. rewrite Forall_forall in Hx |- *. intros y [_ Hy]%list_elem_of_filter. by apply Hx.
Qed.

(** The points that are returned come in the order of their scores, the best first. *)
Lemma sa_result_sorted items :
  Forall hgood items → (∀ x, x ∈ items → fle fzero x.1 = true → x.1 = score x.2) →
  StronglySorted (λ p q, flt (score p) (score q) = false) (sa_result items).
Proof.
  intros Hg Hsc. unfold sa_result. set (lt := λ a b : float * Z, flt (fneg a.1) (fneg b.1)).
  assert (StronglySorted (λ a b, lt b a = false) (sort_by lt items)) as Hs.
  { apply (sort_by_sorted lt hgood); [..|done]; unfold lt; intros *; rewrite !flt_fneg.
    - intros _ _. apply flt_asym.
    - intros _ Hy _ H1 H2. exact (flt_neg_trans _ _ _ Hy H2 H1). }
  apply (StronglySorted_filter _ (λ x, fle fzero x.1 = true)) in Hs.
  assert (Forall (λ x, x.1 = score x.2) (filter (λ x, fle fzero x.1 = true) (sort_by lt items))) as Hf.
  { apply Forall_forall. intros x [Hle Hx]%list_elem_of_filter. apply Hsc; [|done].
    by rewrite (sort_by_perm lt items) in Hx. }
  revert Hs Hf. generalize (filter (λ x, fle fzero x.1 = true) (sort_by lt items)) as l.
  induction 1 as [|x l Hs IH Hx]; intros Hf; [constructor|]. apply Forall_cons in Hf as [Hf1 Hf].
  rewrite fmap_cons. constructor; [by apply IH|]. apply Forall_forall.
  intros q (y & -> & Hy)%list_elem_of_fmap.
  pose proof (proj1 (Forall_forall _ _) Hx y Hy) as Hxy. pose proof (proj1 (Forall_forall _ _) Hf y Hy) as Hfy.
  cbv beta in Hfy. unfold lt in Hxy. by rewrite flt_fneg, Hf1, Hfy in Hxy.
Qed.

Lemma sa_result_top seen items in_heap :
  heap_inv seen items in_heap → top_points seen (sa_result items).
Proof.
  intros [H1 H2 H3 H4 H5 H6 H7 H8 H9]. unfold sa_result.
  set (srt := sort_by _ items). assert (Hs : srt ≡ₚ items) by apply sort_by_perm.
  assert (Hin : ∀ x, x ∈ srt ↔ x ∈ items) by (intros x; by rewrite Hs).
  assert (Hsc : ∀ x, x ∈ items → fle fzero x.1 = true → x.2 ∈ seen ∧ x.1 = score x.2).
  { intros x Hx Hle. rewrite Forall_forall in H4. destruct (H4 x Hx) as [[_ Hf]|?]; [|done].
    by rewrite Hf, fle_fninf in Hle. }
  assert (Hlen : (length (filter (λ x, fle fzero x.1 = true) srt) ≤ num)%nat).
  { rewrite <-H3, <-Hs. apply length_filter. }
  split_and!.
  - eapply sublist_NoDup; [|apply (fmap_sublist snd), sublist_filter]. by rewrite Hs.
  - by rewrite length_fmap.
  - intros p (x & -> & [Hle Hx%Hin]%list_elem_of_filter)%list_elem_of_fmap.
    destruct (Hsc x Hx Hle) as [Hse He]. split_and!; [done| |by rewrite <-He].
    apply H7. by apply list_elem_of_fmap_2.
  - intros p Hse Hex Hr. destruct (fle fzero (score p)) eqn:Hp; [right|by left].
    assert (Hnp : is_nan (score p) = false) by (destruct (score p); done).
    assert (Hni : p ∉ items.*2).
    { intros (x & -> & Hx)%list_elem_of_fmap. apply Hr, list_elem_of_fmap_2, list_elem_of_filter.
      split; [|by apply Hin]. rewrite Forall_forall in H4.
      destruct (H4 x Hx) as [[Hneg _]|[_ ->]]; [|done].
      eapply Forall_forall in H8; [|exact Hse]. simpl in H8. lia. }
    destruct (H9 p Hse Hex) as [?|Hbelow]; [done|]. rewrite Forall_forall in Hbelow.
    assert (Hall : ∀ x, x ∈ items → fle fzero x.1 = true).
    { intros x Hx. assert (Hnx : is_nan x.1 = false) by exact (proj1 (Forall_forall _ _) H2 x Hx).
      rewrite fle_flt by done. apply negb_true_iff.
      destruct (flt x.1 fzero) eqn:Hz; [|done]. exfalso.
      rewrite fle_flt in Hp by done. apply negb_true_iff in Hp.
      specialize (Hbelow x Hx). simpl in Hbelow.
      rewrite (flt_lt_nlt x.1 fzero (score p)) in Hbelow; done. }
    rewrite list_filter_all; cycle 1.
    { intros x Hx. by apply Hall, Hin. }
    split; [by rewrite length_fmap, Hs|].
    intros q (x & -> & Hx%Hin)%list_elem_of_fmap. destruct (Hsc x Hx (Hall x Hx)) as [_ <-].
    by apply Hbelow.
  - apply (sa_result_sorted items H2). intros x Hx Hle. by apply Hsc.
Qed.
End top_k.

Lemma initial_heap_inv score (num : Z) (exclusive : gset Z) :
  (∀ p, p ∈ exclusive → 0 ≤ p) →
  heap_inv score (Z.to_nat num) exclusive [] (heapify (initial_items num))
    (exclusive ∪ list_to_set (heapify (initial_items num)).*2).
Proof.
  intros Hex.
  assert (Hitem : ∀ x, x ∈ initial_items num → x.2 < 0 ∧ x.1 = fninf).
  { intros x (i & -> & Hi)%list_elem_of_fmap. apply elem_of_py_range in Hi; simpl; [|lia]. split; [lia|done]. }
  assert (Hgood : Forall hgood (initial_items num)).
  { apply Forall_forall. intros x Hx. apply Hitem in Hx as [_ Hf]. simpl. by rewrite Hf. }
  destruct (heapify_spec (initial_items num) Hgood) as [Hh Hp].
  split; [done|by rewrite Hp| | | |intros p; by rewrite elem_of_union, elem_of_list_to_set| |constructor|by intros p ?%not_elem_of_nil].
  - rewrite Hp. unfold initial_items, py_range. rewrite !length_fmap, length_seq, Z.div_1_r. lia.
  - rewrite Hp. apply Forall_forall. intros x Hx. left. by apply Hitem.
  - rewrite Hp. unfold initial_items. rewrite <-list_fmap_compose.
    apply NoDup_fmap_2_strong; [simpl; intros; lia|by apply NoDup_py_range].
  - intros p. rewrite Hp. intros (x & -> & Hx)%list_elem_of_fmap Hin. apply Hitem in Hx as [? _].
    specialize (Hex _ Hin). lia.
Qed.

(** ** Walks *)

Section walk_spec.
Variable rnd : nat → Z.
Context (dims : list Z).

Lemma walk_loop_sound fuel : ∀ old pos new pos',
  knob_ok old dims → walk_loop rnd dims fuel old old pos = Ok (new, pos') →
  ∃ i u v d, new = <[i := v]> old ∧ old !! i = Some u ∧ u ≠ v ∧ dims !! i = Some d ∧ 0 ≤ v < d.
Proof.
  induction fuel as [|fuel IH]; intros old pos new pos' Hok; cbn [walk_loop];
    rewrite decide_True by done; [done|].
  unfold rand_int. destruct (Z.leb_spec (Z.of_nat (length old)) 0) as [|Hlen]; [done|].
  cbn [mbind result_bind].
  pose proof (Z.mod_pos_bound (rnd pos) (Z.of_nat (length old)) ltac:(lia)) as Hfrom.
  set (fi := rnd pos mod Z.of_nat (length old)) in *.
  pose proof (Forall2_length _ _ _ Hok) as Hdl.
  destruct (lookup_lt_is_Some_2 dims (Z.to_nat fi)) as [d Hd]; [lia|].
  destruct (lookup_lt_is_Some_2 old (Z.to_nat fi)) as [u Hu]; [lia|].
  rewrite py_nth_pos, Hd by lia. cbn [of_option mbind result_bind].
  destruct (Z.leb_spec d 0) as [|Hd0]; [done|]. cbn [mbind result_bind].
  set (v := rnd (S pos) mod d) in *.
  pose proof (Z.mod_pos_bound (rnd (S pos)) d Hd0) as Hv. fold v in Hv.
  destruct (decide (u = v)) as [<-|Hne].
  - rewrite list_insert_id by done. by apply IH.
  - intros Hw. exists (Z.to_nat fi), u, v, d. split_and!; try done; try lia.
    assert (Hn : <[Z.to_nat fi := v]> old ≠ old).
    { intros Heq. apply (f_equal (.!! Z.to_nat fi)) in Heq.
      rewrite list_lookup_insert_eq in Heq by (by eapply lookup_lt_Some). congruence. }
    destruct fuel; cbn [walk_loop] in Hw; rewrite decide_False in Hw by done; congruence.
Qed.

(** The round of draws at offset [k] changes a knob. *)
Definition changes (old : list Z) (pos k : nat) : Prop :=
  let fi := Z.to_nat (rnd (pos + 2 * k) mod Z.of_nat (length old)) in
  ∃ u d, old !! fi = Some u ∧ dims !! fi = Some d ∧ rnd (pos + 2 * k + 1)%nat mod d ≠ u.

Lemma walk_loop_ends fuel : ∀ k old pos,
  knob_ok old dims → old ≠ [] → changes old pos k → (k < fuel)%nat →
  ∃ new pos', walk_loop rnd dims fuel old old pos = Ok (new, pos').
Proof.
  induction fuel as [|fuel IH]; intros k old pos Hok Hne Hch Hk; [lia|]. cbn [walk_loop].
  rewrite decide_True by done. unfold rand_int.
  assert (Hlen : 0 < Z.of_nat (length old)) by (destruct old; [done|simpl; lia]).
  destruct (Z.leb_spec (Z.of_nat (length old)) 0) as [|_]; [lia|]. cbn [mbind result_bind].
  pose proof (Z.mod_pos_bound (rnd pos) (Z.of_nat (length old)) ltac:(lia)) as Hfrom.
  set (fi := rnd pos mod Z.of_nat (length old)) in *.
  pose proof (Forall2_length _ _ _ Hok) as Hdl.
  destruct (lookup_lt_is_Some_2 old (Z.to_nat fi)) as [u Hu]; [lia|].
  destruct (Forall2_lookup_l _ _ _ _ _ Hok Hu) as (d & Hd & Hud).
  rewrite py_nth_pos, Hd by lia. cbn [of_option mbind result_bind].
  destruct (Z.leb_spec d 0) as [|Hd0]; [lia|]. cbn [mbind result_bind].
  destruct (decide (u = rnd (S pos) mod d)) as [Heq|Hdiff].
  - rewrite <-Heq, list_insert_id by done. destruct k as [|k].
    { exfalso. destruct Hch as (u' & d' & Hu' & Hd' & Hx).
      rewrite Nat.mul_0_r, Nat.add_0_r in Hu', Hd', Hx. fold fi in Hu', Hd'.
      rewrite Nat.add_1_r in Hx. congruence. }
    apply (IH k); [done|done| |lia].
    destruct Hch as (u' & d' & Hu' & Hd' & Hx). exists u', d'.
    replace (S (S pos) + 2 * k)%nat with (pos + 2 * S k)%nat by lia. done.
  - eexists _, _. destruct fuel; cbn [walk_loop]; rewrite decide_False; try reflexivity.
    all: intros Heq; apply (f_equal (.!! Z.to_nat fi)) in Heq;
      rewrite list_lookup_insert_eq in Heq by (by eapply lookup_lt_Some); congruence.
Qed.

Lemma knob_ok_insert old i v d :
  knob_ok old dims → dims !! i = Some d → 0 ≤ v < d → knob_ok (<[i := v]> old) dims.
Proof.
  intros Hok Hd Hv. unfold knob_ok. rewrite <-(list_insert_id dims i d Hd).
  by apply Forall2_insert.
Qed.

Lemma random_walk_in_range fuel p pos q pos' :
  Forall (λ d, 1 ≤ d) dims → Zprod dims < 2 ^ 63 → 0 ≤ p < Zprod dims →
  random_walk rnd dims fuel p pos = Ok (q, pos') → 0 ≤ q < Zprod dims ∧ q ≠ p.
Proof.
  intros Hd Hb Hp. unfold random_walk.
  destruct (point2knob_ok p dims Hd Hp) as (old & -> & Hok & <-). cbn [mbind result_bind].
  destruct (walk_loop rnd dims fuel old old pos) as [[new pos1]|] eqn:Hw; [|done].
  cbn [mbind result_bind]. intros [= <- <-].
  destruct (walk_loop_sound fuel old pos new pos1 Hok Hw) as (i & u & v & d & -> & Hu & Hne & Hdi & Hv).
  pose proof (knob_ok_insert old i v d Hok Hdi Hv) as Hok'.
  rewrite knob2point_radix by done. split; [by apply radix_bounds|]. intros Heq.
  assert (Ok (<[i := v]> old) = Ok old) as Hk
    by (rewrite <-(point2knob_radix _ _ Hok'), <-(point2knob_radix _ _ Hok); by rewrite Heq).
  injection Hk as Hk. apply (f_equal (.!! i)) in Hk.
  rewrite list_lookup_insert_eq in Hk by (by eapply lookup_lt_Some). congruence.
Qed.
End walk_spec.

(** in a space with some choice, a walk ends as soon as the draws change a knob,
    at another point of the space. *)
Theorem random_walk_neighbour (rnd : nat → Z) (dims old : list Z) (p : Z) (fuel k pos : nat) :
  Forall (λ d, 1 ≤ d) dims → Zprod dims < 2 ^ 63 → 0 ≤ p < Zprod dims →
  point2knob p dims = Ok old → changes rnd dims old pos k → (k < fuel)%nat →
  ∃ q pos', random_walk rnd dims fuel p pos = Ok (q, pos') ∧ 0 ≤ q < Zprod dims ∧ q ≠ p ∧
    ∃ i v, point2knob q dims = Ok (<[i := v]> old).
Proof.
  intros Hd Hb Hp Hold Hch Hk.
  destruct (point2knob_ok p dims Hd Hp) as (old' & Hold' & Hok & Hr). rewrite Hold in Hold'.
  injection Hold' as <-.
  assert (Hne : old ≠ []) by (destruct Hch as (u & d & Hu & _); by intros ->).
  destruct (walk_loop_ends rnd dims fuel k old pos Hok Hne Hch Hk) as (new & pos' & Hw).
  destruct (walk_loop_sound rnd dims fuel old pos new pos' Hok Hw)
    as (i & u & v & d & Hnew & Hu & Huv & Hdi & Hv).
  assert (Hrun : random_walk rnd dims fuel p pos = Ok (knob2point new dims, pos')).
  { unfold random_walk. rewrite Hold. cbn [mbind result_bind]. by rewrite Hw. }
  exists (knob2point new dims), pos'. split; [done|].
  destruct (random_walk_in_range rnd dims fuel p pos _ _ Hd Hb Hp Hrun) as [Hq Hqp].
  split_and!; [lia|lia|done|]. exists i, v. subst new.
  pose proof (knob_ok_insert dims old i v d Hok Hdi Hv) as Hok'.
  rewrite knob2point_radix by done. by apply point2knob_radix.
Qed.

Lemma random_walk_neighbour_witness :
  ∃ q pos', random_walk Z.of_nat [3; 2] 2 4 0 = Ok (q, pos') ∧ 0 ≤ q < Zprod [3; 2] ∧ q ≠ 4 ∧
    ∃ i v, point2knob q [3; 2] = Ok (<[i := v]> [1; 1]).
Proof.
  apply (random_walk_neighbour Z.of_nat [3; 2] [1; 1] 4 2 1 0);
    [repeat constructor; lia|simpl; lia|simpl; lia|reflexivity| |lia].
  exists 1, 3. split; [reflexivity|]. split; [reflexivity|]. vm_compute. discriminate.
Defined.

Lemma walk_loop_stuck rnd dims old fuel : ∀ pos,
  Forall (λ d, d = 1) dims → length old = length dims → Forall (λ k, k = 0) old → old ≠ [] →
  walk_loop rnd dims fuel old old pos = Raise OutOfFuel.
Proof.
  induction fuel as [|fuel IH]; intros pos Hd Hl Ho Hne; cbn [walk_loop];
    rewrite decide_True by done; [done|].
  assert (Hlen : 0 < Z.of_nat (length old)) by (destruct old; [done|simpl; lia]).
  destruct (rand_int_ok rnd (Z.of_nat (length old)) pos Hlen) as (fi & -> & Hfi).
  cbn [mbind result_bind]. rewrite py_nth_pos by lia.
  destruct (lookup_lt_is_Some_2 dims (Z.to_nat fi)) as [d Hdi]; [lia|]. rewrite Hdi.
  assert (d = 1) as -> by exact (Forall_lookup_1 _ _ _ _ Hd Hdi).
  destruct (lookup_lt_is_Some_2 old (Z.to_nat fi)) as [u Hu]; [lia|].
  assert (u = 0) as -> by exact (Forall_lookup_1 _ _ _ _ Ho Hu).
  cbn [of_option mbind result_bind].
  destruct (rand_int_ok rnd 1 (S pos)) as (v & -> & Hv); [lia|]. assert (v = 0) as -> by lia.
  cbn [mbind result_bind]. rewrite list_insert_id by done. by apply IH.
Qed.

(** in a space with a single configuration no draw changes a knob, and the
    walk never ends: whatever the number of rounds allowed, the loop wants another one. *)
Theorem random_walk_single_point (rnd : nat → Z) (n : nat) (fuel pos : nat) :
  random_walk rnd (replicate (S n) 1) fuel 0 pos = Raise OutOfFuel.
Proof.
  assert (Hk : ∀ m, point2knob 0 (replicate m 1) = Ok (replicate m 0)).
  { induction m as [|m IH]; [done|]. cbn [replicate point2knob].
    change (1 =? 0) with false. change (0 / 1) with 0. cbv iota. by rewrite IH. }
  unfold random_walk. rewrite Hk. cbn [mbind result_bind]. rewrite walk_loop_stuck; [done| | | |done].
  - by apply Forall_replicate.
  - by rewrite !length_replicate.
  - by apply Forall_replicate.
Qed.

(** ** The optimiser *)

Section optimiser.
Variable rnd : nat → Z.
Variable set_iter : list Z → list Z.
Variable score : Z → float.
Variable accept : nat → list float → list float → float → list bool.
Context (dims : list Z) (fuel : nat) (num : Z) (exclusive : gset Z).
Context (Hdims : Forall (λ d, 1 ≤ d) dims) (Hbound : Zprod dims < 2 ^ 63) (Hnum : 0 < num).
(** The draws are such that no walk needs more than [fuel] rounds. *)
Context (Hwalk : ∀ p pos, 0 ≤ p < Zprod dims →
  ∃ q pos', random_walk rnd dims fuel p pos = Ok (q, pos')).

Definition in_space (p : Z) : Prop := 0 ≤ p < Zprod dims.

Lemma walk_all_ok ps : ∀ pos,
  Forall in_space ps →
  ∃ qs pos', walk_all rnd dims fuel ps pos = Ok (qs, pos') ∧ Forall in_space qs.
Proof.
  induction ps as [|p ps IH]; intros pos Hps; cbn [walk_all]; [by eexists _, _|].
  apply Forall_cons in Hps as [Hp Hps]. destruct (Hwalk p pos Hp) as (q & pos1 & Hq).
  destruct (IH pos1 Hps) as (qs & pos2 & Hqs & Hin). rewrite Hq. cbn [mbind result_bind].
  rewrite Hqs. eexists _, _. split; [done|]. constructor; [|done].
  by eapply random_walk_in_range in Hq as [? _].
Qed.

Lemma masked_in_space mask new old :
  Forall in_space new → Forall in_space old → Forall in_space (masked mask new old).
Proof.
  intros Hn Ho. unfold masked. revert mask old Ho.
  induction Hn as [|x new Hx Hn IH]; intros [|b mask] old Ho; try (by constructor).
  destruct Ho as [|y old Hy Ho]; simpl; [constructor|].
  constructor; [by destruct b|by apply IH].
Qed.

(** ** The walks by themselves *)

(** The annealing without the heap: the walkers and all the points they were offered. *)
Record walkers := {
  wk_points : list Z;
  wk_scores : list float;
  wk_scored : list Z;
  wk_k : nat;
  wk_t : float;
  wk_rng : nat
}.

Definition walk_round (cool : float) (w : walkers) : result walkers :=
  '(new_points, pos) ← walk_all rnd dims fuel (wk_points w) (wk_rng w);
  let new_scores := score <$> new_points in
  let mask := accept (wk_k w) new_scores (wk_scores w) (wk_t w) in
  Ok {| wk_points := masked mask new_points (wk_points w);
        wk_scores := masked mask new_scores (wk_scores w);
        wk_scored := wk_scored w ++ new_points;
        wk_k := S (wk_k w); wk_t := fsub (wk_t w) cool; wk_rng := pos |}.

Fixpoint walk_rounds (n : nat) (cool : float) (w : walkers) : result walkers :=
  match n with
  | O => Ok w
  | S n => w ← walk_rounds n cool w; walk_round cool w
  end.

Definition start_walk (pts : list Z) (t : float) (pos : nat) : walkers :=
  {| wk_points := pts; wk_scores := score <$> pts; wk_scored := pts; wk_k := 0; wk_t := t; wk_rng := pos |}.

Abbreviation holds_top w st :=
  (heap_inv score (Z.to_nat num) exclusive (wk_scored w) (sa_heap st) (sa_in_heap st)).

(** The state of the optimiser after [w]: its heap holds the best of all scored points, and held
    them already after the round that changed it last. *)
Record follows (w0 : walkers) (cool : float) (w : walkers) (st : sa_state) : Prop := {
  fo_points : sa_points st = wk_points w;
  fo_scores : sa_scores st = wk_scores w;
  fo_k : sa_k st = Z.of_nat (wk_k w);
  fo_t : sa_t st = wk_t w;
  fo_rng : sa_rng st = wk_rng w;
  fo_space : Forall in_space (wk_points w) ∧ Forall in_space (wk_scored w);
  fo_run : walk_rounds (wk_k w) cool w0 = Ok w;
  fo_top : holds_top w st;
  fo_last : ∃ j w', walk_rounds j cool w0 = Ok w' ∧ Z.of_nat j ≤ sa_last_modify st + 1 ∧ holds_top w' st
}.

Lemma offer_unchanged items in_heap p items' in_heap' :
  offer score (items, in_heap) p = Ok (items', in_heap', false) → items' = items ∧ in_heap' = in_heap.
Proof.
  unfold offer. intros (top & _ & H)%result_bind_ok. destruct (_ && _); [|by simplify_eq].
  apply result_bind_ok in H as ([pop its] & _ & H). by case_decide.
Qed.

Lemma offer_all_unchanged ps : ∀ items in_heap b items' in_heap',
  offer_all score (items, in_heap) b ps = Ok (items', in_heap', false) →
  items' = items ∧ in_heap' = in_heap ∧ b = false.
Proof.
  induction ps as [|p ps IH]; intros items in_heap b items' in_heap' H; cbn [offer_all fst snd] in H; [by simplify_eq|].
  apply result_bind_ok in H as ([[i1 h1] b1] & H1 & H). apply IH in H as (-> & -> & [-> ->]%orb_false_iff).
  by apply offer_unchanged in H1 as [-> ->].
Qed.

Lemma sa_step_ok w0 cool w st : follows w0 cool w st →
  ∃ w' st', sa_step rnd score accept dims fuel cool st = Ok st' ∧ follows w0 cool w' st' ∧
    wk_k w' = S (wk_k w) ∧ (sa_last_modify st' = sa_last_modify st ∨ sa_last_modify st' = Z.of_nat (wk_k w)).
Proof.
  intros [H1 H2 H3 H4 H5 [H6 H6'] H7 H8 (j & wj & Hj & Hjl & Hjt)]. unfold sa_step. rewrite H1, H5.
  destruct (walk_all_ok (wk_points w) (wk_rng w) H6) as (new & pos & Hw & Hnew). rewrite Hw. cbn [mbind result_bind].
  destruct (offer_all_ok score (Z.to_nat num) exclusive new (wk_scored w) (sa_heap st) (sa_in_heap st) false)
    as (items & in_heap & b & Ho & Hinv'); [done|lia| |].
  { eapply Forall_impl; [exact Hnew|]. unfold in_space. lia. }
  rewrite Ho. cbn [mbind result_bind].
  assert (walk_round cool w = Ok {| wk_points := masked (accept (wk_k w) (score <$> new) (wk_scores w) (wk_t w)) new (wk_points w);
    wk_scores := masked (accept (wk_k w) (score <$> new) (wk_scores w) (wk_t w)) (score <$> new) (wk_scores w);
    wk_scored := wk_scored w ++ new; wk_k := S (wk_k w); wk_t := fsub (wk_t w) cool; wk_rng := pos |}) as Hr
    by (unfold walk_round; by rewrite Hw).
  match type of Hr with _ = Ok ?x => exists x end. eexists. split; [reflexivity|]. split; [|split; [reflexivity|]].
  - assert (walk_rounds (S (wk_k w)) cool w0 = walk_round cool w) as Hs by (cbn [walk_rounds]; by rewrite H7).
    rewrite Hr in Hs. rewrite H2, H3, H4, Nat2Z.id.
    split; cbn [sa_points sa_scores sa_k sa_t sa_rng sa_heap sa_in_heap sa_last_modify wk_points wk_scores
      wk_scored wk_k wk_t wk_rng]; [done|done|lia|done|done| |exact Hs|done|].
    + split; [by apply masked_in_space|by apply Forall_app].
    + destruct b; [|apply offer_all_unchanged in Ho as (-> & -> & _); exists j, wj; by split_and!].
      eexists (S (wk_k w)), _. split; [exact Hs|]. split; [lia|done].
  - cbn. rewrite H3. destruct b; auto.
Qed.
Lemma sa_loop_ok w0 cool early n : ∀ w st, follows w0 cool w st → 0 ≤ sa_last_modify st ≤ Z.of_nat (wk_k w) →
  Z.of_nat (wk_k w) ≤ Z.max 0 (sa_last_modify st + early) →
  ∃ w' st', sa_loop rnd score accept dims fuel n early cool st = Ok st' ∧ follows w0 cool w' st' ∧
    (wk_k w' ≤ n + wk_k w)%nat ∧
    (wk_k w' = (n + wk_k w)%nat ∨ Z.of_nat (wk_k w') = Z.max 0 (sa_last_modify st' + early)).
Proof.
  induction n as [|n IH]; intros w st Hf Hl Hk; cbn [sa_loop]; [exists w, st; split_and!; auto|].
  rewrite (fo_k _ _ _ _ Hf). destruct (Z.ltb_spec (Z.of_nat (wk_k w)) (sa_last_modify st + early)) as [Hlt|Hge];
    [|exists w, st; split_and!; auto; [lia|right; lia]].
  destruct (sa_step_ok w0 cool w st Hf) as (w1 & st1 & -> & Hf1 & Hk1 & Hl1). cbn [mbind result_bind].
  destruct (IH w1 st1 Hf1) as (w2 & st2 & -> & Hf2 & Hk2 & Hend); [lia|lia|].
  exists w2, st2. split_and!; [done|done|lia|]. destruct Hend; [left; lia|by right].
Qed.
End optimiser.

(** C29: provided every walk ends, [find_maximums] terminates and returns at most [num] distinct
    points, the best first. They are the best of all the points it scored, the initial ones and
    those of every round of walks: none of them is excluded, all have a score of at least 0, and
    every scored point left out is excluded, has no such score, or is not better than any of the
    [num] points returned. The rounds are [n_iter], or fewer when the same points were already
    the best [early_stop - 1] rounds before the end. *)
Theorem find_maximums_top (rnd : nat → Z) (set_iter : list Z → list Z) (score : Z → float)
    (accept : nat → list float → list float → float → list bool) (dims : list Z) (fuel : nat)
    (o : SimulatedAnnealingOptimizer) (num : Z) (exclusive : gset Z) (pos pos1 : nat) (pts : list Z) :
  Forall (λ d, 1 ≤ d) dims → Zprod dims < 2 ^ 63 → 0 < num →
  (∀ p, p ∈ exclusive → 0 ≤ p) →
  (∀ p pos, 0 ≤ p < Zprod dims → ∃ q pos', random_walk rnd dims fuel p pos = Ok (q, pos')) →
  initial_points rnd set_iter (Zprod dims) fuel o pos = Ok (pts, pos1) →
  Forall (λ p, 0 ≤ p < Zprod dims) pts →
  let run n := walk_rounds rnd score accept dims fuel n (cooling o).2 (start_walk score pts (cooling o).1 pos1) in
  ∃ r o' pos' n w,
    find_maximums rnd set_iter score accept dims (Zprod dims) fuel o num exclusive pos =
      Ok (r, o', pos') ∧
    run n = Ok w ∧ pos' = wk_rng w ∧ points o' = (if persistent o then Some (wk_points w) else points o) ∧
    top_points score (Z.to_nat num) exclusive (wk_scored w) r ∧
    (n ≤ Z.to_nat (n_iter o))%nat ∧
    (n = Z.to_nat (n_iter o) ∨ ∃ n' w', Z.of_nat n' + early_stop o ≤ Z.of_nat n + 1 ∧ run n' = Ok w' ∧
      top_points score (Z.to_nat num) exclusive (wk_scored w') r).
Proof.
  intros Hd Hb Hn Hex Hwalk Hinit Hpts run. unfold find_maximums. rewrite Hinit. cbn [mbind result_bind].
  destruct (offer_all_ok score (Z.to_nat num) exclusive pts [] _ _ false
    (initial_heap_inv score num exclusive Hex)) as (items & in_heap & b & -> & Hinv); [lia| |].
  { eapply Forall_impl; [exact Hpts|]. simpl. lia. }
  cbn [mbind result_bind]. destruct (cooling o) as [t cool]. cbn [fst snd] in run.
  set (w0 := start_walk score pts t pos1) in *. set (st0 := Build_sa_state _ _ _ _ _ _ _ _).
  assert (follows rnd score accept dims fuel num exclusive w0 cool w0 st0) as Hf.
  { split; try done. exists 0%nat, w0. split_and!; [done|cbn; lia|done]. }
  destruct (sa_loop_ok rnd score accept dims fuel num exclusive Hd Hb Hn Hwalk w0 cool
    (early_stop o) (Z.to_nat (n_iter o)) w0 st0 Hf) as (w & st & -> & Hfw & Hk & Hend); [done|cbn; lia|].
  cbn [mbind result_bind]. eexists _, _, _, (wk_k w), w. split; [reflexivity|]. destruct Hfw as [-> _ _ _ -> _ Hrun Htop Hlast].
  split_and!; [done|done|done|by eapply sa_result_top|cbn in Hk; lia|].
  destruct Hend as [Hend|Hend]; [left; cbn in Hend; lia|right].
  destruct Hlast as (j & w' & Hj & Hjl & Htop').
  exists j, w'. split_and!; [lia|done|by eapply sa_result_top].
Qed.

(** A space of two points with draws that alternate. *)
Definition half (i : nat) : Z := Z.of_nat i / 2.

Lemma half_walk p pos :
  0 ≤ p < Zprod [2] → ∃ q pos', random_walk half [2] 3 p pos = Ok (q, pos').
Proof.
  intros Hp. simpl in Hp. unfold random_walk.
  assert (point2knob p [2] = Ok [p]) as ->.
  { simpl. by rewrite Z.mod_small by lia. }
  assert (Hok : knob_ok [p] [2]) by (repeat constructor; lia).
  assert (∃ k, (k < 3)%nat ∧ changes half [2] [p] pos k) as (k & Hk & Hch).
  { assert (Hhalf : half (pos + 2 * 1 + 1) = half (pos + 2 * 0 + 1) + 1).
    { unfold half. rewrite <-Z.div_add by lia. f_equal. lia. }
    destruct (decide (half (pos + 2 * 0 + 1) mod 2 = p)) as [He|He].
    - exists 1%nat. split; [lia|]. exists p, 2. unfold changes. rewrite Z.mod_1_r.
      split_and!; [done|done|]. rewrite Hhalf, Zplus_mod, He. clear -Hp.
      assert (p = 0 ∨ p = 1) as [-> | ->] by lia; done.
    - exists 0%nat. split; [lia|]. exists p, 2. unfold changes. rewrite Z.mod_1_r. done. }
  destruct (walk_loop_ends half [2] 3 k [p] pos Hok) as (new & pos' & Hw); [done|done|done|].
  cbn [mbind result_bind]. rewrite Hw. cbn [mbind result_bind]. by eexists _, _.
Qed.

Definition two_points : SimulatedAnnealingOptimizer :=
  {| n_iter := 3; temp := inl (of_Z 1); persistent := true; parallel_size := 1; early_stop := 50;
     points := Some [0] |}.

(** The walked point 1 is better than the initial point 0, and comes first. *)
Lemma find_maximums_top_witness :
  ∃ r o' pos' w,
    find_maximums half (λ l, l) of_Z (λ _ new _ _, replicate (length new) true) [2] (Zprod [2]) 3
      two_points 2 ∅ 0 = Ok (r, o', pos') ∧
    walk_rounds half of_Z (λ _ new _ _, replicate (length new) true) [2] 3 3 fzero
      (start_walk of_Z [0] (of_Z 1) 0) = Ok w ∧
    wk_scored w = [0; 1; 0; 1] ∧ r = [1; 0] ∧
    top_points of_Z (Z.to_nat 2) ∅ (wk_scored w) r.
Proof.
  destruct (find_maximums_top half (λ l, l) of_Z (λ _ new _ _, replicate (length new) true) [2] 3
    two_points 2 ∅ 0 0 [0]) as (r & o' & pos' & n & w & Hr & Hw & _ & _ & Htop & Hle & Hn);
    [repeat constructor; lia|simpl; lia|lia| |exact half_walk|reflexivity|repeat constructor; simpl; lia|].
  - intros p Hp. by apply not_elem_of_empty in Hp.
  - exists r, o', pos', w. split; [exact Hr|].
    assert (n = 3%nat) as ->.
    { change (Z.to_nat (n_iter two_points)) with 3%nat in Hle, Hn.
      destruct Hn as [->|(n' & w' & Hearly & _)]; [done|]. change (early_stop two_points) with 50 in Hearly. lia. }
    split; [exact Hw|]. split; [|split; [|exact Htop]].
    + vm_compute in Hw. by injection Hw as <-.
    + vm_compute in Hr. by injection Hr as <- _ _.
Defined.
