(* ===== verification/ModelTuner.v ===== *)
(** * Model-based tuning ([python/tvm/autotvm/tuner/model_based_tuner.py])

    [ModelBasedTuner] (the plan of trials, the epsilon-greedy batches, refitting) and
    [submodular_pick]. The cost model and the optimiser of its maxima are
    parameters; [Anneal] models the optimiser the repository provides. *)

From S2P Require Import Prelude PyFloat PyRandom Knobs ConfigSpace Tuners TuneLoop.

(** ** Diversity-aware selection *)

Section submodular.
Context (scores : list float) (knobs : list (list Z)) (knob_weight : float).

(** [tmp_delta] of a candidate: its score plus the weight of every knob value not
    selected yet. *)
Definition tmp_delta (knobs_set : list (gset Z)) (x : nat) : result float :=
  s ← of_option IndexError (scores !! x);
  row ← of_option IndexError (knobs !! x);
  if decide (length row < length knobs_set)%nat then Raise IndexError
  else Ok (foldl (λ d '(st, v), if decide (v ∈ st) then d else fadd d knob_weight) s
             (zip knobs_set row)).

(** The scan for the largest [tmp_delta]; [None] is the initial [max_x = -1]. *)
Fixpoint scan_best (knobs_set : list (gset Z)) (remain : list nat) (max_delta : float)
    (max_x : option nat) : result (option nat) :=
  match remain with
  | [] => Ok max_x
  | x :: remain =>
      d ← tmp_delta knobs_set x;
      if flt max_delta d then scan_best knobs_set remain d (Some x)
      else scan_best knobs_set remain max_delta max_x
  end.

(** [knobs_set[i].add(knobs[max_x][i])] *)
Definition add_row (knobs_set : list (gset Z)) (row : list Z) : list (gset Z) :=
  zip_with (λ st v, {[v]} ∪ st) knobs_set row.

Fixpoint pick_loop (n_pick : nat) (knobs_set : list (gset Z)) (remain ret : list nat)
    : result (list nat) :=
  match n_pick with
  | O => Ok ret
  | S n =>
      best ← scan_best knobs_set remain (of_Z (- 10 ^ 9)) None;
      (* [remain.remove(-1)] raises *)
      x ← of_option ValueError best;
      remain ← py_remove remain x;
      row ← of_option IndexError (knobs !! x);
      pick_loop n (add_row knobs_set row) remain (ret ++ [x])
  end.

Definition submodular_pick (n_pick : Z) : result (list nat) :=
  _ ← py_assert (bool_decide (length scores = length knobs));
  row0 ← of_option IndexError (knobs !! 0%nat);
  pick_loop (Z.to_nat n_pick) (replicate (length row0) ∅) (seq 0 (length scores)) [].
End submodular.

(** ** The tuner *)

Record ModelBasedTuner (CM OS : Type) := {
  mb_plan_size : Z;
  mb_ratio : option Z;
  mb_cost_model : CM;
  mb_optimizer : OS;
  mb_trials : list Z;
  mb_trial_pt : nat;
  mb_visited : gset Z;
  mb_xs : list Z;
  mb_ys : list float;
  mb_flops_max : float;
  mb_train_ct : Z;
  mb_rng : nat
}.
Arguments mb_plan_size {CM OS} _.
Arguments mb_ratio {CM OS} _.
Arguments mb_cost_model {CM OS} _.
Arguments mb_optimizer {CM OS} _.
Arguments mb_trials {CM OS} _.
Arguments mb_trial_pt {CM OS} _.
Arguments mb_visited {CM OS} _.
Arguments mb_xs {CM OS} _.
Arguments mb_ys {CM OS} _.
Arguments mb_flops_max {CM OS} _.
Arguments mb_train_ct {CM OS} _.
Arguments mb_rng {CM OS} _.

Section model_tuner.
Context {C CM OS : Type} `{TuningSpace C}.
Variable rnd : nat → Z.
(** The cost model: fitting, predicting, and fitting a fresh base model to a log
    ([None] when there is no usable data); the optimiser. *)
Variable fit : CM → list Z → list float → Z → CM.
Variable predict : CM → list Z → list float.
Variable spawn_fit_log : CM → Z → option CM.
Variable load_basemodel : CM → CM → CM.
Variable find_maximums : OS → CM → Z → gset Z → result (list Z * OS).
Variable task_flop : float.
Variable np_mean : list cost → float.
(** Bound on the rejected draws of one random choice. *)
Context (fuel : nat).

Definition ModelBasedTuner_init (cm : CM) (os : OS) (plan_size : Z) (ratio : option Z)
    : result (ModelBasedTuner CM OS) :=
  _ ← match ratio with
      | Some r => if r =? 0 then Ok tt else py_assert (1 <=? r)
      | None => Ok tt
      end;
  Ok {| mb_plan_size := plan_size; mb_ratio := ratio; mb_cost_model := cm; mb_optimizer := os;
        mb_trials := []; mb_trial_pt := O; mb_visited := ∅; mb_xs := []; mb_ys := [];
        mb_flops_max := fzero; mb_train_ct := 0; mb_rng := O |}.

(** [while trial_pt < len(trials)]: skip the trials already visited; the index found. *)
Fixpoint skip_visited (trials : list Z) (visited : gset Z) (pt : nat) : nat * option Z :=
  match trials with
  | [] => (pt, None)
  | index :: trials =>
      if decide (index ∈ visited) then skip_visited trials visited (S pt) else (pt, Some index)
  end.

Definition with_batch (t : ModelBasedTuner CM OS) (pt : nat) (visited : gset Z) (rng : nat)
    : ModelBasedTuner CM OS := {|
  mb_plan_size := mb_plan_size t; mb_ratio := mb_ratio t; mb_cost_model := mb_cost_model t;
  mb_optimizer := mb_optimizer t; mb_trials := mb_trials t; mb_trial_pt := pt;
  mb_visited := visited; mb_xs := mb_xs t; mb_ys := mb_ys t; mb_flops_max := mb_flops_max t;
  mb_train_ct := mb_train_ct t; mb_rng := rng |}.

Fixpoint model_next_batch (batch_size : nat) (ret : list C) : M (ModelBasedTuner CM OS) (list C) :=
  match batch_size with
  | O => mret ret
  | S n =>
      t ← get_st;
      if ts_len <=? Z.of_nat (size (mb_visited t)) then mret ret else
      let '(pt, found) := skip_visited (drop (mb_trial_pt t) (mb_trials t)) (mb_visited t)
                                       (mb_trial_pt t) in
      _ ← put_st (with_batch t pt (mb_visited t) (mb_rng t));
      tail ← lift (py_int (fmul (of_dec 5 2) (of_Z (mb_plan_size t))));
      '(index, rng) ← lift
        (if Z.of_nat (length (mb_trials t)) - tail <=? Z.of_nat pt
         then fresh_draw rnd fuel ts_len (mb_visited t) (mb_rng t)
         else i ← of_option UnboundLocalError found; Ok (i, mb_rng t));
      c ← lift (ts_get index);
      _ ← put_st (with_batch t pt ({[index]} ∪ mb_visited t) rng);
      model_next_batch n (ret ++ [c])
  end.

(** One measurement recorded by [update]. *)
Definition observe (t : ModelBasedTuner CM OS) (inp : C) (res : MeasureResult)
    : ModelBasedTuner CM OS :=
  let flops := fdiv task_flop (np_mean (costs res)) in
  let ok := error_no res =? 0 in
  {| mb_plan_size := mb_plan_size t; mb_ratio := mb_ratio t; mb_cost_model := mb_cost_model t;
     mb_optimizer := mb_optimizer t; mb_trials := mb_trials t; mb_trial_pt := mb_trial_pt t;
     mb_visited := mb_visited t; mb_xs := mb_xs t ++ [ts_index inp];
     mb_ys := mb_ys t ++ [if ok then flops else fzero];
     mb_flops_max := if ok && flt (mb_flops_max t) flops then flops else mb_flops_max t;
     mb_train_ct := mb_train_ct t; mb_rng := mb_rng t |}.

(** Refit, and plan the next trials. *)
Definition replan (t : ModelBasedTuner CM OS) : result (ModelBasedTuner CM OS) :=
  let cm := fit (mb_cost_model t) (mb_xs t) (mb_ys t) (mb_plan_size t) in
  '(maximums, os) ←
    match mb_ratio t with
    | Some r =>
        if r =? 0 then find_maximums (mb_optimizer t) cm (mb_plan_size t) (mb_visited t) else
        '(candidate, os) ← find_maximums (mb_optimizer t) cm (mb_plan_size t * r) (mb_visited t);
        let scores := predict cm candidate in
        knobs ← mmapr (λ x, point2knob x ts_dims) candidate;
        pick_index ← submodular_pick ((λ s, fmul (of_Z 0) s) <$> scores) knobs (of_Z 1) (mb_plan_size t);
        picked ← fancy_index candidate pick_index;
        Ok (picked, os)
    | None => find_maximums (mb_optimizer t) cm (mb_plan_size t) (mb_visited t)
    end;
  Ok {| mb_plan_size := mb_plan_size t; mb_ratio := mb_ratio t; mb_cost_model := cm;
        mb_optimizer := os; mb_trials := maximums; mb_trial_pt := O;
        mb_visited := mb_visited t; mb_xs := mb_xs t; mb_ys := mb_ys t;
        mb_flops_max := mb_flops_max t; mb_train_ct := mb_train_ct t + 1; mb_rng := mb_rng t |}.

Definition model_update (inputs : list C) (results : list MeasureResult)
    : M (ModelBasedTuner CM OS) unit :=
  _ ← modify (λ t, foldl (λ t '(inp, res), observe t inp res) t (zip inputs results));
  t ← get_st;
  if (mb_plan_size t * (mb_train_ct t + 1) <=? Z.of_nat (length (mb_xs t)))
     && flt (of_dec 1 6) (mb_flops_max t)
  then t' ← lift (replan t); put_st t'
  else mret tt.

(** [load_history]: transfer learning from a log. *)
Definition load_history : M (ModelBasedTuner CM OS) unit :=
  t ← get_st;
  match spawn_fit_log (mb_cost_model t) (mb_plan_size t) with
  | None => mret tt
  | Some base =>
      '(trials, pt, os) ← lift
        (if decide (mb_trials t = []) then
           '(maximums, os) ← find_maximums (mb_optimizer t) base (mb_plan_size t) (mb_visited t);
           Ok (maximums, O, os)
         else Ok (mb_trials t, mb_trial_pt t, mb_optimizer t));
      put_st {| mb_plan_size := mb_plan_size t; mb_ratio := mb_ratio t;
                mb_cost_model := load_basemodel (mb_cost_model t) base; mb_optimizer := os;
                mb_trials := trials; mb_trial_pt := pt; mb_visited := mb_visited t;
                mb_xs := mb_xs t; mb_ys := mb_ys t; mb_flops_max := mb_flops_max t;
                mb_train_ct := mb_train_ct t; mb_rng := mb_rng t |}
  end.

Definition model_has_next (t : ModelBasedTuner CM OS) : bool :=
  Z.of_nat (size (mb_visited t)) <? ts_len.
End model_tuner.

(** ** Batches propose unvisited configurations *)

Lemma skip_visited_spec trials visited pt :
  let '(pt', found) := skip_visited trials visited pt in
  match found with
  | Some i => i ∈ trials ∧ i ∉ visited ∧ (pt ≤ pt' < pt + length trials)%nat
  | None => pt' = (pt + length trials)%nat
  end.
Proof.
  revert pt. induction trials as [|i trials IH]; intros pt; simpl; [lia|].
  case_decide as Hi; [|split_and!; [by left|done|lia|lia]].
  specialize (IH (S pt)). destruct (skip_visited trials visited (S pt)) as [pt' [j|]]; [|lia].
  destruct IH as (? & ? & ?). split_and!; [by right|done|lia|lia].
Qed.

Section batches.
Context {C CM OS : Type} `{TuningSpaceLaws C}.
Variable rnd : nat → Z.
Context (fuel : nat).
(** As long as some configuration is unvisited, the draws find one within the fuel. *)
Context (Hfresh : ∀ seen pos, Z.of_nat (size seen) < ts_len →
  ∃ x pos', fresh_draw rnd fuel ts_len seen pos = Ok (x, pos')).

Record mb_inv (t : ModelBasedTuner CM OS) : Prop := {
  mi_visited : ∀ i, i ∈ mb_visited t → 0 ≤ i < ts_len;
  mi_trials : Forall (λ i, 0 ≤ i < ts_len) (mb_trials t);
  mi_tail : ∃ tail, py_int (fmul (of_dec 5 2) (of_Z (mb_plan_size t))) = Ok tail ∧ 0 ≤ tail
}.

(** The choice of one index. *)
Lemma choose_ok (t : ModelBasedTuner CM OS) pt found tail :
  mb_inv t → Z.of_nat (size (mb_visited t)) < ts_len → 0 ≤ tail →
  skip_visited (drop (mb_trial_pt t) (mb_trials t)) (mb_visited t) (mb_trial_pt t) = (pt, found) →
  ∃ index rng, (if Z.of_nat (length (mb_trials t)) - tail <=? Z.of_nat pt
     then fresh_draw rnd fuel ts_len (mb_visited t) (mb_rng t)
     else i ← of_option UnboundLocalError found; Ok (i, mb_rng t)) = Ok (index, rng) ∧
    0 ≤ index < ts_len ∧ index ∉ mb_visited t.
Proof.
  intros Hinv Hsize Htail Hskip.
  destruct (Z.leb_spec (Z.of_nat (length (mb_trials t)) - tail) (Z.of_nat pt)) as [Hle|Hgt].
  - destruct (Hfresh (mb_visited t) (mb_rng t) Hsize) as (x & pos' & Hx).
    exists x, pos'. split; [done|]. by eapply fresh_draw_sound.
  - pose proof (skip_visited_spec (drop (mb_trial_pt t) (mb_trials t)) (mb_visited t) (mb_trial_pt t)) as Hs.
    rewrite Hskip in Hs. destruct found as [i|]; cycle 1.
    { rewrite length_drop in Hs. lia. }
    destruct Hs as (Hin & Hnv & _). exists i, (mb_rng t). split; [done|]. split; [|done].
    pose proof (mi_trials _ Hinv) as Ht. rewrite Forall_forall in Ht. apply Ht.
    eapply elem_of_submseteq; [exact Hin|]. apply sublist_submseteq, sublist_drop.
Qed.

Lemma model_next_batch_spec n : ∀ ret t,
  mb_inv t →
  ∃ cs t', model_next_batch rnd fuel n ret t = (Ok (ret ++ cs), t') ∧ mb_inv t' ∧
    NoDup (ts_index <$> cs) ∧
    (∀ c, c ∈ cs → (0 ≤ ts_index c < ts_len) ∧ ts_index c ∉ mb_visited t) ∧
    mb_visited t' = mb_visited t ∪ list_to_set (ts_index <$> cs) ∧
    length cs = Nat.min n (Z.to_nat ts_len - size (mb_visited t)).
Proof.
  induction n as [|n IH]; intros ret t Hinv; cbn [model_next_batch].
  { exists [], t. rewrite fmap_nil, app_nil_r. split_and!; [done|done|by constructor|
      by intros ? ?%not_elem_of_nil|by rewrite list_to_set_nil, union_empty_r_L|done]. }
  rewrite M_get_bind. destruct (Z.leb_spec ts_len (Z.of_nat (size (mb_visited t)))) as [Hfull|Hroom].
  { exists [], t. rewrite fmap_nil, app_nil_r. split_and!; [done|done|by constructor|
      by intros ? ?%not_elem_of_nil|by rewrite list_to_set_nil, union_empty_r_L|cbn [length]; lia]. }
  destruct (skip_visited _ _ _) as [pt found] eqn:Hskip. rewrite M_put_bind.
  destruct (mi_tail _ Hinv) as (tail & Htail & Htail0). rewrite Htail, M_lift_ok_bind.
  destruct (choose_ok t pt found tail Hinv Hroom Htail0 Hskip) as (index & rng & Hidx & Hin & Hnv).
  rewrite Hidx, M_lift_ok_bind. destruct (ts_get_in index Hin) as (c & Hc & Hci).
  rewrite Hc, M_lift_ok_bind, M_put_bind.
  destruct (IH (ret ++ [c]) (with_batch t pt ({[index]} ∪ mb_visited t) rng))
    as (cs & t' & Hrun & Hinv' & Hnd & Hcs & Hvis & Hlen).
  { destruct Hinv as [Hv Ht Hp]. split; simpl; [|done|done]. intros i.
    rewrite elem_of_union, elem_of_singleton. intros [->|?]; [done|by apply Hv]. }
  exists (c :: cs), t'. rewrite Hrun, <-app_assoc. simpl in Hcs, Hvis, Hlen.
  split_and!; [done|done| | | |].
  - rewrite fmap_cons, Hci. apply NoDup_cons. split; [|done].
    intros (c' & Hc' & Hin')%list_elem_of_fmap. destruct (Hcs c' Hin') as [_ Hn]. set_solver.
  - intros c' [->|Hc']%elem_of_cons; [by rewrite Hci|].
    destruct (Hcs c' Hc') as [? Hn]. split; [done|]. set_solver.
  - rewrite Hvis, fmap_cons, list_to_set_cons, Hci. set_solver.
  - rewrite size_union, size_singleton in Hlen by set_solver. cbn [length]. lia.
Qed.
End batches.

(** As long as the random draws eventually hit every configuration, a batch of
    the model-based tuner has as many configurations as asked for, or all that are left;
    they are distinct, none was visited before, and exactly they become visited. *)
Theorem model_batch_fresh {C CM OS} `{TuningSpaceLaws C} (rnd : nat → Z) (fuel n : nat)
    (t : ModelBasedTuner CM OS) :
  (∀ seen pos, Z.of_nat (size seen) < ts_len →
     ∃ x pos', fresh_draw rnd fuel ts_len seen pos = Ok (x, pos')) →
  mb_inv t →
  ∃ cs t', model_next_batch rnd fuel n [] t = (Ok cs, t') ∧ mb_inv t' ∧
    NoDup (ts_index <$> cs) ∧
    (∀ c, c ∈ cs → (0 ≤ ts_index c < ts_len) ∧ ts_index c ∉ mb_visited t) ∧
    mb_visited t' = mb_visited t ∪ list_to_set (ts_index <$> cs) ∧
    length cs = Nat.min n (Z.to_nat ts_len - size (mb_visited t)).
Proof. intros Hfresh Hinv. exact (model_next_batch_spec rnd fuel Hfresh n [] t Hinv). Qed.

Definition planned_tuner : ModelBasedTuner unit unit :=
  {| mb_plan_size := 64; mb_ratio := None; mb_cost_model := tt; mb_optimizer := tt;
     mb_trials := [2; 5; 1; 0]; mb_trial_pt := O; mb_visited := {[2]}; mb_xs := []; mb_ys := [];
     mb_flops_max := fzero; mb_train_ct := 0; mb_rng := O |}.

#[local] Existing Instance config_tuning_space.

Lemma model_batch_fresh_witness :
  let sp := config_tuning_space two_knobs in
  ∃ cs t', model_next_batch (H := sp) Z.of_nat 6 4 [] planned_tuner = (Ok cs, t') ∧
    mb_inv (H := sp) t' ∧ NoDup (ts_index <$> cs) ∧
    (∀ c, c ∈ cs → (0 ≤ ts_index c < ts_len) ∧ ts_index c ∉ mb_visited planned_tuner) ∧
    mb_visited t' = mb_visited planned_tuner ∪ list_to_set (ts_index <$> cs) ∧
    length cs = Nat.min 4 (Z.to_nat ts_len - size (mb_visited planned_tuner)).
Proof.
  apply (@model_batch_fresh _ unit unit (config_tuning_space two_knobs)
    (config_tuning_space_laws two_knobs two_knobs_ok) Z.of_nat 6 4 planned_tuner).
  - exact (sequential_fresh 6).
  - split; simpl.
    + intros i ->%elem_of_singleton. lia.
    + repeat constructor; simpl; lia.
    + exists 3. split; [vm_compute; reflexivity|lia].
Defined.

(** ** The selection is greedy *)

Section greedy.
Context (scores : list float) (knobs : list (list Z)) (w : float) (n_knobs : nat).
Context (Hlen : length scores = length knobs)
  (Hrows : Forall (λ row, length row = n_knobs) knobs).
(** Scores and weights keep every objective above the initial [-1e9]. *)
Context (Hbig : ∀ s c, s ∈ scores → (c ≤ n_knobs)%nat →
  flt (of_Z (- 10 ^ 9)) (Nat.iter c (λ d, fadd d w) s) = true).

(** The values the picks [prev] have at every knob. *)
Definition sets_after (prev : list nat) : list (gset Z) :=
  foldl (λ sets p, add_row sets (default [] (knobs !! p))) (replicate n_knobs ∅) prev.

(** The objective of adding [x] to [prev]: its score plus the weight of every knob
    value that no pick has. *)
Definition objective (prev : list nat) (x : nat) : float :=
  Nat.iter (length (filter (λ '(st, v), v ∉ st) (zip (sets_after prev) (default [] (knobs !! x)))))
    (λ d, fadd d w) (default fzero (scores !! x)).

Lemma row_some x : (x < length scores)%nat →
  ∃ s row, scores !! x = Some s ∧ knobs !! x = Some row ∧ length row = n_knobs.
Proof.
  intros Hx. destruct (lookup_lt_is_Some_2 scores x Hx) as [s Hs].
  destruct (lookup_lt_is_Some_2 knobs x) as [row Hr]; [lia|].
  exists s, row. split_and!; [done|done|]. exact (Forall_lookup_1 _ _ _ _ Hrows Hr).
Qed.

Lemma sets_after_length prev :
  Forall (λ p, p < length scores)%nat prev → length (sets_after prev) = n_knobs.
Proof.
  unfold sets_after. intros Hp.
  assert (∀ sets, length sets = n_knobs →
    length (foldl (λ sets p, add_row sets (default [] (knobs !! p))) sets prev) = n_knobs) as H;
    [|apply H, length_replicate].
  induction Hp as [|p prev Hlt Hp IH]; intros sets Hsets; simpl; [done|]. apply IH.
  destruct (row_some p Hlt) as (s & row & _ & -> & Hr). unfold add_row. simpl.
  rewrite length_zip_with. lia.
Qed.

Lemma foldl_iter (l : list (gset Z * Z)) d :
  foldl (λ d '(st, v), if decide (v ∈ st) then d else fadd d w) d l =
  Nat.iter (length (filter (λ '(st, v), v ∉ st) l)) (λ d, fadd d w) d.
Proof.
  revert d. induction l as [|[st v] l IH]; intros d; simpl; [done|].
  rewrite IH. destruct (decide (v ∈ st)) as [Hin|Hin].
  - rewrite filter_cons_False; [done|]. simpl. tauto.
  - rewrite filter_cons_True by done. simpl. apply (Nat.iter_swap _ _ (λ d, fadd d w) d).
Qed.

Lemma tmp_delta_objective prev x :
  Forall (λ p, p < length scores)%nat prev → (x < length scores)%nat →
  tmp_delta scores knobs w (sets_after prev) x = Ok (objective prev x) ∧
  flt (of_Z (- 10 ^ 9)) (objective prev x) = true.
Proof.
  intros Hp Hx. destruct (row_some x Hx) as (s & row & Hs & Hr & Hl).
  pose proof (sets_after_length prev Hp) as Hsl. unfold tmp_delta, objective.
  rewrite Hs, Hr. simpl. rewrite decide_False by lia. rewrite foldl_iter. split; [done|].
  apply Hbig; [by eapply list_elem_of_lookup_2|].
  etransitivity; [apply length_filter|]. rewrite length_zip. lia.
Qed.

(** The scan returns a candidate that no other beats. *)
Lemma scan_best_ok prev remain : ∀ max_delta max_x,
  Forall (λ p, p < length scores)%nat prev → Forall (λ p, p < length scores)%nat remain →
  is_nan max_delta = false →
  ∃ r, scan_best scores knobs w (sets_after prev) remain max_delta max_x = Ok r ∧
    ((r = max_x ∧ Forall (λ y, flt max_delta (objective prev y) = false) remain) ∨
     ∃ x, r = Some x ∧ x ∈ remain ∧ flt max_delta (objective prev x) = true ∧
       Forall (λ y, flt (objective prev x) (objective prev y) = false) remain).
Proof.
  induction remain as [|y remain IH]; intros md mx Hprev Hrem Hmd; cbn [scan_best].
  { exists mx. split; [done|]. left. split; [done|constructor]. }
  apply Forall_cons in Hrem as [Hy Hrem].
  destruct (tmp_delta_objective prev y Hprev Hy) as [-> _]. cbn [mbind result_bind].
  destruct (flt md (objective prev y)) eqn:Hlt.
  - destruct (IH (objective prev y) (Some y) Hprev Hrem ltac:(by eapply flt_not_nan_r))
      as (r & Hr & [[-> Hall]|(x & -> & Hin & Hx & Hall)]); rewrite Hr; eexists; (split; [done|]); right.
    + exists y. split_and!; [done|by left|done|]. constructor; [apply flt_irrefl|done].
    + exists x. split_and!; [done|by right|by eapply flt_trans|].
      constructor; [by apply flt_asym|done].
  - destruct (IH md mx Hprev Hrem Hmd) as (r & Hr & [[-> Hall]|(x & -> & Hin & Hx & Hall)]);
      rewrite Hr; eexists; (split; [done|]); [left|right].
    + split; [done|]. by constructor.
    + exists x. split_and!; [done|by right|done|]. constructor; [|done].
      destruct (flt (objective prev x) (objective prev y)) eqn:Hc; [|done].
      by rewrite (flt_trans _ _ _ Hx Hc) in Hlt.
Qed.

(** Every pick, in order, is a best addition to the picks before it. *)
Definition greedy_picks (ret : list nat) : Prop :=
  ∀ j x, ret !! j = Some x → ∀ y, (y < length scores)%nat → y ∉ take j ret →
    flt (objective (take j ret) x) (objective (take j ret) y) = false.

Lemma pick_loop_ok n : ∀ ret remain,
  ret ++ remain ≡ₚ seq 0 (length scores) → greedy_picks ret →
  if decide (n ≤ length remain)%nat
  then ∃ picks remain', pick_loop scores knobs w n (sets_after ret) remain ret = Ok (ret ++ picks) ∧
    length picks = n ∧ (ret ++ picks) ++ remain' ≡ₚ seq 0 (length scores) ∧ greedy_picks (ret ++ picks)
  else pick_loop scores knobs w n (sets_after ret) remain ret = Raise ValueError.
Proof.
  induction n as [|n IH]; intros ret remain Hperm Hg; cbn [pick_loop].
  { rewrite decide_True by lia. exists [], remain. rewrite app_nil_r. by split_and!. }
  assert (Hall : Forall (λ p, p < length scores)%nat (ret ++ remain)).
  { rewrite Hperm. apply Forall_forall. intros p [_ ?]%elem_of_seq. lia. }
  apply Forall_app in Hall as [Hret Hrem].
  destruct (scan_best_ok ret remain (of_Z (- 10 ^ 9)) None Hret Hrem eq_refl)
    as (r & -> & [[-> Hnone]|(x & -> & Hin & _ & Hbest)]); cbn [mbind result_bind of_option].
  { destruct remain as [|y remain]; [by rewrite decide_False by (simpl; lia)|]. exfalso.
    apply Forall_cons in Hnone as [Hn _], Hrem as [Hy _].
    destruct (tmp_delta_objective ret y Hret Hy) as [_ Hb]. congruence. }
  destruct (py_remove_ok remain x Hin) as [remain' Hrm].
  pose proof (py_remove_perm _ _ _ Hrm) as Hp. rewrite Hrm. cbn [mbind result_bind].
  assert (Hx : (x < length scores)%nat) by (rewrite Forall_forall in Hrem; by apply Hrem).
  destruct (row_some x Hx) as (s & row & _ & Hrow & _). rewrite Hrow. cbn [mbind result_bind of_option].
  assert (Hsets : add_row (sets_after ret) row = sets_after (ret ++ [x])).
  { unfold sets_after. rewrite foldl_snoc, Hrow. done. }
  rewrite Hsets.
  assert (Hperm' : (ret ++ [x]) ++ remain' ≡ₚ seq 0 (length scores))
    by (by rewrite <-app_assoc, <-Hperm, Hp).
  assert (Hg' : greedy_picks (ret ++ [x])).
  { intros j z Hz y Hy Hny. destruct (decide (j < length ret)%nat) as [Hj|Hj].
    - rewrite lookup_app_l in Hz by done. rewrite take_app_le in Hny |- * by lia. by apply Hg.
    - apply lookup_lt_Some in Hz as Hj'. rewrite length_app in Hj'. simpl in Hj'.
      assert (j = length ret) as -> by lia. rewrite list_lookup_middle in Hz by done.
      injection Hz as ->. rewrite take_app_length in Hny |- *.
      rewrite Forall_forall in Hbest. apply Hbest.
      assert (y ∈ ret ++ remain) as Hyin by (rewrite Hperm; apply elem_of_seq; lia).
      by apply elem_of_app in Hyin as [?|?]. }
  specialize (IH (ret ++ [x]) remain' Hperm' Hg'). apply Permutation_length in Hp. simpl in Hp.
  destruct (decide (n ≤ length remain')%nat) as [Hn|Hn].
  - rewrite decide_True by lia. destruct IH as (picks & rem & -> & Hlp & Hpp & Hgp).
    exists (x :: picks), rem. rewrite <-!app_assoc in *. split_and!; [done|simpl; lia|done|done].
  - by rewrite decide_False by lia.
Qed.
End greedy.

(** For candidates with equally long knob vectors whose objectives stay above
    [-1e9], [submodular_pick] returns [n_pick] distinct candidates, each of which adds, at
    its turn, at least as much to the objective (its score plus the weight of its new knob
    values) as any other; asked for more candidates than there are, it raises
    [ValueError]. *)
Theorem submodular_pick_greedy (scores : list float) (knobs : list (list Z)) (w : float)
    (n_knobs : nat) (n_pick : Z) :
  length scores = length knobs → knobs ≠ [] → Forall (λ row, length row = n_knobs) knobs →
  (∀ s c, s ∈ scores → (c ≤ n_knobs)%nat →
     flt (of_Z (- 10 ^ 9)) (Nat.iter c (λ d, fadd d w) s) = true) →
  (n_pick ≤ Z.of_nat (length scores) →
     ∃ ret, submodular_pick scores knobs w n_pick = Ok ret ∧ length ret = Z.to_nat n_pick ∧
       NoDup ret ∧ Forall (λ x, x < length scores)%nat ret ∧
       greedy_picks scores knobs w n_knobs ret) ∧
  (Z.of_nat (length scores) < n_pick → submodular_pick scores knobs w n_pick = Raise ValueError).
Proof.
  intros Hlen Hne Hrows Hbig.
  assert (Hrun : submodular_pick scores knobs w n_pick =
    pick_loop scores knobs w (Z.to_nat n_pick) (sets_after knobs n_knobs []) (seq 0 (length scores)) []).
  { unfold submodular_pick. rewrite bool_decide_true by done.
    destruct (lookup_lt_is_Some_2 knobs 0) as [row0 Hrow].
    { destruct knobs; [done|simpl; lia]. }
    rewrite Hrow. cbn. rewrite (Forall_lookup_1 _ _ _ _ Hrows Hrow). done. }
  pose proof (pick_loop_ok scores knobs w n_knobs Hlen Hrows Hbig (Z.to_nat n_pick) []
    (seq 0 (length scores)) (Permutation_refl _) ltac:(by intros j x Hx)) as Hloop.
  rewrite length_seq in Hloop. rewrite Hrun. split; intros Hn.
  - rewrite decide_True in Hloop by lia. destruct Hloop as (ret & rem & -> & Hl & Hp & Hg).
    exists ret. simpl in Hp, Hg. assert (Hnd : NoDup (ret ++ rem)) by (rewrite Hp; apply NoDup_seq).
    apply NoDup_app in Hnd as [Hnd _]. split_and!; [done|done|done| |done].
    apply Forall_forall. intros x Hx. assert (x ∈ ret ++ rem) as Hin by (apply elem_of_app; by left).
    rewrite Hp in Hin. apply elem_of_seq in Hin. lia.
  - by rewrite decide_False in Hloop by lia.
Qed.

Lemma submodular_pick_greedy_witness :
  (2 ≤ Z.of_nat (length [fzero; fzero; fzero]) →
     ∃ ret, submodular_pick [fzero; fzero; fzero] [[1; 2]; [1; 2]; [1; 3]] (of_Z 1) 2 = Ok ret ∧
       length ret = Z.to_nat 2 ∧ NoDup ret ∧
       Forall (λ x, x < length [fzero; fzero; fzero])%nat ret ∧
       greedy_picks [fzero; fzero; fzero] [[1; 2]; [1; 2]; [1; 3]] (of_Z 1) 2 ret) ∧
  (Z.of_nat (length [fzero; fzero; fzero]) < 2 →
     submodular_pick [fzero; fzero; fzero] [[1; 2]; [1; 2]; [1; 3]] (of_Z 1) 2 = Raise ValueError).
Proof.
  apply (submodular_pick_greedy [fzero; fzero; fzero] [[1; 2]; [1; 2]; [1; 3]] (of_Z 1) 2 2);
    [reflexivity|discriminate|repeat constructor|].
  intros s c Hs Hc. assert (s = fzero) as ->.
  { repeat (apply elem_of_cons in Hs as [->|Hs]; [reflexivity|]). by apply not_elem_of_nil in Hs. }
  destruct c as [|[|[|c]]]; [vm_compute; reflexivity..|lia].
Defined.
