(* ===== verification/GATuner.v ===== *)
(** * Genetic tuning ([python/tvm/autotvm/tuner/ga_tuner.py])

    [GATuner]: a gene is a knob vector. numpy's [argpartition] and weighted
    [choice], both of which may raise, and the comparison of a random float with the mutation
    probability, are parameters. *)

From S2P Require Import Prelude PyFloat PyRandom Knobs ConfigSpace Tuners TuneLoop.

Record GATuner := {
  pop_size : Z;
  elite_num : Z;
  genes : list (list Z);
  ga_scores : list float;
  elites : list (list Z);
  elite_scores : list float;
  trial_pt : Z;
  ga_visited : gset Z;
  ga_rng : nat
}.

Section ga.
Context {C : Type} `{TuningSpace C}.
Variable rnd : nat → Z.
(** [np.argpartition(scores, -k)], [np.random.choice(indices, 2, replace=False, p=probs)] for
    the probabilities computed from the scores, [np.random.random() < mutation_prob]. *)
Variable argpartition : list float → Z → result (list nat).
Variable choice2 : list float → nat → result (nat * nat).
Variable flip : nat → bool.
Variable task_flop : float.
Variable np_mean : list cost → float.
(** Bound on the rejected draws of one gene. *)
Context (fuel : nat).

(** [tmp_gene = point2knob(randint(len))] until its point is new. *)
Fixpoint new_gene (fuel : nat) (visited : gset Z) (pos : nat) : result (list Z * nat) :=
  match fuel with
  | O => Raise OutOfFuel
  | S fuel =>
      p ← rand_int rnd ts_len pos;
      gene ← point2knob p ts_dims;
      if decide (knob2point gene ts_dims ∈ visited) then new_gene fuel visited (S pos)
      else Ok (gene, S pos)
  end.

Fixpoint init_genes (n : nat) (gs : list (list Z)) (visited : gset Z) (pos : nat)
    : result (list (list Z) * gset Z * nat) :=
  match n with
  | O => Ok (gs, visited, pos)
  | S n =>
      '(gene, pos) ← new_gene fuel visited pos;
      init_genes n (gs ++ [gene]) ({[knob2point gene ts_dims]} ∪ visited) pos
  end.

Definition GATuner_init (pop elite : Z) (pos : nat) : result GATuner :=
  _ ← py_assert (elite <=? pop);
  let pop := Z.min pop ts_len in
  let elite := Z.min pop elite in
  '(gs, visited, pos) ← init_genes (Z.to_nat pop) [] ∅ pos;
  Ok {| pop_size := pop; elite_num := elite; genes := gs; ga_scores := []; elites := [];
        elite_scores := []; trial_pt := 0; ga_visited := visited; ga_rng := pos |}.

Definition set_trial_pt (t : GATuner) (pt : Z) : GATuner := {|
  pop_size := pop_size t; elite_num := elite_num t; genes := genes t; ga_scores := ga_scores t;
  elites := elites t; elite_scores := elite_scores t; trial_pt := pt;
  ga_visited := ga_visited t; ga_rng := ga_rng t |}.

Fixpoint ga_next_batch (batch_size : nat) (ret : list C) : M GATuner (list C) :=
  match batch_size with
  | O => mret ret
  | S n =>
      t ← get_st;
      if pop_size t =? 0 then raise ZeroDivisionError else
      gene ← lift (py_nth (genes t) (trial_pt t mod pop_size t));
      _ ← put_st (set_trial_pt t (trial_pt t + 1));
      c ← lift (ts_get (knob2point gene ts_dims));
      ga_next_batch n (ret ++ [c])
  end.

Definition ga_has_next (t : GATuner) : bool :=
  Z.of_nat (size (ga_visited t)) - (Z.of_nat (length (genes t)) - trial_pt t) <? ts_len.

(** The elite indices: [argpartition(scores, -k)[-k:]], which is the whole list
    for [k = 0]. *)
Definition elite_indexes (scores : list float) (k : Z) : result (list nat) :=
  l ← argpartition scores (- k);
  Ok (if k <=? 0 then drop (Z.to_nat (- k)) l else drop (length l - Z.to_nat k) l).

(** Crossover of two chosen genes. *)
Definition cross_over (gs : list (list Z)) (scores : list float) (pos : nat)
    : result (list Z * nat) :=
  '(i1, i2) ← choice2 scores pos;
  p1 ← of_option IndexError (gs !! i1);
  p2 ← of_option IndexError (gs !! i2);
  point ← rand_int rnd (Z.of_nat (length ts_dims)) (S pos);
  Ok (take (Z.to_nat point) p1 ++ drop (Z.to_nat point) p2, S (S pos)).

Fixpoint cross_all (n : nat) (gs : list (list Z)) (scores : list float) (pos : nat)
    : result (list (list Z) * nat) :=
  match n with
  | O => Ok ([], pos)
  | S n =>
      '(g, pos) ← cross_over gs scores pos;
      '(rest, pos) ← cross_all n gs scores pos;
      Ok (g :: rest, pos)
  end.

(** [gene[j] = randint(dims[j])] at the knobs the coin selects. *)
Fixpoint mutate (j : nat) (dims : list Z) (gene : list Z) (pos : nat) : result (list Z * nat) :=
  match dims with
  | [] => Ok (gene, pos)
  | dim :: dims =>
      if flip pos then
        v ← rand_int rnd dim (S pos);
        if decide (j < length gene)%nat then mutate (S j) dims (<[j := v]> gene) (S (S pos))
        else Raise IndexError
      else mutate (S j) dims gene (S pos)
  end.

(** [while knob2point(gene) in visited]: redraw a random knob. *)
Fixpoint redraw (fuel : nat) (gene : list Z) (visited : gset Z) (pos : nat) : result (list Z * nat) :=
  if decide (knob2point gene ts_dims ∈ visited) then
    match fuel with
    | O => Raise OutOfFuel
    | S fuel =>
        j ← rand_int rnd (Z.of_nat (length ts_dims)) pos;
        dim ← py_nth ts_dims j;
        v ← rand_int rnd dim (S pos);
        redraw fuel (<[Z.to_nat j := v]> gene) visited (S (S pos))
    end
  else Ok (gene, pos).

(** The mutation loop: it stops when the space is used up. *)
Fixpoint next_generation (tmp_genes next_genes : list (list Z)) (visited : gset Z) (pos : nat)
    : result (list (list Z) * gset Z * nat) :=
  match tmp_genes with
  | [] => Ok (next_genes, visited, pos)
  | gene :: tmp_genes =>
      '(gene, pos) ← mutate 0 ts_dims gene pos;
      if Z.of_nat (size visited) <? ts_len then
        '(gene, pos) ← redraw fuel gene visited pos;
        next_generation tmp_genes (next_genes ++ [gene])
          ({[knob2point gene ts_dims]} ∪ visited) pos
      else Ok (next_genes, visited, pos)
  end.

(** The score of a measurement. *)
Definition ga_score (res : MeasureResult) : float :=
  if error_no res =? 0 then fdiv task_flop (np_mean (costs res)) else fzero.

Definition evolve (t : GATuner) (scores : list float) : result GATuner :=
  let all := genes t ++ elites t in
  let sc := take (length (genes t)) scores ++ elite_scores t in
  idx ← elite_indexes sc (elite_num t);
  elites ← fancy_index all idx;
  elite_sc ← fancy_index sc idx;
  '(tmp_genes, pos) ← cross_all (Z.to_nat (pop_size t)) all sc (ga_rng t);
  '(next_genes, visited, pos) ← next_generation tmp_genes [] (ga_visited t) pos;
  Ok {| pop_size := pop_size t; elite_num := elite_num t; genes := next_genes; ga_scores := [];
        elites := elites; elite_scores := elite_sc; trial_pt := 0; ga_visited := visited;
        ga_rng := pos |}.

Definition ga_update (results : list MeasureResult) (t : GATuner) : result GATuner :=
  let scores := ga_scores t ++ (ga_score <$> results) in
  if bool_decide (length (genes t) ≤ length scores)%nat && (Z.of_nat (size (ga_visited t)) <? ts_len)
  then evolve t scores
  else Ok {| pop_size := pop_size t; elite_num := elite_num t; genes := genes t; ga_scores := scores;
             elites := elites t; elite_scores := elite_scores t; trial_pt := trial_pt t;
             ga_visited := ga_visited t; ga_rng := ga_rng t |}.
End ga.

(** ** Generations *)

(** A score the selection probabilities can be computed from. *)
Definition score_ok (x : float) : Prop := is_finite x = true ∧ fle fzero x = true.

(** What is relied on of numpy: [argpartition] returns a permutation of the indices when [kth] is
    in bounds; [choice] returns two indices when there are two at least and the scores are finite
    and not negative, so that the probabilities are positive and sum up to 1, and raises
    [ValueError] when there are fewer indices than it is to choose. *)
Record numpy_selects (argpartition : list float → Z → result (list nat))
    (choice2 : list float → nat → result (nat * nat)) : Prop := {
  ns_argpartition : ∀ sc k, - Z.of_nat (length sc) ≤ k < Z.of_nat (length sc) →
    ∃ l, argpartition sc k = Ok l ∧ l ≡ₚ seq 0 (length sc);
  ns_choice : ∀ sc pos, (2 ≤ length sc)%nat → Forall score_ok sc →
    ∃ i j, choice2 sc pos = Ok (i, j) ∧ (i < length sc)%nat ∧ (j < length sc)%nat ∧ i ≠ j;
  ns_choice_few : ∀ sc pos, (length sc < 2)%nat → choice2 sc pos = Raise ValueError
}.

Section generations.
Context {C : Type} `{TuningSpaceLaws C}.
Variable rnd : nat → Z.
Variable argpartition : list float → Z → result (list nat).
Variable choice2 : list float → nat → result (nat * nat).
Variable flip : nat → bool.
Variable task_flop : float.
Variable np_mean : list cost → float.
Context (fuel : nat).
Context (Hnp : numpy_selects argpartition choice2).
(** As long as some configuration is unvisited, the redraws of a gene find one within
    the fuel. *)
Context (Hredraw : ∀ gene seen pos, knob_ok gene ts_dims → Z.of_nat (size seen) < ts_len →
  ∃ r, redraw rnd fuel gene seen pos = Ok r).
Context (Hdims : ts_dims ≠ []).

Definition gene_ok (g : list Z) : Prop := knob_ok g ts_dims.
Definition point (g : list Z) : Z := knob2point g ts_dims.

Lemma bound_dims : Zprod ts_dims < 2 ^ 63.
Proof. rewrite <-ts_len_dims. apply ts_len_bound. Qed.

Lemma point_in g : gene_ok g → 0 ≤ point g < ts_len.
Proof.
  intros Hg. unfold point. rewrite knob2point_radix by (done || apply bound_dims).
  rewrite ts_len_dims. by apply radix_bounds.
Qed.

Lemma gene_ok_insert g j v d : gene_ok g → ts_dims !! j = Some d → 0 ≤ v < d → gene_ok (<[j := v]> g).
Proof.
  intros Hg Hd Hv. unfold gene_ok, knob_ok. rewrite <-(list_insert_id ts_dims j d Hd).
  by apply Forall2_insert.
Qed.

Lemma dim_pos j d : ts_dims !! j = Some d → 0 < d.
Proof. intros Hj. pose proof (Forall_lookup_1 _ _ _ _ ts_dims_pos Hj). simpl in *. lia. Qed.

Lemma dims_len : 0 < Z.of_nat (length ts_dims).
Proof. destruct ts_dims; [done|simpl; lia]. Qed.

Lemma mutate_ok ds : ∀ j g pos,
  drop j ts_dims = ds → gene_ok g →
  ∃ g' pos', mutate rnd flip j ds g pos = Ok (g', pos') ∧ gene_ok g'.
Proof.
  induction ds as [|d ds IH]; intros j g pos Hj Hg; cbn [mutate]; [by eexists _, _|].
  assert (Hd : ts_dims !! j = Some d) by (rewrite <-(Nat.add_0_r j), <-lookup_drop; by rewrite Hj).
  assert (Hj' : drop (S j) ts_dims = ds).
  { replace (S j) with (j + 1)%nat by lia. by rewrite <-drop_drop, Hj. }
  destruct (flip pos); [|by apply IH].
  destruct (rand_int_ok rnd d (S pos)) as (v & -> & Hv); [by eapply dim_pos|]. cbn [mbind result_bind].
  rewrite decide_True; [apply IH; [done|by eapply gene_ok_insert]|].
  apply lookup_lt_Some in Hd. by rewrite (Forall2_length _ _ _ Hg).
Qed.

Lemma redraw_sound fuel' : ∀ g seen pos g' pos',
  gene_ok g → redraw rnd fuel' g seen pos = Ok (g', pos') → gene_ok g' ∧ point g' ∉ seen.
Proof.
  induction fuel' as [|n IH]; intros g seen pos g' pos' Hg; cbn [redraw].
  { case_decide; [done|]. by intros [= <- _]. }
  case_decide as Hin; [|by intros [= <- _]].
  destruct (rand_int_ok rnd _ pos dims_len) as (j & -> & Hj). cbn [mbind result_bind].
  rewrite py_nth_pos by lia.
  destruct (lookup_lt_is_Some_2 ts_dims (Z.to_nat j)) as [d Hd]; [lia|]. rewrite Hd.
  cbn [of_option mbind result_bind].
  destruct (rand_int_ok rnd d (S pos)) as (v & -> & Hv); [by eapply dim_pos|]. cbn [mbind result_bind].
  apply IH. by eapply gene_ok_insert.
Qed.

(** The new generation: valid genes at new points. *)
Lemma next_generation_ok tmp : ∀ acc (seen : gset Z) pos,
  Forall gene_ok tmp → (∀ i, i ∈ seen → 0 ≤ i < ts_len) →
  ∃ new seen' pos', next_generation rnd flip fuel tmp acc seen pos = Ok (acc ++ new, seen', pos') ∧
    Forall gene_ok new ∧ NoDup (point <$> new) ∧ (∀ g, g ∈ new → point g ∉ seen) ∧
    seen' = seen ∪ list_to_set (point <$> new) ∧
    (length new ≤ length tmp)%nat ∧ ((length new < length tmp)%nat → ts_len ≤ Z.of_nat (size seen')).
Proof.
  induction tmp as [|g tmp IH]; intros acc seen pos Htmp Hseen; cbn [next_generation].
  { exists [], seen, pos. rewrite fmap_nil, list_to_set_nil, union_empty_r_L, app_nil_r.
    split_and!; [done|done|apply NoDup_nil_2|by intros ? ?%not_elem_of_nil|done|done|simpl; lia]. }
  apply Forall_cons in Htmp as [Hg Htmp].
  destruct (mutate_ok ts_dims 0 g pos (drop_0 _) Hg) as (g1 & pos1 & -> & Hg1). cbn [mbind result_bind].
  destruct (Z.ltb_spec (Z.of_nat (size seen)) ts_len) as [Hroom|Hfull]; cycle 1.
  { exists [], seen, pos1. rewrite fmap_nil, list_to_set_nil, union_empty_r_L, app_nil_r.
    split_and!; [done|done|apply NoDup_nil_2|by intros ? ?%not_elem_of_nil|done|simpl; lia|done]. }
  destruct (Hredraw g1 seen pos1 Hg1 Hroom) as [[g2 pos2] Hr]. rewrite Hr. cbn [mbind result_bind].
  destruct (redraw_sound fuel g1 seen pos1 g2 pos2 Hg1 Hr) as [Hg2 Hnew].
  destruct (IH (acc ++ [g2]) ({[point g2]} ∪ seen) pos2 Htmp)
    as (new & seen' & pos' & Hrun & Hok & Hnd & Hfresh & Hsee & Hlen & Hstop).
  { intros i. rewrite elem_of_union, elem_of_singleton. intros [->|?]; [by apply point_in|by apply Hseen]. }
  exists (g2 :: new), seen', pos'. unfold point in Hrun at 1. rewrite Hrun, <-app_assoc.
  split_and!; [done|by constructor| | | |simpl; lia|simpl; lia].
  - rewrite fmap_cons. apply NoDup_cons. split; [|done].
    intros (g' & Hp & Hin)%list_elem_of_fmap. apply (Hfresh g' Hin). rewrite <-Hp. set_solver.
  - intros g' [->|Hin]%elem_of_cons; [done|]. specialize (Hfresh g' Hin). set_solver.
  - rewrite Hsee, fmap_cons, list_to_set_cons. set_solver.
Qed.

Lemma cross_all_ok n gs sc : ∀ pos,
  Forall gene_ok gs → length sc = length gs → (2 ≤ length sc)%nat → Forall score_ok sc →
  ∃ out pos', cross_all rnd choice2 n gs sc pos = Ok (out, pos') ∧ Forall gene_ok out ∧ length out = n.
Proof.
  induction n as [|n IH]; intros pos Hgs Hlen Htwo Hsc; cbn [cross_all]; [by eexists _, _|].
  unfold cross_over. destruct (ns_choice _ _ Hnp sc pos Htwo Hsc) as (i1 & i2 & -> & H1 & H2 & _).
  cbn [mbind result_bind].
  destruct (lookup_lt_is_Some_2 gs i1) as [g1 Hg1]; [lia|].
  destruct (lookup_lt_is_Some_2 gs i2) as [g2 Hg2]; [lia|]. rewrite Hg1, Hg2.
  cbn [of_option mbind result_bind].
  destruct (rand_int_ok rnd _ (S pos) dims_len) as (k & -> & Hk). cbn [mbind result_bind].
  destruct (IH (S (S pos)) Hgs Hlen Htwo Hsc) as (out & pos' & -> & Hok & Hl). cbn [mbind result_bind].
  eexists _, _. split; [done|]. split; [|by simpl; f_equal]. constructor; [|done].
  unfold gene_ok, knob_ok. rewrite <-(take_drop (Z.to_nat k) ts_dims).
  apply Forall2_app; [apply Forall2_take|apply Forall2_drop].
  - exact (Forall_lookup_1 _ _ _ _ Hgs Hg1).
  - exact (Forall_lookup_1 _ _ _ _ Hgs Hg2).
Qed.

(** As long as the space is not used up, the generation is full and has at least two genes. *)
Record ga_inv (t : GATuner) : Prop := {
  gi_genes : Forall gene_ok (genes t);
  gi_elites : Forall gene_ok (elites t);
  gi_elite_scores : length (elite_scores t) = length (elites t);
  gi_scores : Forall score_ok (ga_scores t) ∧ Forall score_ok (elite_scores t);
  gi_visited : ∀ i, i ∈ ga_visited t → 0 ≤ i < ts_len;
  gi_room : Z.of_nat (size (ga_visited t)) < ts_len →
    2 ≤ pop_size t ≤ Z.of_nat (length (genes t)) ∧ 0 ≤ elite_num t ≤ pop_size t
}.

Lemma elite_indexes_ok sc k : 0 ≤ k ≤ Z.of_nat (length sc) → (0 < length sc)%nat →
  ∃ idx, elite_indexes argpartition sc k = Ok idx ∧ Forall (λ i, i < length sc)%nat idx.
Proof.
  intros Hk Hl. unfold elite_indexes.
  destruct (ns_argpartition _ _ Hnp sc (- k)) as (l & -> & Hp); [lia|]. cbn [mbind result_bind].
  assert (Forall (λ i, i < length sc)%nat l) as Hin.
  { rewrite Hp. apply Forall_forall. intros i Hi%elem_of_seq. lia. }
  eexists. split; [done|]. destruct (_ <=? _); by apply Forall_drop.
Qed.

Lemma evolve_ok t scores :
  ga_inv t → Z.of_nat (size (ga_visited t)) < ts_len → (length (genes t) ≤ length scores)%nat →
  Forall score_ok scores →
  ∃ t', evolve rnd argpartition choice2 flip fuel t scores = Ok t' ∧ ga_inv t' ∧
    NoDup (point <$> genes t') ∧ (∀ g, g ∈ genes t' → point g ∉ ga_visited t) ∧
    ga_visited t' = ga_visited t ∪ list_to_set (point <$> genes t') ∧
    (length (genes t') ≤ Z.to_nat (pop_size t))%nat ∧
    ((length (genes t') < Z.to_nat (pop_size t))%nat → ts_len ≤ Z.of_nat (size (ga_visited t'))).
Proof.
  intros [Hg He Hes [_ Hsc] Hv Hroom] Hfree Hlen Hscores. destruct (Hroom Hfree) as [Hpop Helite]. unfold evolve.
  set (all := genes t ++ elites t). set (sc := take (length (genes t)) scores ++ elite_scores t).
  assert (Hsl : length sc = length all) by (unfold sc, all; rewrite !length_app, length_take; lia).
  assert (Hal : (length (genes t) ≤ length all)%nat) by (unfold all; rewrite length_app; lia).
  assert (Hall : Forall gene_ok all) by (by apply Forall_app).
  assert (Hscok : Forall score_ok sc) by (apply Forall_app; split; [by apply Forall_take|done]).
  destruct (elite_indexes_ok sc (elite_num t)) as (idx & -> & Hidx); [lia|lia|]. cbn [mbind result_bind].
  destruct (fancy_index_in sc _ Hidx) as (elite_sc & Hesc & Hel1 & Hin1). rewrite Hsl in Hidx.
  destruct (fancy_index_in all _ Hidx) as (el & Hel & Hel2 & Hin). rewrite Hel. cbn [mbind result_bind].
  rewrite Hesc. cbn [mbind result_bind].
  destruct (cross_all_ok (Z.to_nat (pop_size t)) all sc (ga_rng t) Hall Hsl)
    as (tmp & pos1 & -> & Htmp & Htl); [lia|done|]. cbn [mbind result_bind].
  destruct (next_generation_ok tmp [] (ga_visited t) pos1 Htmp Hv)
    as (new & seen' & pos' & -> & Hok & Hnd & Hfresh & Hsee & Hl & Hstop).
  cbn [mbind result_bind]. eexists. split; [done|]. simpl. rewrite Htl in Hstop, Hl. split_and!; try done.
  rewrite Forall_forall in Hall. rewrite Forall_forall in Hscok. split; simpl; [done| |lia| | |].
  - apply Forall_forall. intros g Hgin. by apply Hall, Hin.
  - split; [constructor|]. apply Forall_forall. intros x Hx. by apply Hscok, Hin1.
  - intros i. rewrite Hsee, elem_of_union, elem_of_list_to_set. intros [Hi|(g & -> & Hi)%list_elem_of_fmap]; [by apply Hv|].
    apply point_in. by eapply Forall_forall in Hok.
  - intros Hsz. split; [|lia]. destruct (decide (length new < Z.to_nat (pop_size t))%nat) as [?%Hstop|]; lia.
Qed.

(** ** The run of a tuner *)

Lemma new_gene_ok fuel' : ∀ seen pos g pos', new_gene rnd fuel' seen pos = Ok (g, pos') →
  gene_ok g ∧ point g ∉ seen.
Proof.
  induction fuel' as [|n IH]; intros seen pos g pos'; cbn [new_gene]; [done|].
  intros (p & Hp & H1)%result_bind_ok. unfold rand_int in Hp. destruct (Z.leb_spec ts_len 0); [done|].
  injection Hp as <-.
  destruct (point2knob_ok (rnd pos mod ts_len) ts_dims ts_dims_pos) as (g' & Hg' & Hok & _).
  { rewrite <-ts_len_dims. apply Z.mod_pos_bound. lia. }
  rewrite Hg' in H1. cbn [mbind result_bind] in H1. case_decide; [by eapply IH|]. by injection H1 as <- _.
Qed.

Lemma init_genes_ok n : ∀ gs seen pos gs' seen' pos',
  init_genes rnd fuel n gs seen pos = Ok (gs', seen', pos') → Forall gene_ok gs →
  size seen = length gs → (∀ i, i ∈ seen → 0 ≤ i < ts_len) →
  Forall gene_ok gs' ∧ size seen' = length gs' ∧ length gs' = (n + length gs)%nat ∧ ∀ i, i ∈ seen' → 0 ≤ i < ts_len.
Proof.
  induction n as [|n IH]; intros gs seen pos gs' seen' pos' Hrun Hg Hs Hi; cbn [init_genes] in Hrun; [by simplify_eq|].
  apply result_bind_ok in Hrun as ([g pos1] & Hnew & Hrun). apply new_gene_ok in Hnew as [Hok Hfresh].
  apply IH in Hrun as (H1 & H2 & H3 & H4).
  - split_and!; [done|done|rewrite H3, length_app; simpl; lia|done].
  - apply Forall_app. by repeat constructor.
  - unfold point in Hfresh. rewrite size_union by set_solver. rewrite size_singleton, Hs, length_app. simpl. lia.
  - intros i. rewrite elem_of_union, elem_of_singleton. intros [->|?]; [by apply point_in|by apply Hi].
Qed.

(** The states of a tuner with two genes at least: it is made, asked for batches and told results
    whose scores are finite and not negative. *)
Inductive ga_run : GATuner → Prop :=
| ga_run_init pop elite pos t : 2 ≤ pop → 0 ≤ elite → GATuner_init rnd fuel pop elite pos = Ok t → ga_run t
| ga_run_batch n ret t : ga_run t → ga_run (ga_next_batch (C := C) n ret t).2
| ga_run_update results t t' : ga_run t → Forall score_ok (ga_score task_flop np_mean <$> results) →
    ga_update rnd argpartition choice2 flip task_flop np_mean fuel results t = Ok t' → ga_run t'.

Lemma next_batch_frame n : ∀ ret t, ∃ pt, (ga_next_batch (C := C) n ret t).2 = set_trial_pt t pt.
Proof.
  induction n as [|n IH]; intros ret t; cbn [ga_next_batch]; [exists (trial_pt t); by destruct t|].
  rewrite M_get_bind. destruct (_ =? _); [exists (trial_pt t); by destruct t|].
  destruct (py_nth _ _) as [g|]; [|exists (trial_pt t); by destruct t]. rewrite M_lift_ok_bind, M_put_bind.
  destruct (ts_get _) as [c|]; [|by eexists]. rewrite M_lift_ok_bind.
  destruct (IH (ret ++ [c]) (set_trial_pt t (trial_pt t + 1))) as [pt ->]. by exists pt.
Qed.

Lemma ga_run_inv t : ga_run t → ga_inv t.
Proof.
  induction 1 as [pop elite pos t Hpop Hel Hrun|n ret t _ [IH1 IH2 IH3 IH4 IH5 IH6]|results t t' _ IH Hsc Hrun].
  - unfold GATuner_init in Hrun. apply result_bind_ok in Hrun as (u & _ & Hrun). cbv zeta in Hrun.
    apply result_bind_ok in Hrun as ([[gs seen] pos1] & Hi & [= <-]).
    apply init_genes_ok in Hi as (H1 & H2 & H3 & H4); [|done|apply size_empty|set_solver].
    rewrite Nat.add_0_r in H3. split; simpl; [done|done|done|done|done|]. lia.
  - destruct (next_batch_frame n ret t) as [pt ->]. by split.
  - unfold ga_update in Hrun. destruct IH as [IH1 IH2 IH3 [IH4 IH4'] IH5 IH6].
    destruct (bool_decide _) eqn:Hb; [destruct (Z.ltb_spec (Z.of_nat (size (ga_visited t))) ts_len)|]; cbn [andb] in Hrun.
    + apply bool_decide_eq_true_1 in Hb. apply evolve_ok in Hb as (t1 & Hev & Hinv & _); [|by split|done|by apply Forall_app].
      rewrite Hev in Hrun. by injection Hrun as <-.
    + injection Hrun as <-. split; try done. split; [by apply Forall_app|done].
    + injection Hrun as <-. split; try done. split; [by apply Forall_app|done].
Qed.
End generations.

(** C30: A tuner with two genes or more, whatever batches it gave and results it was told whose
    scores are finite and not negative: when a score has arrived for every gene and configurations
    are left, [update] breeds a new generation of valid knob vectors at distinct points none of
    which was visited before; exactly these become visited, and the generation is smaller than the
    population only when the space is used up. (With a population of one [np.random.choice] is
    asked for two genes out of one, and [update] raises [ValueError].) *)
Theorem ga_generation_fresh {C} `{TuningSpaceLaws C} (rnd : nat → Z)
    (argpartition : list float → Z → result (list nat)) (choice2 : list float → nat → result (nat * nat))
    (flip : nat → bool) (task_flop : float) (np_mean : list cost → float) (fuel : nat)
    (results : list MeasureResult) (t : GATuner) :
  numpy_selects argpartition choice2 →
  (∀ gene seen pos, knob_ok gene ts_dims → Z.of_nat (size seen) < ts_len →
     ∃ r, redraw rnd fuel gene seen pos = Ok r) →
  ts_dims ≠ [] → ga_run rnd argpartition choice2 flip task_flop np_mean fuel t →
  Forall score_ok (ga_score task_flop np_mean <$> results) →
  (length (genes t) ≤ length (ga_scores t) + length results)%nat →
  Z.of_nat (size (ga_visited t)) < ts_len →
  ∃ t', ga_update rnd argpartition choice2 flip task_flop np_mean fuel results t = Ok t' ∧
    Forall (λ g, knob_ok g ts_dims) (genes t') ∧ NoDup (point <$> genes t') ∧
    (∀ g, g ∈ genes t' → point g ∉ ga_visited t) ∧
    ga_visited t' = ga_visited t ∪ list_to_set (point <$> genes t') ∧
    (length (genes t') ≤ Z.to_nat (pop_size t))%nat ∧
    ((length (genes t') < Z.to_nat (pop_size t))%nat → ts_len ≤ Z.of_nat (size (ga_visited t'))).
Proof.
  intros Hnp Hredraw Hdims Ht Hsc Hlen Hroom. unfold ga_update.
  rewrite bool_decide_true by (rewrite length_app, length_fmap; lia).
  destruct (Z.ltb_spec (Z.of_nat (size (ga_visited t))) ts_len); [|lia]. simpl.
  pose proof (ga_run_inv rnd argpartition choice2 flip task_flop np_mean fuel Hnp Hredraw Hdims t Ht) as Hinv.
  destruct (evolve_ok rnd argpartition choice2 flip fuel Hnp Hredraw Hdims t
    (ga_scores t ++ (ga_score task_flop np_mean <$> results)) Hinv Hroom)
    as (t' & Hrun & Hinv' & Hnd & Hf & Hv & Hl & Hs).
  { rewrite length_app, length_fmap. lia. }
  { apply Forall_app. split; [apply (gi_scores _ Hinv)|done]. }
  exists t'. split_and!; [done|apply (gi_genes _ Hinv')|done..].
Qed.

(** A population of one cannot be crossed over. *)
Lemma ga_single_gene_error {C} `{TuningSpace C} rnd argpartition choice2 flip task_flop np_mean fuel
    (results : list MeasureResult) (t : GATuner) g idx :
  numpy_selects argpartition choice2 → genes t = [g] → elites t = [] → elite_scores t = [] → pop_size t = 1 →
  (1 ≤ length (ga_scores t) + length results)%nat → Z.of_nat (size (ga_visited t)) < ts_len →
  elite_indexes argpartition (take 1 (ga_scores t ++ (ga_score task_flop np_mean <$> results))) (elite_num t) = Ok idx →
  Forall (λ i, i < 1)%nat idx →
  ga_update rnd argpartition choice2 flip task_flop np_mean fuel results t = Raise ValueError.
Proof.
  intros Hnp Hg He Hes Hp Hlen Hroom Hidx Hin. unfold ga_update.
  rewrite bool_decide_true by (rewrite Hg, length_app, length_fmap; simpl; lia).
  destruct (Z.ltb_spec (Z.of_nat (size (ga_visited t))) ts_len); [|lia]. cbn [andb]. unfold evolve.
  rewrite Hg, He, Hes, Hp, !app_nil_r. cbn [length].
  set (sc := take 1 _) in *. assert (length sc = 1%nat) as Hsl.
  { unfold sc. rewrite length_take, length_app, length_fmap. lia. }
  rewrite Hidx. cbn [mbind result_bind].
  destruct (fancy_index_in [g] idx Hin) as (el & -> & _). cbn [mbind result_bind]. rewrite <-Hsl in Hin.
  destruct (fancy_index_in sc idx Hin) as (es & -> & _). cbn [mbind result_bind].
  change (Z.to_nat 1) with 1%nat. cbn [cross_all]. unfold cross_over.
  by rewrite (ns_choice_few _ _ Hnp) by lia.
Qed.

(** ** A short last generation *)

(** a generation that is shorter than the population (the last one of a space, in
    general) is indexed modulo the population size all the same: a batch that reaches
    past its last gene raises [IndexError], although [has_next] is true. *)
Theorem ga_short_generation_error {C} `{TuningSpaceLaws C} (n : nat) (t : GATuner) (ret : list C) :
  Forall (λ g, knob_ok g ts_dims) (genes t) →
  0 ≤ trial_pt t ≤ Z.of_nat (length (genes t)) → Z.of_nat (length (genes t)) < pop_size t →
  Z.of_nat (length (genes t)) - trial_pt t < Z.of_nat n →
  (ga_next_batch n ret t).1 = Raise IndexError.
Proof.
  intros Hg. revert t ret Hg. induction n as [|n IH]; intros t ret Hg Hpt Hpop Hn; [lia|].
  cbn [ga_next_batch]. rewrite M_get_bind. destruct (Z.eqb_spec (pop_size t) 0); [lia|].
  rewrite Z.mod_small, py_nth_pos by lia.
  destruct (decide (trial_pt t < Z.of_nat (length (genes t)))) as [Hlt|Hge].
  - destruct (lookup_lt_is_Some_2 (genes t) (Z.to_nat (trial_pt t))) as [g Hgi]; [lia|].
    rewrite Hgi. cbn [of_option]. rewrite M_lift_ok_bind, M_put_bind.
    destruct (ts_get_in (knob2point g ts_dims)) as (c & -> & _).
    { apply point_in. exact (Forall_lookup_1 _ _ _ _ Hg Hgi). }
    rewrite M_lift_ok_bind. apply IH; simpl; [done|lia|lia|lia].
  - rewrite lookup_ge_None_2 by lia. done.
Qed.

(** A space with three configurations. *)
Definition three_options : world := {|
  store := EOther <$> [{| AnnotateSpace.val := PyJson.JInt 1 |}; {| AnnotateSpace.val := PyJson.JInt 2 |};
                       {| AnnotateSpace.val := PyJson.JInt 4 |}];
  next_id := 1; name_ct := 0;
  cfg := with_space_map
    [("tile", {| sp_id := 0; sp_class := COther; sp_outputs := 0; sp_locs := [0; 1; 2]%nat |})]
    ConfigSpace_init |}.

Lemma three_options_ok : space_ok (cfg three_options).
Proof.
  split.
  - apply (bool_decide_unpack _). vm_compute. exact I.
  - repeat constructor; discriminate.
  - vm_compute. reflexivity.
  - left. reflexivity.
Qed.

#[local] Instance three_space : TuningSpace ConfigEntity := config_tuning_space three_options.
#[local] Instance three_space_laws : TuningSpaceLaws ConfigEntity :=
  config_tuning_space_laws three_options three_options_ok.

Definition pair_draw (i : nat) : Z := Z.of_nat i / 2.

Lemma three_redraw gene (seen : gset Z) pos :
  knob_ok gene ts_dims → Z.of_nat (size seen) < ts_len →
  ∃ r, redraw pair_draw 4 gene seen pos = Ok r.
Proof.
  intros Hg Hsize. change ts_dims with [3] in Hg. change ts_len with 3 in Hsize.
  destruct (sequential_fresh 3 seen (Z.to_nat (pair_draw (S pos))) Hsize) as (v & pos' & Hv).
  apply fresh_draw_sound in Hv as [Hv Hns].
  set (k := Z.to_nat ((v - pair_draw (S pos)) mod 3)).
  pose proof (Z.mod_pos_bound (v - pair_draw (S pos)) 3 ltac:(lia)) as Hkb.
  assert (Hk : pair_draw (S pos + 2 * k) mod 3 = v).
  { unfold pair_draw in *. rewrite Nat2Z.inj_add, Nat2Z.inj_mul, (Z.mul_comm 2), Z.div_add by lia.
    unfold k. rewrite Z2Nat.id, Zplus_mod_idemp_r by lia.
    replace (Z.of_nat (S pos) / 2 + (v - Z.of_nat (S pos) / 2)) with v by lia. by apply Z.mod_small. }
  assert (Hk4 : (k < 4)%nat) by lia. rewrite <-Hk in Hns. clear Hv Hk Hkb. clearbody k. clear v.
  revert gene pos k Hg Hns Hk4. generalize 4%nat as n.
  induction n as [|n IH]; intros gene pos k Hg Hns Hk4; [lia|]. cbn [redraw].
  case_decide as Hin; [|by eexists]. change ts_dims with [3].
  apply Forall2_cons_inv_r in Hg as (x & g' & Hx & Hg' & ->). apply Forall2_nil_inv_r in Hg' as ->.
  unfold rand_int. change (Z.of_nat (length [3])) with 1. rewrite Z.mod_1_r.
  change (∃ r, redraw pair_draw n [pair_draw (S pos) mod 3] seen (S (S pos)) = Ok r).
  destruct k as [|k].
  - assert (Hkp : knob2point [pair_draw (S pos) mod 3] ts_dims = pair_draw (S pos) mod 3).
    { change (0 + 1 * (pair_draw (S pos) mod 3) = pair_draw (S pos) mod 3). lia. }
    rewrite Nat.mul_0_r, Nat.add_0_r in Hns.
    destruct n; cbn [redraw]; (rewrite decide_False by (by rewrite Hkp)); by eexists.
  - apply (IH _ _ k); [|by replace (S (S (S pos)) + 2 * k)%nat with (S pos + 2 * S k)%nat by lia|lia].
    repeat constructor; apply Z.mod_pos_bound; lia.
Qed.

Definition first_two (sc : list float) (_ : nat) : result (nat * nat) :=
  if decide (length sc < 2)%nat then Raise ValueError else Ok (0, length sc - 1)%nat.
Definition all_indices (sc : list float) (_ : Z) : result (list nat) := Ok (seq 0 (length sc)).

Lemma selects : numpy_selects all_indices first_two.
Proof.
  split.
  - intros sc k _. by eexists.
  - intros sc pos Hl _. unfold first_two. rewrite decide_False by lia. eexists _, _. split; [done|]. lia.
  - intros sc pos Hl. unfold first_two. by rewrite decide_True.
Qed.

Definition failed : list MeasureResult := replicate 2 {| costs := []; error_no := 1 |}.

Definition start_gene : GATuner :=
  match GATuner_init pair_draw 4 2 1 0 with Ok t => t | Raise _ =>
    {| pop_size := 0; elite_num := 0; genes := []; ga_scores := []; elites := [];
       elite_scores := []; trial_pt := 0; ga_visited := ∅; ga_rng := 0 |} end.

(** The tuner gives out its first generation of two genes and is told that both failed. *)
Lemma ga_generation_fresh_witness :
  let t := (ga_next_batch 2 [] start_gene).2 in
  ∃ t', ga_update pair_draw all_indices first_two (λ _, false) (of_Z 1) (λ _, of_Z 1) 4 failed t = Ok t' ∧
    Forall (λ g, knob_ok g ts_dims) (genes t') ∧ NoDup (point <$> genes t') ∧
    (∀ g, g ∈ genes t' → point g ∉ ga_visited t) ∧
    ga_visited t' = ga_visited t ∪ list_to_set (point <$> genes t') ∧
    (length (genes t') ≤ Z.to_nat (pop_size t))%nat ∧
    ((length (genes t') < Z.to_nat (pop_size t))%nat → ts_len ≤ Z.of_nat (size (ga_visited t'))).
Proof.
  cbv zeta. apply (ga_generation_fresh pair_draw all_indices first_two (λ _, false) (of_Z 1) (λ _, of_Z 1) 4
    failed (ga_next_batch 2 [] start_gene).2).
  - exact selects.
  - exact three_redraw.
  - discriminate.
  - apply ga_run_batch. apply (ga_run_init _ _ _ _ _ _ _ 2 1 0); [lia|lia|vm_compute; reflexivity].
  - repeat constructor.
  - vm_compute. lia.
  - vm_compute. reflexivity.
Defined.

(** The generation after it has one gene for a population of two. *)
Definition last_gene : GATuner :=
  match ga_update pair_draw all_indices first_two (λ _, false) (of_Z 1) (λ _, of_Z 1) 4 failed
    (ga_next_batch 2 [] start_gene).2 with
  | Ok t => t
  | Raise _ => start_gene
  end.

Lemma ga_short_generation_error_witness :
  ga_has_next last_gene = true ∧ (ga_next_batch 2 [] last_gene).1 = Raise IndexError.
Proof.
  split; [vm_compute; reflexivity|].
  apply (ga_short_generation_error 2 last_gene []); vm_compute;
    [repeat constructor; discriminate|split; discriminate|reflexivity|reflexivity].
Defined.
