(* ===== verification/Wire.v ===== *)
(** * The wire format of the RPC control plane ([python/tvm/rpc/base.py])

    [recvall], [sendjson], [recvjson], [random_key], [connect_with_retry] and the
    protocol constants. A blocking socket is the byte stream that its peer still
    sends before it closes, and the bytes written to it; how [recv] cuts the stream
    into chunks is arbitrary. *)

From S2P Require Import Prelude PyDict PyStr PyFloat PyJson JsonText.

Abbreviation bytes := (list ascii).

Definition RPC_MAGIC : Z := 0xFF271.
Definition RPC_TRACKER_MAGIC : Z := 0x2F271.
Definition RPC_CODE_SUCCESS : Z := RPC_MAGIC + 0.
Definition RPC_CODE_DUPLICATE : Z := RPC_MAGIC + 1.
Definition RPC_CODE_MISMATCH : Z := RPC_MAGIC + 2.

Inductive TrackerCode :=
| FAIL | SUCCESS | PING | STOP | PUT | REQUEST | UPDATE_INFO | SUMMARY | GET_PENDING_MATCHKEYS.

Definition tracker_code (c : TrackerCode) : Z :=
  match c with
  | FAIL => -1 | SUCCESS => 0 | PING => 1 | STOP => 2 | PUT => 3 | REQUEST => 4
  | UPDATE_INFO => 5 | SUMMARY => 6 | GET_PENDING_MATCHKEYS => 7
  end.

(** ** [struct.pack("<i", z)] and [struct.unpack("<i", b)] *)

Definition byte (z : Z) : ascii := chr (z mod 256).

Definition pack_i32 (z : Z) : result bytes :=
  if (- 2 ^ 31 <=? z) && (z <? 2 ^ 31)
  then Ok [byte z; byte (z / 256); byte (z / 256 ^ 2); byte (z / 256 ^ 3)]
  else Raise StructError.

Definition unpack_i32 (b : bytes) : result Z :=
  match b with
  | [b0; b1; b2; b3] =>
      let u := code b0 + 256 * code b1 + 256 ^ 2 * code b2 + 256 ^ 3 * code b3 in
      Ok (if u <? 2 ^ 31 then u else u - 2 ^ 32)
  | _ => Raise StructError
  end.

(** ** [str.encode("utf-8")] and [py_str] *)

Definition utf8_char (c : ascii) : bytes :=
  if code c <? 128 then [c] else [byte (192 + code c / 64); byte (128 + code c mod 64)].

Definition utf8_encode (s : text) : bytes := concat (utf8_char <$> s).

(** Malformed input is [ValueError] ([UnicodeDecodeError]); a code point that the
    model's strings do not hold is [NotImplementedError]. *)
Fixpoint utf8_decode (b : bytes) : result text :=
  match b with
  | [] => Ok []
  | c :: r =>
      if code c <? 128 then t ← utf8_decode r; Ok (c :: t)
      else if (code c =? 194) || (code c =? 195) then
        match r with
        | d :: r => if (128 <=? code d) && (code d <? 192)
                    then t ← utf8_decode r; Ok (byte ((code c - 192) * 64 + (code d - 128)) :: t)
                    else Raise ValueError
        | [] => Raise ValueError
        end
      else if (196 <=? code c) && (code c <=? 244) then Raise NotImplementedError
      else Raise ValueError
  end.

(** ** Blocking sockets *)

Record sock := {
  s_in : bytes;      (* what the peer sends before it closes its end *)
  s_out : bytes;     (* what was sent *)
  s_broken : bool;   (* sending fails *)
  s_calls : nat      (* calls of [recv] so far *)
}.

Section wire.
(** How many bytes beyond the first one the n-th [recv] may deliver. *)
Variable avail : nat → nat.
Variable float_repr : float → text.

(** [sock.recv(k)]: between one and [k] bytes, and none at the end of the stream. *)
Definition recv (k : nat) : M sock bytes := λ s,
  let n := Nat.min k (S (avail (s_calls s))) in
  (Ok (take n (s_in s)),
   {| s_in := drop n (s_in s); s_out := s_out s; s_broken := s_broken s; s_calls := S (s_calls s) |}).

Definition sendall (b : bytes) : M sock unit := λ s,
  if s_broken s then (Raise IOError, s)
  else (Ok tt, {| s_in := s_in s; s_out := s_out s ++ b; s_broken := false; s_calls := s_calls s |}).

(** The loop of [recvall]; every round receives at least one byte. *)
Fixpoint recv_loop (fuel : nat) (nbytes : Z) (res : bytes) : M sock bytes :=
  match fuel with
  | O => raise OutOfFuel
  | S fuel =>
      if Z.of_nat (length res) <? nbytes then
        chunk ← recv (Z.to_nat (Z.min (nbytes - Z.of_nat (length res)) 1024));
        if decide (chunk = []) then raise IOError
        else recv_loop fuel nbytes (res ++ chunk)
      else mret res
  end.

Definition recvall (nbytes : Z) : M sock bytes := recv_loop (S (Z.to_nat nbytes)) nbytes [].

Definition sendjson (data : json) : M sock unit :=
  let data := dumps float_repr data in
  h ← lift (pack_i32 (Z.of_nat (length data)));
  _ ← sendall h;
  sendall (utf8_encode data).

Definition recvjson : M sock json :=
  h ← recvall 4;
  size ← lift (unpack_i32 h);
  b ← recvall size;
  s ← lift (utf8_decode b);
  lift (loads s).

(** ** Keys and connecting *)

(** The n-th draw of [str(random.random())]. *)
Variable rnd_str : nat → string.

Fixpoint fresh_key (fuel : nat) (prefix : string) (cmap : dict string json) (pos : nat)
    : result (string * nat) :=
  match fuel with
  | O => Raise OutOfFuel
  | S fuel =>
      let key := prefix +:+ rnd_str pos in
      if dmem cmap key then fresh_key fuel prefix cmap (S pos) else Ok (key, S pos)
  end.

Definition random_key (fuel : nat) (prefix : string) (cmap : option (dict string json)) (pos : nat)
    : result (string * nat) :=
  match cmap with
  | Some ((_ :: _) as m) => fresh_key fuel prefix m pos
  | _ => Ok (prefix +:+ rnd_str pos, S pos)
  end.

Inductive connect_out := Connected (s : sock) | Refused | OtherError.

(** The n-th connection attempt and the n-th reading of the clock. *)
Variable attempt : nat → connect_out.
Variable clock : nat → float.

(** [time.sleep] shows in the later readings of the clock. *)
Fixpoint retry_loop (fuel : nat) (tstart timeout : float) (i : nat) : result sock :=
  match fuel with
  | O => Raise OutOfFuel
  | S fuel =>
      match attempt i with
      | Connected s => Ok s
      | OtherError => Raise IOError
      | Refused =>
          let period := fsub (clock (S i)) tstart in
          if flt timeout period then Raise RuntimeError
          else retry_loop fuel tstart timeout (S i)
      end
  end.

Definition connect_with_retry (fuel : nat) (timeout : float) : result sock :=
  retry_loop fuel (clock 0%nat) timeout 0.
End wire.

(** [get_addr_family] on the families that [getaddrinfo] returned. *)
Definition AF_INET : Z := 2.
Definition get_addr_family (res : list Z) : result Z :=
  if decide (AF_INET ∈ res) then Ok AF_INET else py_nth res 0.

(** ** Encodings *)

Lemma code_byte z : code (byte z) = z mod 256.
Proof.
  unfold byte, chr, code. pose proof (Z.mod_pos_bound z 256 ltac:(lia)).
  rewrite nat_ascii_embedding by lia. lia.
Qed.

Lemma bytes4 z :
  z mod 256 + 256 * (z / 256 mod 256) + 256 ^ 2 * (z / 256 ^ 2 mod 256)
  + 256 ^ 3 * (z / 256 ^ 3 mod 256) = z mod 2 ^ 32.
Proof.
  change (2 ^ 32) with (256 * (256 * (256 * 256))).
  rewrite (Z.rem_mul_r z), (Z.rem_mul_r (z / 256)), (Z.rem_mul_r (z / 256 / 256)) by lia.
  rewrite !Z.div_div by lia. change (256 * 256 * 256) with (256 ^ 3). change (256 * 256) with (256 ^ 2). lia.
Qed.

Lemma unpack_pack z b : pack_i32 z = Ok b → unpack_i32 b = Ok z ∧ length b = 4%nat.
Proof.
  unfold pack_i32. destruct (_ && _) eqn:Hz; [|done]. intros [= <-]. split; [|done].
  bool_to_prop. unfold unpack_i32. rewrite !code_byte, bytes4. f_equal.
  destruct (Z.ltb_spec (z mod 2 ^ 32) (2 ^ 31)) as [Hm|Hm].
  - destruct (Z.le_gt_cases 0 z); [by rewrite Z.mod_small by lia|].
    rewrite <-(Z.mod_add z 1), Z.mod_small in Hm by lia. lia.
  - destruct (Z.le_gt_cases 0 z); [rewrite Z.mod_small in Hm by lia; lia|].
    rewrite <-(Z.mod_add z 1), Z.mod_small by lia. lia.
Qed.

Lemma pack_fits z : - 2 ^ 31 ≤ z < 2 ^ 31 → ∃ b, pack_i32 z = Ok b.
Proof.
  intros Hz. unfold pack_i32. destruct (_ && _) eqn:E; [eauto|].
  apply andb_false_iff in E. bool_to_prop. lia.
Qed.

Lemma utf8_encode_ascii t : ascii_text t → utf8_encode t = t.
Proof.
  unfold utf8_encode. induction 1 as [|c t Hc _ IH]; [done|].
  rewrite fmap_cons, concat_cons, IH. unfold utf8_char. by rewrite (proj2 (Z.ltb_lt _ _) Hc).
Qed.

Lemma utf8_decode_ascii t : ascii_text t → utf8_decode t = Ok t.
Proof.
  induction 1 as [|c t Hc _ IH]; [done|]. simpl. by rewrite (proj2 (Z.ltb_lt _ _) Hc), IH.
Qed.

Lemma utf8_decode_total b : utf8_decode b ≠ Raise OutOfFuel.
Proof.
  remember (length b) as m eqn:Hm. revert b Hm. induction (lt_wf m) as [m _ IH]. intros b ->.
  destruct b as [|c b]; [done|]. cbn [utf8_decode]. destruct (_ <? 128).
  - specialize (IH (length b) ltac:(simpl; lia) b eq_refl). destruct (utf8_decode b); [done|].
    cbn. congruence.
  - destruct (_ || _); [|by destruct (_ && _)]. destruct b as [|d b]; [done|].
    destruct (_ && _); [|done]. specialize (IH (length b) ltac:(simpl; lia) b eq_refl).
    destruct (utf8_decode b); [done|]. cbn. congruence.
Qed.

(** ** Receiving *)

Section receive.
Variable avail : nat → nat.
Variable float_repr : float → text.

Definition advance (s : sock) (n calls : nat) : sock := {|
  s_in := drop n (s_in s); s_out := s_out s; s_broken := s_broken s; s_calls := calls
|}.

Lemma recv_loop_spec fuel nbytes res s :
  (Z.to_nat nbytes < fuel + length res)%nat →
  Z.of_nat (length res) ≤ Z.max 0 nbytes →
  ∃ calls, recv_loop avail fuel nbytes res s =
    let need := (Z.to_nat nbytes - length res)%nat in
    if decide (need ≤ length (s_in s))%nat
    then (Ok (res ++ take need (s_in s)), advance s need calls)
    else (Raise IOError, advance s (length (s_in s)) calls).
Proof.
  revert res s. induction fuel as [|fuel IH]; intros res s Hf Hr; [lia|]. cbn [recv_loop].
  destruct (Z.ltb_spec (Z.of_nat (length res)) nbytes) as [Hlt|Hge]; cycle 1.
  { exists (s_calls s). replace (Z.to_nat nbytes - length res)%nat with O by lia.
    rewrite decide_True by lia. rewrite take_0, app_nil_r. unfold advance. rewrite drop_0.
    by destruct s. }
  set (k := Z.to_nat (Z.min _ _)). set (n := Nat.min k (S (avail (s_calls s)))).
  erewrite M_bind_ok by reflexivity. fold n. destruct (decide (s_in s = [])) as [Hnil|Hne].
  - rewrite Hnil, take_nil. rewrite decide_True by done. exists (S (s_calls s)). simpl.
    rewrite decide_False by lia. unfold raise, advance. by rewrite Hnil, !drop_nil.
  - assert (0 < length (s_in s))%nat by (destruct (s_in s); [done|simpl; lia]).
    assert (length (take n (s_in s)) = n `min` length (s_in s))%nat as Hl by apply length_take.
    rewrite decide_False by (intros E; rewrite E in Hl; simpl in Hl; lia).
    destruct (IH (res ++ take n (s_in s)) (advance s n (S (s_calls s)))) as [calls Hc];
      [rewrite length_app; lia..|].
    exists calls. etrans; [exact Hc|]. clear Hc. cbn [advance s_in s_out s_broken s_calls]. rewrite length_app, length_drop, Hl.
    set (need := (Z.to_nat nbytes - length res)%nat).
    assert (n ≤ need)%nat by lia. destruct (decide (need ≤ length (s_in s))%nat) as [Hok|Hko].
    + rewrite decide_True by lia. rewrite Nat.min_l by lia.
      replace (Z.to_nat nbytes - (length res + n))%nat with (need - n)%nat by lia.
      unfold advance. cbn [s_in s_out s_broken]. rewrite drop_drop. f_equal.
      * rewrite <-app_assoc, take_take_drop. do 3 f_equal. lia.
      * f_equal. f_equal. lia.
    + rewrite decide_False by lia. unfold advance. cbn [s_in s_out s_broken]. rewrite drop_drop.
      rewrite !drop_ge by lia. done.
Qed.

(** [recvall] returns exactly the next bytes of the stream, however it is cut, and
    raises when the peer closes before they all arrived. *)
Lemma recvall_spec nbytes s :
  ∃ calls, recvall avail nbytes s =
    if decide (Z.to_nat nbytes ≤ length (s_in s))%nat
    then (Ok (take (Z.to_nat nbytes) (s_in s)), advance s (Z.to_nat nbytes) calls)
    else (Raise IOError, advance s (length (s_in s)) calls).
Proof.
  destruct (recv_loop_spec (S (Z.to_nat nbytes)) nbytes [] s) as [calls H]; [simpl; lia..|].
  exists calls. unfold recvall. rewrite H. simpl. by rewrite Nat.sub_0_r.
Qed.

(** The bytes [sendjson] writes for a value. *)
Definition frame (v : json) : bytes :=
  let data := dumps float_repr v in
  match pack_i32 (Z.of_nat (length data)) with Ok h => h ++ data | Raise _ => [] end.

Definition sendable (v : json) : Prop :=
  plain float_repr v = true ∧ Z.of_nat (length (dumps float_repr v)) < 2 ^ 31.

Lemma frame_eq v : sendable v → ∃ h, pack_i32 (Z.of_nat (length (dumps float_repr v))) = Ok h ∧
  unpack_i32 h = Ok (Z.of_nat (length (dumps float_repr v))) ∧ length h = 4%nat ∧
  frame v = h ++ dumps float_repr v.
Proof.
  intros [_ Hl]. destruct (pack_fits (Z.of_nat (length (dumps float_repr v)))) as [h Hh]; [lia|].
  destruct (unpack_pack _ _ Hh). exists h. unfold frame. by rewrite Hh.
Qed.

Lemma sendjson_frame v s : sendable v → s_broken s = false →
  sendjson float_repr v s = (Ok tt, {| s_in := s_in s; s_out := s_out s ++ frame v;
                                      s_broken := false; s_calls := s_calls s |}).
Proof.
  intros Hv Hs. destruct (frame_eq v Hv) as (h & Hh & _ & _ & ->). unfold sendjson. rewrite Hh. mrun.
  erewrite M_bind_ok by (unfold sendall; rewrite Hs; reflexivity). unfold sendall. cbn [s_broken s_out].
  rewrite utf8_encode_ascii by (apply dumps_ascii, Hv). by rewrite <-app_assoc.
Qed.

Lemma recvall_app b rest s : s_in s = b ++ rest → ∃ s',
  recvall avail (Z.of_nat (length b)) s = (Ok b, s') ∧ s_in s' = rest.
Proof.
  intros Hs. destruct (recvall_spec (Z.of_nat (length b)) s) as [calls H].
  rewrite Nat2Z.id, Hs, length_app, decide_True, take_app_length in H by lia.
  eexists. split; [exact H|]. simpl. by rewrite Hs, drop_app_length.
Qed.

Lemma recvjson_frame v rest s : sendable v → s_in s = frame v ++ rest → ∃ s',
  recvjson avail s = (Ok v, s') ∧ s_in s' = rest.
Proof.
  intros Hv Hs. destruct (frame_eq v Hv) as (h & _ & Hu & Hl & Hf). rewrite Hf, <-app_assoc in Hs.
  destruct (recvall_app h _ s Hs) as (s1 & H1 & Hs1). rewrite Hl in H1. change (Z.of_nat 4) with 4 in H1.
  destruct (recvall_app _ _ s1 Hs1) as (s2 & H2 & Hs2).
  exists s2. split; [|done]. unfold recvjson. rewrite (M_bind_ok _ _ _ _ _ H1), Hu. mrun.
  rewrite (M_bind_ok _ _ _ _ _ H2), utf8_decode_ascii by (apply dumps_ascii, Hv). mrun.
  unfold lift. by rewrite loads_dumps by apply Hv.
Qed.

Fixpoint recv_many (n : nat) : M sock (list json) :=
  match n with
  | O => mret []
  | S n => v ← recvjson avail; vs ← recv_many n; mret (v :: vs)
  end.

Lemma send_many msgs a : Forall sendable msgs → s_broken a = false →
  ∃ a', mfor (sendjson float_repr) msgs a = (Ok tt, a') ∧
    s_out a' = s_out a ++ concat (frame <$> msgs).
Proof.
  intros Hm. revert a. induction Hm as [|v msgs Hv _ IH]; intros a Ha.
  - exists a. simpl. by rewrite app_nil_r.
  - cbn [mfor]. rewrite (M_bind_ok _ _ _ _ _ (sendjson_frame v a Hv Ha)).
    destruct (IH {| s_in := s_in a; s_out := s_out a ++ frame v; s_broken := false;
                    s_calls := s_calls a |} eq_refl) as (a' & H1 & H2).
    exists a'. split; [done|]. rewrite H2. simpl. by rewrite <-app_assoc.
Qed.

Lemma recv_many_frames msgs tail b : Forall sendable msgs → s_in b = concat (frame <$> msgs) ++ tail →
  ∃ b', recv_many (length msgs) b = (Ok msgs, b') ∧ s_in b' = tail.
Proof.
  intros Hm. revert b. induction Hm as [|v msgs Hv _ IH]; intros b Hb; [by exists b|].
  csimpl in Hb. rewrite <-app_assoc in Hb.
  destruct (recvjson_frame v _ b Hv Hb) as (b1 & H1 & Hb1). destruct (IH b1 Hb1) as (b' & H2 & Hb').
  exists b'. split; [|done]. cbn [length recv_many].
  rewrite (M_bind_ok _ _ _ _ _ H1), (M_bind_ok _ _ _ _ _ H2). done.
Qed.
End receive.

(** C31: What [sendjson] writes, [recvjson] reads back: a sequence of messages sent
    over one connection is received in order, value for value, for every way [recv]
    may cut the stream into chunks, and the bytes after them stay unread. *)
Theorem json_stream_roundtrip (avail : nat → nat) (float_repr : float → text)
    (msgs : list json) (a b : sock) (tail : bytes) :
  Forall (sendable float_repr) msgs → s_broken a = false → s_out a = [] →
  ∃ a', mfor (sendjson float_repr) msgs a = (Ok tt, a') ∧
    (s_in b = s_out a' ++ tail →
     ∃ b', recv_many avail (length msgs) b = (Ok msgs, b') ∧ s_in b' = tail).
Proof.
  intros Hm Ha Ho. destruct (send_many float_repr msgs a Hm Ha) as (a' & H1 & H2).
  exists a'. split; [done|]. intros Hb. rewrite H2, Ho in Hb.
  by apply (recv_many_frames avail float_repr).
Qed.

(** A server announces itself and asks for its pending keys. *)
Definition server_messages : list json :=
  [JList [JInt (tracker_code UPDATE_INFO); JObj [("key", JStr "server:rasp3b")]];
   JList [JInt (tracker_code PUT); JStr "rasp3b"; JList [JInt 9090; JStr "rasp3b:0.12"]; JNull];
   JList [JInt (tracker_code GET_PENDING_MATCHKEYS)]].

Definition idle_sock : sock := {| s_in := []; s_out := []; s_broken := false; s_calls := 0 |}.

Definition three_byte_chunks (_ : nat) : nat := 2.

Lemma json_stream_roundtrip_witness :
  ∃ a', mfor (sendjson (λ _, [])) server_messages idle_sock = (Ok tt, a') ∧
    (s_in {| s_in := s_out a'; s_out := []; s_broken := false; s_calls := 0 |} = s_out a' ++ [] →
     ∃ b', recv_many three_byte_chunks 3
             {| s_in := s_out a'; s_out := []; s_broken := false; s_calls := 0 |}
           = (Ok server_messages, b') ∧ s_in b' = []).
Proof.
  destruct (json_stream_roundtrip three_byte_chunks (λ _, []) server_messages idle_sock
    {| s_in := s_out (mfor (sendjson (λ _, [])) server_messages idle_sock).2;
       s_out := []; s_broken := false; s_calls := 0 |} []) as (a' & H1 & H2);
    [repeat constructor|done|done|].
  exists a'. split; [exact H1|]. rewrite H1 in H2. exact H2.
Defined.

(** [connect_with_retry] ends at the first attempt that is not refused, or at the first
    refusal after the timeout. *)
Lemma connect_with_retry_first attempt clock timeout k fuel :
  (∀ i, (i < k)%nat → attempt i = Refused ∧ flt timeout (fsub (clock (S i)) (clock 0%nat)) = false) →
  attempt k ≠ Refused ∨ flt timeout (fsub (clock (S k)) (clock 0%nat)) = true →
  (k < fuel)%nat →
  connect_with_retry attempt clock fuel timeout =
    match attempt k with
    | Connected s => Ok s
    | OtherError => Raise IOError
    | Refused => Raise RuntimeError
    end.
Proof.
  intros Hk Hend Hf. unfold connect_with_retry.
  cut (∀ j, (j ≤ k)%nat → (k < fuel + j)%nat →
    retry_loop attempt clock fuel (clock 0%nat) timeout j =
      match attempt k with Connected s => Ok s | OtherError => Raise IOError
      | Refused => Raise RuntimeError end); [intros H; apply H; lia|].
  clear Hf. induction fuel as [|fuel IH]; intros j Hj Hf; [lia|]. simpl.
  destruct (decide (j = k)) as [->|Hne].
  - destruct (attempt k); try done. by destruct Hend as [?| ->].
  - destruct (Hk j ltac:(lia)) as [-> ->]. apply IH; lia.
Qed.

(** A key drawn against a conflict map is not in it, and the draw ends at the first
    key that is free. *)
Lemma random_key_fresh rnd_str prefix (m : dict string json) k fuel pos :
  m ≠ [] → (∀ i, (i < k)%nat → dmem m (prefix +:+ rnd_str (pos + i)%nat) = true) →
  dmem m (prefix +:+ rnd_str (pos + k)%nat) = false → (k < fuel)%nat →
  random_key rnd_str fuel prefix (Some m) pos =
    Ok (prefix +:+ rnd_str (pos + k)%nat, S (pos + k)).
Proof.
  intros Hm. destruct m as [|kv m]; [done|]. cbn [random_key]. generalize (kv :: m). clear Hm.
  revert pos fuel. induction k as [|k IH]; intros pos [|fuel] d Hd Hk Hf; try lia; cbn [fresh_key]; cbv zeta.
  - rewrite Nat.add_0_r in *. by rewrite Hk.
  - pose proof (Hd 0%nat ltac:(lia)) as H0. rewrite Nat.add_0_r in H0. rewrite H0.
    rewrite (IH (S pos) fuel d); [by rewrite <-Nat.add_succ_comm| | |lia].
    + intros i Hi. rewrite <-(Hd (S i)) by lia. do 3 f_equal. lia.
    + rewrite <-Hk. do 3 f_equal. lia.
Qed.
