(* ===== verification/TcpHandler.v ===== *)
(** * Non-blocking sockets on the event loop ([python/tvm/rpc/tornado_util.py])

    [TCPHandler]: buffered writes to a socket whose [send] may take a part of the
    message, refuse for now, or fail. The class is written against its subclasses'
    [on_message], [on_error] and [on_close], which may close this or other
    connections; so the methods are computations over any state [W] that holds the
    handler's own state as a field. What [send] answers is arbitrary. *)

From S2P Require Import Prelude PyStr Wire.

Record tcp := {
  t_open : bool;            (* [_sock is not None] *)
  t_pending : list bytes;   (* [_pending_write] *)
  t_signal_close : bool;    (* [_signal_close] *)
  t_want_write : bool;      (* the loop watches the socket for writing, too *)
  t_sent : bytes;           (* what the socket accepted *)
  t_sends : nat             (* calls of [send] so far *)
}.

Definition TCPHandler_init : tcp := {|
  t_open := true; t_pending := []; t_signal_close := false; t_want_write := false;
  t_sent := []; t_sends := 0
|}.

(** The answer of a [send]: at least one byte taken ([Sent n] takes up to [n + 1]), [EAGAIN],
    or another [socket.error]. *)
Inductive send_out := Sent (n : nat) | SendAgain | SendFailed.

(** The answer of a [recv(4096)]. *)
Inductive recv_out := Data (b : bytes) | PeerClosed | RecvAgain | RecvFailed.

Section fields.
Implicit Types t : tcp.

Definition tcp_closed t : tcp := {|
  t_open := false; t_pending := t_pending t; t_signal_close := t_signal_close t;
  t_want_write := t_want_write t; t_sent := t_sent t; t_sends := t_sends t |}.
Definition tcp_pend t (m : bytes) : tcp := {|
  t_open := t_open t; t_pending := t_pending t ++ [m]; t_signal_close := t_signal_close t;
  t_want_write := t_want_write t; t_sent := t_sent t; t_sends := t_sends t |}.
Definition tcp_signal t : tcp := {|
  t_open := t_open t; t_pending := t_pending t; t_signal_close := true;
  t_want_write := t_want_write t; t_sent := t_sent t; t_sends := t_sends t |}.
Definition tcp_watch t (b : bool) : tcp := {|
  t_open := t_open t; t_pending := t_pending t; t_signal_close := t_signal_close t;
  t_want_write := b; t_sent := t_sent t; t_sends := t_sends t |}.
Definition tcp_refused t : tcp := {|
  t_open := t_open t; t_pending := t_pending t; t_signal_close := t_signal_close t;
  t_want_write := t_want_write t; t_sent := t_sent t; t_sends := S (t_sends t) |}.

(** One [send] of the first message: what it took leaves the buffer. *)
Definition tcp_take t (msg : bytes) (rest : list bytes) (n : nat) : tcp :=
  let nsend := Nat.min (S n) (length msg) in {|
  t_open := t_open t;
  t_pending := if decide (nsend ≠ length msg) then drop nsend msg :: rest else rest;
  t_signal_close := t_signal_close t; t_want_write := t_want_write t;
  t_sent := t_sent t ++ take nsend msg; t_sends := S (t_sends t) |}.

(** Bounds the rounds of the write loop. *)
Definition pending_size t : nat := length (concat (t_pending t)) + length (t_pending t).
End fields.

(** [try: m except socket.error: h]; [IOError] and [socket.error] are the same class. *)
Definition except_io {S A} (m h : M S A) : M S A := λ s,
  match m s with (Raise IOError, s') => h s' | r => r end.

Section handler.
Context {W : Type} (hget : W → tcp) (hset : tcp → W → W).
Variable outcome : nat → send_out.
(** The subclass's [on_close] and [on_error], and [self.close()] itself. *)
Variables on_close on_error close : M W unit.

Definition upd (f : tcp → tcp) : M W unit := modify (λ w, hset (f (hget w)) w).

(** [close] *)
Definition tcp_close : M W unit :=
  w ← get_st;
  if t_open (hget w) then _ ← upd tcp_closed; on_close else mret tt.

(** [signal_close] *)
Definition signal_close : M W unit :=
  w ← get_st;
  if decide (t_pending (hget w) = []) then close else upd tcp_signal.

(** The [while] of [_update_write]; the result says whether the method returned. *)
Fixpoint write_loop (fuel : nat) : M W bool :=
  match fuel with
  | O => raise OutOfFuel
  | S fuel =>
      w ← get_st;
      match t_pending (hget w) with
      | [] => mret false
      | msg :: rest =>
          if negb (t_open (hget w)) then mret true
          else match outcome (t_sends (hget w)) with
               | Sent n => _ ← upd (λ t, tcp_take t msg rest n); write_loop fuel
               | SendAgain => _ ← upd tcp_refused; mret false
               | SendFailed => _ ← upd tcp_refused; _ ← on_error; write_loop fuel
               end
      end
  end.

(** [self._ioloop.update_handler(self._sock.fileno(), ...)] *)
Definition update_handler (write : bool) : M W unit :=
  w ← get_st;
  if t_open (hget w) then upd (λ t, tcp_watch t write) else raise AttributeError.

Definition update_write : M W unit :=
  w ← get_st;
  returned ← write_loop (S (S (pending_size (hget w))));
  if returned : bool then mret tt
  else
    w ← get_st;
    if decide (t_pending (hget w) ≠ []) then update_handler true
    else if t_signal_close (hget w) then close
    else update_handler false.

Definition write_message (message : bytes) : M W unit :=
  w ← get_st;
  if negb (t_open (hget w)) then raise IOError
  else _ ← upd (λ t, tcp_pend t message); update_write.

End handler.

(** Reading and dispatching, against the methods above and the subclass's [on_message]. *)
Section events.
Context {W : Type}.
Variables on_error close update_write : M W unit.
Variable on_message : bytes → M W unit.

Definition update_read (input : recv_out) : M W bool :=
  except_io
    match input with
    | Data msg => _ ← on_message msg; mret true
    | PeerClosed => _ ← close; mret false
    | RecvAgain => mret false
    | RecvFailed => raise IOError
    end
    (_ ← on_error; mret false).

(** [_event_handler]: the flags of the event, and what a read would give. *)
Definition event_handler (read_or_error write : bool) (input : recv_out) : M W unit :=
  if read_or_error then
    ok ← update_read input;
    if (ok : bool) && write then update_write else mret tt
  else if write then update_write else mret tt.
End events.

(** ** Buffering

    The handler alone: an error closes the connection, as in every subclass. *)

Section alone.
Variable outcome : nat → send_out.
Implicit Types t : tcp.

Definition alone_close : M tcp unit := tcp_close id (λ t _, t) (mret tt).
Definition alone_update : M tcp unit := update_write id (λ t _, t) outcome alone_close alone_close.
Definition alone_write : bytes → M tcp unit :=
  write_message id (λ t _, t) outcome alone_close alone_close.
Definition alone_signal : M tcp unit := signal_close id (λ t _, t) alone_close.

(** What was accepted or is still buffered, in order. *)
Definition stream t : bytes := t_sent t ++ concat (t_pending t).

(** Between events: an open socket is watched for writing exactly while bytes wait,
    and a closed one with bytes left has seen a failed [send]. *)
Record tcp_inv t : Prop := {
  inv_watch : t_open t = true → t_want_write t = bool_decide (t_pending t ≠ []);
  inv_signal : t_open t = true → t_signal_close t = true → t_pending t ≠ [];
  inv_closed : t_open t = false → t_pending t ≠ [] →
    ∃ i, (i < t_sends t)%nat ∧ outcome i = SendFailed
}.

Lemma stream_take t msg rest n : t_pending t = msg :: rest → stream (tcp_take t msg rest n) = stream t.
Proof.
  intros Hp. unfold stream, tcp_take. cbn [t_sent t_pending]. rewrite Hp. cbn [concat].
  set (k := Nat.min (S n) (length msg)). rewrite <-app_assoc. f_equal. case_decide as Hk.
  - cbn [concat]. by rewrite app_assoc, take_drop.
  - f_equal. apply take_ge. lia.
Qed.

Lemma size_take t msg rest n : t_pending t = msg :: rest →
  (pending_size (tcp_take t msg rest n) < pending_size t)%nat.
Proof.
  intros Hp. unfold pending_size, tcp_take. simpl. rewrite Hp. simpl. rewrite length_app.
  case_decide; simpl; rewrite ?length_app, ?length_drop; destruct msg; simpl in *; lia.
Qed.

(** How the write loop ends: everything sent, the socket full, or a failure that closed it. *)
Inductive loop_end t : bool → tcp → Prop :=
| end_drained t' : t_open t' = t_open t → t_pending t' = [] → loop_end t false t'
| end_full t' : t_open t' = true → t_pending t' ≠ [] → loop_end t false t'
| end_failed t' : t_open t' = false → (∃ i, (i < t_sends t')%nat ∧ outcome i = SendFailed) → loop_end t true t'.

Lemma alone_close_open t : t_open t = true → alone_close t = (Ok tt, tcp_closed t).
Proof. intros Ho. unfold alone_close, tcp_close. mrun. unfold id at 1. by rewrite Ho. Qed.

Lemma write_loop_alone fuel t : (pending_size t + 1 < fuel)%nat → t_open t = true →
  ∃ b t', write_loop id (λ t _, t) outcome alone_close fuel t = (Ok b, t') ∧
    stream t' = stream t ∧ t_signal_close t' = t_signal_close t ∧ loop_end t b t'.
Proof.
  revert t. induction fuel as [|fuel IH]; intros t Hf Ho; [lia|]. cbn [write_loop]. mrun. unfold id at 1.
  destruct (t_pending t) as [|msg rest] eqn:Hp.
  { exists false, t. split_and!; [done..|]. by apply end_drained. }
  unfold id at 1. rewrite Ho. cbn [negb]. destruct (outcome (t_sends (id t))) as [n| |] eqn:Hout;
    unfold upd; mrun; unfold id in *.
  - destruct (IH (tcp_take t msg rest n)) as (b & t' & Hr & Hs & Hc & He); [|done|].
    { pose proof (size_take t msg rest n Hp). lia. }
    exists b, t'. split_and!; [done| |done|].
    + rewrite Hs. by apply stream_take.
    + destruct He; [by apply end_drained|by apply end_full|by apply end_failed].
  - exists false, (tcp_refused t). split_and!; [done..|]. apply end_full; [done|]. simpl. by rewrite Hp.
  - assert (alone_close (tcp_refused t) = (Ok tt, tcp_closed (tcp_refused t))) as Hc.
    { by apply alone_close_open. }
    rewrite (M_bind_ok _ _ _ _ _ Hc). destruct fuel as [|fuel]; [lia|]. cbn [write_loop]. mrun.
    unfold id. cbn [tcp_closed tcp_refused t_pending t_open]. rewrite Hp.
    exists true, (tcp_closed (tcp_refused t)). split_and!; [done..|]. apply end_failed; [done|].
    exists (t_sends t). split; [simpl; lia|done].
Qed.

Lemma update_write_alone t : t_open t = true →
  ∃ t', alone_update t = (Ok tt, t') ∧ stream t' = stream t ∧ tcp_inv t'.
Proof.
  intros Ho. unfold alone_update, update_write. mrun.
  destruct (write_loop_alone (S (S (pending_size t))) t) as (b & t' & Hr & Hs & Hc & He); [lia|done|].
  unfold id at 1. rewrite (M_bind_ok _ _ _ _ _ Hr). destruct He as [t' Ho' Hp|t' Ho' Hp|t' Ho' Hf].
  - mrun. unfold id at 1. rewrite decide_False by (by intros ?). unfold id at 1. rewrite Ho in Ho'.
    destruct (t_signal_close t') eqn:Hsc.
    + rewrite alone_close_open by done. eexists. split; [reflexivity|].
      split; [done|]. split; [done|done|]. cbn. by rewrite Hp.
    + unfold update_handler. mrun. unfold id at 1. rewrite Ho'. eexists. split; [reflexivity|].
      split; [done|]. split; cbn; unfold id; [by rewrite Hp|by rewrite Hsc|by rewrite Ho'].
  - mrun. unfold id at 1. rewrite decide_True by done. unfold update_handler. mrun. unfold id at 1.
    rewrite Ho'. eexists. split; [reflexivity|]. split; [done|].
    split; cbn; unfold id; [intros _; by rewrite bool_decide_true|done|by rewrite Ho'].
  - exists t'. split; [done|]. split; [done|]. split; [by rewrite Ho'..|done].
Qed.

(** The operations on one connection: messages of the server code, write events of the
    loop (only for a watched open socket), and the request to close. *)
Inductive tcp_op := OpWrite (m : bytes) | OpWritable | OpSignalClose.

Definition tcp_step (op : tcp_op) t : tcp * list bytes :=
  match op with
  | OpWrite m => match alone_write m t with (Ok _, t') => (t', [m]) | (Raise _, t') => (t', []) end
  | OpWritable => (if t_open t && t_want_write t then (alone_update t).2 else t, [])
  | OpSignalClose => ((alone_signal t).2, [])
  end.

(** The messages accepted so far, and the state. *)
Fixpoint tcp_run (ops : list tcp_op) t (accepted : list bytes) : tcp * list bytes :=
  match ops with
  | [] => (t, accepted)
  | op :: ops => let '(t', ms) := tcp_step op t in tcp_run ops t' (accepted ++ ms)
  end.

Lemma tcp_step_inv op t : tcp_inv t →
  tcp_inv (tcp_step op t).1 ∧ stream (tcp_step op t).1 = stream t ++ concat (tcp_step op t).2.
Proof.
  intros Ht. destruct op as [m| |]; cbn [tcp_step].
  - destruct (t_open t) eqn:Ho.
    + destruct (update_write_alone (tcp_pend t m) Ho) as (t' & Hr & Hs & Hi).
      assert (alone_write m t = (Ok tt, t')) as ->.
      { unfold alone_write, write_message. mrun. unfold id at 1. rewrite Ho. exact Hr. }
      cbn [fst snd]. split; [done|]. rewrite Hs. unfold stream. simpl. by rewrite concat_app, app_assoc.
    + assert (alone_write m t = (Raise IOError, t)) as ->.
      { unfold alone_write, write_message. mrun. unfold id at 1. by rewrite Ho. }
      cbn [fst snd concat]. by rewrite app_nil_r.
  - cbn [fst snd concat]. rewrite app_nil_r. destruct (t_open t) eqn:Ho; cbn [andb]; [|done].
    destruct (t_want_write t); [|done]. destruct (update_write_alone t Ho) as (t' & -> & ? & ?). done.
  - cbn [fst snd concat]. rewrite app_nil_r. unfold alone_signal, signal_close, upd. mrun.
    change (id t) with t. destruct (decide (t_pending t = [])) as [Hp|Hp].
    + unfold alone_close, tcp_close, upd. mrun. change (id t) with t. destruct (t_open t) eqn:Ho; [|done].
      split; [|done]. split; [done|done|]. simpl. by rewrite Hp.
    + split; [|done]. destruct Ht as [H1 H2 H3]. by split.
Qed.

Lemma tcp_run_inv ops t acc : tcp_inv t → stream t = concat acc →
  tcp_inv (tcp_run ops t acc).1 ∧ stream (tcp_run ops t acc).1 = concat (tcp_run ops t acc).2.
Proof.
  revert t acc. induction ops as [|op ops IH]; intros t acc Ht Hs; [done|]. simpl.
  destruct (tcp_step op t) as [t' ms] eqn:E. destruct (tcp_step_inv op t Ht) as [Hi Hs'].
  rewrite E in Hi, Hs'. apply IH; [done|]. simpl in Hs'. by rewrite Hs', Hs, concat_app.
Qed.
End alone.

(** C32: A [TCPHandler] delivers what it was given in order and without loss or
    duplication: after any sequence of writes, write events and close requests, and
    for any answers of [send] (partial sends, refusals, failures), the bytes the socket
    accepted followed by the bytes still buffered are the messages written. The loop
    watches an open socket for writing exactly while bytes wait, so buffered bytes
    are never forgotten, and a connection that closes with bytes left has seen [send]
    fail: [signal_close] alone never drops data. *)
Theorem tcp_writes_fifo (outcome : nat → send_out) (ops : list tcp_op) :
  let '(t, messages) := tcp_run outcome ops TCPHandler_init [] in
  t_sent t ++ concat (t_pending t) = concat messages ∧
  (t_open t = true →
    t_want_write t = bool_decide (t_pending t ≠ []) ∧
    (t_signal_close t = true → t_pending t ≠ [])) ∧
  (t_open t = false →
    t_pending t = [] ∨ ∃ i, (i < t_sends t)%nat ∧ outcome i = SendFailed).
Proof.
  assert (tcp_inv outcome TCPHandler_init) as Hi by (split; done).
  destruct (tcp_run_inv outcome ops TCPHandler_init [] Hi eq_refl) as [[Hw Hs Hc] Hst].
  destruct (tcp_run _ _ _ _) as [t ms]. simpl in *. split_and!; [done|naive_solver|].
  intros Ho. destruct (decide (t_pending t = [])); [by left|right; by apply Hc].
Qed.
