(* ===== verification/Scheduler.v ===== *)
(** * The tracker's resource scheduler ([PriorityScheduler] of [python/tvm/rpc/tracker.py])

    Free resources wait in a list, requests in a [heapq] ordered by priority and then
    by arrival. A request is a callback, which may refuse the resource and may touch
    the rest of the program, so the methods are computations over any state that holds
    the scheduler as a field. The refinement theorem relates the heap to a sorted
    queue. *)

From S2P Require Import Prelude Heapq.

Section scheduler.
Context {V R : Type}.

(** [(-priority, request_cnt, callback)]; tuples compare by their first two fields,
    which are never both equal. *)
Record request := { q_neg_priority : Z; q_cnt : Z; q_callback : R }.

#[export] Instance request_ord : HeapOrd request := {|
  hlt a b := (q_neg_priority a <? q_neg_priority b)
             || ((q_neg_priority a =? q_neg_priority b) && (q_cnt a <? q_cnt b));
  hgood _ := True
|}.

Record PriorityScheduler := {
  ps_request_cnt : Z;
  ps_values : list V;
  ps_requests : list request
}.

Definition PriorityScheduler_init : PriorityScheduler :=
  {| ps_request_cnt := 0; ps_values := []; ps_requests := [] |}.

Definition with_queues (s : PriorityScheduler) vs rs : PriorityScheduler :=
  {| ps_request_cnt := ps_request_cnt s; ps_values := vs; ps_requests := rs |}.

Section methods.
Context {W : Type} (sget : W → PriorityScheduler) (sset : PriorityScheduler → W → W).
(** Offer a resource to a request, and what happens to a resource that was taken. *)
Variable callback : R → V → M W bool.
Variable consumed : V → M W unit.
Context `{!EqDecision V}.

Definition sched_upd (f : PriorityScheduler → PriorityScheduler) : M W unit :=
  modify (λ w, sset (f (sget w)) w).

(** The loop of [_schedule]; every round takes a request off the heap. *)
Fixpoint schedule_loop (fuel : nat) : M W unit :=
  match fuel with
  | O => raise OutOfFuel
  | S fuel =>
      w ← get_st;
      match ps_requests (sget w), ps_values (sget w) with
      | _ :: _, value :: values =>
          _ ← sched_upd (λ s, with_queues s values (ps_requests s));
          '(item, requests) ← lift (heappop (ps_requests (sget w)));
          _ ← sched_upd (λ s, with_queues s (ps_values s) requests);
          ok ← callback (q_callback item) value;
          _ ← (if (ok : bool) then consumed value
               else sched_upd (λ s, with_queues s (ps_values s ++ [value]) (ps_requests s)));
          schedule_loop fuel
      | _, _ => mret tt
      end
  end.

Definition schedule : M W unit :=
  w ← get_st;
  schedule_loop (S (length (ps_requests (sget w)))).

Definition sched_put (value : V) : M W unit :=
  _ ← sched_upd (λ s, with_queues s (ps_values s ++ [value]) (ps_requests s));
  schedule.

Definition sched_request (priority : Z) (cb : R) : M W unit :=
  _ ← sched_upd (λ s, {|
    ps_request_cnt := ps_request_cnt s + 1;
    ps_values := ps_values s;
    ps_requests := heappush (ps_requests s)
      {| q_neg_priority := - priority; q_cnt := ps_request_cnt s; q_callback := cb |} |});
  schedule.

Definition sched_remove (value : V) : M W unit :=
  w ← get_st;
  if decide (value ∈ ps_values (sget w)) then
    vs ← lift (py_remove (ps_values (sget w)) value);
    _ ← sched_upd (λ s, with_queues s vs (ps_requests s));
    schedule
  else mret tt.
End methods.

(** [summary]: the number of free resources and of waiting requests. *)
Definition sched_summary (s : PriorityScheduler) : Z * Z :=
  (Z.of_nat (length (ps_values s)), Z.of_nat (length (ps_requests s))).

#[export] Instance request_ord_laws : HeapOrdLaws request.
Proof.
  split; unfold hlt, request_ord; intros.
  - rewrite !Z.ltb_irrefl, Z.eqb_refl. done.
  - bool_to_prop. lia.
  - bool_to_prop. lia.
Qed.
End scheduler.
Arguments request : clear implicits.
Arguments PriorityScheduler : clear implicits.

(** ** The promise: strict priority, first come first served within a priority

    The specification keeps the waiting requests in the order in which they are served. *)

(** A computation on the second half of a pair of states. *)
Definition on_snd {X W A} (m : M W A) : M (X * W) A := λ '(x, w),
  let '(r, w') := m w in (r, (x, w')).

Section refinement.
Context {V R W : Type} `{!EqDecision V}.
Variable callback : R → V → M W bool.
Variable consumed : V → M W unit.

Record served := { a_cnt : Z; a_values : list V; a_queue : list (request R) }.

Definition served_init : served := {| a_cnt := 0; a_values := []; a_queue := [] |}.

Definition abs_upd (f : served → served) : M (served * W) unit := modify (λ '(a, w), (f a, w)).

(** Hand the resources out to the head of the queue while there are both. *)
Fixpoint serve (queue : list (request R)) : M (served * W) unit :=
  match queue with
  | [] => mret tt
  | item :: queue =>
      '(a, _) ← get_st;
      match a_values a with
      | [] => mret tt
      | value :: values =>
          _ ← abs_upd (λ a, {| a_cnt := a_cnt a; a_values := values; a_queue := queue |});
          ok ← on_snd (callback (q_callback item) value);
          _ ← (if (ok : bool) then on_snd (consumed value)
               else abs_upd (λ a, {| a_cnt := a_cnt a; a_values := a_values a ++ [value];
                                     a_queue := a_queue a |}));
          serve queue
      end
  end.

(** The operations of a scheduler, and a client that performs several. *)
Inductive sched_op := SPut (value : V) | SRequest (priority : Z) (cb : R) | SRemove (value : V).

Definition abs_serve : M (served * W) unit := '(a, _) ← get_st; serve (a_queue a).

Definition abs_op (op : sched_op) : M (served * W) unit :=
  match op with
  | SPut value =>
      _ ← abs_upd (λ a, {| a_cnt := a_cnt a; a_values := a_values a ++ [value]; a_queue := a_queue a |});
      abs_serve
  | SRequest priority cb =>
      _ ← abs_upd (λ a, {|
        a_cnt := a_cnt a + 1; a_values := a_values a;
        a_queue := insert_sorted hlt
          {| q_neg_priority := - priority; q_cnt := a_cnt a; q_callback := cb |} (a_queue a) |});
      abs_serve
  | SRemove value =>
      '(a, _) ← get_st;
      if decide (value ∈ a_values a) then
        vs ← lift (py_remove (a_values a) value);
        _ ← abs_upd (λ a, {| a_cnt := a_cnt a; a_values := vs; a_queue := a_queue a |});
        abs_serve
      else mret tt
  end.

Definition sched_op_run (op : sched_op) : M (PriorityScheduler V R * W) unit :=
  let cb r v := on_snd (callback r v) in
  let used v := on_snd (consumed v) in
  let set c (s : PriorityScheduler V R * W) := (c, s.2) in
  match op with
  | SPut value => sched_put fst set cb used value
  | SRequest priority r => sched_request fst set cb used priority r
  | SRemove value => sched_remove fst set cb used value
  end.

(** The heap holds the queue, which is strictly sorted by priority and arrival. *)
Record sched_rel (c : PriorityScheduler V R) (a : served) : Prop := {
  rel_cnt : ps_request_cnt c = a_cnt a;
  rel_values : ps_values c = a_values a;
  rel_heap : is_heap (ps_requests c);
  rel_requests : ps_requests c ≡ₚ a_queue a;
  rel_sorted : StronglySorted (λ x y, hlt x y = true) (a_queue a);
  rel_arrived : Forall (λ q, q_cnt q < a_cnt a) (a_queue a)
}.

(** The same answer, the same effect on the rest, and related schedulers. *)
Definition same_run (x : result unit * (PriorityScheduler V R * W)) (y : result unit * (served * W)) : Prop :=
  x.1 = y.1 ∧ x.2.2 = y.2.2 ∧ sched_rel x.2.1 y.2.1.

Lemma good_requests (l : list (request R)) : Forall hgood l.
Proof. by apply Forall_forall. Qed.

Lemma heappop_queue (l : list (request R)) q qs :
  is_heap l → l ≡ₚ q :: qs → StronglySorted (λ x y, hlt x y = true) (q :: qs) →
  ∃ r, heappop l = Ok (q, r) ∧ is_heap r ∧ r ≡ₚ qs.
Proof.
  intros Hh Hp Hs. destruct (heappop_spec l Hh (good_requests l)) as (y & r & Hpop & Hy & Hr & Hl).
  { intros ->. by apply Permutation_nil_cons in Hp. }
  assert (q = y) as <-.
  { assert (y ∈ q :: qs) as Hyq by (rewrite <-Hp; by eapply list_elem_of_lookup_2).
    apply elem_of_cons in Hyq as [->|Hyq]; [done|]. exfalso.
    assert (q ∈ l) as Hq by (rewrite Hp; left). apply list_elem_of_lookup_1 in Hq as [i Hi].
    pose proof (heap_min l y i q (good_requests l) Hh Hy Hi) as Hmin.
    apply StronglySorted_inv in Hs as [_ Hs]. rewrite Forall_forall in Hs.
    by rewrite (Hs y Hyq) in Hmin. }
  exists r. split_and!; [done..|]. rewrite Hl in Hp. by apply Permutation_cons_inv in Hp.
Qed.

Lemma schedule_loop_serve fuel c a w :
  sched_rel c a → (length (a_queue a) < fuel)%nat →
  same_run (schedule_loop fst (λ c s, (c, s.2)) (λ r v, on_snd (callback r v)) (λ v, on_snd (consumed v))
              fuel (c, w))
           (serve (a_queue a) (a, w)).
Proof.
  remember (a_queue a) as queue eqn:Eq. revert fuel c a w Eq.
  induction queue as [|q queue IH]; intros [|fuel] c a w Eq Hr Hf; try (simpl in Hf; lia);
    cbn [schedule_loop serve]; mrun; cbn [fst snd]; destruct Hr as [Hc Hv Hh Hp Hs Ha];
    rewrite <-Eq in *.
  { apply Permutation_nil_r in Hp. rewrite Hp. split_and!; [done..|]. split; simpl; rewrite <-?Eq; try done.
    by rewrite Hp. }
  destruct (ps_requests c) as [|p ps] eqn:Er; [by apply Permutation_nil_cons in Hp|].
  rewrite Hv. destruct (a_values a) as [|v vs] eqn:Ev.
  { split_and!; [done..|]. split; simpl; rewrite <-?Eq, ?Er; try done. by rewrite Hv, Ev. }
  destruct (heappop_queue _ _ _ Hh Hp Hs) as (r & Hpop & Hrh & Hrp).
  unfold sched_upd, abs_upd. mrun. cbn [fst snd]. rewrite Hpop. mrun. cbn [fst snd].
  apply StronglySorted_inv in Hs as [Hs Hq]. apply Forall_cons in Ha as [_ Ha].
  set (c1 := with_queues _ _ r).
  set (a1 := {| a_cnt := a_cnt a; a_values := vs; a_queue := queue |}).
  assert (sched_rel c1 a1) as Hrel by (by split).
  unfold mbind, M_bind, on_snd. destruct (callback (q_callback q) v w) as [[ok|e] w1]; [|by split_and!].
  cbn [length] in Hf. destruct ok.
  - destruct (consumed v w1) as [[[]|e] w2]; [|by split_and!].
    apply (IH fuel c1 a1 w2); [done|done|lia].
  - cbn [modify]. apply (IH fuel (with_queues c1 (ps_values c1 ++ [v]) (ps_requests c1)) _ w1); [done| |lia].
    by split.
Qed.

Lemma hlt_newer (x y : request R) : q_cnt y < q_cnt x → hlt x y = false → hlt y x = true.
Proof. unfold hlt, request_ord. intros Hc Hxy. bool_to_prop. lia. Qed.

Lemma hlt_trans (x y z : request R) : hlt x y = true → hlt y z = true → hlt x z = true.
Proof. unfold hlt, request_ord. bool_to_prop. lia. Qed.

Lemma insert_newest x (queue : list (request R)) :
  StronglySorted (λ x y, hlt x y = true) queue → Forall (λ q, q_cnt q < q_cnt x) queue →
  StronglySorted (λ x y, hlt x y = true) (insert_sorted hlt x queue).
Proof.
  intros Hs. induction Hs as [|y queue Hs IH Hy]; intros Hc; cbn [insert_sorted]; [by repeat constructor|].
  apply Forall_cons in Hc as [Hcy Hc]. destruct (hlt x y) eqn:Hxy; constructor.
  - by constructor.
  - constructor; [done|]. eapply Forall_impl; [exact Hy|]. intros z. by apply hlt_trans.
  - by apply IH.
  - rewrite insert_sorted_perm. constructor; [by apply hlt_newer|done].
Qed.

Lemma schedule_serve c a w :
  sched_rel c a →
  same_run (schedule fst (λ c s, (c, s.2)) (λ r v, on_snd (callback r v)) (λ v, on_snd (consumed v)) (c, w))
           (abs_serve (a, w)).
Proof.
  intros Hr. unfold schedule, abs_serve. mrun. apply schedule_loop_serve; [done|].
  cbn [fst]. rewrite (rel_requests _ _ Hr). lia.
Qed.

Lemma sched_op_refines op c a w :
  sched_rel c a → same_run (sched_op_run op (c, w)) (abs_op op (a, w)).
Proof.
  intros Hr. destruct op as [v|prio r|v]; cbn [sched_op_run abs_op].
  - unfold sched_put, sched_upd, abs_upd. mrun. apply schedule_serve. destruct Hr as [Hc Hv Hh Hp Hs Ha].
    split; try done. simpl. by rewrite Hv.
  - unfold sched_request, sched_upd, abs_upd. mrun. apply schedule_serve.
    destruct Hr as [Hc Hv Hh Hp Hs Ha]. cbn [fst snd].
    destruct (heappush_spec (ps_requests c)
      {| q_neg_priority := - prio; q_cnt := ps_request_cnt c; q_callback := r |}) as [Hh' Hp'];
      [done|apply good_requests|done|].
    split; cbn [ps_request_cnt ps_values ps_requests a_cnt a_values a_queue]; [by rewrite Hc|done|done| | |].
    + rewrite Hp', insert_sorted_perm, Hp. by rewrite Hc.
    + by apply insert_newest.
    + rewrite insert_sorted_perm. constructor; [simpl; lia|]. eapply Forall_impl; [exact Ha|]. simpl. lia.
  - unfold sched_remove, sched_upd, abs_upd. mrun. cbn [fst snd].
    pose proof Hr as [Hc Hv Hh Hp Hs Ha]. rewrite Hv. destruct (decide (v ∈ a_values a)); [|by split_and!].
    destruct (py_remove (a_values a) v) as [vs|ex]; mrun; [|by split_and!].
    apply schedule_serve. by split.
Qed.

Lemma sched_run_refines ops c a w :
  sched_rel c a → same_run (mfor sched_op_run ops (c, w)) (mfor abs_op ops (a, w)).
Proof.
  revert c a w. induction ops as [|op ops IH]; intros c a w Hr; [by split_and!|]. cbn [mfor].
  unfold mbind, M_bind. destruct (sched_op_refines op c a w Hr) as (H1 & H2 & H3).
  destruct (sched_op_run op (c, w)) as [[[]|e] [c' w1]], (abs_op op (a, w)) as [[[]|e'] [a' w2]];
    cbn [fst snd] in *; try discriminate; [|by split_and!].
  subst w2. by apply IH.
Qed.
End refinement.

(** C9: [PriorityScheduler] refines a queue that is served in strict order of priority,
    first come first served within a priority. Any sequence of [put], [request] and
    [remove], with any callbacks (they may refuse, raise and change the rest of the
    program), gives the same result, offers the same resources to the same requests in
    the same order, and leaves the heap holding exactly the queue; in particular the
    loop of [_schedule] always ends. *)
Theorem priority_scheduler_refines {V R W : Type} `{!EqDecision V}
    (callback : R → V → M W bool) (consumed : V → M W unit) (ops : list sched_op) (w : W) :
  let '(r, (c, w1)) := mfor (sched_op_run callback consumed) ops (PriorityScheduler_init, w) in
  let '(r', (a, w2)) := mfor (abs_op callback consumed) ops (served_init, w) in
  r = r' ∧ w1 = w2 ∧ sched_rel c a ∧
  StronglySorted (λ x y, hlt x y = true) (a_queue a).
Proof.
  assert (sched_rel (V:=V) (R:=R) PriorityScheduler_init served_init) as Hr.
  { split; try done; try apply is_heap_nil; constructor. }
  destruct (sched_run_refines callback consumed ops _ _ w Hr) as (H1 & H2 & H3).
  destruct (mfor _ _ (PriorityScheduler_init, w)) as [r [c w1]].
  destruct (mfor _ _ (served_init, w)) as [r' [a w2]]. cbn [fst snd] in *.
  split_and!; [done..|apply H3].
Qed.
