(* ===== verification/Frames.v ===== *)
(** * Message reassembly of the tracker ([TCPEventHandler.on_message] of
    [python/tvm/rpc/tracker.py])

    A connection's receive buffer is kept apart from the rest of the program [W], so
    that a message handler, a computation over [W], cannot touch it. *)

From S2P Require Import Prelude PyStr PyFloat PyJson JsonText Wire Scheduler.

Record rbuf := {
  r_init : Z;          (* [_init_req_nbytes] *)
  r_data : bytes;      (* [_data] *)
  r_msg_size : Z       (* [_msg_size] *)
}.

Definition rbuf_init : rbuf := {| r_init := 4; r_data := []; r_msg_size := 0 |}.
Definition rbuf_ready (data : bytes) (size : Z) : rbuf :=
  {| r_init := 0; r_data := data; r_msg_size := size |}.

(** [d[i:j]] and [del d[:j]] *)
Definition py_slice (d : bytes) (i j : Z) : bytes :=
  let a := slice_bound (length d) i in
  let b := slice_bound (length d) j in
  take (b - a) (drop a d).
Definition del_prefix (d : bytes) (j : Z) : bytes := drop (slice_bound (length d) j) d.

Section frames.
Context {W : Type}.
(** [_init_conn] without the assignment of [_init_req_nbytes], and [call_handler]. *)
Variable init_conn : bytes → M W unit.
Variable call_handler : json → M W unit.

Definition rbuf_upd (f : rbuf → rbuf) : M (rbuf * W) unit := modify (λ '(r, w), (f r, w)).

(** The [while True] of [on_message]; every round that goes on consumes a byte. *)
Fixpoint message_loop (fuel : nat) : M (rbuf * W) unit :=
  match fuel with
  | O => raise OutOfFuel
  | S fuel =>
      '(r, _) ← get_st;
      if (r_msg_size r =? 0) && (length (r_data r) <? 4)%nat then mret tt
      else
        _ ← (if r_msg_size r =? 0 then
               size ← lift (unpack_i32 (take 4 (r_data r)));
               rbuf_upd (λ r, {| r_init := r_init r; r_data := r_data r; r_msg_size := size |})
             else mret tt);
        '(r, _) ← get_st;
        if negb (r_msg_size r =? 0) && (r_msg_size r + 4 <=? Z.of_nat (length (r_data r))) then
          msg ← lift (utf8_decode (py_slice (r_data r) 4 (4 + r_msg_size r)));
          _ ← rbuf_upd (λ r, {| r_init := r_init r; r_data := del_prefix (r_data r) (4 + r_msg_size r);
                                r_msg_size := 0 |});
          v ← lift (loads msg);
          _ ← on_snd (call_handler v);
          message_loop fuel
        else mret tt
  end.

Definition on_message (message : bytes) : M (rbuf * W) unit :=
  '(r, _) ← get_st;
  if negb (r_init r =? 0) then
    _ ← on_snd (init_conn message);
    rbuf_upd (λ r, {| r_init := 0; r_data := r_data r; r_msg_size := r_msg_size r |})
  else
    _ ← rbuf_upd (λ r, {| r_init := r_init r; r_data := r_data r ++ message;
                          r_msg_size := r_msg_size r |});
    '(r, _) ← get_st;
    message_loop (S (length (r_data r))).

(** ** The loop ends *)

(** A message that parses is not empty, so it takes bytes off the buffer. *)
Lemma del_prefix_shorter d size msg v :
  utf8_decode (py_slice d 4 (4 + size)) = Ok msg → loads msg = Ok v →
  (length (del_prefix d (4 + size)) < length d)%nat.
Proof.
  intros Hm Hv. unfold del_prefix. rewrite length_drop.
  assert (slice_bound (length d) (4 + size) ≤ length d)%nat as Hb.
  { unfold slice_bound. destruct (Z.ltb_spec (4 + size) 0); lia. }
  assert (slice_bound (length d) (4 + size) ≠ 0)%nat; [|lia]. intros E.
  unfold py_slice in Hm. rewrite E in Hm. injection Hm as <-. discriminate.
Qed.

(** Whatever the messages, the loop ends, and keeps what the handler keeps. *)
Lemma message_loop_post (P : W → Prop) (Q : exc → W → Prop) fuel b w :
  (∀ v w, P w → post (call_handler v)
     (λ r w', match r with Ok _ => P w' | Raise e => e ≠ OutOfFuel ∧ Q e w' end) w) →
  (∀ e w, P w → Q e w) →
  P w → (length (r_data b) < fuel)%nat →
  post (message_loop fuel)
    (λ r s, match r with Ok _ => P s.2 | Raise e => e ≠ OutOfFuel ∧ Q e s.2 end) (b, w).
Proof.
  intros Hcall HQ. revert b w. induction fuel as [|fuel IH]; intros b w Hw Hf; [lia|].
  cbn [message_loop]. unfold post. mrun. destruct (_ && _); [done|].
  assert (∃ b', ((if r_msg_size b =? 0 then
             size ← lift (unpack_i32 (take 4 (r_data b)));
             rbuf_upd (λ r, {| r_init := r_init r; r_data := r_data r; r_msg_size := size |})
           else mret tt) (b, w) = (Ok tt, (b', w)) ∧ r_data b' = r_data b) ∨
          (if r_msg_size b =? 0 then
             size ← lift (unpack_i32 (take 4 (r_data b)));
             rbuf_upd (λ r, {| r_init := r_init r; r_data := r_data r; r_msg_size := size |})
           else mret tt) (b, w) = (Raise StructError, (b, w))) as (b' & [[Hb Hd]|Hb]).
  { destruct (r_msg_size b =? 0); [|by exists b; left].
    destruct (unpack_i32 (take 4 (r_data b))) as [z|e] eqn:Hu; mrun; [eexists; by left|].
    exists b. right. unfold unpack_i32 in Hu. by repeat case_match; simplify_eq. }
  2:{ rewrite (M_bind_raise _ _ _ _ _ Hb). split; [done|by apply HQ]. }
  rewrite (M_bind_ok _ _ _ _ _ Hb). mrun. clear Hb. destruct (_ && _); [|done].
  destruct (utf8_decode _) as [msg|e] eqn:Hm; mrun; cycle 1.
  { split; [|by apply HQ]. intros ->. by apply utf8_decode_total in Hm. }
  unfold rbuf_upd. mrun. destruct (loads msg) as [v|e] eqn:Hv; mrun; cycle 1.
  { split; [|by apply HQ]. intros ->. by apply loads_total in Hv. }
  pose proof (del_prefix_shorter _ _ _ _ Hm Hv) as Hl. apply post_bind.
  specialize (Hcall v w Hw). unfold post, on_snd in *. destruct (call_handler v w) as [[[]|e] w']; [|done].
  apply IH; [done|]. cbn [r_data]. rewrite Hd in Hl at 2. lia.
Qed.

(** ** Chunks do not matter *)

Section reassembly.
Variable float_repr : float → text.
#[local] Abbreviation frame := (frame float_repr).
#[local] Abbreviation sendable := (sendable float_repr).

(** A buffer that holds no complete message. *)
Definition incomplete (d : bytes) : Prop :=
  (length d < 4)%nat ∨
  ∃ z, unpack_i32 (take 4 d) = Ok z ∧ z ≠ 0 ∧ Z.of_nat (length d) < z + 4.

(** [_msg_size] is unknown or the size in the header of the first message. *)
Definition size_ok (d : bytes) (size : Z) : Prop :=
  size = 0 ∨ ((4 ≤ length d)%nat ∧ unpack_i32 (take 4 d) = Ok size).

Lemma dumps_nonempty v : plain float_repr v = true → (0 < length (dumps float_repr v))%nat.
Proof. intros Hp. destruct (dumps_start float_repr v Hp) as (c & t & -> & _). simpl. lia. Qed.

Lemma prefix_incomplete v d q : sendable v → q ≠ [] → frame v = d ++ q → incomplete d.
Proof.
  intros Hv Hq Hf. destruct (frame_eq _ v Hv) as (h & _ & Hu & Hl & E). rewrite E in Hf.
  destruct (decide (length d < 4)%nat) as [?|Hd]; [by left|right].
  exists (Z.of_nat (length (dumps float_repr v))).
  assert (take 4 d = h) as ->.
  { assert (take 4 (d ++ q) = h) as H4 by by rewrite <-Hf, <-Hl, take_app_length.
    by rewrite take_app_le in H4 by lia. }
  pose proof (dumps_nonempty v (proj1 Hv)). split_and!; [done|lia|].
  apply (f_equal length) in Hf. rewrite !length_app in Hf.
  destruct q; [done|]. simpl in Hf. lia.
Qed.

Lemma incomplete_prefix d q : incomplete (d ++ q) → incomplete d.
Proof.
  destruct (decide (length d < 4)%nat) as [?|Hd]; [by left|]. unfold incomplete.
  rewrite length_app. intros [?|(z & Hu & Hz & Hl)]; [lia|right]. exists z. rewrite take_app_le in Hu by lia.
  split_and!; [done..|lia].
Qed.

(** Any prefix of a stream of messages is whole messages and the start of another. *)
Lemma split_stream msgs tail p q : Forall sendable msgs → incomplete tail →
  p ++ q = concat (frame <$> msgs) ++ tail →
  ∃ ms1 ms2 d, msgs = ms1 ++ ms2 ∧ p = concat (frame <$> ms1) ++ d ∧ incomplete d ∧
    d ++ q = concat (frame <$> ms2) ++ tail.
Proof.
  intros Hm Ht. revert p. induction Hm as [|v msgs Hv Hm IH]; intros p Hp.
  - exists [], [], p. simpl in *. split_and!; [done..| |done]. rewrite <-Hp in Ht.
    by apply incomplete_prefix in Ht.
  - csimpl in Hp. rewrite <-app_assoc in Hp. apply app_eq_inv in Hp as [(k & Hp & Hq)|(k & Hp & Hq)].
    + destruct (IH k) as (ms1 & ms2 & d & -> & -> & Hi & E); [done|].
      exists (v :: ms1), ms2, d. csimpl. by rewrite <-app_assoc.
    + destruct (decide (k = [])) as [->|Hk].
      * rewrite app_nil_r in Hp. destruct (IH []) as (ms1 & ms2 & d & -> & Hd & Hi & E); [by rewrite Hq|].
        exists (v :: ms1), ms2, d. csimpl. rewrite <-app_assoc, <-Hd, app_nil_r. by split_and!.
      * exists [], (v :: msgs), p. csimpl. split_and!; [done..| |by rewrite Hq, Hp, <-!app_assoc].
        by eapply prefix_incomplete.
Qed.

Lemma size_ok_extend d m size : size_ok d size → size_ok (d ++ m) size.
Proof.
  intros [->|[Hl Hu]]; [by left|right]. rewrite length_app, take_app_le by done. split; [lia|done].
Qed.

(** One round on a complete message, and on an incomplete buffer. *)
Lemma loop_frame fuel v rest size w :
  sendable v → size_ok (frame v ++ rest) size →
  message_loop (S fuel) (rbuf_ready (frame v ++ rest) size, w) =
  (on_snd (call_handler v) ≫= λ _, message_loop fuel) (rbuf_ready rest 0, w).
Proof.
  intros Hv Hs. destruct (frame_eq _ v Hv) as (h & _ & Hu & Hl & E). rewrite E, <-app_assoc in *.
  set (n := length (dumps float_repr v)) in *. pose proof (dumps_nonempty v (proj1 Hv)) as Hn. fold n in Hn.
  assert (take 4 (h ++ dumps float_repr v ++ rest) = h) as Hh by by rewrite <-Hl, take_app_length.
  assert (size = 0 ∨ size = Z.of_nat n) as Hsz by (destruct Hs as [?|[_ Hs]]; [by left|]; right; congruence).
  cbn [message_loop]. mrun. cbn [rbuf_ready r_msg_size r_data r_init].
  rewrite (proj2 (Nat.ltb_ge _ _)) by (rewrite length_app; lia). rewrite andb_false_r.
  assert (((if size =? 0 then
              z ← lift (unpack_i32 (take 4 (h ++ dumps float_repr v ++ rest)));
              rbuf_upd (λ r, {| r_init := r_init r; r_data := r_data r; r_msg_size := z |})
            else mret tt) : M (rbuf * W) unit) (rbuf_ready (h ++ dumps float_repr v ++ rest) size, w)
          = (Ok tt, (rbuf_ready (h ++ dumps float_repr v ++ rest) (Z.of_nat n), w))) as Hsize.
  { rewrite Hh, Hu. destruct Hsz as [->| ->]; [by mrun|]. by rewrite (proj2 (Z.eqb_neq _ _)) by lia. }
  rewrite (M_bind_ok _ _ _ _ _ Hsize). mrun. cbn [rbuf_ready r_msg_size r_data r_init].
  rewrite (proj2 (Z.eqb_neq (Z.of_nat n) 0)) by lia. cbn [negb andb].
  rewrite (proj2 (Z.leb_le _ _)) by (rewrite !length_app; fold n; lia).
  assert (py_slice (h ++ dumps float_repr v ++ rest) 4 (4 + Z.of_nat n) = dumps float_repr v) as ->.
  { unfold py_slice, slice_bound. rewrite !(proj2 (Z.ltb_ge _ _)) by lia.
    rewrite !Nat.min_r by (rewrite !length_app; fold n; lia). change (Z.to_nat 4) with 4%nat.
    rewrite <-Hl at 2. rewrite drop_app_length. replace (_ - _)%nat with n by lia. apply take_app_length. }
  rewrite utf8_decode_ascii by (apply dumps_ascii, Hv). mrun. unfold rbuf_upd. mrun.
  rewrite loads_dumps by apply Hv. mrun. do 2 f_equal.
  unfold rbuf_ready, del_prefix, slice_bound. cbn [r_init r_data r_msg_size]. f_equal.
  rewrite (proj2 (Z.ltb_ge _ _)) by lia. rewrite Nat.min_r by (rewrite !length_app; fold n; lia).
  rewrite app_assoc. apply drop_app_length'. rewrite length_app. fold n. lia.
Qed.

Lemma loop_incomplete fuel d size w :
  incomplete d → size_ok d size →
  ∃ size', message_loop (S fuel) (rbuf_ready d size, w) = (Ok tt, (rbuf_ready d size', w)) ∧ size_ok d size'.
Proof.
  intros Hi Hs. cbn [message_loop]. mrun. cbn [rbuf_ready r_msg_size r_data r_init].
  destruct (decide (length d < 4)%nat) as [Hl|Hl].
  { destruct Hs as [->|[? _]]; [|lia]. rewrite (proj2 (Nat.ltb_lt _ _)) by done. exists 0. split; [done|by left]. }
  destruct Hi as [?|(z & Hu & Hz & Hlt)]; [done|].
  rewrite (proj2 (Nat.ltb_ge _ _)) by lia. rewrite andb_false_r. exists z.
  assert (size = 0 ∨ size = z) as Hsz by (destruct Hs as [?|[_ Hs]]; [by left|]; right; congruence).
  assert (((if size =? 0 then
              z ← lift (unpack_i32 (take 4 d));
              rbuf_upd (λ r, {| r_init := r_init r; r_data := r_data r; r_msg_size := z |})
            else mret tt) : M (rbuf * W) unit) (rbuf_ready d size, w) = (Ok tt, (rbuf_ready d z, w))) as Hsize.
  { rewrite Hu. destruct Hsz as [->| ->]; [by mrun|]. by rewrite (proj2 (Z.eqb_neq _ _)) by lia. }
  rewrite (M_bind_ok _ _ _ _ _ Hsize). mrun. cbn [rbuf_ready r_msg_size r_data r_init].
  rewrite (proj2 (Z.leb_gt _ _)) by lia. rewrite andb_false_r. split; [done|]. right. split; [lia|done].
Qed.

Lemma loop_frames ms d fuel size w w' :
  Forall sendable ms → incomplete d → size_ok (concat (frame <$> ms) ++ d) size →
  (length ms < fuel)%nat → mfor call_handler ms w = (Ok tt, w') →
  ∃ size', message_loop fuel (rbuf_ready (concat (frame <$> ms) ++ d) size, w)
           = (Ok tt, (rbuf_ready d size', w')) ∧ size_ok d size'.
Proof.
  intros Hm Hi. revert fuel size w. induction Hm as [|v ms Hv _ IH]; intros [|fuel] size w Hs Hf Hc;
    try (simpl in Hf; lia).
  - injection Hc as <-. by apply loop_incomplete.
  - rewrite fmap_cons in *. cbn [concat] in *. rewrite <-app_assoc in *. rewrite loop_frame by done.
    cbn [mfor] in Hc. apply M_bind_inv in Hc as ([] & w1 & H1 & H2).
    erewrite M_bind_ok; [|unfold on_snd; rewrite H1; reflexivity].
    apply IH; [by left|simpl in Hf; lia|done].
Qed.

Lemma frames_length ms : Forall sendable ms → (length ms ≤ length (concat (frame <$> ms)))%nat.
Proof.
  induction 1 as [|v ms Hv _ IH]; [done|]. csimpl. rewrite length_app.
  destruct (frame_eq _ v Hv) as (h & _ & _ & Hl & ->). rewrite length_app. lia.
Qed.

Lemma frame_complete v d : sendable v → ¬ incomplete (frame v ++ d).
Proof.
  intros Hv. destruct (frame_eq _ v Hv) as (h & _ & Hu & Hl & ->). unfold incomplete.
  rewrite <-app_assoc, !length_app. intros [?|(z & Hz & _ & Hlt)]; [lia|].
  rewrite <-Hl, take_app_length, Hu in Hz. injection Hz as <-. lia.
Qed.

Lemma on_messages chunks msgs tail d size w w' :
  Forall sendable msgs → incomplete tail → incomplete d → size_ok d size →
  d ++ concat chunks = concat (frame <$> msgs) ++ tail →
  mfor call_handler msgs w = (Ok tt, w') →
  ∃ size', mfor on_message chunks (rbuf_ready d size, w) = (Ok tt, (rbuf_ready tail size', w')).
Proof.
  intros Hm Ht. revert msgs d size w Hm. induction chunks as [|m chunks IH]; intros msgs d size w Hm Hd Hs E Hc.
  - cbn [concat] in E. rewrite app_nil_r in E. destruct msgs as [|v msgs].
    + injection Hc as <-. simpl in E. subst d. by exists size.
    + exfalso. subst d. csimpl in Hd. rewrite <-app_assoc in Hd. apply Forall_inv in Hm.
      by apply frame_complete in Hd.
  - cbn [concat] in E. rewrite app_assoc in E.
    destruct (split_stream msgs tail (d ++ m) (concat chunks) Hm Ht E)
      as (ms1 & ms2 & d' & -> & Hp & Hi & E').
    apply Forall_app in Hm as [Hm1 Hm2].
    destruct (mfor_app_inv _ _ _ _ _ Hc) as (w1 & H1 & H2).
    destruct (loop_frames ms1 d' (S (length (d ++ m))) size w w1) as (size' & Hl & Hs'); try done.
    { rewrite <-Hp. by apply size_ok_extend. }
    { rewrite Hp, length_app. pose proof (frames_length ms1 Hm1). lia. }
    cbn [mfor]. erewrite M_bind_ok; [by apply (IH ms2 d' size' w1)|].
    unfold on_message, rbuf_upd. mrun. cbn [rbuf_ready r_init r_data r_msg_size negb Z.eqb]. mrun.
    rewrite <-Hp in Hl. exact Hl.
Qed.
End reassembly.
End frames.

(** C33: The tracker's message reassembly does not depend on how TCP cuts the stream.
    When a peer that finished the handshake sends a sequence of JSON messages and then
    at most a part of another, any chunking of these bytes makes [on_message] call the
    handler on exactly these messages in order, and keep exactly the unfinished part. *)
Theorem tracker_reassembly {W : Type} (init_conn : bytes → M W unit) (call_handler : json → M W unit)
    (float_repr : float → text) (chunks : list bytes) (msgs : list json) (tail : bytes) (w w' : W) :
  Forall (sendable float_repr) msgs → incomplete tail →
  concat chunks = concat (frame float_repr <$> msgs) ++ tail →
  mfor call_handler msgs w = (Ok tt, w') →
  ∃ size, mfor (on_message init_conn call_handler) chunks (rbuf_ready [] 0, w)
          = (Ok tt, (rbuf_ready tail size, w')).
Proof.
  intros Hm Ht E Hc. apply (on_messages init_conn call_handler float_repr chunks msgs); try done.
  - left. simpl. lia.
  - by left.
Qed.

(** A handler that records the messages it is called with. *)
Definition record_message (v : json) : M (list json) unit := modify (λ vs, vs ++ [v]).

Lemma tracker_reassembly_witness :
  ∃ size, mfor (on_message (λ _, mret tt) record_message)
    ((λ c, [c]) <$> concat (frame (λ _, []) <$> server_messages) ++ ["007"%char])
    (rbuf_ready [] 0, [])
  = (Ok tt, (rbuf_ready ["007"%char] size, server_messages)).
Proof.
  apply (tracker_reassembly (λ _, mret tt) record_message (λ _, []) _ server_messages ["007"%char]).
  - repeat constructor.
  - left. simpl. lia.
  - induction (concat (frame (λ _, []) <$> server_messages) ++ ["007"%char]) as [|c l IH];
      [reflexivity|]. cbn [fmap list_fmap concat app]. f_equal. exact IH.
  - reflexivity.
Defined.

(** A message whose size is zero is never consumed: once its header is at the front of the
    buffer, no further bytes reach the handler. *)
Lemma zero_size_stalls {W} (init_conn : bytes → M W unit) (call_handler : json → M W unit)
    (d message : bytes) (w : W) :
  take 4 d = [byte 0; byte 0; byte 0; byte 0] →
  on_message init_conn call_handler message (rbuf_ready d 0, w)
  = (Ok tt, (rbuf_ready (d ++ message) 0, w)).
Proof.
  intros Hd. assert (4 ≤ length d)%nat as Hl.
  { apply (f_equal length) in Hd. rewrite length_take in Hd. cbn [length] in Hd. lia. }
  unfold on_message, rbuf_upd. mrun. cbn [rbuf_ready r_init r_data r_msg_size negb Z.eqb]. mrun.
  cbn [message_loop]. mrun. cbn [rbuf_ready r_init r_data r_msg_size Z.eqb andb].
  assert ((length (d ++ message) <? 4)%nat = false) as -> by (apply Nat.ltb_ge; rewrite length_app; lia).
  rewrite take_app_le, Hd by lia. done.
Qed.
