(* ===== verification/Tracker.v ===== *)
(** * The RPC tracker ([python/tvm/rpc/tracker.py])

    [TCPEventHandler] and [TrackerServerHandler]: connections announce resources and
    request them; a scheduler per key matches them. Writing to a connection may fail and
    close it, which removes its resources and may serve other requests, which writes to
    other connections; so every operation below takes the [close] it calls, and
    [conn_close] ties the knot. Its fuel is the number of connections, since each of
    them is closed once. Events are handled one at a time, as the event loop does. *)

From S2P Require Import Prelude PyDict PyStr PyFloat PyJson JsonText Heapq Wire TcpHandler Scheduler Frames.

(** ** State *)

(** [(self, address, port, matchkey)] *)
Record resource := { v_conn : nat; v_addr : json; v_port : json; v_matchkey : string }.

#[export] Instance resource_eq_dec : EqDecision resource.
Proof. solve_decision. Defined.

(** [TCPEventHandler]; the receive buffer is kept apart, see [Frames]. *)
Record conn := {
  c_tcp : tcp;
  c_addr : json;                    (* [_addr]: the pair of host and port *)
  c_info : dict string json;        (* [_info] *)
  c_matchkeys : gset string;        (* [pending_matchkeys] *)
  c_put : list resource             (* [put_values] *)
}.

Definition TCPEventHandler_init (addr : json) : conn := {|
  c_tcp := TCPHandler_init; c_addr := addr; c_info := [("addr", addr)]; c_matchkeys := ∅; c_put := []
|}.

#[export] Instance conn_inhabited : Inhabited conn :=
  populate {| c_tcp := tcp_closed TCPHandler_init; c_addr := JNull; c_info := []; c_matchkeys := ∅; c_put := [] |}.

(** [TrackerServerHandler], and the handler objects by number. A request is the
    connection whose callback waits. *)
Record tracker := {
  tk_conns : gmap nat conn;
  tk_connections : gset nat;                                (* [_connections] *)
  tk_map : dict string (PriorityScheduler resource nat);    (* [_scheduler_map] *)
  tk_stop_key : string;
  tk_stopped : bool
}.

Definition TrackerServerHandler_init (stop_key : string) : tracker := {|
  tk_conns := ∅; tk_connections := ∅; tk_map := []; tk_stop_key := stop_key; tk_stopped := false
|}.

Definition conn_of (w : tracker) (c : nat) : conn := tk_conns w !!! c.

Definition set_conn (c : nat) (k : conn) (w : tracker) : tracker := {|
  tk_conns := <[c := k]> (tk_conns w); tk_connections := tk_connections w; tk_map := tk_map w;
  tk_stop_key := tk_stop_key w; tk_stopped := tk_stopped w |}.
Definition set_connections (s : gset nat) (w : tracker) : tracker := {|
  tk_conns := tk_conns w; tk_connections := s; tk_map := tk_map w;
  tk_stop_key := tk_stop_key w; tk_stopped := tk_stopped w |}.
Definition set_map (m : dict string (PriorityScheduler resource nat)) (w : tracker) : tracker := {|
  tk_conns := tk_conns w; tk_connections := tk_connections w; tk_map := m;
  tk_stop_key := tk_stop_key w; tk_stopped := tk_stopped w |}.
Definition set_stopped (w : tracker) : tracker := {|
  tk_conns := tk_conns w; tk_connections := tk_connections w; tk_map := tk_map w;
  tk_stop_key := tk_stop_key w; tk_stopped := true |}.

Definition with_tcp (k : conn) (t : tcp) : conn := {|
  c_tcp := t; c_addr := c_addr k; c_info := c_info k; c_matchkeys := c_matchkeys k; c_put := c_put k |}.
Definition with_info (k : conn) (i : dict string json) : conn := {|
  c_tcp := c_tcp k; c_addr := c_addr k; c_info := i; c_matchkeys := c_matchkeys k; c_put := c_put k |}.
Definition with_matchkeys (k : conn) (s : gset string) : conn := {|
  c_tcp := c_tcp k; c_addr := c_addr k; c_info := c_info k; c_matchkeys := s; c_put := c_put k |}.
Definition with_put (k : conn) (l : list resource) : conn := {|
  c_tcp := c_tcp k; c_addr := c_addr k; c_info := c_info k; c_matchkeys := c_matchkeys k; c_put := l |}.

Definition hget (c : nat) (w : tracker) : tcp := c_tcp (conn_of w c).
Definition hset (c : nat) (t : tcp) (w : tracker) : tracker := set_conn c (with_tcp (conn_of w c) t) w.
Definition sget (key : string) (w : tracker) : PriorityScheduler resource nat :=
  default PriorityScheduler_init (dget (tk_map w) key).
Definition sset (key : string) (s : PriorityScheduler resource nat) (w : tracker) : tracker :=
  set_map (dset (tk_map w) key s) w.

Definition conn_upd (c : nat) (f : conn → conn) : M tracker unit :=
  modify (λ w, set_conn c (f (conn_of w c)) w).

(** ** Reading the arguments of a message *)

(** [args[i]] *)
Definition arg (args : json) (i : Z) : result json :=
  match args with
  | JList l => py_nth l i
  | JStr s => (λ c, JStr (String c EmptyString)) <$> py_nth (chars s) i
  | JObj _ => Raise KeyError
  | _ => Raise TypeError
  end.

Definition arg_len (args : json) : result Z :=
  match args with
  | JList l => Ok (Z.of_nat (length l))
  | JStr s => Ok (Z.of_nat (length (chars s)))
  | JObj d => Ok (Z.of_nat (length d))
  | _ => Raise TypeError
  end.

(** [a, b = v] *)
Definition unpack2 (v : json) : result (json * json) :=
  match v with
  | JList [a; b] => Ok (a, b)
  | JObj [(a, _); (b, _)] => Ok (JStr a, JStr b)
  | JStr (String a (String b EmptyString)) =>
      Ok (JStr (String a EmptyString), JStr (String b EmptyString))
  | JList _ | JObj _ | JStr _ => Raise ValueError
  | _ => Raise TypeError
  end.

(** [v == z]; booleans are numbers. *)
Definition eq_int (v : json) (z : Z) : bool :=
  match v with
  | JInt x => x =? z
  | JBool b => (if b then 1 else 0) =? z
  | JFloat f => feq f (of_Z z)
  | _ => false
  end.

(** Keys and match keys are strings and priorities are integers in the protocol; a message
    with others is outside the model. *)
Definition arg_str (v : json) : result string :=
  match v with JStr s => Ok s | _ => Raise NotImplementedError end.
Definition arg_int (v : json) : result Z :=
  match v with JInt z => Ok z | _ => Raise NotImplementedError end.

(** [d.update(v)] *)
Definition dict_update (d : dict string json) (v : json) : result (dict string json) :=
  match v with
  | JObj e => Ok (foldl (λ d '(k, x), dset d k x) d e)
  | JList [] => Ok d
  | JList _ | JStr _ => Raise NotImplementedError
  | _ => Raise TypeError
  end.

(** [v.split(":")[1]] *)
Definition key_type (v : json) : result string :=
  match v with
  | JStr s => py_nth (split_on ":"%char s) 1
  | _ => Raise AttributeError
  end.

(** ** Operations *)

Section tracker.
Variable float_repr : float → text.
(** The answer of the n-th [send] on a connection. *)
Variable outcome : nat → nat → send_out.
(** The order in which the loop over a set visits its elements. *)
Variable iter_conns : gset nat → list nat.
Variable iter_keys : gset string → list string.

Section knot.
(** [self.close()] of a connection. *)
Variable close : nat → M tracker unit.

(** [on_error] closes the connection. *)
Definition conn_write (c : nat) (b : bytes) : M tracker unit :=
  write_message (hget c) (hset c) (outcome c) (close c) (close c) b.

Definition ret_value (c : nat) (data : json) : M tracker unit :=
  let data := dumps float_repr data in
  h ← lift (pack_i32 (Z.of_nat (length data)));
  _ ← conn_write c h;
  conn_write c (utf8_encode data).

(** [value[1:]] *)
Definition resource_json (v : resource) : json := JList [v_addr v; v_port v; JStr (v_matchkey v)].

(** [_cb] of a request *)
Definition request_cb (c : nat) (value : resource) : M tracker bool :=
  w ← get_st;
  if negb (t_open (hget c w)) then mret false
  else except_io
    (_ ← ret_value c (JList [JInt (tracker_code SUCCESS); resource_json value]); mret true)
    (mret false).

(** [value[0].pending_matchkeys.remove(value[-1])] *)
Definition remove_matchkey (value : resource) : M tracker unit :=
  w ← get_st;
  let k := conn_of w (v_conn value) in
  if decide (v_matchkey value ∈ c_matchkeys k)
  then conn_upd (v_conn value) (λ k, with_matchkeys k (c_matchkeys k ∖ {[v_matchkey value]}))
  else raise KeyError.

(** [self._scheduler_map[key]], made when it is missing *)
Definition ensure_scheduler (key : string) : M tracker unit :=
  w ← get_st;
  if dmem (tk_map w) key then mret tt else modify (sset key PriorityScheduler_init).

Definition tracker_put (key : string) (value : resource) : M tracker unit :=
  _ ← ensure_scheduler key;
  sched_put (sget key) (sset key) request_cb remove_matchkey value.

Definition tracker_request (key : string) (priority : Z) (c : nat) : M tracker unit :=
  _ ← ensure_scheduler key;
  sched_request (sget key) (sset key) request_cb remove_matchkey priority c.

(** [TrackerServerHandler.close]: a connection with a ["key"] takes its resources along. *)
Definition remove_resource (key : string) (value : resource) : M tracker unit :=
  w ← get_st;
  if dmem (tk_map w) key
  then sched_remove (sget key) (sset key) request_cb remove_matchkey value
  else raise KeyError.

Definition tracker_close (c : nat) : M tracker unit :=
  w ← get_st;
  if decide (c ∈ tk_connections w) then
    _ ← modify (set_connections (tk_connections w ∖ {[c]}));
    match dget (c_info (conn_of w c)) "key" with
    | Some k =>
        key ← lift (key_type k);
        mfor (remove_resource key) (c_put (conn_of w c))
    | None => mret tt
    end
  else raise KeyError.
End knot.

(** [TCPHandler.close] of a connection *)
Fixpoint conn_close (fuel : nat) (c : nat) : M tracker unit :=
  match fuel with
  | O => raise OutOfFuel
  | S fuel => tcp_close (hget c) (hset c) (tracker_close (conn_close fuel) c)
  end.

Definition close (c : nat) : M tracker unit :=
  w ← get_st;
  conn_close (S (size (tk_connections w))) c.

(** [stop] *)
Definition tracker_stop : M tracker unit :=
  w ← get_st;
  _ ← mfor close (iter_conns (tk_connections w));
  modify set_stopped.

(** [TrackerServerHandler.summary] *)
Definition queue_info (w : tracker) : json :=
  JObj ((λ ks : string * PriorityScheduler resource nat,
           (ks.1, JObj [("free", JInt (sched_summary ks.2).1);
                        ("pending", JInt (sched_summary ks.2).2)])) <$> tk_map w).

Definition is_server (info : dict string json) : result bool :=
  match default (JStr "") (dget info "key") with
  | JStr s => Ok (startswith "server" s)
  | _ => Raise AttributeError
  end.

Fixpoint server_info (infos : list (dict string json)) : result (list json) :=
  match infos with
  | [] => Ok []
  | i :: infos =>
      b ← is_server i;
      rest ← server_info infos;
      Ok (if (b : bool) then JObj i :: rest else rest)
  end.

Definition tracker_summary (w : tracker) : result json :=
  cinfo ← server_info ((λ c, c_info (conn_of w c)) <$> iter_conns (tk_connections w));
  Ok (JObj [("queue_info", queue_info w); ("server_info", JList cinfo)]).

(** [call_handler] *)
Definition handle_put (c : nat) (args : json) : M tracker unit :=
  k ← lift (arg args 1);
  a2 ← lift (arg args 2);
  '(port, m) ← lift (unpack2 a2);
  matchkey ← lift (arg_str m);
  _ ← conn_upd c (λ k, with_matchkeys k ({[matchkey]} ∪ c_matchkeys k));
  n ← lift (arg_len args);
  a3 ← (if 4 <=? n then lift (arg args 3) else mret JNull);
  w ← get_st;
  addr ← (if decide (a3 = JNull) then lift (arg (c_addr (conn_of w c)) 0) else mret a3);
  let value := {| v_conn := c; v_addr := addr; v_port := port; v_matchkey := matchkey |} in
  key ← lift (arg_str k);
  _ ← tracker_put close key value;
  _ ← conn_upd c (λ k, with_put k (c_put k ++ [value]));
  ret_value close c (JInt (tracker_code SUCCESS)).

Definition handle_request (c : nat) (args : json) : M tracker unit :=
  k ← lift (arg args 1);
  _ ← lift (arg args 2);
  p ← lift (arg args 3);
  key ← lift (arg_str k);
  priority ← lift (arg_int p);
  tracker_request close key priority c.

Definition handle_stop (c : nat) (args : json) : M tracker unit :=
  k ← lift (arg args 1);
  w ← get_st;
  if decide (k = JStr (tk_stop_key w)) then
    _ ← ret_value close c (JInt (tracker_code SUCCESS));
    tracker_stop
  else ret_value close c (JInt (tracker_code FAIL)).

Definition handle_update_info (c : nat) (args : json) : M tracker unit :=
  v ← lift (arg args 1);
  w ← get_st;
  i ← lift (dict_update (c_info (conn_of w c)) v);
  _ ← conn_upd c (λ k, with_info k i);
  ret_value close c (JInt (tracker_code SUCCESS)).

Definition handle_summary (c : nat) : M tracker unit :=
  w ← get_st;
  status ← lift (tracker_summary w);
  ret_value close c (JList [JInt (tracker_code SUCCESS); status]).

Definition call_handler (c : nat) (args : json) : M tracker unit :=
  code ← lift (arg args 0);
  let code_is x := eq_int code (tracker_code x) in
  if code_is PUT then handle_put c args
  else if code_is REQUEST then handle_request c args
  else if code_is PING then ret_value close c (JInt (tracker_code SUCCESS))
  else if code_is GET_PENDING_MATCHKEYS then
    w ← get_st;
    ret_value close c (JList (JStr <$> iter_keys (c_matchkeys (conn_of w c))))
  else if code_is STOP then handle_stop c args
  else if code_is UPDATE_INFO then handle_update_info c args
  else if code_is SUMMARY then handle_summary c
  else close c.

(** [_init_conn]; the checks close the connection but do not return. *)
Definition init_conn (c : nat) (message : bytes) : M tracker unit :=
  _ ← (if decide (length message ≠ 4%nat) then close c else mret tt);
  magic ← lift (unpack_i32 message);
  _ ← (if decide (magic ≠ RPC_TRACKER_MAGIC) then close c else mret tt);
  h ← lift (pack_i32 RPC_TRACKER_MAGIC);
  conn_write close c h.

(** ** Events *)

(** The tracker and the receive buffers of its connections. *)
Record server := { sv_tracker : tracker; sv_bufs : gmap nat rbuf }.

#[export] Instance rbuf_inhabited : Inhabited rbuf := populate rbuf_init.

Definition on_tracker {A} (m : M tracker A) : M server A := λ s,
  let '(r, w) := m (sv_tracker s) in (r, {| sv_tracker := w; sv_bufs := sv_bufs s |}).

Definition conn_message (c : nat) (message : bytes) : M server unit := λ s,
  let '(r, (b, w)) := on_message (init_conn c) (call_handler c) message (sv_bufs s !!! c, sv_tracker s) in
  (r, {| sv_tracker := w; sv_bufs := <[c := b]> (sv_bufs s) |}).

(** [_event_handler] of a connection *)
Definition conn_event (c : nat) (read write : bool) (input : recv_out) : M server unit :=
  event_handler (on_tracker (close c)) (on_tracker (close c))
    (on_tracker (update_write (hget c) (hset c) (outcome c) (close c) (close c)))
    (conn_message c) read write input.

Inductive accept_out := Accepted (addr : json) | AcceptFailed.

(** [_on_event]: accept until [EAGAIN]; another error is ignored. *)
Definition accept_one (a : accept_out) : M server unit :=
  match a with
  | Accepted addr =>
      modify (λ s,
        let c := fresh (dom (tk_conns (sv_tracker s))) in {|
          sv_tracker := set_connections ({[c]} ∪ tk_connections (sv_tracker s))
                          (set_conn c (TCPEventHandler_init addr) (sv_tracker s));
          sv_bufs := <[c := rbuf_init]> (sv_bufs s) |})
  | AcceptFailed => mret tt
  end.

Definition on_accept (l : list accept_out) : M server unit := mfor accept_one l.

Inductive event :=
| EvAccept (l : list accept_out)
| EvConn (c : nat) (read write : bool) (input : recv_out).

Definition run_event (e : event) : M server unit :=
  match e with
  | EvAccept l => on_accept l
  | EvConn c read write input => conn_event c read write input
  end.

(** An event of the loop: for a socket that is still registered. An exception that a
    handler lets escape is logged by the loop. *)
Definition enabled (s : server) (e : event) : Prop :=
  tk_stopped (sv_tracker s) = false ∧
  match e with EvAccept _ => True | EvConn c _ _ _ => t_open (hget c (sv_tracker s)) = true end.

Inductive reaches : server → server → Prop :=
| reaches_refl s : reaches s s
| reaches_event s1 s2 e r s3 :
    reaches s1 s2 → enabled s2 e → run_event e s2 = (r, s3) → reaches s1 s3.

(** Runs in which every handler returned. *)
Inductive runs_clean : server → server → Prop :=
| clean_refl s : runs_clean s s
| clean_event s1 s2 e s3 :
    runs_clean s1 s2 → enabled s2 e → run_event e s2 = (Ok tt, s3) → runs_clean s1 s3.
End tracker.
