(* ===== verification/TrackerInv.v ===== *)
(** * Invariants of the RPC tracker

    Whatever peers and sockets do, handling an event ends, a socket that is open is a
    connection of the tracker, and as long as no handler lets an exception escape no
    request waits for a key that has a free resource. Failing sends make operations
    re-enter the schedulers, so the lemmas are stated for runs that start in the middle
    of scheduling some keys. *)

From S2P Require Import Prelude PyDict PyStr PyFloat PyJson JsonText Heapq Wire TcpHandler Scheduler Frames Tracker.

(** ** State predicates *)

Definition opens (w : tracker) (c : nat) : Prop := t_open (hget c w) = true.

Record wf (w : tracker) : Prop := {
  wf_open : ∀ c, opens w c → c ∈ tk_connections w;
  wf_heap : ∀ key, is_heap (ps_requests (sget key w))
}.

(** No key outside [ks] has both a free resource and a waiting request. *)
Definition matched (ks : gset string) (w : tracker) : Prop :=
  ∀ key, key ∉ ks → ps_values (sget key w) = [] ∨ ps_requests (sget key w) = [].

(** What operations other than accepting and requesting never add to. *)
Record shrinks_to (w w' : tracker) : Prop := {
  sh_conns : tk_connections w' ⊆ tk_connections w;
  sh_open : ∀ c, opens w' c → opens w c;
  sh_requests : ∀ key, (length (ps_requests (sget key w')) ≤ length (ps_requests (sget key w)))%nat
}.

#[export] Instance shrinks_to_preorder : PreOrder shrinks_to.
Proof.
  split.
  - intros w. split; [done|done|lia].
  - intros w1 w2 w3 [A1 A2 A3] [B1 B2 B3]. split.
    + by etrans.
    + intros c Hc. by apply A2, B2.
    + intros key. etrans; [apply B3|apply A3].
Qed.

(** Outcomes after which the schedulers are consistent: an [IOError] is a failed write to
    a closed connection. *)
Definition soft {A} (r : result A) : Prop :=
  match r with Ok _ => True | Raise e => e = IOError end.

Definition good (n : nat) (ks : gset string) (w : tracker) : Prop :=
  wf w ∧ (size (tk_connections w) ≤ n)%nat ∧ matched ks w.

Definition fine {A} (ks : gset string) (w : tracker) (r : result A) (w' : tracker) : Prop :=
  wf w' ∧ shrinks_to w w' ∧ r ≠ Raise OutOfFuel ∧ (soft r → matched ks w').

(** A computation that keeps the tracker consistent, from any good state. *)
Definition tame {A} (n : nat) (ks : gset string) (m : M tracker A) : Prop :=
  ∀ w, good n ks w → post m (fine ks w) w.

Lemma good_shrinks n ks w w' : good n ks w → wf w' → shrinks_to w w' → matched ks w' → good n ks w'.
Proof.
  intros (_ & Hs & _) Hw Hsh Hm. split_and!; [done| |done].
  etrans; [apply subseteq_size, Hsh|done].
Qed.

Lemma matched_weaken ks ks' w : ks ⊆ ks' → matched ks w → matched ks' w.
Proof. intros Hk Hm key Hkey. apply Hm. set_solver. Qed.

Lemma fine_trans {A B} ks w w1 (r1 : result A) r w2 :
  fine ks w r1 w1 → fine ks w1 (r : result B) w2 → fine ks w r w2.
Proof. intros (_ & S1 & _ & _) (? & S2 & ? & ?). split_and!; [done|by etrans|done..]. Qed.

(** ** Composition *)

Section tame.
Context (n : nat) (ks : gset string).

Lemma fine_bind {A B} (m : M tracker A) (k : A → M tracker B) w :
  good n ks w → post m (fine ks w) w →
  (∀ a w', good n ks w' → shrinks_to w w' → post (k a) (fine ks w') w') →
  post (m ≫= k) (fine ks w) w.
Proof.
  intros Hg Hm Hk. apply post_bind. eapply post_mono; [exact Hm|].
  intros [a|e] w' (Hw & Hs & Hr & Hmt).
  - eapply post_mono; [apply Hk|]; [|done|].
    + eapply good_shrinks; [done..|]. by apply Hmt.
    + intros r w2 Hf. eapply (fine_trans (A:=A)); [|exact Hf]. by split_and!.
  - split_and!; [done..| |done]. intros [= ->]. done.
Qed.

Lemma tame_bind {A B} (m : M tracker A) (k : A → M tracker B) :
  tame n ks m → (∀ a, tame n ks (k a)) → tame n ks (m ≫= k).
Proof. intros Hm Hk w Hw. apply fine_bind; [done|by apply Hm|]. intros a w' Hg _. by apply Hk. Qed.

Lemma fine_same {A} w (r : result A) : good n ks w → r ≠ Raise OutOfFuel → fine ks w r w.
Proof. intros (Hw & _ & Hm) Hr. by split_and!. Qed.

Lemma tame_ret {A} (a : A) : tame n ks (mret a).
Proof. intros w Hw. by apply fine_same. Qed.

Lemma tame_raise {A} e : e ≠ OutOfFuel → tame n ks (raise e : M tracker A).
Proof. intros He w Hw. apply fine_same; [done|]. by intros [= ->]. Qed.

Lemma tame_lift {A} (r : result A) : r ≠ Raise OutOfFuel → tame n ks (lift r).
Proof. intros He w Hw. by apply fine_same. Qed.

Lemma tame_get {A} (k : tracker → M tracker A) :
  (∀ w, good n ks w → post (k w) (fine ks w) w) → tame n ks (get_st ≫= k).
Proof. intros Hk w Hw. by apply Hk. Qed.

Lemma tame_get_any {A} (k : tracker → M tracker A) : (∀ w, tame n ks (k w)) → tame n ks (get_st ≫= k).
Proof. intros Hk w Hw. by apply Hk. Qed.

Lemma tame_mfor {A} (f : A → M tracker unit) l : (∀ a, a ∈ l → tame n ks (f a)) → tame n ks (mfor f l).
Proof.
  induction l as [|a l IH]; intros Hf; [apply tame_ret|]. cbn [mfor].
  apply tame_bind; [apply Hf; left|]. intros _. apply IH. intros b Hb. apply Hf. by right.
Qed.

Lemma tame_except_io {A} (m h : M tracker A) : tame n ks m → tame n ks h → tame n ks (except_io m h).
Proof.
  intros Hm Hh w Hw. specialize (Hm w Hw). unfold post, except_io in *.
  destruct (m w) as [[a|e] w']; [done|].
  destruct (decide (e = IOError)) as [->|Hne]; [|by destruct e].
  destruct Hm as (Hw' & Hs & _ & Hmt). cbn [fst snd] in *.
  eapply (fine_trans (A:=A) _ _ w' (Raise IOError)); [by split_and!|].
  apply Hh. eapply good_shrinks; [done..|]. by apply Hmt.
Qed.
End tame.

(** ** Updates of one connection *)

Lemma conn_of_set_eq c k w : conn_of (set_conn c k w) c = k.
Proof. unfold conn_of. simpl. by rewrite lookup_total_insert_eq. Qed.

Lemma conn_of_set_ne c c' k w : c ≠ c' → conn_of (set_conn c k w) c' = conn_of w c'.
Proof. intros. unfold conn_of. simpl. by rewrite lookup_total_insert_ne. Qed.

Lemma hget_hset c t w : hget c (hset c t w) = t.
Proof. unfold hget, hset. by rewrite conn_of_set_eq. Qed.

(** Replacing a connection by one whose socket is not newly open. *)
Lemma set_conn_shrinks c k w : (t_open (c_tcp k) = true → opens w c) → shrinks_to w (set_conn c k w).
Proof.
  intros Ho. split; [done| |done]. intros c'. unfold opens, hget.
  destruct (decide (c = c')) as [->|Hne]; [by rewrite conn_of_set_eq|by rewrite conn_of_set_ne].
Qed.

Lemma set_conn_good n ks c k w :
  good n ks w → (t_open (c_tcp k) = true → opens w c) →
  good n ks (set_conn c k w) ∧ shrinks_to w (set_conn c k w).
Proof.
  intros (Hw & Hs & Hm) Ho. pose proof (set_conn_shrinks c k w Ho) as Hsh. split; [|done].
  split_and!; [|done|done]. split; [|apply Hw]. intros c' Hc'. simpl. apply Hw. by apply Hsh.
Qed.

Lemma tame_conn_upd n ks c f :
  (∀ k, t_open (c_tcp (f k)) = true → t_open (c_tcp k) = true) → tame n ks (conn_upd c f).
Proof.
  intros Hf w Hw. destruct (set_conn_good n ks c (f (conn_of w c)) w Hw) as [(H1 & _ & H2) H3].
  { apply Hf. }
  by split_and!.
Qed.

(** ** Writing to a connection *)

Section close.
Variable float_repr : float → text.
Variable outcome : nat → nat → send_out.

Section writes.
Context (n : nat) (ks : gset string) (close : nat → M tracker unit) (c : nat).
Hypothesis close_tame : tame n ks (close c).
Hypothesis close_closes : ∀ w, good n ks w → post (close c) (λ r w', r = Ok tt → ¬ opens w' c) w.

Lemma fine_upd f w :
  good n ks w → (t_open (f (hget c w)) = true → opens w c) →
  good n ks (hset c (f (hget c w)) w) ∧ shrinks_to w (hset c (f (hget c w)) w).
Proof. intros Hw Ho. by apply set_conn_good. Qed.

Lemma tame_upd f : (∀ t, t_open (f t) = true → t_open t = true) → tame n ks (upd (hget c) (hset c) f).
Proof.
  intros Hf w Hw. destruct (fine_upd f w Hw (Hf _)) as [(H1 & _ & H2) H3]. by split_and!.
Qed.

(** The write loop ends: each round sends a byte or a message, and a failure closes. *)
Lemma write_loop_fine fuel w :
  good n ks w →
  (pending_size (hget c w) + 1 < fuel)%nat ∨ (¬ opens w c ∧ (0 < fuel)%nat) →
  post (write_loop (hget c) (hset c) (outcome c) (close c) fuel) (fine ks w) w.
Proof.
  revert w. induction fuel as [|fuel IH]; intros w Hw Hf; [lia|]. cbn [write_loop].
  unfold post. mrun. destruct (t_pending (hget c w)) as [|msg rest] eqn:Hp; [by apply (tame_ret n)|].
  destruct (t_open (hget c w)) eqn:Ho; cbn [negb]; [|by apply (tame_ret n)].
  assert (pending_size (hget c w) + 1 < S fuel)%nat as Hsz by (destruct Hf as [?|[[] _]]; done).
  destruct (outcome c (t_sends (hget c w))) as [k| |].
  - unfold upd. mrun. destruct (fine_upd (λ t, tcp_take t msg rest k) w Hw) as [Hg Hs]; [done|].
    eapply (fine_trans (A:=unit) _ _ _ (Ok tt)); [|apply IH; [exact Hg|]].
    + destruct Hg as (? & _ & ?). by split_and!.
    + left. rewrite hget_hset. pose proof (size_take (hget c w) msg rest k Hp). lia.
  - change (post (_ ← upd (hget c) (hset c) tcp_refused; mret false) (fine ks w) w).
    apply (tame_bind n ks); [by apply tame_upd|intros _; apply tame_ret|done].
  - unfold upd. mrun. destruct (fine_upd tcp_refused w Hw) as [Hg Hs]; [done|].
    eapply (fine_trans (A:=unit) _ _ _ (Ok tt)); [destruct Hg as (? & _ & ?); by split_and!|].
    set (w1 := hset c _ w) in *.
    apply post_bind. pose proof (close_tame w1 Hg) as H1. pose proof (close_closes w1 Hg) as H2.
    unfold post in *. destruct (close c w1) as [[[]|e] w2]; cbn [fst snd] in *.
    + eapply (fine_trans (A:=unit)); [exact H1|]. destruct H1 as (Hwf & Hsh & _ & Hmt).
      apply IH; [eapply good_shrinks; [done..|by apply Hmt]|]. right. split; [by apply H2|lia].
    + destruct H1 as (? & ? & He & ?). split_and!; [done..| |done]. intros [= ->]. done.
Qed.

Lemma update_handler_tame b : tame n ks (update_handler (hget c) (hset c) b).
Proof.
  apply tame_get. intros w Hw. destruct (t_open (hget c w)) eqn:Ho.
  - by apply tame_upd.
  - by apply (tame_raise n).
Qed.

Lemma update_write_tame : tame n ks (update_write (hget c) (hset c) (outcome c) (close c) (close c)).
Proof.
  apply tame_get. intros w Hw. apply (fine_bind n); [done| |].
  { apply write_loop_fine; [done|]. left. lia. }
  intros [] w' Hw' _; [by apply (tame_ret n)|]. revert w' Hw'. apply tame_get. intros w' Hw'.
  case_decide; [by apply update_handler_tame|]. destruct (t_signal_close (hget c w')).
  - by apply close_tame.
  - by apply update_handler_tame.
Qed.

Lemma conn_write_tame b : tame n ks (conn_write outcome close c b).
Proof.
  apply tame_get. intros w Hw. destruct (t_open (hget c w)); cbn [negb].
  - revert w Hw. apply tame_bind; [by apply tame_upd|]. intros _. apply update_write_tame.
  - by apply (tame_raise n).
Qed.

Lemma pack_no_fuel z : pack_i32 z ≠ Raise OutOfFuel.
Proof. unfold pack_i32. by destruct (_ && _). Qed.

Lemma ret_value_tame v : tame n ks (ret_value float_repr outcome close c v).
Proof.
  apply tame_bind; [apply tame_lift, pack_no_fuel|]. intros h.
  apply tame_bind; [apply conn_write_tame|]. intros _. apply conn_write_tame.
Qed.

Lemma request_cb_tame v : tame n ks (request_cb float_repr outcome close c v).
Proof.
  apply tame_get. intros w Hw. destruct (negb _); [by apply (tame_ret n)|].
  revert w Hw. apply tame_except_io; [|apply tame_ret].
  apply tame_bind; [apply ret_value_tame|]. intros _. apply tame_ret.
Qed.
End writes.

(** ** Scheduling *)

Lemma sget_sset_eq key s w : sget key (sset key s w) = s.
Proof. unfold sget, sset. simpl. by rewrite dget_dset_eq. Qed.

Lemma sget_sset_ne key key' s w : key ≠ key' → sget key' (sset key s w) = sget key' w.
Proof. intros. unfold sget, sset. simpl. by rewrite dget_dset_ne. Qed.

Lemma fine_after {A} ks w w1 (r : result A) w2 : shrinks_to w w1 → fine ks w1 r w2 → fine ks w r w2.
Proof. intros H1 (? & H2 & ? & ?). split_and!; [done|by etrans|done..]. Qed.

(** Changing the queues of a key that is being scheduled. *)
Lemma sset_good n ks key s w :
  good n ({[key]} ∪ ks) w → is_heap (ps_requests s) →
  (length (ps_requests s) ≤ length (ps_requests (sget key w)))%nat →
  good n ({[key]} ∪ ks) (sset key s w) ∧ shrinks_to w (sset key s w).
Proof.
  intros (Hw & Hs & Hm) Hh Hl. split.
  - split_and!; [|done|].
    + split; [apply Hw|]. intros key'. destruct (decide (key = key')) as [->|Hne];
        [by rewrite sget_sset_eq|rewrite sget_sset_ne by done; apply Hw].
    + intros key' Hk. rewrite sget_sset_ne by set_solver. by apply Hm.
  - split; [done|done|]. intros key'. destruct (decide (key = key')) as [->|Hne];
      [by rewrite sget_sset_eq|by rewrite sget_sset_ne].
Qed.

Lemma remove_matchkey_tame n ks v : tame n ks (remove_matchkey v).
Proof.
  apply tame_get. intros w Hw. cbv beta zeta.
  case_decide; [by apply (tame_conn_upd n)|by apply (tame_raise n)].
Qed.

Lemma except_io_ret {A} (m : M tracker A) a w : (except_io m (mret a) w).1 ≠ Raise IOError.
Proof. unfold except_io. destruct (m w) as [[b|[]] w']; done. Qed.

(** An exception other than [IOError] promises nothing about the matching. *)
Lemma fine_hard {A B} ks ks' w e w' :
  fine ks w (Raise e : result A) w' → e ≠ IOError → fine ks' w (Raise e : result B) w'.
Proof. intros (? & ? & He & _) Hio. split_and!; [done|done| |done]. by intros [= ->]. Qed.

Section sched.
Context (n : nat) (ks : gset string) (key : string) (close : nat → M tracker unit).
#[local] Abbreviation cb := (request_cb float_repr outcome close).
Hypothesis cb_tame : ∀ c v, tame n ({[key]} ∪ ks) (cb c v).

Lemma cb_no_io c v w : (cb c v w).1 ≠ Raise IOError.
Proof. unfold request_cb. mrun. destruct (negb _); [done|]. apply except_io_ret. Qed.

(** Taking the first resource and the first request leaves a good state. *)
Lemma loop_pop w q qs v vs :
  good n ({[key]} ∪ ks) w → ps_requests (sget key w) = q :: qs → ps_values (sget key w) = v :: vs →
  ∃ item r, heappop (q :: qs) = Ok (item, r) ∧
    let w1 := sset key (with_queues (sget key w) vs (q :: qs)) w in
    let w2 := sset key (with_queues (sget key w1) (ps_values (sget key w1)) r) w1 in
    good n ({[key]} ∪ ks) w2 ∧ shrinks_to w w2 ∧ (length (ps_requests (sget key w2)) ≤ length qs)%nat.
Proof.
  intros Hg Eq Ev. pose proof (wf_heap _ (proj1 Hg) key) as Hh. rewrite Eq in Hh.
  destruct (heappop_spec (q :: qs)) as (item & r & Hpop & _ & Hr & Hperm);
    [done|by apply Forall_forall|done|].
  apply Permutation_length in Hperm. simpl in Hperm.
  exists item, r. split; [done|]. cbv zeta. rewrite sget_sset_eq.
  set (w1 := sset key _ w). destruct (sset_good n ks key (with_queues (sget key w) vs (q :: qs)) w Hg)
    as [Hg1 Hs1]; [done|by rewrite Eq|]. fold w1 in Hg1, Hs1.
  destruct (sset_good n ks key (with_queues (with_queues (sget key w) vs (q :: qs)) vs r) w1 Hg1)
    as [Hg2 Hs2]; [done|unfold w1; rewrite sget_sset_eq; simpl; lia|].
  split_and!; [done|by etrans|]. rewrite sget_sset_eq. simpl. lia.
Qed.

Lemma schedule_loop_fine fuel w :
  good n ({[key]} ∪ ks) w → (length (ps_requests (sget key w)) < fuel)%nat →
  post (schedule_loop (sget key) (sset key) cb remove_matchkey fuel) (fine ks w) w.
Proof.
  revert w. induction fuel as [|fuel IH]; intros w Hg Hf; [lia|]. cbn [schedule_loop]. unfold post. mrun.
  assert (ps_values (sget key w) = [] ∨ ps_requests (sget key w) = [] →
    post (mret tt : M tracker unit) (fine ks w) w) as Hend.
  { intros He. destruct Hg as (Hw & _ & Hm). split_and!; [done..|]. intros _ key' Hk.
    destruct (decide (key' = key)) as [->|Hne]; [done|]. apply Hm. set_solver. }
  destruct (ps_requests (sget key w)) as [|q qs] eqn:Eq; [apply Hend; by right|].
  destruct (ps_values (sget key w)) as [|v vs] eqn:Ev; [apply Hend; by left|]. clear Hend.
  destruct (loop_pop w q qs v vs Hg Eq Ev) as (item & r & Hpop & Hg2 & Hs2 & Hf2). simpl in Hf.
  unfold sched_upd. mrun. rewrite Hpop. mrun. cbv zeta in Hg2, Hs2, Hf2. rewrite Eq.
  set (w2 := sset key _ (sset key _ w)) in *. apply (fine_after _ _ w2); [done|]. apply post_bind.
  pose proof (cb_tame (q_callback item) v w2 Hg2) as Hc. pose proof (cb_no_io (q_callback item) v w2) as Hio.
  unfold post in Hc |- *. destruct (cb (q_callback item) v w2) as [[ok|e] w3]; cbn [fst snd] in *; cycle 1.
  { eapply fine_hard; [exact Hc|congruence]. }
  destruct Hc as (Hw3 & Hs3 & _ & Hm3). specialize (Hm3 I).
  assert (good n ({[key]} ∪ ks) w3) as Hg3 by by eapply good_shrinks.
  pose proof (sh_requests _ _ Hs3 key) as Hl3.
  apply (fine_after _ _ w3); [done|]. destruct ok.
  - apply post_bind. pose proof (remove_matchkey_tame n ({[key]} ∪ ks) v w3 Hg3) as Hk.
    assert ((remove_matchkey v w3).1 ≠ Raise IOError) as Hkio.
    { unfold remove_matchkey. mrun. by case_decide. }
    unfold post in Hk |- *. destruct (remove_matchkey v w3) as [[[]|e] w4]; cbn [fst snd] in *.
    + destruct Hk as (Hw4 & Hs4 & _ & Hm4). apply (fine_after _ _ w4); [done|].
      apply IH; [eapply good_shrinks; [done..|by apply Hm4]|].
      pose proof (sh_requests _ _ Hs4 key). lia.
    + eapply fine_hard; [exact Hk|congruence].
  - mrun. destruct (sset_good n ks key
      (with_queues (sget key w3) (ps_values (sget key w3) ++ [v]) (ps_requests (sget key w3))) w3 Hg3)
      as [Hg4 Hs4]; [apply Hg3|done|].
    eapply fine_after; [exact Hs4|]. apply IH; [exact Hg4|]. rewrite sget_sset_eq. simpl. lia.
Qed.

Lemma schedule_fine w :
  good n ({[key]} ∪ ks) w → post (schedule (sget key) (sset key) cb remove_matchkey) (fine ks w) w.
Proof. intros Hg. unfold schedule, post. mrun. apply schedule_loop_fine; [done|lia]. Qed.

(** After any change of the queues of [key] that adds no request. *)
Lemma sched_upd_fine f w :
  good n ks w → is_heap (ps_requests (f (sget key w))) →
  (length (ps_requests (f (sget key w))) ≤ length (ps_requests (sget key w)))%nat →
  post (sched_upd (sget key) (sset key) f ≫= λ _, schedule (sget key) (sset key) cb remove_matchkey)
    (fine ks w) w.
Proof.
  intros (Hw & Hs & Hm) Hh Hl. unfold sched_upd, post. mrun.
  destruct (sset_good n ks key (f (sget key w)) w) as [Hg Hsh]; [|done|done|].
  { split_and!; [done..|]. eapply matched_weaken; [|done]. set_solver. }
  eapply fine_after; [exact Hsh|]. by apply schedule_fine.
Qed.

Lemma sched_remove_tame v : tame n ks (sched_remove (sget key) (sset key) cb remove_matchkey v).
Proof.
  apply tame_get. intros w Hw. case_decide; [|by apply (tame_ret n)].
  assert (∃ vs, py_remove (ps_values (sget key w)) v = Ok vs) as [vs Hvs].
  { by apply py_remove_ok. }
  rewrite Hvs. unfold post. mrun. apply sched_upd_fine; [done|apply Hw|done].
Qed.

Lemma sched_put_tame v : tame n ks (sched_put (sget key) (sset key) cb remove_matchkey v).
Proof. intros w Hw. apply sched_upd_fine; [done|apply Hw|done]. Qed.
End sched.

(** ** Closing *)

(** The closing [close] of a connection, nested closings included, with the connection closed
    whatever happens later. *)
Definition closes (n : nat) (ks : gset string) (close : nat → M tracker unit) : Prop :=
  ∀ c w, good n ks w → post (close c) (λ r w', fine ks w r w' ∧ ¬ opens w' c) w.

Lemma closes_cb n ks close c v :
  closes n ks close → tame n ks (request_cb float_repr outcome close c v).
Proof.
  intros Hc. apply request_cb_tame; intros w Hw.
  - eapply post_mono; [by apply Hc|]. by intros ? ? [? _].
  - eapply post_mono; [by apply Hc|]. by intros ? ? [_ ?].
Qed.

Lemma remove_resource_tame n ks close key v :
  (∀ ks, closes n ks close) → tame n ks (remove_resource float_repr outcome close key v).
Proof.
  intros Hc. apply tame_get. intros w Hw. destruct (dmem _ _); [|by apply (tame_raise n)].
  apply (sched_remove_tame n); [|done]. intros c' v'. by apply closes_cb.
Qed.

Lemma key_type_total k : key_type k ≠ Raise OutOfFuel.
Proof. destruct k as [| | | | s | |]; try done. simpl. unfold py_nth. destruct (_ !! _); done. Qed.

(** The connection leaves the tracker, so fewer of them are left for nested closings. *)
Lemma drop_conn_good n ks c w :
  good (S n) ks w → c ∈ tk_connections w → ¬ opens w c →
  good n ks (set_connections (tk_connections w ∖ {[c]}) w) ∧
  shrinks_to w (set_connections (tk_connections w ∖ {[c]}) w).
Proof.
  intros (Hw & Hs & Hm) Hc Ho. split.
  - split_and!; [| |done].
    + split; [|apply Hw]. intros c' Hc'. simpl. apply elem_of_difference. split; [by apply Hw|].
      intros ->%elem_of_singleton. by apply Ho.
    + simpl. rewrite size_difference by set_solver. rewrite size_singleton. lia.
  - split; [simpl; set_solver|done|done].
Qed.

Lemma tracker_close_fine n ks close c w :
  (∀ ks, closes n ks close) → good (S n) ks w → c ∈ tk_connections w → ¬ opens w c →
  post (tracker_close float_repr outcome close c) (λ r w', fine ks w r w' ∧ ¬ opens w' c) w.
Proof.
  intros Hcl Hg Hc Ho. unfold tracker_close, post. mrun. rewrite decide_True by done. mrun.
  destruct (drop_conn_good n ks c w Hg Hc Ho) as [Hg' Hs]. set (w1 := set_connections _ w) in *.
  assert (∀ r w', fine ks w1 (r : result unit) w' → fine ks w r w' ∧ ¬ opens w' c) as Hdone.
  { intros r w' Hf. split; [by eapply fine_after|]. intros Ho'. apply Ho. apply Hf in Ho'. exact Ho'. }
  apply Hdone. destruct (dget _ _) as [k|]; [|by apply (tame_ret n)].
  revert w1 Hg' Hs Hdone. intros w1 Hg' _ _. revert w1 Hg'. apply tame_bind; [apply tame_lift, key_type_total|].
  intros key. apply tame_mfor. intros v _. by apply remove_resource_tame.
Qed.

Lemma conn_close_closes fuel n ks : (n < fuel)%nat → closes n ks (conn_close float_repr outcome fuel).
Proof.
  revert n ks. induction fuel as [|fuel IH]; intros n ks Hn c w Hg; [lia|]. cbn [conn_close].
  unfold tcp_close, post. mrun. destruct (t_open (hget c w)) eqn:Ho; cycle 1.
  { split; [by apply (fine_same n)|]. unfold opens. simpl. by rewrite Ho. }
  unfold upd. mrun. destruct (fine_upd n ks c tcp_closed w Hg) as [Hg1 Hs1]; [done|].
  set (w1 := hset c _ w) in *.
  assert (c ∈ tk_connections w) as Hc by by apply Hg.
  assert (0 < size (tk_connections w))%nat as Hpos.
  { apply Nat.neq_0_lt_0. intros E%size_empty_inv. set_solver. }
  destruct n as [|n]; [destruct Hg as (_ & Hn0 & _); lia|].
  assert (¬ opens w1 c) as Hcl. { unfold opens, w1. by rewrite hget_hset. }
  assert (∀ ks, closes n ks (conn_close float_repr outcome fuel)) as Hcs by (intros; apply IH; lia).
  pose proof (tracker_close_fine n ks _ c w1 Hcs Hg1 Hc Hcl) as H.
  eapply (post_mono (tracker_close float_repr outcome (conn_close float_repr outcome fuel) c)); [exact H|].
  intros r w' [Hf Ho']. split; [by eapply fine_after|done].
Qed.

Lemma close_closes_all n ks : closes n ks (close float_repr outcome).
Proof.
  intros c w (Hw & _ & Hm). unfold close, post. mrun.
  apply (conn_close_closes (S (size (tk_connections w))) (size (tk_connections w))); [lia|by split_and!].
Qed.

Lemma close_tame n ks c : tame n ks (close float_repr outcome c).
Proof. intros w Hw. eapply post_mono; [by apply (close_closes_all n)|]. by intros ? ? [? _]. Qed.
End close.

(** ** Message handlers *)

Create HintDb total discriminated.

Lemma arg_total a i : arg a i ≠ Raise OutOfFuel.
Proof.
  assert (∀ A (l : list A), py_nth l i ≠ Raise OutOfFuel) as Hn.
  { intros A l. unfold py_nth. destruct (_ <? 0); [done|]. by destruct (_ !! _). }
  destruct a as [| | | | s | l |]; try done; simpl; [|apply Hn].
  specialize (Hn _ (chars s)). destruct (py_nth _ _); [done|]. simpl. congruence.
Qed.

Lemma arg_len_total a : arg_len a ≠ Raise OutOfFuel.
Proof. by destruct a. Qed.

Lemma unpack2_total v : unpack2 v ≠ Raise OutOfFuel.
Proof. unfold unpack2. repeat case_match; done. Qed.

Lemma arg_str_total v : arg_str v ≠ Raise OutOfFuel.
Proof. by destruct v. Qed.

Lemma arg_int_total v : arg_int v ≠ Raise OutOfFuel.
Proof. by destruct v. Qed.

Lemma dict_update_total d v : dict_update d v ≠ Raise OutOfFuel.
Proof. unfold dict_update. repeat case_match; done. Qed.

Lemma unpack_total b : unpack_i32 b ≠ Raise OutOfFuel.
Proof. unfold unpack_i32. repeat case_match; done. Qed.

#[export] Hint Resolve arg_total arg_len_total unpack2_total arg_str_total arg_int_total
  dict_update_total unpack_total pack_no_fuel : total.

Section handlers.
Variable float_repr : float → text.
Variable outcome : nat → nat → send_out.
Variable iter_conns : gset nat → list nat.
Variable iter_keys : gset string → list string.
Context (n : nat) (ks : gset string).
#[local] Abbreviation close := (close float_repr outcome).

Lemma reply_tame c v : tame n ks (ret_value float_repr outcome close c v).
Proof.
  apply ret_value_tame; [apply close_tame|]. intros w Hw.
  eapply post_mono; [by apply (close_closes_all _ _ n)|]. by intros ? ? [_ ?].
Qed.

Lemma sget_ensure key key' w : dmem (tk_map w) key = false →
  sget key' (sset key PriorityScheduler_init w) = sget key' w.
Proof.
  unfold dmem. destruct (dget (tk_map w) key) eqn:E; [done|]. intros _.
  destruct (decide (key = key')) as [<-|Hne]; [|by apply sget_sset_ne].
  rewrite sget_sset_eq. unfold sget. by rewrite E.
Qed.

Lemma ensure_scheduler_tame key : tame n ks (ensure_scheduler key).
Proof.
  apply tame_get. intros w (Hw & Hs & Hm). destruct (dmem _ _) eqn:E; [by apply (tame_ret n)|].
  unfold post, modify. cbn [fst snd]. split_and!.
  - split; [apply Hw|]. intros key'. rewrite sget_ensure by done. apply Hw.
  - split; [done|done|]. intros key'. by rewrite sget_ensure.
  - done.
  - intros _ key' Hk. rewrite sget_ensure by done. by apply Hm.
Qed.

Lemma tracker_put_tame key v : tame n ks (tracker_put float_repr outcome close key v).
Proof.
  apply tame_bind; [apply ensure_scheduler_tame|]. intros _. apply sched_put_tame.
  intros c' v'. apply closes_cb, close_closes_all.
Qed.

Lemma handle_put_tame c args : tame n ks (handle_put float_repr outcome c args).
Proof.
  apply tame_bind; [eauto using tame_lift with total|intros k].
  apply tame_bind; [eauto using tame_lift with total|intros a2].
  apply tame_bind; [eauto using tame_lift with total|intros [port m]].
  apply tame_bind; [eauto using tame_lift with total|intros matchkey].
  apply tame_bind; [by apply tame_conn_upd|intros _].
  apply tame_bind; [eauto using tame_lift with total|intros len].
  apply tame_bind; [destruct (4 <=? len); eauto using tame_lift, tame_ret with total|intros a3].
  apply tame_get_any. intros w.
  apply tame_bind; [case_decide; eauto using tame_lift, tame_ret with total|intros addr]. cbv zeta.
  apply tame_bind; [eauto using tame_lift with total|intros key].
  apply tame_bind; [apply tracker_put_tame|intros _].
  apply tame_bind; [by apply tame_conn_upd|intros _]. apply reply_tame.
Qed.

Lemma tracker_stop_tame : tame n ks (tracker_stop float_repr outcome iter_conns).
Proof.
  apply tame_get_any. intros w0.
  apply tame_bind; [apply tame_mfor; intros; apply close_tame|]. intros _ w (Hw & ? & ?).
  by split_and!; [destruct Hw|split; [done|done|]|..].
Qed.

Lemma handle_stop_tame c args : tame n ks (handle_stop float_repr outcome iter_conns c args).
Proof.
  apply tame_bind; [eauto using tame_lift with total|intros k]. apply tame_get_any. intros w.
  destruct (decide (k = JStr (tk_stop_key w))); [|by apply reply_tame].
  apply tame_bind; [apply reply_tame|]. intros _. apply tracker_stop_tame.
Qed.

Lemma handle_update_info_tame c args : tame n ks (handle_update_info float_repr outcome c args).
Proof.
  apply tame_bind; [eauto using tame_lift with total|intros v]. apply tame_get_any. intros w.
  apply tame_bind; [eauto using tame_lift with total|intros i'].
  apply tame_bind; [by apply tame_conn_upd|intros _]. apply reply_tame.
Qed.

Lemma summary_total w : tracker_summary iter_conns w ≠ Raise OutOfFuel.
Proof.
  unfold tracker_summary. assert (∀ l, server_info l ≠ Raise OutOfFuel) as H.
  { induction l as [|i l IH]; [done|]. simpl. unfold is_server.
    destruct (default _ _); try done. cbn [mbind result_bind]. destruct (server_info l); [done|]. cbn. congruence. }
  specialize (H ((λ c, c_info (conn_of w c)) <$> iter_conns (tk_connections w))).
  destruct (server_info _); [done|]. cbn. congruence.
Qed.

Lemma handle_summary_tame c : tame n ks (handle_summary float_repr outcome iter_conns c).
Proof.
  apply tame_get_any. intros w0.
  apply tame_bind; [apply tame_lift, summary_total|]. intros st. apply reply_tame.
Qed.
End handlers.

(** ** Events

    From here on requests may be added and connections accepted. *)

Definition settles {A} (ks : gset string) (r : result A) (w : tracker) : Prop :=
  wf w ∧ r ≠ Raise OutOfFuel ∧ (soft r → matched ks w).

Section settled.
Context {S : Type} (π : S → tracker) (ks : gset string).

(** Handling keeps the part [π] of the state consistent. *)
Definition settled {A} (m : M S A) : Prop :=
  ∀ s, wf (π s) → matched ks (π s) → post m (λ r s', settles ks r (π s')) s.

Lemma settled_bind {A B} (m : M S A) (k : A → M S B) :
  settled m → (∀ a, settled (k a)) → settled (m ≫= k).
Proof.
  intros Hm Hk s Hw Hmt. apply post_bind. eapply post_mono; [by apply Hm|].
  intros [a|e] s' (Hw' & Hr & Hs); [apply Hk; [done|by apply Hs]|].
  split_and!; [done| |done]. by intros [= ->].
Qed.

Lemma settled_ret {A} (a : A) : settled (mret a).
Proof. intros s Hw Hm. by split_and!. Qed.

Lemma settled_lift {A} (r : result A) : r ≠ Raise OutOfFuel → settled (lift r).
Proof. intros Hr s Hw Hm. by split_and!. Qed.

Lemma settled_except_io {A} (m h : M S A) : settled m → settled h → settled (except_io m h).
Proof.
  intros Hm Hh s Hw Hmt. specialize (Hm s Hw Hmt). unfold post, except_io in *.
  destruct (m s) as [[a|e] s']; [done|]. destruct (decide (e = IOError)) as [->|?]; [|by destruct e].
  destruct Hm as (Hw' & _ & Hm'). apply Hh; [done|by apply Hm'].
Qed.
End settled.

Section server.
Variable float_repr : float → text.
Variable outcome : nat → nat → send_out.
Variable iter_conns : gset nat → list nat.
Variable iter_keys : gset string → list string.
Context (ks : gset string).
#[local] Abbreviation close := (close float_repr outcome).
#[local] Abbreviation on_conn := (settled id ks).

Lemma tame_settled {A} (m : M tracker A) : (∀ n, tame n ks m) → on_conn m.
Proof.
  intros Hm w Hw Hmt. eapply post_mono; [apply (Hm (size (tk_connections w))); by split_and!|].
  by intros r w' (? & _ & ? & ?).
Qed.

Lemma tracker_request_settled key priority c : on_conn (tracker_request float_repr outcome close key priority c).
Proof.
  apply settled_bind; [apply tame_settled; intros; apply ensure_scheduler_tame|]. intros _ w Hw Hm.
  unfold sched_request, sched_upd, post. mrun. unfold id in *.
  destruct (heappush_spec (ps_requests (sget key w)) {| q_neg_priority := - priority;
    q_cnt := ps_request_cnt (sget key w); q_callback := c |}) as [Hh _];
    [apply Hw|by apply Forall_forall|done|].
  set (w1 := sset key _ w).
  assert (good (size (tk_connections w1)) ({[key]} ∪ ks) w1) as Hg.
  { split_and!; [split|done|].
    - apply Hw.
    - intros key'. unfold w1. destruct (decide (key = key')) as [<-|Hne];
        [by rewrite sget_sset_eq|rewrite sget_sset_ne by done; apply Hw].
    - intros key' Hk. unfold w1. rewrite sget_sset_ne by set_solver. apply Hm. set_solver. }
  eapply post_mono; [eapply schedule_fine; [|exact Hg]|].
  - intros c' v'. apply closes_cb, close_closes_all.
  - by intros r w' (? & _ & ? & ?).
Qed.

Lemma call_handler_settled c args : on_conn (call_handler float_repr outcome iter_conns iter_keys c args).
Proof.
  apply settled_bind; [eauto using settled_lift with total|intros code]. cbv beta zeta.
  destruct (eq_int _ _); [apply tame_settled; intros; apply handle_put_tame|].
  destruct (eq_int _ _).
  { do 5 (apply settled_bind; [eauto using settled_lift with total|intros ?]). apply tracker_request_settled. }
  destruct (eq_int _ _); [apply tame_settled; intros; apply reply_tame|].
  destruct (eq_int _ _).
  { apply tame_settled. intros n. apply tame_get_any. intros w. apply reply_tame. }
  destruct (eq_int _ _); [apply tame_settled; intros; apply handle_stop_tame|].
  destruct (eq_int _ _); [apply tame_settled; intros; apply handle_update_info_tame|].
  destruct (eq_int _ _); [apply tame_settled; intros; apply handle_summary_tame|].
  apply tame_settled. intros. apply close_tame.
Qed.

Lemma conn_write_settled n c b : tame n ks (conn_write outcome close c b).
Proof.
  apply conn_write_tame; [apply close_tame|]. intros w Hw.
  eapply post_mono; [by apply (close_closes_all _ _ n)|]. by intros ? ? [_ ?].
Qed.

Lemma init_conn_settled c message : on_conn (init_conn float_repr outcome c message).
Proof.
  apply tame_settled. intros n.
  apply tame_bind; [case_decide; [apply close_tame|apply tame_ret]|intros _].
  apply tame_bind; [eauto using tame_lift with total|intros magic].
  apply tame_bind; [case_decide; [apply close_tame|apply tame_ret]|intros _].
  apply tame_bind; [eauto using tame_lift with total|intros h]. apply conn_write_settled.
Qed.

#[local] Abbreviation on_server := (settled sv_tracker ks).

Lemma on_tracker_settled {A} (m : M tracker A) : on_conn m → on_server (on_tracker m).
Proof.
  intros Hm s Hw Hmt. specialize (Hm _ Hw Hmt). unfold post, on_tracker in *.
  by destruct (m (sv_tracker s)) as [r w].
Qed.

Lemma conn_message_settled c message :
  on_server (conn_message float_repr outcome iter_conns iter_keys c message).
Proof.
  intros s Hw Hm. unfold post, conn_message.
  set (b := sv_bufs s !!! c). set (w := sv_tracker s) in *.
  enough (post (on_message (init_conn float_repr outcome c)
            (call_handler float_repr outcome iter_conns iter_keys c) message)
            (λ r bw, settles ks r bw.2) (b, w)) as H.
  { unfold post in H. by destruct (on_message _ _ _ _) as [r [b' w']]. }
  unfold on_message, rbuf_upd, post. mrun. destruct (negb _).
  - apply post_bind. pose proof (init_conn_settled c message w Hw Hm) as H. unfold post, on_snd in *.
    destruct (init_conn _ _ _ _ w) as [[[]|e] w']; [|done]. destruct H as (? & _ & H). by split_and!; [..|apply H].
  - mrun. eapply post_mono; [eapply (message_loop_post _ (λ w, wf w ∧ matched ks w)
      (λ e w, wf w ∧ (e = IOError → matched ks w)))|].
    + intros v w0 [Hw0 Hm0]. eapply post_mono; [by apply call_handler_settled|].
      intros [[]|e] w' (? & He & Hs); [by split; [|apply Hs]|]. split; [by intros ->|done].
    + by intros e w0 [? ?].
    + done.
    + lia.
    + intros [[]|e] s' H; [destruct H; by split_and!|]. destruct H as (He & ? & ?).
      split_and!; [done| |done]. by intros [= ->].
Qed.

Lemma conn_event_settled c read write input :
  on_server (conn_event float_repr outcome iter_conns iter_keys c read write input).
Proof.
  assert (on_server (on_tracker (close c))) as Hc.
  { apply on_tracker_settled, tame_settled. intros. apply close_tame. }
  assert (on_server (on_tracker (update_write (hget c) (hset c) (outcome c) (close c) (close c)))) as Hu.
  { apply on_tracker_settled, tame_settled. intros n. apply update_write_tame; [apply close_tame|].
    intros w Hw. eapply post_mono; [by apply (close_closes_all _ _ n)|]. by intros ? ? [_ ?]. }
  unfold conn_event, event_handler. destruct read; [|by destruct write; [|apply settled_ret]].
  apply settled_bind; [|intros ok; by destruct (ok && write); [|apply settled_ret]].
  apply settled_except_io; [|apply settled_bind; [done|intros _; apply settled_ret]].
  destruct input as [b| | |].
  - apply settled_bind; [apply conn_message_settled|intros _; apply settled_ret].
  - apply settled_bind; [done|intros _; apply settled_ret].
  - apply settled_ret.
  - by apply settled_lift.
Qed.

Lemma accept_settled a : on_server (accept_one a).
Proof.
  destruct a as [addr|]; [|apply settled_ret]. intros s Hw Hm. unfold post, accept_one, modify.
  cbn [fst snd sv_tracker]. set (c := fresh _). split_and!; [|done|done].
  split; [|apply Hw]. intros c' Hc'. cbn [set_connections set_conn tk_connections].
  destruct (decide (c' = c)) as [->|Hne]; [set_solver|]. apply elem_of_union_r. apply Hw.
  unfold opens, hget in *.
  change (conn_of (set_connections ?x ?y)) with (conn_of y) in Hc'. by rewrite conn_of_set_ne in Hc'.
Qed.

Lemma run_event_settled e : on_server (run_event float_repr outcome iter_conns iter_keys e).
Proof.
  destruct e as [l|c read write input]; [|apply conn_event_settled].
  cbn [run_event]. unfold on_accept. induction l as [|a l IH]; [apply settled_ret|].
  cbn [mfor]. apply settled_bind; [apply accept_settled|]. by intros _.
Qed.
End server.

(** Every key of the tracker may be unmatched. *)
Lemma matched_all w : matched (list_to_set (dkeys (tk_map w))) w.
Proof.
  intros key Hk. left. unfold sget. rewrite (proj2 (dget_None (tk_map w) key)); [done|].
  intros Hin. apply Hk. by apply elem_of_list_to_set.
Qed.

Definition fresh_server (stop_key : string) : server :=
  {| sv_tracker := TrackerServerHandler_init stop_key; sv_bufs := ∅ |}.

Lemma fresh_server_ok stop_key : wf (sv_tracker (fresh_server stop_key)) ∧
  matched ∅ (sv_tracker (fresh_server stop_key)).
Proof. split; [split|]; [done|intros; apply is_heap_nil|by left]. Qed.

(** C4: The tracker hands resources out as soon as it can, and never gets stuck.
    Consider any sequence of events (accepted connections, received chunks, end of
    streams, read errors, write events) with any answers of the sockets to [send] and
    any order in which sets are visited. Handling an event always ends, although failed
    writes close connections, which re-enters the schedulers; a socket that is open is
    a connection of the tracker; and if no handler let an exception escape, no request
    waits for a key that has a free resource. *)
Theorem tracker_matches_requests (float_repr : float → text) (outcome : nat → nat → send_out)
    (iter_conns : gset nat → list nat) (iter_keys : gset string → list string)
    (stop_key : string) (s : server) :
  reaches float_repr outcome iter_conns iter_keys (fresh_server stop_key) s →
  (∀ c, t_open (hget c (sv_tracker s)) = true → c ∈ tk_connections (sv_tracker s)) ∧
  (∀ e, (run_event float_repr outcome iter_conns iter_keys e s).1 ≠ Raise OutOfFuel) ∧
  (runs_clean float_repr outcome iter_conns iter_keys (fresh_server stop_key) s →
   ∀ key, ps_values (sget key (sv_tracker s)) = [] ∨ ps_requests (sget key (sv_tracker s)) = []).
Proof.
  intros Hr. assert (wf (sv_tracker s)) as Hw.
  { remember (fresh_server stop_key) as s0 eqn:E0. induction Hr as [s|s1 s2 e r s3 _ IH _ Hrun]; subst.
    - apply fresh_server_ok.
    - specialize (IH eq_refl). pose proof (run_event_settled float_repr outcome iter_conns iter_keys _ e
        s2 IH (matched_all _)) as [H _]. by rewrite Hrun in H. }
  split_and!.
  - apply Hw.
  - intros e. by destruct (run_event_settled float_repr outcome iter_conns iter_keys _ e s Hw (matched_all _))
      as (_ & ? & _).
  - intros Hc. cut (wf (sv_tracker s) ∧ matched ∅ (sv_tracker s)); [intros [_ Hm] key; by apply Hm|].
    clear Hr Hw. remember (fresh_server stop_key) as s0 eqn:E0.
    induction Hc as [s|s1 s2 e s3 _ IH _ Hrun]; subst; [apply fresh_server_ok|].
    destruct (IH eq_refl) as [Hw Hm].
    destruct (run_event_settled float_repr outcome iter_conns iter_keys ∅ e s2 Hw Hm) as (H1 & _ & H2).
    rewrite Hrun in H1, H2. split; [done|]. by apply H2.
Qed.

(** A server and a client: both shake hands, the client asks first, and the server then
    offers two resources. *)
Definition greeting : bytes := [byte 113; byte 242; byte 2; byte 0].
Definition text_of (_ : float) : text := [].
Definition all_sent (_ _ : nat) : send_out := Sent 4095.
Definition request_message : json :=
  JList [JInt (tracker_code REQUEST); JStr "rasp3b"; JStr "user"; JInt 1].
Definition put_message (k : string) : json :=
  JList [JInt (tracker_code PUT); JStr "rasp3b"; JList [JInt 9090; JStr k]; JNull].

Definition session : list event :=
  [EvAccept [Accepted (JList [JStr "10.0.0.1"; JInt 4000]); Accepted (JList [JStr "10.0.0.2"; JInt 4001])];
   EvConn 0 true false (Data greeting);
   EvConn 1 true false (Data greeting);
   EvConn 1 true false (Data (frame text_of request_message));
   EvConn 0 true false (Data (frame text_of (put_message "k1") ++ frame text_of (put_message "k2")))].

Definition run_session (l : list event) (s : server) : server :=
  foldl (λ s e, (run_event text_of all_sent elements elements e s).2) s l.

(** Every event of the session happens and its handler returns. *)
Fixpoint clean_session (l : list event) (s : server) : bool :=
  match l with
  | [] => true
  | e :: l =>
      negb (tk_stopped (sv_tracker s)) &&
      match e with EvAccept _ => true | EvConn c _ _ _ => t_open (hget c (sv_tracker s)) end &&
      match run_event text_of all_sent elements elements e s with
      | (Ok _, s') => clean_session l s'
      | _ => false
      end
  end.

Lemma clean_session_runs l s0 s :
  runs_clean text_of all_sent elements elements s0 s → clean_session l s = true →
  runs_clean text_of all_sent elements elements s0 (run_session l s).
Proof.
  revert s. induction l as [|e l IH]; intros s Hs Hl; [done|]. cbn [clean_session] in Hl.
  apply andb_true_iff in Hl as [[Hst He]%andb_true_iff Hl].
  unfold run_session. cbn [foldl]. destruct (run_event _ _ _ _ e s) as [[[]|x] s'] eqn:Hrun; [|done].
  apply IH; [|done]. eapply clean_event; [exact Hs| |exact Hrun].
  split; [by apply negb_true_iff|by destruct e].
Qed.

Lemma clean_reaches s0 s :
  runs_clean text_of all_sent elements elements s0 s → reaches text_of all_sent elements elements s0 s.
Proof. induction 1; [apply reaches_refl|by eapply reaches_event]. Qed.

Lemma tracker_matches_requests_witness :
  let s := run_session session (fresh_server "stop") in
  (∀ c, t_open (hget c (sv_tracker s)) = true → c ∈ tk_connections (sv_tracker s)) ∧
  (∀ e, (run_event text_of all_sent elements elements e s).1 ≠ Raise OutOfFuel) ∧
  length (ps_values (sget "rasp3b" (sv_tracker s))) = 1%nat ∧
  (∀ key, ps_values (sget key (sv_tracker s)) = [] ∨ ps_requests (sget key (sv_tracker s)) = []).
Proof.
  cbv zeta. set (s0 := fresh_server "stop").
  assert (runs_clean text_of all_sent elements elements s0 (run_session session s0)) as Hc.
  { apply clean_session_runs; [apply clean_refl|]. vm_compute. reflexivity. }
  pose proof (clean_reaches _ _ Hc) as Hr.
  destruct (tracker_matches_requests text_of all_sent elements elements "stop" _ Hr) as (H1 & H2 & H3).
  split; [exact H1|]. split; [exact H2|]. split; [vm_compute; reflexivity|]. exact (H3 Hc).
Defined.

(** C34: A connection that announces itself as [server:K] but puts resources under another
    key cannot be closed cleanly: when no scheduler exists for [K], closing it raises
    [KeyError], and the resources of the dead connection stay with their schedulers. A
    proxy is such a connection: it announces [server:proxy[keys]] and puts under [keys]. *)
Theorem close_foreign_key_error (float_repr : float → text) (outcome : nat → nat → send_out)
    (c : nat) (w : tracker) (info kind key : string) (rest : list string) :
  t_open (hget c w) = true → c ∈ tk_connections w →
  dget (c_info (conn_of w c)) "key" = Some (JStr info) →
  split_on ":"%char info = kind :: key :: rest →
  dmem (tk_map w) key = false → c_put (conn_of w c) ≠ [] →
  ∃ w', close float_repr outcome c w = (Raise KeyError, w') ∧
    tk_map w' = tk_map w ∧ t_open (hget c w') = false.
Proof.
  intros Ho Hc Hi Hs Hk Hp. unfold close. mrun. cbn [conn_close]. unfold tcp_close. mrun. rewrite Ho.
  unfold upd. mrun. unfold tracker_close. mrun. set (w1 := hset c _ w).
  assert (conn_of w1 c = with_tcp (conn_of w c) (tcp_closed (hget c w))) as E by apply conn_of_set_eq.
  rewrite decide_True by done. mrun. rewrite E. cbn [with_tcp c_info c_put]. rewrite Hi.
  cbn [key_type]. rewrite Hs. change (py_nth (kind :: key :: rest) 1) with (Ok key). mrun.
  destruct (c_put (conn_of w c)) as [|v vs]; [done|]. cbn [mfor].
  erewrite M_bind_raise; cycle 1.
  { unfold remove_resource. mrun. cbn [set_connections tk_map w1 hset set_conn]. rewrite Hk. reflexivity. }
  eexists. split; [reflexivity|]. split; [done|].
  change (t_open (hget c w1) = false). unfold w1. by rewrite hget_hset.
Qed.

Definition proxy_session : list event :=
  [EvAccept [Accepted (JList [JStr "10.0.0.3"; JInt 4002])];
   EvConn 0 true false (Data greeting);
   EvConn 0 true false (Data (frame text_of (JList [JInt (tracker_code UPDATE_INFO);
                                JObj [("key", JStr "server:proxy[rasp3b]")]])
                              ++ frame text_of (put_message "k1")))].

Lemma close_foreign_key_error_witness :
  let w := sv_tracker (run_session proxy_session (fresh_server "stop")) in
  ∃ w', close text_of all_sent 0 w = (Raise KeyError, w') ∧
    tk_map w' = tk_map w ∧ t_open (hget 0 w') = false.
Proof.
  cbv zeta. apply (close_foreign_key_error text_of all_sent 0 _ "server:proxy[rasp3b]" "server"
    "proxy[rasp3b]" []); try (vm_compute; reflexivity).
  vm_compute. discriminate.
Defined.
