(* ===== verification/SearchPolicies.v ===== *)
(** * Making search policies ([make_search_policies] of
    [python/tvm/auto_scheduler/task_scheduler.py])

    Which cost model a policy name selects, with which options, and what is loaded into it;
    the models themselves are third-party learners and native code, so a model is the
    record of how it was made. *)

From S2P Require Import Prelude PyDict PyStr.

(** The parameters of the symbol-based analyzer by device. *)
Record psa_params := {
  peak_performance : Z; glbmem_bandwidth : Z; vec_len : Z; active_blocks_per_sm : Z;
  sm_nums : Z; arch_sm_partition : Z; arch_warp_size : Z
}.

Definition gpu (peak bandwidth sms : Z) : psa_params := {|
  peak_performance := peak; glbmem_bandwidth := bandwidth; vec_len := 11; active_blocks_per_sm := 1;
  sm_nums := sms; arch_sm_partition := 4; arch_warp_size := 32 |}.

Definition psamodel_params : dict string psa_params :=
  [("k80", gpu 8226 480 26); ("t4", gpu 8141 320 40); ("titanv", gpu 14900 651 80);
   ("orin", gpu 2660 204 16); ("a100", gpu 19490 1935 108); ("a100_40", gpu 19490 1555 108)].

Inductive model_kind :=
| XGBModel (num_warmup_sample : Z)
| LGBModel (num_warmup_sample : Z)
| MLPModel | TabNetModel | PAMModel | RandomModel.

Inductive model_action :=
| LoadModel (file : option string)
| FitLocal (log_file : option string)
| UpdateFromFile (log_file : string).

Record cost_model := {
  cm_kind : model_kind;
  cm_disable_update : bool;
  cm_few_shot_learning : string;
  cm_actions : list model_action
}.

(** [SketchPolicy(task, cost_model, cost_model_psa, init_search_callbacks=...)] *)
Record SearchPolicy := {
  sp_task : nat;
  sp_cost_model : cost_model;
  sp_psa : psa_params;
  sp_preload : option string     (* [PreloadMeasuredStates(load_log_file)] *)
}.

Section policies.
Variable isfile : string → bool.

(** Whether a path is given and not empty. *)
Definition given (f : option string) : option string :=
  match f with Some EmptyString | None => None | Some f => Some f end.

(** A pretrained model if the file exists, and else the log. *)
Definition load_actions (load_model_file load_log_file : option string) : list model_action :=
  match given load_model_file with
  | Some f => if isfile f then [LoadModel (Some f)]
              else match given load_log_file with Some l => [UpdateFromFile l] | None => [] end
  | None => match given load_log_file with Some l => [UpdateFromFile l] | None => [] end
  end.

Definition in_names (x : string) (l : list string) : bool := bool_decide (x ∈ l).

Definition learned_models : list string :=
  ["xgb"; "xgb-no-update"; "mlp"; "mlp-no-update"; "tab"; "tab-no-update"; "pam"; "pam-no-update";
   "pam-siamese-update"].

Definition make_cost_model (model_type : string) (num_tasks num_measures_per_round : Z)
    (disable : bool) (few_shot : string) (load_model_file load_log_file : option string)
    : result cost_model :=
  let num_warmup := num_tasks * num_measures_per_round in
  if in_names model_type learned_models then
    let disable := disable || in_names model_type
                     ["xgb-no-update"; "mlp-no-update"; "tab-no-update"; "pam-no-update"] in
    let few_shot := if in_names model_type ["pam-siamese-update"] then "siamese_update" else few_shot in
    let kind :=
      if in_names model_type ["xgb"; "xgb-no-update"] then XGBModel num_warmup
      else if in_names model_type ["tab"; "tab-no-update"] then TabNetModel
      else if in_names model_type ["pam"; "pam-no-update"; "pam-siamese-update"] then PAMModel
      else MLPModel in
    let actions :=
      if in_names few_shot ["plus_mix_task"; "plus_per_task"]
      then [LoadModel load_model_file; FitLocal load_log_file]
      else load_actions load_model_file load_log_file in
    Ok {| cm_kind := kind; cm_disable_update := disable; cm_few_shot_learning := few_shot;
          cm_actions := actions |}
  else if in_names model_type ["lgbm"; "lgbm-no-update"] then
    Ok {| cm_kind := LGBModel num_warmup;
          cm_disable_update := disable || in_names model_type ["lgbm-no-update"];
          cm_few_shot_learning := few_shot;
          cm_actions := load_actions load_model_file load_log_file |}
  else if in_names model_type ["random"] then
    Ok {| cm_kind := RandomModel; cm_disable_update := disable; cm_few_shot_learning := few_shot;
          cm_actions := [] |}
  else Raise ValueError.

(** The key is looked up in the table of devices; [None] is a key like any other. *)
Definition psa_model (psa_model_params : option string) : result psa_params :=
  match psa_model_params with
  | Some d => dindex psamodel_params d
  | None => Raise KeyError
  end.

Definition make_search_policies (search_policy : string + list SearchPolicy) (num_tasks : nat)
    (num_measures_per_round : Z) (load_model_file load_log_file : option string) (disable : bool)
    (psa_model_params : option string) (few_shot : string) : result (list SearchPolicy) :=
  match search_policy with
  | inl name =>
      let name := if in_names name ["default"] then "sketch.xgb" else name in
      match split_on "."%char name with
      | [policy_type; model_type] =>
          cost_model ← make_cost_model model_type (Z.of_nat num_tasks) num_measures_per_round disable
                         few_shot load_model_file load_log_file;
          psa ← psa_model psa_model_params;
          if in_names policy_type ["sketch"] then
            Ok ((λ t, {| sp_task := t; sp_cost_model := cost_model; sp_psa := psa;
                         sp_preload := given load_log_file |}) <$> seq 0 num_tasks)
          else Raise ValueError
      | _ => Raise ValueError
      end
  | inr policies => Ok policies
  end.

(** A policy per task, all with the same cost model, for the default name. *)
Lemma make_default_policies num_tasks per_round model log disable d psa few_shot :
  dindex psamodel_params d = Ok psa →
  ∃ cm, cm_kind cm = XGBModel (Z.of_nat num_tasks * per_round) ∧
    make_search_policies (inl "default") num_tasks per_round model log disable (Some d) few_shot
    = Ok ((λ t, {| sp_task := t; sp_cost_model := cm; sp_psa := psa; sp_preload := given log |})
          <$> seq 0 num_tasks).
Proof. intros Hd. eexists. unfold make_search_policies, psa_model. rewrite Hd. split; [|reflexivity]. done. Qed.

(** Without a device no policy can be made from a name. *)
Lemma no_device_no_policy name num_tasks per_round model log disable few_shot ps :
  make_search_policies (inl name) num_tasks per_round model log disable None few_shot ≠ Ok ps.
Proof.
  unfold make_search_policies. destruct (split_on _ _) as [|a [|b [|c l]]]; try done.
  by destruct (make_cost_model _ _ _ _ _ _ _).
Qed.
End policies.
