(* ===== verification/TaskScheduler.v ===== *)
(** * The task scheduler ([python/tvm/auto_scheduler/task_scheduler.py])

    [TaskScheduler] divides the measurement trials between tasks: a warm-up round, then
    the round-robin or the gradient strategy. What a round of a search policy measures is
    a parameter (the policies are native code), as are a user's objective function, the
    logarithm and numpy's random choice; latencies are binary64. The callbacks only print
    and are left out. *)

From S2P Require Import Prelude PyDict PyStr PyFloat SearchPolicies.

(** One call of [continue_search_one_round]: how many inputs it measured, and the costs of
    each result. *)
Record search_round := { rd_inputs : nat; rd_costs : list (list float) }.

(** What the scheduler reads of a [SearchTask]: the tags of the DAG's operators, its
    floating point operations, its workload key and its target. *)
Record SearchTask := {
  st_op_tags : list (option string);
  st_flop_ct : float;
  st_workload_key : string;
  st_target : string
}.

Inductive strategy := RoundRobin | Gradient.

(** The state of a [TaskScheduler]; the last field counts the rounds run. *)
Record TaskScheduler := {
  task_cts : list Z;
  task_best_cts : list Z;
  task_costs_history : list (list float);
  best_costs : list float;
  cur_score : float;
  ct : Z;
  best_ct : Z;
  best_score : float;
  dead_tasks : gset nat;
  task_tags : list (option string);
  tag_to_group_id : dict string nat;
  group_task_ids : list (list nat);
  flop_cts : list float;
  num_measures_per_round : Z;
  early_stopping_all : Z;
  early_stopping_task : Z;
  rounds : nat
}.

(** ** Floating point helpers *)

(** [sum(l)] *)
Definition fsum (l : list float) : float := foldl fadd fzero l.

(** [array_mean] *)
Definition array_mean (arr : list float) : result float :=
  if decide (arr = []) then Raise ZeroDivisionError
  else Ok (fdiv (fsum arr) (of_Z (Z.of_nat (length arr)))).

(** [max(l)] and [min(l)]: the first of the extreme elements. *)
Definition py_max (l : list float) : result float :=
  match l with
  | [] => Raise ValueError
  | x :: l => Ok (foldl (λ m y, if flt m y then y else m) x l)
  end.
Definition py_min (l : list float) : result float :=
  match l with
  | [] => Raise ValueError
  | x :: l => Ok (foldl (λ m y, if flt y m then y else m) x l)
  end.

(** [np.argmin] on numbers that are not NaN: the first minimum. *)
Fixpoint argmin_from (i best : nat) (m : float) (l : list float) : nat :=
  match l with
  | [] => best
  | y :: l => if flt y m then argmin_from (S i) i y l else argmin_from (S i) best m l
  end.
Definition np_argmin (l : list float) : result nat :=
  match l with
  | [] => Raise ValueError
  | x :: l => Ok (argmin_from 1 0 x l)
  end.

Definition big_cost : float := of_Z (10 ^ 10).     (* 1e10 *)
Definition valid_cost : float := of_Z (10 ^ 9).    (* 1e9 *)
Definition never : Z := 10 ^ 20.                   (* 1e20 *)

Definition nth_r {A} (l : list A) (i : nat) : result A := of_option IndexError (l !! i).

Section scheduler.
Variable tasks : list SearchTask.
(** The objective, the search rounds by number and task, [int(math.log(x, 1.618))] and
    [np.random.choice(n)] before a given round. *)
Variable objective_func : list float → float.
Variable search : nat → nat → search_round.
Variable log_floor : float → Z.
Variable choice : nat → nat → nat.

#[local] Abbreviation n := (length tasks).

(** ** Construction *)

Definition weighted_sum (task_weights costs : list float) : float :=
  fsum (zip_with fmul costs task_weights).

(** [derive_similarity_tag] *)
Fixpoint op_tags (l : list (option string)) : string :=
  match l with
  | [] => EmptyString
  | Some (String _ _ as tag) :: l => tag +:+ "_" +:+ op_tags l
  | _ :: l => op_tags l
  end.

Definition derive_similarity_tag (t : SearchTask) : string :=
  match op_tags (st_op_tags t) with
  | EmptyString => EmptyString
  | ret => ret +:+ pretty (log_floor (fadd (st_flop_ct t) (of_Z 1)))
  end.

(** One task of the loop that builds the similarity groups. *)
Definition add_to_group (g : dict string nat * list (list nat)) (it : nat * SearchTask)
    : dict string nat * list (list nat) :=
  let '(tag_to_group, groups) := g in
  let '(i, t) := it in
  match derive_similarity_tag t with
  | EmptyString => g
  | tag =>
      let '(tag_to_group, groups) :=
        match dget tag_to_group tag with
        | None => (dset tag_to_group tag (length tag_to_group), groups ++ [[]])
        | Some _ => (tag_to_group, groups)
        end in
      match dget tag_to_group tag with
      | Some gid => (tag_to_group, alter (λ l, l ++ [i]) gid groups)
      | None => (tag_to_group, groups)
      end
  end.

Definition build_groups : dict string nat * list (list nat) :=
  foldl add_to_group ([], []) (imap pair tasks).

Definition TaskScheduler_init : result TaskScheduler :=
  _ ← py_assert (negb (n =? 0)%nat);
  let costs := replicate n big_cost in
  let '(tag_to_group, groups) := build_groups in
  Ok {| task_cts := replicate n 0; task_best_cts := replicate n 0;
        task_costs_history := replicate n []; best_costs := costs;
        cur_score := objective_func costs; ct := 0; best_ct := 0; best_score := fzero;
        dead_tasks := ∅;
        task_tags := (λ t, Some (derive_similarity_tag t)) <$> tasks;
        tag_to_group_id := tag_to_group; group_task_ids := groups;
        flop_cts := st_flop_ct <$> tasks; num_measures_per_round := 0;
        early_stopping_all := never; early_stopping_task := never; rounds := 0 |}.

(** ** One round of a task *)

(** The loop over the measured results: the best cost so far and the round it was found in. *)
Definition take_result (cts : Z) (best : Z * float) (costs : list float) : result (Z * float) :=
  cost ← array_mean costs;
  Ok (if flt cost best.2 then (cts, cost) else best).

(** [_tune_task] *)
Definition tune_task (s : TaskScheduler) (i : nat) : result TaskScheduler :=
  let rd := search (rounds s) i in
  cts0 ← nth_r (task_cts s) i;
  let cts := cts0 + 1 in
  bc0 ← nth_r (task_best_cts s) i;
  b0 ← nth_r (best_costs s) i;
  '(bc, b) ← mfoldl (take_result cts) (bc0, b0) (rd_costs rd);
  let costs := <[i := b]> (best_costs s) in
  let no_change_trials := (cts - bc) * num_measures_per_round s in
  Ok {| task_cts := <[i := cts]> (task_cts s);
        task_best_cts := <[i := bc]> (task_best_cts s);
        task_costs_history := alter (λ h, h ++ [b]) i (task_costs_history s);
        best_costs := costs;
        cur_score := objective_func costs;
        ct := ct s + Z.of_nat (rd_inputs rd);
        best_ct := best_ct s; best_score := best_score s;
        dead_tasks := if (rd_inputs rd =? 0)%nat || (early_stopping_task s <? no_change_trials)
                      then {[i]} ∪ dead_tasks s else dead_tasks s;
        task_tags := task_tags s; tag_to_group_id := tag_to_group_id s;
        group_task_ids := group_task_ids s; flop_cts := flop_cts s;
        num_measures_per_round := num_measures_per_round s;
        early_stopping_all := early_stopping_all s; early_stopping_task := early_stopping_task s;
        rounds := S (rounds s) |}.

(** The similarity group of a task: [tag_to_group_id.get(task_tags[i], None)]. *)
Definition group_of (s : TaskScheduler) (i : nat) : result (option nat) :=
  tag ← nth_r (task_tags s) i;
  Ok (match tag with Some t => dget (tag_to_group_id s) t | None => None end).

(** [self.flop_cts[j] / self.best_costs[j]] *)
Definition task_flops (s : TaskScheduler) (j : nat) : result float :=
  f ← nth_r (flop_cts s) j;
  c ← nth_r (best_costs s) j;
  Ok (fdiv f c).

Definition set_group (s : TaskScheduler) (i gid : nat) (ids : list nat) : TaskScheduler := {|
  task_cts := task_cts s; task_best_cts := task_best_cts s;
  task_costs_history := task_costs_history s; best_costs := best_costs s; cur_score := cur_score s;
  ct := ct s; best_ct := best_ct s; best_score := best_score s; dead_tasks := dead_tasks s;
  task_tags := <[i := None]> (task_tags s); tag_to_group_id := tag_to_group_id s;
  group_task_ids := <[gid := ids]> (group_task_ids s); flop_cts := flop_cts s;
  num_measures_per_round := num_measures_per_round s; early_stopping_all := early_stopping_all s;
  early_stopping_task := early_stopping_task s; rounds := rounds s |}.

(** [max(l)] on integers *)
Definition py_maxz (l : list Z) : result Z :=
  match l with [] => Raise ValueError | x :: l => Ok (foldl Z.max x l) end.

(** [_adjust_similarity_group] *)
Definition adjust_similarity_group (beta : float) (s : TaskScheduler) (i : nat) : result TaskScheduler :=
  gid ← group_of s i;
  match gid with
  | None => Ok s
  | Some gid =>
      group_ids ← nth_r (group_task_ids s) gid;
      if (length group_ids <=? 1)%nat then Ok s
      else
        flops ← mmapr (task_flops s) group_ids;
        best_group_flops ← py_max flops;
        cur_flops ← task_flops s i;
        if flt cur_flops (fdiv best_group_flops beta) then
          cts ← nth_r (task_cts s) i;
          others ← mmapr (nth_r (task_cts s)) (filter (λ j, j ≠ i) group_ids);
          m ← py_maxz others;
          if 5 + m <? cts then
            ids ← py_remove group_ids i;
            Ok (set_group s i gid ids)
          else Ok s
        else Ok s
  end.

(** ** Choosing the next task *)

(** The round-robin successor among the tasks that are not dead; [-1] before the first. *)
Fixpoint next_alive (fuel : nat) (dead : gset nat) (task_idx : Z) : result nat :=
  match fuel with
  | O => Raise OutOfFuel
  | S fuel =>
      let i := (task_idx + 1) mod Z.of_nat n in
      if decide (Z.to_nat i ∈ dead) then next_alive fuel dead i else Ok (Z.to_nat i)
  end.

(** The gradient of a task that is not dead, without the final check. *)
Definition chain_grad (s : TaskScheduler) (i : nat) (b : float) : float :=
  let delta := of_dec 1 4 in
  fdiv (fsub (objective_func (best_costs s)) (objective_func (<[i := fsub b delta]> (best_costs s))))
       delta.

Definition backward_grad (window : Z) (h : list float) (cts : Z) : result float :=
  if (cts - 1 <? Z.of_nat (length h)) && (0 <=? cts - 1 - window) then
    x ← py_nth h (cts - 1);
    y ← py_nth h (cts - 1 - window);
    Ok (fdiv (fsub x y) (of_Z window))
  else Ok fzero.

(** The bound given by the fastest task of the similarity group. *)
Definition group_bound (beta : float) (s : TaskScheduler) (i : nat) : result float :=
  let unbounded := fmul beta (of_Z (10 ^ 30)) in
  gid ← group_of s i;
  match gid with
  | None => Ok unbounded
  | Some gid =>
      ids ← nth_r (group_task_ids s) gid;
      if (1 <? length ids)%nat then
        flops ← mmapr (task_flops s) ids;
        best_flops ← py_max flops;
        f ← nth_r (flop_cts s) i;
        Ok (fdiv (fmul beta f) best_flops)
      else Ok unbounded
  end.

Definition gradient (alpha beta : float) (window : Z) (s : TaskScheduler) (i : nat) : result float :=
  if decide (i ∈ dead_tasks s) then Ok fzero
  else
    b ← nth_r (best_costs s) i;
    cts ← nth_r (task_cts s) i;
    h ← nth_r (task_costs_history s) i;
    back ← backward_grad window h cts;
    let g_next_1 := fsub b (fdiv b (of_Z cts)) in
    g_next_2 ← group_bound beta s i;
    let g_next := if flt g_next_2 g_next_1 then g_next_2 else g_next_1 in
    let forward_grad := fsub g_next b in
    let grad := fmul (chain_grad s i b)
                  (fadd (fmul alpha back) (fmul (fsub (of_Z 1) alpha) forward_grad)) in
    _ ← py_assert (fle grad fzero);
    Ok grad.

Definition choose_gradient (alpha beta : float) (window : Z) (s : TaskScheduler) : result nat :=
  gradients ← mmapr (gradient alpha beta window s) (seq 0 n);
  hi ← py_max gradients;
  lo ← py_min gradients;
  if feq hi lo then Ok (choice (rounds s) n) else np_argmin gradients.

(** ** Tuning *)

Record TuningOptions := {
  num_measure_trials : Z;
  opt_early_stopping : Z;
  opt_num_measures_per_round : Z
}.

(** A record of a log file, as [_restore_status] reads it. *)
Record log_record := {
  rec_target : string;
  rec_workload_key : string;
  rec_error_no : Z;
  rec_costs : list float
}.

(** The part of [tune] and [transfer_tune] before the log is read; returns the number of
    trials. *)
Definition begin_tune (opt : TuningOptions) (per_task_early_stopping : option Z) (s : TaskScheduler)
    : result (TaskScheduler * Z) :=
  let trials := if num_measure_trials opt <? 0 then Z.of_nat n else num_measure_trials opt in
  let per_round := Z.min (opt_num_measures_per_round opt) (trials / Z.of_nat n) in
  if per_round <=? 0 then Raise ValueError
  else Ok ({| task_cts := task_cts s; task_best_cts := task_best_cts s;
       task_costs_history := task_costs_history s; best_costs := best_costs s;
       cur_score := cur_score s; ct := 0; best_ct := 0; best_score := best_score s;
       dead_tasks := dead_tasks s; task_tags := task_tags s; tag_to_group_id := tag_to_group_id s;
       group_task_ids := group_task_ids s; flop_cts := flop_cts s;
       num_measures_per_round := per_round;
       early_stopping_all := if opt_early_stopping opt <? 0 then never else opt_early_stopping opt;
       early_stopping_task := default never per_task_early_stopping;
       rounds := rounds s |}, trials).

(** What [_restore_status] changes: counters, best costs and, later, histories and dead tasks. *)
Definition set_restored (s : TaskScheduler) cts best_cts costs hist dead : TaskScheduler := {|
  task_cts := cts; task_best_cts := best_cts; task_costs_history := hist; best_costs := costs;
  cur_score := objective_func costs; ct := ct s; best_ct := best_ct s; best_score := best_score s;
  dead_tasks := dead; task_tags := task_tags s; tag_to_group_id := tag_to_group_id s;
  group_task_ids := group_task_ids s; flop_cts := flop_cts s;
  num_measures_per_round := num_measures_per_round s; early_stopping_all := early_stopping_all s;
  early_stopping_task := early_stopping_task s; rounds := rounds s |}.

(** One record of the log. *)
Definition restore_record (target : string) (ids : dict string nat)
    (acc : list Z * list Z * list float) (r : log_record) : result (list Z * list Z * list float) :=
  let '(cts, best_cts, costs) := acc in
  if negb (bool_decide (rec_target r = target)) then Ok acc
  else match dget ids (rec_workload_key r) with
       | None => Ok acc
       | Some i =>
           c ← nth_r cts i;
           let cts := <[i := c + 1]> cts in
           if rec_error_no r =? 0 then
             cost ← array_mean (rec_costs r);
             b ← nth_r costs i;
             Ok (if flt cost b then (cts, <[i := c + 1]> best_cts, <[i := cost]> costs)
                 else (cts, best_cts, costs))
           else Ok (cts, best_cts, costs)
       end.

(** [int(c / num_measures_per_round + 0.5)] *)
Definition round_div (c per_round : Z) : result Z :=
  if per_round =? 0 then Raise ZeroDivisionError
  else py_int (fadd (fdiv (of_Z c) (of_Z per_round)) (of_dec 5 1)).

Definition restore_status (log : list log_record) (s : TaskScheduler) : result TaskScheduler :=
  t0 ← nth_r tasks 0;
  let ids := dict_of (imap (λ i t, (st_workload_key t, i)) tasks) in
  '(cts, best_cts, costs) ← mfoldl (restore_record (st_target t0) ids)
    (task_cts s, task_best_cts s, best_costs s) log;
  let stale := filter (λ i, early_stopping_task s <?
      (default 0 (cts !! i) - default 0 (best_cts !! i)) = true) (seq 0 n) in
  cts' ← mmapr (λ c, round_div c (num_measures_per_round s)) cts;
  best_cts' ← mmapr (λ c, round_div c (num_measures_per_round s)) best_cts;
  Ok (set_restored s cts' best_cts' costs
        (zip_with (λ h b, h ++ [b]) (task_costs_history s) costs)
        (list_to_set stale ∪ dead_tasks s)).

(** [self.best_ct = self.ct; self.best_score = self.cur_score] *)
Definition set_best (s : TaskScheduler) : TaskScheduler := {|
  task_cts := task_cts s; task_best_cts := task_best_cts s;
  task_costs_history := task_costs_history s; best_costs := best_costs s; cur_score := cur_score s;
  ct := ct s; best_ct := ct s; best_score := cur_score s; dead_tasks := dead_tasks s;
  task_tags := task_tags s; tag_to_group_id := tag_to_group_id s; group_task_ids := group_task_ids s;
  flop_cts := flop_cts s; num_measures_per_round := num_measures_per_round s;
  early_stopping_all := early_stopping_all s; early_stopping_task := early_stopping_task s;
  rounds := rounds s |}.

(** The warm-up: tasks restored from a log are skipped. *)
Definition warm_up (s : TaskScheduler) (i : nat) : result TaskScheduler :=
  c ← nth_r (task_cts s) i;
  if c =? 0 then tune_task s i else Ok s.

Section tune.
Variables (strat : strategy) (alpha beta : float) (window : Z).

(** The task of an iteration; the round-robin strategy continues after the last one. *)
Definition choose_task (s : TaskScheduler) (task_idx : Z) : result nat :=
  match strat with
  | RoundRobin => next_alive (S n) (dead_tasks s) task_idx
  | Gradient => choose_gradient alpha beta window s
  end.

(** The [while] loop, with its early stopping. *)
Fixpoint search_loop (fuel : nat) (trials : Z) (task_idx : Z) (s : TaskScheduler)
    : result TaskScheduler :=
  match fuel with
  | O => Raise OutOfFuel
  | S fuel =>
      if (ct s <? trials) && (size (dead_tasks s) <? n)%nat then
        i ← choose_task s task_idx;
        s ← tune_task s i;
        s ← adjust_similarity_group beta s i;
        if flt (cur_score s) (best_score s) then search_loop fuel trials (Z.of_nat i) (set_best s)
        else if (early_stopping_all s <=? ct s - best_ct s) && forallb (λ c, flt c valid_cost) (best_costs s)
        then Ok s
        else search_loop fuel trials (Z.of_nat i) s
      else Ok s
  end.

(** [tune]; [policies] is the call of [make_search_policies] with the measures per round. *)
Definition tune (fuel : nat) (policies : Z → result (list SearchPolicy)) (opt : TuningOptions) (per_task_early_stopping : option Z)
    (log : option (list log_record)) (s : TaskScheduler) : result TaskScheduler :=
  '(s, trials) ← begin_tune opt per_task_early_stopping s;
  s ← match log with Some l => restore_status l s | None => Ok s end;
  _ ← policies (num_measures_per_round s);
  s ← mfoldl warm_up s (seq 0 n);
  search_loop fuel trials (-1) (set_best s).
End tune.

(** [transfer_tune]: one round per task, with new policies after the first half. *)
Definition transfer_tune (policies policies2 : Z → result (list SearchPolicy)) (opt : TuningOptions) (per_task_early_stopping : option Z)
    (log : option (list log_record)) (s : TaskScheduler) : result TaskScheduler :=
  '(s, trials) ← begin_tune opt per_task_early_stopping s;
  s ← match log with Some l => restore_status l s | None => Ok s end;
  _ ← policies (num_measures_per_round s);
  s ← mfoldl tune_task s (seq 0 (n / 2));
  _ ← policies2 (num_measures_per_round s);
  s ← mfoldl tune_task (set_best s) (seq (n / 2) (n - n / 2));
  Ok (set_best s).

(** [tune] as it is called: with the name of a policy and the device of the analyzer. *)
Definition tune_named (isfile : string → bool) (strat : strategy) (alpha beta : float) (window : Z)
    (fuel : nat) (search_policy : string) (psa_model_type : option string)
    (load_model_file load_log_file : option string) (opt : TuningOptions)
    (per_task_early_stopping : option Z) (log : option (list log_record)) (s : TaskScheduler)
    : result TaskScheduler :=
  tune strat alpha beta window fuel
    (λ per_round, make_search_policies isfile (inl search_policy) n per_round load_model_file
       load_log_file (num_measure_trials opt <? 0) psa_model_type "base_only")
    opt per_task_early_stopping log s.
End scheduler.
