(* ===== verification/TaskSchedulerInv.v ===== *)
(** * Properties of the task scheduler

    Similarity groups, histories and counters stay consistent; the round-robin strategy
    terminates within its budget; the gradient strategy picks the steepest live task. *)

From S2P Require Import Prelude PyDict PyStr PyFloat SearchPolicies TaskScheduler.

(** ** Similarity groups *)

(** Every group holds exactly the tasks whose tag maps to it, once each. *)
Record groups_ok (tags : list (option string)) (m : dict string nat) (groups : list (list nat)) : Prop := {
  go_bound : ∀ t g, dget m t = Some g → (g < length groups)%nat;
  go_nodup : ∀ g ids, groups !! g = Some ids → NoDup ids;
  go_elem : ∀ g ids i, groups !! g = Some ids →
    i ∈ ids ↔ ∃ t, tags !! i = Some (Some t) ∧ dget m t = Some g
}.

Section build.
Variable log_floor : float → Z.
#[local] Abbreviation tag_of := (derive_similarity_tag log_floor).

(** While the groups are built, every tag seen has one. *)
Record building (tags : list (option string)) (m : dict string nat) (groups : list (list nat)) : Prop := {
  bd_ok : groups_ok tags m groups;
  bd_length : length m = length groups;
  bd_empty : dget m "" = None;
  bd_seen : ∀ i t, tags !! i = Some (Some t) → t ≠ "" → ∃ g, dget m t = Some g
}.

Lemma building_group tags m groups t g :
  building tags m groups → dget m t = Some g → t ≠ "" →
  building (tags ++ [Some t]) m (alter (λ l, l ++ [length tags]) g groups).
Proof.
  intros [[Hb Hn He] Hl Hem Hs] Hg Ht. split; [split|..].
  - intros t' g' H. rewrite length_alter. by eapply Hb.
  - intros g' ids Hi. destruct (decide (g = g')) as [<-|Hne].
    + rewrite list_lookup_alter_eq in Hi. apply fmap_Some in Hi as (l & Hl' & ->).
      apply NoDup_app. split_and!; [by eapply Hn| |apply NoDup_singleton].
      intros x Hx ->%list_elem_of_singleton. apply (He _ _ _ Hl') in Hx as (t' & Ht' & _).
      apply lookup_lt_Some in Ht'. lia.
    + rewrite list_lookup_alter_ne in Hi by done. by eapply Hn.
  - intros g' ids i Hi. destruct (decide (g = g')) as [<-|Hne].
    + rewrite list_lookup_alter_eq in Hi. apply fmap_Some in Hi as (l & Hl' & ->).
      rewrite elem_of_app, (He _ _ i Hl'), list_elem_of_singleton. split.
      * intros [(t' & H1 & H2)| ->]; [exists t'; by rewrite lookup_app_l by by eapply lookup_lt_Some|].
        exists t. rewrite lookup_app_r by lia. by rewrite Nat.sub_diag.
      * intros (t' & H1 & H2). apply lookup_app_Some in H1 as [H1|[Hle H1]]; [left; eauto|].
        right. apply list_lookup_singleton_Some in H1 as [? _]. lia.
    + rewrite list_lookup_alter_ne in Hi by done. rewrite (He _ _ i Hi). split.
      * intros (t' & H1 & H2). exists t'. by rewrite lookup_app_l by by eapply lookup_lt_Some.
      * intros (t' & H1 & H2). apply lookup_app_Some in H1 as [H1|[Hle H1]]; [eauto|].
        apply list_lookup_singleton_Some in H1 as [_ [= <-]]. congruence.
  - by rewrite length_alter.
  - done.
  - intros i t' Hi Ht'. apply lookup_app_Some in Hi as [Hi|[_ Hi]]; [by eapply Hs|].
    apply list_lookup_singleton_Some in Hi as [_ [= <-]]. eauto.
Qed.

Lemma building_untagged tags m groups :
  building tags m groups → building (tags ++ [Some ""]) m groups.
Proof.
  intros [[Hb Hn He] Hl Hem Hs]. split; [split|..]; try done.
  - intros g ids i Hi. rewrite (He _ _ i Hi). split; intros (t & H1 & H2).
    + exists t. by rewrite lookup_app_l by by eapply lookup_lt_Some.
    + apply lookup_app_Some in H1 as [H1|[_ H1]]; [eauto|].
      apply list_lookup_singleton_Some in H1 as [_ [= <-]]. congruence.
  - intros i t Hi Ht. apply lookup_app_Some in Hi as [Hi|[_ Hi]]; [by eapply Hs|].
    by apply list_lookup_singleton_Some in Hi as [_ [= <-]].
Qed.

(** A new tag opens an empty group, to which no earlier task belongs. *)
Lemma building_new tags m groups t :
  building tags m groups → dget m t = None → t ≠ "" →
  building tags (dset m t (length m)) (groups ++ [[]]).
Proof.
  intros [[Hb Hn He] Hl Hem Hs] Hg Ht.
  assert (dset m t (length m) = m ++ [(t, length m)]) as Hset by by apply dset_fresh, dget_None.
  assert (∀ i t', tags !! i = Some (Some t') → dget (dset m t (length m)) t' = dget m t') as Hsame.
  { intros i t' Hi. apply dget_dset_ne. intros <-. destruct (Hs i t Hi Ht). congruence. }
  split; [split|..].
  - intros t' g Hg'. rewrite length_app. simpl. destruct (decide (t = t')) as [<-|Hne].
    + rewrite dget_dset_eq in Hg'. injection Hg' as <-. lia.
    + rewrite dget_dset_ne in Hg' by done. apply Hb in Hg'. lia.
  - intros g ids Hi. apply lookup_app_Some in Hi as [Hi|[_ Hi]]; [by eapply Hn|].
    apply list_lookup_singleton_Some in Hi as [_ <-]. constructor.
  - intros g ids i Hi. apply lookup_app_Some in Hi as [Hi|[Hge Hi]].
    + rewrite (He _ _ i Hi). split; intros (t' & H1 & H2); exists t'; split; try done;
        [by rewrite (Hsame i)|by rewrite <-(Hsame i)].
    + apply list_lookup_singleton_Some in Hi as [Hg' <-]. split; [by intros ?%elem_of_nil|].
      intros (t' & H1 & H2). rewrite (Hsame i) in H2 by done. apply Hb in H2. lia.
  - rewrite Hset, !length_app. simpl. lia.
  - rewrite dget_dset_ne by done. done.
  - intros i t' Hi Ht'. rewrite (Hsame i) by done. by eapply Hs.
Qed.

Lemma add_to_group_building tags m groups t :
  building tags m groups →
  let '(m', groups') := add_to_group log_floor (m, groups) (length tags, t) in
  building (tags ++ [Some (tag_of t)]) m' groups'.
Proof.
  intros Hb. unfold add_to_group. destruct (tag_of t) as [|a tag] eqn:Et; [by apply building_untagged|].
  set (tg := String a tag) in *. destruct (dget m tg) as [g|] eqn:Hg.
  - rewrite Hg. by apply building_group.
  - rewrite dget_dset_eq. apply building_group; [by apply building_new|by rewrite dget_dset_eq|done].
Qed.

Lemma build_groups_ok tasks :
  let '(m, groups) := build_groups tasks log_floor in
  groups_ok ((λ t, Some (tag_of t)) <$> tasks) m groups.
Proof.
  unfold build_groups.
  assert (∀ ts pre m groups, building ((λ t, Some (tag_of t)) <$> pre) m groups →
    let '(m', groups') := foldl (add_to_group log_floor) (m, groups) (imap (λ i t, (length pre + i, t)%nat) ts) in
    building ((λ t, Some (tag_of t)) <$> (pre ++ ts)) m' groups') as H.
  { induction ts as [|t ts IH]; intros pre m groups Hb; [by rewrite app_nil_r|].
    cbn [imap foldl]. rewrite Nat.add_0_r.
    pose proof (add_to_group_building _ _ _ t Hb) as Hs. rewrite length_fmap in Hs.
    destruct (add_to_group _ _ _) as [m' groups']. specialize (IH (pre ++ [t]) m' groups').
    rewrite <-app_assoc in IH. cbn [app] in IH. rewrite length_app in IH. simpl in IH.
    erewrite imap_ext; [apply IH; by rewrite fmap_app|]. intros i x _. simpl. f_equal. lia. }
  specialize (H tasks [] [] []). cbn [length app] in H.
  erewrite imap_ext in H; [|intros; reflexivity].
  destruct (foldl _ _ _) as [m groups]. apply H. split; [split|..]; done.
Qed.
End build.

(** ** The state *)

(** The costs of a task never go up, and the last one is its best cost. *)
Record history_ok (h : list float) (b : float) : Prop := {
  hi_sorted : StronglySorted (λ x y, flt x y = false) h;
  hi_number : Forall (λ x, is_nan x = false) h;
  hi_last : h = [] ∨ last h = Some b
}.

Lemma history_snoc h b b' :
  history_ok h b → is_nan b = false → is_nan b' = false → b' = b ∨ flt b' b = true →
  history_ok (h ++ [b']) b'.
Proof.
  intros [Hs Hn Hl] Hb Hb' Hlt.
  assert (flt b b' = false) as Hbb.
  { destruct Hlt as [->|Hlt]; [apply flt_irrefl|]. by apply flt_asym. }
  split.
  - apply sorted_snoc; [done|]. apply Forall_forall. intros x Hx.
    destruct Hl as [->|Hl]; [by apply elem_of_nil in Hx|].
    destruct (sorted_last _ _ _ _ Hs Hl Hx) as [->|Hxb]; [done|].
    by apply (flt_neg_trans x b b').
  - apply Forall_app. split; [done|by constructor].
  - right. apply last_snoc.
Qed.

(** ** One round *)

Lemma take_results cts costs bc b :
  Forall (λ c, c ≠ []) costs → is_nan b = false →
  ∃ bc' b', mfoldl (take_result cts) (bc, b) costs = Ok (bc', b') ∧ is_nan b' = false ∧
    (b' = b ∨ flt b' b = true) ∧
    Forall (λ c, ∃ m, array_mean c = Ok m ∧ flt m b' = false) costs ∧
    (b' = b ∨ ∃ c, c ∈ costs ∧ array_mean c = Ok b').
Proof.
  intros Hc. revert bc b. induction Hc as [|c costs Hc _ IH]; intros bc b Hb.
  { exists bc, b. split_and!; try done; by left. }
  cbn [mfoldl]. unfold take_result at 1. unfold array_mean at 1. rewrite decide_False by done.
  set (m := fdiv (fsum c) _). cbn [mbind result_bind snd].
  assert (array_mean c = Ok m) as Hm by (unfold array_mean; by rewrite decide_False).
  destruct (flt m b) eqn:Hmb.
  - destruct (IH cts m (flt_not_nan_l _ _ Hmb)) as (bc' & b' & Hr & Hn & Hlt & Hall & Hin).
    exists bc', b'. split_and!; [done|done| | |].
    + right. destruct Hlt as [->|Hlt]; [done|by eapply flt_trans].
    + constructor; [|done]. exists m. split; [done|].
      destruct Hlt as [->|Hlt]; [apply flt_irrefl|by apply flt_asym].
    + right. destruct Hin as [->|(c' & ? & ?)]; [exists c; split; [left|done]|exists c'; split; [by right|done]].
  - destruct (IH bc b Hb) as (bc' & b' & Hr & Hn & Hlt & Hall & Hin).
    exists bc', b'. split_and!; [done|done|done| |].
    + constructor; [|done]. exists m. split; [done|].
      destruct Hlt as [->|Hlt]; [done|]. apply (flt_neg_trans m b b'); [done|done|by apply flt_asym].
    + destruct Hin as [?|(c' & ? & ?)]; [by left|right; exists c'; split; [by right|done]].
Qed.

Section state.
Variable tasks : list SearchTask.
Variable objective_func : list float → float.
Variable search : nat → nat → search_round.
#[local] Abbreviation n := (length tasks).

Record sched_inv (s : TaskScheduler) : Prop := {
  si_cts : length (task_cts s) = n;
  si_best_cts : length (task_best_cts s) = n;
  si_history : length (task_costs_history s) = n;
  si_costs : length (best_costs s) = n;
  si_tags : length (task_tags s) = n;
  si_flops : length (flop_cts s) = n;
  si_nonneg : Forall (λ c, 0 ≤ c) (task_cts s);
  si_number : Forall (λ b, is_nan b = false) (best_costs s);
  si_score : cur_score s = objective_func (best_costs s);
  si_dead : ∀ i, i ∈ dead_tasks s → (i < n)%nat;
  si_groups : groups_ok (task_tags s) (tag_to_group_id s) (group_task_ids s);
  si_histories : ∀ i h b, task_costs_history s !! i = Some h → best_costs s !! i = Some b → history_ok h b;
  si_per_round : 0 ≤ num_measures_per_round s
}.

(** Every result of a round carries at least one cost. *)
Definition costs_given : Prop := ∀ k i, Forall (λ c, c ≠ []) (rd_costs (search k i)).

(** What a round of task [i] does. *)
Record round_of (s : TaskScheduler) (i : nat) (s' : TaskScheduler) : Prop := {
  ro_ct : ct s' = ct s + Z.of_nat (rd_inputs (search (rounds s) i));
  ro_dead : dead_tasks s ⊆ dead_tasks s' ∧ dead_tasks s' ⊆ {[i]} ∪ dead_tasks s;
  ro_dies : rd_inputs (search (rounds s) i) = 0%nat → i ∈ dead_tasks s';
  ro_cts : ∃ c, task_cts s !! i = Some c ∧ task_cts s' = <[i := c + 1]> (task_cts s);
  ro_best : ∃ b b', best_costs s !! i = Some b ∧ best_costs s' = <[i := b']> (best_costs s) ∧
    (b' = b ∨ (flt b' b = true ∧ ∃ c, c ∈ rd_costs (search (rounds s) i) ∧ array_mean c = Ok b')) ∧
    Forall (λ c, ∃ m, array_mean c = Ok m ∧ flt m b' = false) (rd_costs (search (rounds s) i));
  ro_options : num_measures_per_round s' = num_measures_per_round s ∧
    early_stopping_all s' = early_stopping_all s ∧ best_ct s' = best_ct s ∧ best_score s' = best_score s
}.

Lemma tune_task_ok s i : costs_given → sched_inv s → (i < n)%nat →
  ∃ s', tune_task objective_func search s i = Ok s' ∧ sched_inv s' ∧ round_of s i s'.
Proof.
  intros Hc Hs Hi. pose proof Hs as [H1 H2 H3 H4 H5 H6 H7 H8 H9 H10 H11 H12 H13].
  destruct (lookup_lt_is_Some_2 (task_cts s) i) as [c Ec]; [lia|].
  destruct (lookup_lt_is_Some_2 (task_best_cts s) i) as [bc Ebc]; [lia|].
  destruct (lookup_lt_is_Some_2 (best_costs s) i) as [b Eb]; [lia|].
  assert (is_nan b = false) as Hb by exact (Forall_lookup_1 _ _ i _ H8 Eb).
  destruct (take_results (c + 1) _ bc b (Hc (rounds s) i) Hb) as (bc' & b' & Hr & Hn & Hlt & Hall & Hin).
  unfold tune_task, nth_r. rewrite Ec, Ebc, Eb. cbn [of_option mbind result_bind]. rewrite Hr.
  cbn [mbind result_bind]. eexists. split; [reflexivity|]. split; split; cbn.
  all: rewrite ?length_insert, ?length_alter; try done.
  - apply Forall_insert; [done|]. pose proof (Forall_lookup_1 _ _ i _ H7 Ec). simpl in *. lia.
  - by apply Forall_insert.
  - intros j. case_match; [|apply H10]. rewrite elem_of_union, elem_of_singleton.
    intros [->|?]; [done|by apply H10].
  - intros j h x Hh Hx. destruct (decide (i = j)) as [<-|Hne].
    + rewrite list_lookup_alter_eq in Hh. apply fmap_Some in Hh as (h0 & Hh0 & ->).
      rewrite list_lookup_insert_eq in Hx by lia. injection Hx as <-.
      eapply history_snoc; [by eapply H12|done..].
    + rewrite list_lookup_alter_ne in Hh by done. rewrite list_lookup_insert_ne in Hx by done.
      by eapply H12.
  - case_match; set_solver.
  - intros ->. set_solver.
  - eauto.
  - exists b, b'. split_and!; [done|done| |done]. destruct Hlt as [->|Hlt]; [by left|].
    destruct Hin as [->|Hin]; [by left|right]. done.
Qed.

(** ** Similarity groups while tuning *)

Lemma filter_other (ids : list nat) i :
  NoDup ids → (1 < length ids)%nat → filter (λ j, j ≠ i) ids ≠ [].
Proof.
  intros Hn Hl. destruct ids as [|a [|b ids]]; simpl in Hl; try lia.
  apply NoDup_cons in Hn as [Hab _]. assert (a ≠ b) as Hne by (intros ->; apply Hab; left).
  intros E. assert (∀ j, j ∈ a :: b :: ids → j = i) as H.
  { intros j Hj. destruct (decide (j = i)); [done|]. exfalso.
    assert (j ∈ filter (λ j, j ≠ i) (a :: b :: ids)) as Hf by by apply list_elem_of_filter.
    rewrite E in Hf. by apply elem_of_nil in Hf. }
  apply Hne. rewrite (H a) by left. symmetry. apply H. right. left.
Qed.

Lemma group_members s g ids j : sched_inv s → group_task_ids s !! g = Some ids → j ∈ ids → (j < n)%nat.
Proof.
  intros Hs Hg Hj. apply (go_elem _ _ _ (si_groups _ Hs) _ _ _ Hg) in Hj as (t & Ht & _).
  apply lookup_lt_Some in Ht. by rewrite (si_tags _ Hs) in Ht.
Qed.

Lemma nth_r_Some {A} (l : list A) i x : l !! i = Some x → nth_r l i = Ok x.
Proof. unfold nth_r. by intros ->. Qed.

Lemma nth_r_ok {A} (l : list A) i (d : A) : (i < length l)%nat → nth_r l i = Ok (default d (l !! i)).
Proof. intros Hi. unfold nth_r. by destruct (lookup_lt_is_Some_2 l i Hi) as [x ->]. Qed.

Lemma task_flops_ok s j : sched_inv s → (j < n)%nat → ∃ f, task_flops s j = Ok f.
Proof.
  intros Hs Hj. unfold task_flops.
  rewrite (nth_r_ok (flop_cts s) _ fzero) by (by rewrite (si_flops _ Hs)).
  rewrite (nth_r_ok (best_costs s) _ fzero) by (by rewrite (si_costs _ Hs)). eauto.
Qed.

Lemma mmapr_total {A B} (f : A → result B) l : (∀ x, x ∈ l → ∃ y, f x = Ok y) →
  ∃ ys, mmapr f l = Ok ys ∧ length ys = length l.
Proof.
  induction l as [|x l IH]; intros Hf; [by exists []|]. destruct (Hf x) as [y Hy]; [left|].
  destruct IH as (ys & Hys & Hl); [intros; apply Hf; by right|]. exists (y :: ys). simpl.
  rewrite Hy. cbn [mbind result_bind]. rewrite Hys. split; [done|]. simpl. by rewrite Hl.
Qed.

Lemma remove_group_ok tags m groups g ids i ids' :
  groups_ok tags m groups → groups !! g = Some ids → py_remove ids i = Ok ids' →
  (∃ t, tags !! i = Some (Some t) ∧ dget m t = Some g) →
  groups_ok (<[i := None]> tags) m (<[g := ids']> groups).
Proof.
  intros [Hb Hn He] Hg Hr (t & Ht & Hmt).
  assert (ids ≡ₚ i :: ids') as Hp by by apply py_remove_perm.
  pose proof (Hn _ _ Hg) as Hnd. rewrite Hp in Hnd. apply NoDup_cons in Hnd as [Hni Hnd].
  split.
  - intros t' g' H. rewrite length_insert. by eapply Hb.
  - intros g' l Hl. destruct (decide (g = g')) as [<-|Hne].
    + rewrite list_lookup_insert_eq in Hl by by eapply lookup_lt_Some. by injection Hl as <-.
    + rewrite list_lookup_insert_ne in Hl by done. by eapply Hn.
  - intros g' l j Hl. destruct (decide (i = j)) as [<-|Hij].
    + split; [|intros (t' & Ht' & _); by rewrite list_lookup_insert_eq in Ht' by by eapply lookup_lt_Some].
      intros Hj. exfalso. destruct (decide (g = g')) as [<-|Hne].
      * rewrite list_lookup_insert_eq in Hl by by eapply lookup_lt_Some. injection Hl as <-. done.
      * rewrite list_lookup_insert_ne in Hl by done. apply (He _ _ _ Hl) in Hj as (t' & Ht' & Hmt').
        congruence.
    + rewrite list_lookup_insert_ne by done. destruct (decide (g = g')) as [<-|Hne].
      * rewrite list_lookup_insert_eq in Hl by by eapply lookup_lt_Some. injection Hl as <-.
        rewrite <-(He _ _ j Hg), Hp. set_solver.
      * rewrite list_lookup_insert_ne in Hl by done. by apply He.
Qed.

(** Adjusting the groups never fails and changes nothing else. *)
Lemma adjust_ok beta s i : sched_inv s → (i < n)%nat →
  ∃ s', adjust_similarity_group beta s i = Ok s' ∧ sched_inv s' ∧
    (s' = s ∨ ∃ g ids, s' = set_group s i g ids).
Proof.
  intros Hs Hi. unfold adjust_similarity_group, group_of.
  destruct (lookup_lt_is_Some_2 (task_tags s) i) as [tag Etag]; [by rewrite (si_tags _ Hs)|].
  rewrite (nth_r_Some _ _ _ Etag). cbn [mbind result_bind].
  destruct (match tag with Some t => dget (tag_to_group_id s) t | None => None end) as [g|] eqn:Eg;
    [|exists s; auto].
  destruct tag as [t|]; [|done].
  destruct (lookup_lt_is_Some_2 (group_task_ids s) g) as [ids Eids]; [by eapply si_groups|].
  rewrite (nth_r_Some _ _ _ Eids). cbn [mbind result_bind].
  destruct (Nat.leb_spec (length ids) 1) as [?|Hlen]; [exists s; auto|].
  destruct (mmapr_total (task_flops s) ids) as (flops & -> & Hfl).
  { intros j Hj. apply task_flops_ok; [done|by eapply group_members]. }
  cbn [mbind result_bind]. destruct flops as [|f fs]; [simpl in Hfl; lia|]. cbn [py_max mbind result_bind].
  destruct (task_flops_ok s i Hs Hi) as [cf ->]. cbn [mbind result_bind].
  destruct (flt cf _); [|exists s; auto]. rewrite (nth_r_ok (task_cts s) i 0) by by rewrite (si_cts _ Hs).
  cbn [mbind result_bind].
  destruct (mmapr_total (nth_r (task_cts s)) (filter (λ j, j ≠ i) ids)) as (others & -> & Hol).
  { intros j [_ Hj]%list_elem_of_filter. eexists. apply nth_r_ok with (d := 0).
    rewrite (si_cts _ Hs). by eapply group_members. }
  cbn [mbind result_bind]. destruct others as [|o others].
  { symmetry in Hol. apply nil_length_inv in Hol. exfalso.
    eapply filter_other; [by eapply si_groups|exact Hlen|exact Hol]. }
  cbn [py_maxz mbind result_bind]. destruct (5 + _ <? _); [|exists s; auto].
  assert (i ∈ ids) as Hin by (apply (go_elem _ _ _ (si_groups _ Hs) _ _ _ Eids); eauto).
  destruct (py_remove_ok ids i Hin) as [ids' Hr]. rewrite Hr. cbn [mbind result_bind].
  exists (set_group s i g ids'). split_and!; [done| |eauto].
  destruct Hs. split; cbn; rewrite ?length_insert; try done.
  eapply remove_group_ok; eauto.
Qed.

Lemma init_ok log_floor s : TaskScheduler_init tasks objective_func log_floor = Ok s →
  sched_inv s ∧ task_cts s = replicate n 0.
Proof.
  unfold TaskScheduler_init. destruct (py_assert _); [|done]. cbn [mbind result_bind].
  pose proof (build_groups_ok log_floor tasks) as Hg. destruct (build_groups tasks log_floor) as [m groups].
  intros [= <-]. split; [|done]. split; cbn; rewrite ?length_replicate, ?length_fmap; try done.
  - apply Forall_replicate. lia.
  - by apply Forall_replicate.
  - intros i h b Hh _. apply lookup_replicate in Hh as [-> _]. split; [constructor|constructor|by left].
Qed.

(** ** Beginning to tune *)

Lemma begin_ok opt early s s' trials : sched_inv s → begin_tune tasks opt early s = Ok (s', trials) →
  sched_inv s' ∧ 0 < num_measures_per_round s'.
Proof.
  intros Hs H. unfold begin_tune in H. destruct (Z.leb_spec (Z.min (opt_num_measures_per_round opt)
    ((if num_measure_trials opt <? 0 then Z.of_nat n else num_measure_trials opt) / Z.of_nat n)) 0) as [|Hp]; [done|].
  injection H as <- <-. split; [|exact Hp]. destruct Hs. split; cbn; try done. lia.
Qed.

Lemma best_ok s : sched_inv s → sched_inv (set_best s).
Proof. intros []. by split. Qed.

(** What reading a log does to the counters and to the best costs: a cost is only replaced by a
    lower one. *)
Record restores (a b : list Z * list Z * list float) : Prop := {
  re_cts : length b.1.1 = length a.1.1;
  re_best_cts : length b.1.2 = length a.1.2;
  re_costs : length b.2 = length a.2;
  re_nonneg : Forall (λ c, 0 ≤ c) a.1.1 → Forall (λ c, 0 ≤ c) b.1.1;
  re_lower : ∀ i x y, a.2 !! i = Some x → b.2 !! i = Some y → y = x ∨ flt y x = true
}.

#[local] Instance restores_preorder : PreOrder restores.
Proof.
  split; [intros a; split; try done; intros; simplify_eq; by left|].
  intros a b c [A1 A2 A3 A4 A5] [B1 B2 B3 B4 B5]. split; [lia|lia|lia|auto|].
  intros i x z Hx Hz. destruct (lookup_lt_is_Some_2 b.2 i) as [y Hy]; [apply lookup_lt_Some in Hx; lia|].
  destruct (A5 i x y Hx Hy) as [Exy|Hyx], (B5 i y z Hy Hz) as [Eyz|Hzy]; subst; [by left|by right|by right|right; by eapply flt_trans].
Qed.

Lemma restore_record_ok target ids a r b : restore_record target ids a r = Ok b → restores a b.
Proof.
  destruct a as [[cts best_cts] costs]. unfold restore_record. intros H. destruct (negb _); [by injection H as <-|].
  destruct (dget ids (rec_workload_key r)) as [i|]; [|by injection H as <-].
  apply result_bind_ok in H as (c & Hc & H). unfold nth_r in Hc. destruct (cts !! i) as [c0|] eqn:Ec; [|done]. injection Hc as <-.
  assert (Forall (λ c, 0 ≤ c) cts → Forall (λ c, 0 ≤ c) (<[i := c0 + 1]> cts)) as Hn.
  { intros Hall. apply Forall_insert; [done|]. pose proof (Forall_lookup_1 _ _ i _ Hall Ec). simpl in *. lia. }
  assert (restores (cts, best_cts, costs) (<[i := c0 + 1]> cts, best_cts, costs)) as Hkeep.
  { split; cbn; rewrite ?length_insert; try done. intros; simplify_eq; by left. }
  destruct (rec_error_no r =? 0); [|by injection H as <-].
  apply result_bind_ok in H as (cost & _ & H). apply result_bind_ok in H as (b0 & Hb0 & [= <-]).
  unfold nth_r in Hb0. destruct (costs !! i) as [b1|] eqn:Eb; [|done]. injection Hb0 as <-.
  destruct (flt cost b1) eqn:Hlt; [|done]. split; cbn; rewrite ?length_insert; try done.
  intros j x y Hx Hy. destruct (decide (i = j)) as [<-|]; [|rewrite list_lookup_insert_ne in Hy by done; simplify_eq; by left].
  rewrite list_lookup_insert_eq in Hy by (by eapply lookup_lt_Some). simplify_eq. by right.
Qed.

Lemma mmapr_Forall {A B} (f : A → result B) (P : A → Prop) (Q : B → Prop) l l' :
  (∀ x y, P x → f x = Ok y → Q y) → Forall P l → mmapr f l = Ok l' → Forall Q l'.
Proof.
  intros Hf Hl. revert l'. induction Hl as [|x l Hx _ IH]; intros l' H; cbn [mmapr] in H; [by injection H as <-|].
  apply result_bind_ok in H as (y & Hy & H). apply result_bind_ok in H as (ys & Hys & [= <-]). constructor; eauto.
Qed.

Lemma restored_count_nonneg c per_round z : 0 ≤ c → 0 ≤ per_round → round_div c per_round = Ok z → 0 ≤ z.
Proof.
  unfold round_div. intros Hc Hp H. destruct (per_round =? 0); [done|]. revert H. apply py_int_unsigned.
  apply fadd_unsigned; [|by vm_compute]. apply fdiv_unsigned; by apply of_Z_unsigned.
Qed.

Lemma restore_ok log s s' : sched_inv s → restore_status tasks objective_func log s = Ok s' → sched_inv s'.
Proof.
  intros Hs H. unfold restore_status in H. apply result_bind_ok in H as (t0 & _ & H).
  apply result_bind_ok in H as ([[cts bcts] costs] & Hr & H).
  apply (mfoldl_keeps _ (restores (task_cts s, task_best_cts s, best_costs s))) in Hr;
    [|intros a r b _ Ha Hb%restore_record_ok; by etrans|done]. destruct Hr as [R1 R2 R3 R4 R5]; cbn in *.
  apply result_bind_ok in H as (cts' & Hcts & H). apply result_bind_ok in H as (bcts' & Hbcts & [= <-]).
  pose proof (mmapr_length _ _ _ Hcts) as L1. pose proof (mmapr_length _ _ _ Hbcts) as L2.
  pose proof Hs as [H1 H2 H3 H4 H5 H6 H7 H8 H9 H10 H11 H12 H13].
  assert (∀ i x y, best_costs s !! i = Some x → costs !! i = Some y → is_nan x = false ∧ is_nan y = false) as Hnum.
  { intros i x y Hx Hy. pose proof (Forall_lookup_1 _ _ i _ H8 Hx) as Hn. split; [done|].
    destruct (R5 i x y Hx Hy) as [->|Hlt]; [done|by eapply flt_not_nan_l]. }
  split; cbn; rewrite ?length_zip_with; try lia; try done.
  - eapply (mmapr_Forall _ (λ c, 0 ≤ c)); [|by apply R4|exact Hcts]. cbv beta. intros x y Hx Hy. exact (restored_count_nonneg _ _ _ Hx H13 Hy).
  - apply Forall_lookup. intros i y Hy. destruct (lookup_lt_is_Some_2 (best_costs s) i) as [x Hx]; [apply lookup_lt_Some in Hy; lia|].
    by eapply Hnum.
  - intros i. rewrite elem_of_union, elem_of_list_to_set, list_elem_of_filter, elem_of_seq. intros [[_ ?]|?%H10]; lia.
  - intros i h y Hh Hy. apply lookup_zip_with_Some in Hh as (h0 & y' & -> & Hh0 & Hy'). rewrite Hy in Hy'. injection Hy' as <-.
    destruct (lookup_lt_is_Some_2 (best_costs s) i) as [x Hx]; [apply lookup_lt_Some in Hy; lia|].
    destruct (Hnum i x y Hx Hy). eapply history_snoc; [by eapply H12|done|done|by eapply R5].
Qed.

(** ** Round robin *)

Lemma next_alive_found (dead : gset nat) k fuel idx :
  (0 < n)%nat → (1 ≤ k ≤ fuel)%nat → Z.to_nat ((idx + Z.of_nat k) mod Z.of_nat n) ∉ dead →
  ∃ i, next_alive tasks fuel dead idx = Ok i ∧ i ∉ dead ∧ (i < n)%nat.
Proof.
  intros Hn. revert k idx. induction fuel as [|fuel IH]; intros k idx Hk Halive; [lia|]. cbn [next_alive].
  pose proof (Z.mod_pos_bound (idx + 1) (Z.of_nat n) ltac:(lia)) as Hb.
  case_decide as Hd; [|eexists; split_and!; [done|done|lia]].
  apply (IH (k - 1)%nat).
  - destruct (decide (k = 1)%nat) as [->|]; [done|lia].
  - rewrite Z.add_mod_idemp_l by lia. by replace (idx + 1 + Z.of_nat (k - 1)) with (idx + Z.of_nat k) by lia.
Qed.

Lemma alive_exists (dead : gset nat) : (size dead < n)%nat → ∃ j, (j < n)%nat ∧ j ∉ dead.
Proof.
  intros Hs. destruct (decide (set_seq 0 n ⊆ dead)) as [Hsub|Hsub].
  - apply subseteq_size in Hsub. rewrite size_set_seq in Hsub. lia.
  - assert (¬ ∀ j, (j < n)%nat → j ∈ dead) as Hex.
    { intros H. apply Hsub. intros j Hj%elem_of_set_seq. apply H. lia. }
    destruct (decide (Exists (λ j, j ∉ dead) (seq 0 n))) as [He|He].
    + apply Exists_exists in He as (j & Hj%elem_of_seq & Hd). exists j. split; [lia|done].
    + exfalso. apply Hex. intros j Hj. apply not_Exists_Forall in He; [|intros; apply _].
      rewrite Forall_forall in He. apply dec_stable, He, elem_of_seq. lia.
Qed.

Lemma next_alive_ok (dead : gset nat) idx :
  (size dead < n)%nat → -1 ≤ idx → ∃ i, next_alive tasks (S n) dead idx = Ok i ∧ i ∉ dead ∧ (i < n)%nat.
Proof.
  intros Hs Hidx. destruct (alive_exists dead Hs) as (j & Hj & Hd).
  set (k := Z.to_nat ((Z.of_nat j - idx - 1) mod Z.of_nat n)).
  pose proof (Z.mod_pos_bound (Z.of_nat j - idx - 1) (Z.of_nat n) ltac:(lia)) as Hb.
  apply (next_alive_found dead (S k)); [lia|unfold k; lia|].
  replace (idx + Z.of_nat (S k)) with ((idx + 1) + (Z.of_nat j - idx - 1) mod Z.of_nat n) by (unfold k; lia).
  rewrite Z.add_mod_idemp_r by lia. replace (idx + 1 + (Z.of_nat j - idx - 1)) with (Z.of_nat j) by lia.
  rewrite Z.mod_small by lia. by rewrite Nat2Z.id.
Qed.

(** No task loses rounds. *)
Definition grows (s s' : TaskScheduler) : Prop :=
  ∀ i c, task_cts s !! i = Some c → ∃ c', task_cts s' !! i = Some c' ∧ c ≤ c'.

#[local] Instance grows_preorder : PreOrder grows.
Proof.
  split.
  - intros s i c H. by exists c.
  - intros s1 s2 s3 H12 H23 i c H. destruct (H12 i c H) as (c2 & H2 & ?).
    destruct (H23 i c2 H2) as (c3 & H3 & ?). exists c3. split; [done|lia].
Qed.

Lemma round_grows s i s' : round_of s i s' → grows s s'.
Proof.
  intros Hr j c Hj. destruct (ro_cts _ _ _ Hr) as (ci & Hci & ->).
  destruct (decide (i = j)) as [<-|Hne].
  - rewrite list_lookup_insert_eq by by eapply lookup_lt_Some. exists (ci + 1). split; [done|].
    simplify_eq. lia.
  - rewrite list_lookup_insert_ne by done. by exists c.
Qed.

(** One iteration of the search loop on a task that is alive: trials are used up or the
    task dies. *)
Lemma iteration_ok beta s i : costs_given → sched_inv s → (i < n)%nat → i ∉ dead_tasks s →
  ∃ s1 s2, tune_task objective_func search s i = Ok s1 ∧ adjust_similarity_group beta s1 i = Ok s2 ∧
    sched_inv s2 ∧ grows s s2 ∧
    ct s2 = ct s + Z.of_nat (rd_inputs (search (rounds s) i)) ∧
    (size (dead_tasks s) ≤ size (dead_tasks s2))%nat ∧
    (rd_inputs (search (rounds s) i) = 0%nat → (size (dead_tasks s) < size (dead_tasks s2))%nat).
Proof.
  intros Hc Hs Hi Hd. destruct (tune_task_ok s i Hc Hs Hi) as (s1 & H1 & Hs1 & Hr).
  destruct (adjust_ok beta s1 i Hs1 Hi) as (s2 & H2 & Hs2 & Hsame). exists s1, s2.
  assert (task_cts s2 = task_cts s1 ∧ ct s2 = ct s1 ∧ dead_tasks s2 = dead_tasks s1) as (E1 & E2 & E3).
  { destruct Hsame as [->|(g & ids & ->)]; done. }
  destruct (ro_dead _ _ _ Hr) as [Hsub _]. split_and!; [done|done|done| | | |].
  - intros j c Hj. rewrite E1. by apply (round_grows s i).
  - rewrite E2. apply Hr.
  - rewrite E3. by apply subseteq_size.
  - intros H0. rewrite E3. apply subset_size. split; [done|]. intros Hsup. apply Hd, Hsup.
    by apply (ro_dies _ _ _ Hr).
Qed.

Definition stopped (trials : Z) (s : TaskScheduler) : Prop :=
  trials ≤ ct s ∨ (n ≤ size (dead_tasks s))%nat ∨
  (early_stopping_all s ≤ ct s - best_ct s ∧ Forall (λ c, flt c valid_cost = true) (best_costs s)).

Definition work_left (trials : Z) (s : TaskScheduler) : nat :=
  Z.to_nat (trials - ct s) + (n - size (dead_tasks s)).

Section round_robin.
Variables (choice : nat → nat → nat) (alpha beta : float) (window trials : Z).
#[local] Abbreviation loop :=
  (search_loop tasks objective_func search choice RoundRobin alpha beta window).

(** One iteration of the loop. *)
Lemma loop_step fuel idx s i s1 s2 :
  ct s < trials → (size (dead_tasks s) < n)%nat →
  next_alive tasks (S n) (dead_tasks s) idx = Ok i →
  tune_task objective_func search s i = Ok s1 → adjust_similarity_group beta s1 i = Ok s2 →
  loop (S fuel) trials idx s =
    if flt (cur_score s2) (best_score s2) then loop fuel trials (Z.of_nat i) (set_best s2)
    else if (early_stopping_all s2 <=? ct s2 - best_ct s2) && forallb (λ c, flt c valid_cost) (best_costs s2)
    then Ok s2 else loop fuel trials (Z.of_nat i) s2.
Proof.
  intros Hct Hd Hi H1 H2. cbn [search_loop]. rewrite (proj2 (Z.ltb_lt _ _) Hct), (proj2 (Nat.ltb_lt _ _) Hd).
  cbn [andb choose_task]. rewrite Hi. cbn [mbind result_bind]. rewrite H1. cbn [mbind result_bind].
  by rewrite H2.
Qed.

Lemma loop_ends bound :
  costs_given → (∀ k i, Z.of_nat (rd_inputs (search k i)) ≤ bound) →
  ∀ m s idx, sched_inv s → -1 ≤ idx → (work_left trials s ≤ m)%nat →
  ∃ s', (∀ fuel, (m < fuel)%nat → loop fuel trials idx s = Ok s') ∧
    sched_inv s' ∧ grows s s' ∧ ct s' ≤ Z.max (ct s) (trials + bound - 1) ∧ stopped trials s'.
Proof.
  intros Hc Hb. induction m as [m IH] using (well_founded_induction lt_wf). intros s idx Hs Hidx Hm.
  destruct ((ct s <? trials) && (size (dead_tasks s) <? n)%nat) eqn:Econd; cycle 1.
  { exists s. split_and!; [|done|done|lia|].
    - intros [|fuel] Hf; [lia|]. cbn [search_loop]. by rewrite Econd.
    - apply andb_false_iff in Econd as [?%Z.ltb_ge|?%Nat.ltb_ge]; [by left|right; by left]. }
  apply andb_true_iff in Econd as [Hct%Z.ltb_lt Hdead%Nat.ltb_lt].
  destruct (next_alive_ok (dead_tasks s) idx Hdead Hidx) as (i & Hi & Halive & Hin).
  destruct (iteration_ok beta s i Hc Hs Hin Halive) as (s1 & s2 & H1 & H2 & Hs2 & Hg & Hct2 & Hd2 & Hdie).
  specialize (Hb (rounds s) i).
  assert (work_left trials s2 < work_left trials s)%nat as Hless.
  { unfold work_left. destruct (decide (rd_inputs (search (rounds s) i) = 0%nat)) as [E|E];
      [specialize (Hdie E); lia|lia]. }
  pose proof (λ fuel, loop_step fuel idx s i s1 s2 Hct Hdead Hi H1 H2) as Hstep.
  (* going on from a state with the same counters *)
  assert (∀ s3, sched_inv s3 → task_cts s3 = task_cts s2 → ct s3 = ct s2 → dead_tasks s3 = dead_tasks s2 →
    (∀ fuel, loop (S fuel) trials idx s = loop fuel trials (Z.of_nat i) s3) →
    ∃ s', (∀ fuel, (m < fuel)%nat → loop fuel trials idx s = Ok s') ∧
      sched_inv s' ∧ grows s s' ∧ ct s' ≤ Z.max (ct s) (trials + bound - 1) ∧ stopped trials s') as Hgo.
  { intros s3 Hs3 E1 E2 E3 Hs23.
    destruct (IH (work_left trials s2) ltac:(lia) s3 (Z.of_nat i) Hs3 ltac:(lia)) as (s' & Hr & Hs' & Hg' & Hct' & Hst).
    { unfold work_left. by rewrite E2, E3. }
    exists s'. split_and!; [|done| |lia|done].
    + intros [|fuel] Hf; [lia|]. rewrite Hs23. apply Hr. lia.
    + etrans; [exact Hg|]. intros j c Hj. apply Hg'. by rewrite E1. }
  destruct (flt (cur_score s2) (best_score s2)).
  - apply (Hgo (set_best s2)); [destruct Hs2; by split|done..].
  - destruct (_ && _) eqn:Estop; [|by apply (Hgo s2)].
    exists s2. split_and!; [|done|done|lia|].
    + intros [|fuel] Hf; [lia|]. by rewrite Hstep.
    + right. right. apply andb_true_iff in Estop as [?%Z.leb_le Hall]. split; [done|].
      apply Forall_forall. intros c Hcc. rewrite forallb_forall in Hall. by apply Hall, list_elem_of_In.
Qed.
End round_robin.

(** ** The warm-up *)

Lemma warm_up_ok s i : costs_given → sched_inv s → (i < n)%nat →
  ∃ s', warm_up objective_func search s i = Ok s' ∧ sched_inv s' ∧ grows s s' ∧
    (∃ k, ct s' = ct s + k ∧ (k = 0 ∨ ∃ r, k = Z.of_nat (rd_inputs (search r i)))) ∧
    (∃ c, task_cts s' !! i = Some c ∧ 1 ≤ c).
Proof.
  intros Hc Hs Hi. unfold warm_up.
  destruct (lookup_lt_is_Some_2 (task_cts s) i) as [c Ec]; [by rewrite (si_cts _ Hs)|].
  rewrite (nth_r_Some _ _ _ Ec). cbn [mbind result_bind].
  pose proof (Forall_lookup_1 _ _ i _ (si_nonneg _ Hs) Ec) as Hpos. simpl in Hpos.
  destruct (Z.eqb_spec c 0) as [->|Hne].
  - destruct (tune_task_ok s i Hc Hs Hi) as (s' & Hr & Hs' & Hro). exists s'. split_and!.
    + done.
    + done.
    + by eapply round_grows.
    + eexists. split; [apply Hro|right; by eexists].
    + destruct (ro_cts _ _ _ Hro) as (c' & Ec' & ->). simplify_eq. exists 1.
      rewrite list_lookup_insert_eq by by eapply lookup_lt_Some. done.
  - exists s. split_and!; [done|done|done|exists 0; split; [lia|by left]|]. exists c. split; [done|lia].
Qed.

Lemma warm_up_all bound l s : costs_given → 0 ≤ bound →
  (∀ k i, Z.of_nat (rd_inputs (search k i)) ≤ bound) →
  sched_inv s → Forall (λ i, (i < n)%nat) l →
  ∃ s', mfoldl (warm_up objective_func search) s l = Ok s' ∧ sched_inv s' ∧ grows s s' ∧
    ct s ≤ ct s' ≤ ct s + Z.of_nat (length l) * bound ∧
    (∀ i, i ∈ l → ∃ c, task_cts s' !! i = Some c ∧ 1 ≤ c).
Proof.
  intros Hc Hb0 Hb Hs Hl. revert s Hs. induction Hl as [|i l Hi _ IH]; intros s Hs.
  { exists s. split_and!; [done|done|done|lia|simpl; lia|]. intros i Hi. by apply elem_of_nil in Hi. }
  destruct (warm_up_ok s i Hc Hs Hi) as (s1 & H1 & Hs1 & Hg1 & (k & Hk & Hkb) & (c & Hci & Hc1)).
  destruct (IH s1 Hs1) as (s' & H2 & Hs' & Hg2 & Hct & Hall). exists s'.
  assert (0 ≤ k ≤ bound) as Hkk by (destruct Hkb as [->|[r ->]]; [done|specialize (Hb r i); lia]).
  split_and!.
  - cbn [mfoldl]. by rewrite H1.
  - done.
  - by etrans.
  - lia.
  - cbn [length]. lia.
  - intros j [->|Hj]%elem_of_cons; [|by apply Hall]. destruct (Hg2 i c Hci) as (c' & Hc' & ?).
    exists c'. split; [done|lia].
Qed.
End state.

(** ** Theorems *)

Section reachable.
Context (tasks : list SearchTask) (objective_func : list float → float).
Context (search : nat → nat → search_round) (log_floor : float → Z).

(** The states of a scheduler: every method that changes one is a step. *)
Inductive tuning : TaskScheduler → Prop :=
| tuning_init s : TaskScheduler_init tasks objective_func log_floor = Ok s → tuning s
| tuning_begin s opt early s' trials : tuning s → begin_tune tasks opt early s = Ok (s', trials) → tuning s'
| tuning_restore s log s' : tuning s → restore_status tasks objective_func log s = Ok s' → tuning s'
| tuning_round s i s' : tuning s → tune_task objective_func search s i = Ok s' → tuning s'
| tuning_adjust s i beta s' : tuning s → adjust_similarity_group beta s i = Ok s' → tuning s'
| tuning_best s : tuning s → tuning (set_best s).

Lemma tuning_inv s : costs_given search → tuning s → sched_inv tasks objective_func s.
Proof.
  intros Hc. induction 1 as [s H|s opt early s' trials _ IH H|s log s' _ IH H|s i s' _ IH H|s i beta s' _ IH H|s _ IH].
  - by apply init_ok in H as [? _].
  - by eapply begin_ok in H as [? _].
  - by eapply restore_ok.
  - assert (i < length tasks)%nat as Hi.
    { rewrite <-(si_cts _ _ _ IH). unfold tune_task, nth_r in H. destruct (task_cts s !! i) eqn:E; [|done]. by eapply lookup_lt_Some. }
    destruct (tune_task_ok _ _ _ s i Hc IH Hi) as (s1 & H1 & H2 & _). rewrite H1 in H. by injection H as <-.
  - assert (i < length tasks)%nat as Hi.
    { rewrite <-(si_tags _ _ _ IH). unfold adjust_similarity_group, group_of, nth_r in H.
      destruct (task_tags s !! i) eqn:E; [|done]. by eapply lookup_lt_Some. }
    destruct (adjust_ok _ _ search beta s i IH Hi) as (s1 & H1 & H2 & _). rewrite H1 in H. by injection H as <-.
  - by apply best_ok.
Qed.

(** The methods of the class lead from reachable states to reachable states. *)
Lemma search_loop_reaches choice strat alpha beta window trials fuel : ∀ idx s s', tuning s →
  search_loop tasks objective_func search choice strat alpha beta window fuel trials idx s = Ok s' → tuning s'.
Proof.
  induction fuel as [|fuel IH]; intros idx s s' Hs H; [done|]. cbn [search_loop] in H.
  destruct (_ && _); [|by injection H as <-]. apply result_bind_ok in H as (i & _ & H).
  apply result_bind_ok in H as (s1 & H1 & H). apply result_bind_ok in H as (s2 & H2 & H).
  assert (tuning s2) as Hs2 by (eapply tuning_adjust; [eapply tuning_round; [exact Hs|exact H1]|exact H2]).
  destruct (flt _ _); [eapply IH; [|exact H]; by apply tuning_best|].
  destruct (_ && _); [by injection H as <-|by eapply IH].
Qed.

Lemma begun_reaches opt early log s s1 s2 trials : tuning s → begin_tune tasks opt early s = Ok (s1, trials) →
  match log with Some l => restore_status tasks objective_func l s1 | None => Ok s1 end = Ok s2 → tuning s2.
Proof.
  intros Hs H1 H2. apply tuning_begin in H1; [|done]. destruct log; [by eapply tuning_restore|by injection H2 as <-].
Qed.

Lemma rounds_reach l s s' : tuning s → mfoldl (tune_task objective_func search) s l = Ok s' → tuning s'.
Proof. apply mfoldl_keeps. intros b i b' _ Hb H. by eapply tuning_round. Qed.

Lemma tune_reaches choice strat alpha beta window fuel policies opt early log s s' : tuning s →
  tune tasks objective_func search choice strat alpha beta window fuel policies opt early log s = Ok s' → tuning s'.
Proof.
  intros Hs H. unfold tune in H. apply result_bind_ok in H as ([s1 trials] & H1 & H). apply result_bind_ok in H as (s2 & H2 & H).
  apply result_bind_ok in H as (_ & _ & H). apply result_bind_ok in H as (s3 & H3 & H).
  eapply search_loop_reaches; [|exact H]. apply tuning_best. eapply mfoldl_keeps; [|by eapply begun_reaches|exact H3].
  intros b i b' _ Hb Hw. unfold warm_up in Hw. apply result_bind_ok in Hw as (c & _ & Hw).
  destruct (c =? 0); [by eapply tuning_round|by injection Hw as <-].
Qed.

Lemma transfer_reaches policies policies2 opt early log s s' : tuning s →
  transfer_tune tasks objective_func search policies policies2 opt early log s = Ok s' → tuning s'.
Proof.
  intros Hs H. unfold transfer_tune in H. apply result_bind_ok in H as ([s1 trials] & H1 & H).
  apply result_bind_ok in H as (s2 & H2 & H). apply result_bind_ok in H as (_ & _ & H). apply result_bind_ok in H as (s3 & H3 & H).
  apply result_bind_ok in H as (_ & _ & H). apply result_bind_ok in H as (s4 & H4 & [= <-]).
  apply tuning_best. eapply rounds_reach; [|exact H4]. apply tuning_best. eapply rounds_reach; [|exact H3]. by eapply begun_reaches.
Qed.
End reachable.

(** C6: Whatever the search policies measure, the task scheduler stays consistent: in every state
    that is reached from a new scheduler by beginning to tune, restoring from a log, tuning
    rounds, adjusted groups and recorded best scores, each similarity group holds exactly the
    tasks whose tag maps to it, the cost history of a task never goes up and ends with its best
    cost, and the score is the objective of the best costs. A further round of any task returns
    normally. It counts the trials, keeps a cost only when it is below the old best one, leaves no
    measured mean below the new best one, and retires a task whose search space is exhausted;
    adjusting the groups returns normally, too. What [tune] and [transfer_tune] return is reached
    in this way. Every result of a round carries at least one cost. *)
Theorem task_scheduler_invariant (tasks : list SearchTask) (objective_func : list float → float)
    (search : nat → nat → search_round) (log_floor : float → Z) (s : TaskScheduler) :
  costs_given search → tuning tasks objective_func search log_floor s →
  sched_inv tasks objective_func s ∧
  (∀ i beta, (i < length tasks)%nat →
    (∃ s', tune_task objective_func search s i = Ok s' ∧ round_of search s i s') ∧
    (∃ s', adjust_similarity_group beta s i = Ok s')) ∧
  (∀ choice strat alpha beta window fuel policies opt early log s',
    tune tasks objective_func search choice strat alpha beta window fuel policies opt early log s = Ok s' →
    tuning tasks objective_func search log_floor s') ∧
  (∀ policies policies2 opt early log s',
    transfer_tune tasks objective_func search policies policies2 opt early log s = Ok s' →
    tuning tasks objective_func search log_floor s').
Proof.
  intros Hc Hs. pose proof (tuning_inv _ _ _ _ _ Hc Hs) as Hi. split_and!; [done| | |].
  - intros i beta Hlt. split.
    + destruct (tune_task_ok _ _ _ s i Hc Hi Hlt) as (s1 & H1 & _ & H2). eauto.
    + destruct (adjust_ok _ _ search beta s i Hi Hlt) as (s1 & H1 & _). eauto.
  - intros. by eapply tune_reaches.
  - intros. by eapply transfer_reaches.
Qed.

(** C35: With the round-robin strategy [tune] terminates, whatever the policies measure
    (at most the trials asked for, each result with at least one cost): the loop needs no
    more iterations than there are trials and tasks. It spends less than one round more than
    its budget of trials, tunes every task at least once, and stops only because the
    trials are used up, because every task is retired, or because of early stopping. *)
Theorem round_robin_tune (tasks : list SearchTask) (objective_func : list float → float)
    (search : nat → nat → search_round) (log_floor : float → Z) (choice : nat → nat → nat)
    (alpha beta : float) (window : Z) (opt : TuningOptions) (early : option Z) (trials per_round : Z)
    (policies : Z → result (list SearchPolicy)) (ps : list SearchPolicy) :
  tasks ≠ [] → costs_given search → policies per_round = Ok ps →
  trials = (if num_measure_trials opt <? 0 then Z.of_nat (length tasks) else num_measure_trials opt) →
  per_round = Z.min (opt_num_measures_per_round opt) (trials / Z.of_nat (length tasks)) →
  0 < per_round → (∀ k i, Z.of_nat (rd_inputs (search k i)) ≤ per_round) →
  ∃ s0 s', TaskScheduler_init tasks objective_func log_floor = Ok s0 ∧
    (∀ fuel, (Z.to_nat trials + length tasks < fuel)%nat →
       tune tasks objective_func search choice RoundRobin alpha beta window fuel policies opt early None
         s0 = Ok s') ∧
    ct s' < trials + per_round ∧
    (∀ i, (i < length tasks)%nat → ∃ c, task_cts s' !! i = Some c ∧ 1 ≤ c) ∧
    stopped tasks trials s'.
Proof.
  intros Hne Hc Hps Ht Hp Hpos Hb. assert (0 < length tasks)%nat as Hn by (destruct tasks; [done|simpl; lia]).
  assert (∃ s0, TaskScheduler_init tasks objective_func log_floor = Ok s0) as [s0 H0].
  { unfold TaskScheduler_init. rewrite (proj2 (Nat.eqb_neq _ _)) by lia. cbn [negb py_assert mbind result_bind].
    destruct (build_groups tasks log_floor). eauto. }
  destruct (init_ok tasks objective_func log_floor s0 H0) as [Hs0 _].
  set (s1 := {| task_cts := task_cts s0; task_best_cts := task_best_cts s0;
       task_costs_history := task_costs_history s0; best_costs := best_costs s0;
       cur_score := cur_score s0; ct := 0; best_ct := 0; best_score := best_score s0;
       dead_tasks := dead_tasks s0; task_tags := task_tags s0; tag_to_group_id := tag_to_group_id s0;
       group_task_ids := group_task_ids s0; flop_cts := flop_cts s0; num_measures_per_round := per_round;
       early_stopping_all := if opt_early_stopping opt <? 0 then never else opt_early_stopping opt;
       early_stopping_task := default never early; rounds := rounds s0 |}).
  assert (begin_tune tasks opt early s0 = Ok (s1, trials)) as Hbegin.
  { unfold begin_tune. rewrite <-Ht, <-Hp. by rewrite (proj2 (Z.leb_gt _ _)) by lia. }
  assert (sched_inv tasks objective_func s1) as Hs1 by (destruct Hs0; split; cbn; try done; lia).
  destruct (warm_up_all tasks objective_func search per_round (seq 0 (length tasks)) s1 Hc ltac:(lia) Hb Hs1)
    as (s2 & Hw & Hs2 & _ & Hct & Hall); [apply Forall_forall; intros i Hi%elem_of_seq; lia|].
  assert (sched_inv tasks objective_func (set_best s2)) as Hs2' by (destruct Hs2; by split).
  rewrite length_seq in Hct. cbn [s1 ct] in Hct.
  destruct (loop_ends tasks objective_func search choice alpha beta window trials per_round Hc Hb
    (Z.to_nat trials + length tasks)%nat (set_best s2) (-1) Hs2' ltac:(lia)) as (s' & Hl & _ & Hg & Hct' & Hst).
  { unfold work_left. cbn [set_best ct]. lia. }
  exists s0, s'. split_and!; [done| | | |done].
  - intros fuel Hf. unfold tune. rewrite Hbegin. cbn [mbind result_bind s1 num_measures_per_round].
    rewrite Hps. cbn [mbind result_bind]. rewrite Hw. cbn [mbind result_bind]. by apply Hl.
  - cbn [set_best ct] in Hct'. assert (Z.of_nat (length tasks) * per_round ≤ trials); [|lia].
    transitivity (Z.of_nat (length tasks) * (trials / Z.of_nat (length tasks))); [nia|].
    apply Z.mul_div_le. lia.
  - intros i Hi. destruct (Hall i) as (c & Hci & ?); [apply elem_of_seq; lia|].
    destruct (Hg i c Hci) as (c' & Hc' & ?). exists c'. split; [done|lia].
Qed.

(** ** Choosing by gradient *)

Lemma foldl_keep (lt : float → float → bool) x l :
  (∀ a b c, is_nan b = false → lt a b = false → lt b c = false → lt a c = false) →
  (∀ a, lt a a = false) → (∀ a b, lt a b = true → lt b a = false) →
  is_nan x = false → Forall (λ y, is_nan y = false) l →
  let m := foldl (λ m y, if lt m y then y else m) x l in
  is_nan m = false ∧ ∀ y, y ∈ x :: l → lt m y = false.
Proof.
  intros Htr Hir Has Hx Hl. revert x Hx. induction Hl as [|y l Hy Hl IH]; intros x Hx; simpl.
  { split; [done|]. intros y Hy. apply list_elem_of_singleton in Hy as ->. apply Hir. }
  destruct (lt x y) eqn:Hxy.
  - destruct (IH y Hy) as [Hn Hm]. split; [done|].
    intros z [->|Hz]%elem_of_cons; [|by apply Hm].
    apply (Htr _ y); [done|apply Hm; left|by apply Has].
  - destruct (IH x Hx) as [Hn Hm]. split; [done|].
    intros z [->|[->|Hz]%elem_of_cons]%elem_of_cons; [apply Hm; left| |apply Hm; by right].
    apply (Htr _ x); [done|apply Hm; left|done].
Qed.

Lemma py_max_spec l m : py_max l = Ok m → Forall (λ y, is_nan y = false) l →
  is_nan m = false ∧ ∀ y, y ∈ l → flt m y = false.
Proof.
  destruct l as [|x l]; [done|]. intros [= <-] [Hx Hl]%Forall_cons.
  apply (foldl_keep flt); [intros; by eapply flt_neg_trans|apply flt_irrefl|apply flt_asym|done|done].
Qed.

Lemma py_min_spec l m : py_min l = Ok m → Forall (λ y, is_nan y = false) l →
  is_nan m = false ∧ ∀ y, y ∈ l → flt y m = false.
Proof.
  destruct l as [|x l]; [done|]. intros [= <-] [Hx Hl]%Forall_cons.
  apply (foldl_keep (λ a b, flt b a));
    [intros; by eapply flt_neg_trans|apply flt_irrefl|intros; by apply flt_asym|done|done].
Qed.

Lemma argmin_from_spec pre l best m :
  pre !! best = Some m → (∀ y, y ∈ pre → flt y m = false) → Forall (λ y, is_nan y = false) (pre ++ l) →
  ∃ g, (pre ++ l) !! argmin_from (length pre) best m l = Some g ∧ ∀ y, y ∈ pre ++ l → flt y g = false.
Proof.
  revert pre best m. induction l as [|y l IH]; intros pre best m Hb Hpre Hn; simpl.
  { rewrite app_nil_r. eauto. }
  assert (Forall (λ y, is_nan y = false) ((pre ++ [y]) ++ l)) as Hn' by by rewrite <-app_assoc.
  assert (is_nan m = false) as Hnm.
  { apply list_elem_of_lookup_2 in Hb. rewrite Forall_forall in Hn. apply Hn, elem_of_app. by left. }
  replace (S (length pre)) with (length (pre ++ [y])) by (rewrite length_app; simpl; lia).
  change (pre ++ y :: l) with (pre ++ [y] ++ l). rewrite app_assoc. destruct (flt y m) eqn:Hym.
  - apply IH; [by rewrite lookup_app_r, Nat.sub_diag by lia| |done].
    intros z [Hz|Hz%list_elem_of_singleton]%elem_of_app; [|subst; apply flt_irrefl].
    apply (flt_neg_trans z m y); [done|by apply Hpre|by apply flt_asym].
  - apply IH; [by apply lookup_app_l_Some| |done].
    intros z [Hz|Hz%list_elem_of_singleton]%elem_of_app; [by apply Hpre|by subst].
Qed.

Lemma np_argmin_spec l : l ≠ [] → Forall (λ y, is_nan y = false) l →
  ∃ i g, np_argmin l = Ok i ∧ l !! i = Some g ∧ ∀ y, y ∈ l → flt y g = false.
Proof.
  destruct l as [|x l]; [done|]. intros _ Hn.
  destruct (argmin_from_spec [x] l 0 x) as (g & Hg & Hm); [done| |done|].
  - intros y Hy. apply list_elem_of_singleton in Hy as ->. apply flt_irrefl.
  - eexists _, g. split; [reflexivity|]. done.
Qed.

Lemma gradient_nonpos objective_func alpha beta window s i g :
  gradient objective_func alpha beta window s i = Ok g →
  is_nan g = false ∧ flt fzero g = false ∧ (i ∈ dead_tasks s → g = fzero).
Proof.
  unfold gradient. case_decide as Hd; [by intros [= <-]|]. intros H.
  apply result_bind_ok in H as (b & _ & H). apply result_bind_ok in H as (cts & _ & H).
  apply result_bind_ok in H as (h & _ & H). apply result_bind_ok in H as (back & _ & H).
  apply result_bind_ok in H as (g2 & _ & H). apply result_bind_ok in H as ([] & Ha & H).
  injection H as <-. unfold py_assert in Ha. set (grad := fmul _ _) in *.
  destruct (fle grad fzero) eqn:Hle; [|done]. rewrite fle_or in Hle. apply orb_true_iff in Hle as [Hlt|Heq].
  - split_and!; [by eapply flt_not_nan_l|by apply flt_asym|done].
  - apply feq_iff in Heq as Hk. destruct Hk as (Hn & _ & _). split_and!; [done| |done].
    rewrite (flt_feq_r grad fzero) by done. apply flt_irrefl.
Qed.

(** The gradient strategy picks a steepest live task: whenever two gradients differ, the
    chosen task is not retired and no task has a smaller gradient. (When all gradients
    are equal the code draws among all tasks, retired ones included.) *)
Theorem gradient_choice (tasks : list SearchTask) (objective_func : list float → float)
    (choice : nat → nat → nat) (alpha beta : float) (window : Z) (s : TaskScheduler)
    (gradients : list float) (x y : float) :
  mmapr (gradient objective_func alpha beta window s) (seq 0 (length tasks)) = Ok gradients →
  x ∈ gradients → y ∈ gradients → flt x y = true →
  ∃ i g, choose_gradient tasks objective_func choice alpha beta window s = Ok i ∧
    (i < length tasks)%nat ∧ i ∉ dead_tasks s ∧
    gradients !! i = Some g ∧ ∀ g', g' ∈ gradients → flt g' g = false.
Proof.
  intros Hgs Hx Hy Hxy.
  assert (∀ g, g ∈ gradients → is_nan g = false ∧ flt fzero g = false) as Hall.
  { intros g [i Hi]%list_elem_of_lookup_1. destruct (mmapr_lookup _ _ _ _ _ Hgs Hi) as (j & _ & Hj).
    by apply gradient_nonpos in Hj as (? & ? & _). }
  assert (Forall (λ g, is_nan g = false) gradients) as Hn by (apply Forall_forall; intros g Hg; by apply Hall).
  destruct (np_argmin_spec gradients) as (i & g & Harg & Hi & Hmin);
    [intros ->; by apply elem_of_nil in Hx|done|].
  destruct (mmapr_lookup _ _ _ _ _ Hgs Hi) as (i' & Hi' & Hgi).
  apply lookup_seq in Hi' as [-> Hlt]. simpl in Hgi. exists i, g. split_and!; [|done| |done|done].
  - unfold choose_gradient. rewrite Hgs. cbn [mbind result_bind].
    destruct (py_max gradients) as [hi|e] eqn:Ehi; [|destruct gradients; [by apply elem_of_nil in Hx|done]].
    destruct (py_min gradients) as [lo|e] eqn:Elo; [|destruct gradients; [by apply elem_of_nil in Hx|done]].
    cbn [mbind result_bind].
    destruct (py_max_spec _ _ Ehi Hn) as [Hnh Hhi]. destruct (py_min_spec _ _ Elo Hn) as [Hnl Hlo].
    assert (feq hi lo = false) as ->; [|done]. apply not_true_iff_false. intros Heq.
    pose proof (Hlo x Hx) as H1. pose proof (Hhi y Hy) as H2. rewrite (flt_feq_l hi lo) in H2 by done.
    by rewrite (flt_neg_trans x lo y) in Hxy.
  - intros Hd. apply gradient_nonpos in Hgi as (_ & _ & Hz). rewrite (Hz Hd) in Hmin.
    destruct (Hall y Hy) as [Hny Hy0]. pose proof (Hmin x Hx) as Hx0.
    by rewrite (flt_neg_trans x fzero y) in Hxy.
Qed.

(** ** Witnesses: three tasks, two of them similar *)

Definition conv_task (flop : Z) (key : string) : SearchTask :=
  {| st_op_tags := [None; Some "conv2d"]; st_flop_ct := of_Z flop; st_workload_key := key; st_target := "cuda" |}.
Definition three_tasks : list SearchTask :=
  [conv_task 1000 "w0"; conv_task 1001 "w1";
   {| st_op_tags := [None]; st_flop_ct := of_Z 500; st_workload_key := "w2"; st_target := "cuda" |}].

(** The third task has nothing left to measure after its first round. *)
Definition three_search (k i : nat) : search_round :=
  if decide (i = 2 ∧ 3 ≤ k)%nat then {| rd_inputs := 0; rd_costs := [] |}
  else {| rd_inputs := 2; rd_costs := [[of_Z (Z.of_nat (10 + i))]; [of_Z (Z.of_nat (12 - i)); of_Z 14]] |}.

Definition three_log (_ : float) : Z := 14.
Definition three_tuning : TuningOptions :=
  {| num_measure_trials := 20; opt_early_stopping := -1; opt_num_measures_per_round := 4 |}.

Definition ok_or {A} (d : A) (r : result A) : A := match r with Ok a => a | Raise _ => d end.

Definition three_policies (per_round : Z) : result (list SearchPolicy) :=
  make_search_policies (λ _, false) (inl "default") 3 per_round None None false (Some "t4") "base_only".

Lemma three_costs : costs_given three_search.
Proof. intros k i. unfold three_search. case_decide; repeat constructor; done. Qed.

Definition dummy_scheduler : TaskScheduler := {|
  task_cts := []; task_best_cts := []; task_costs_history := []; best_costs := []; cur_score := fzero;
  ct := 0; best_ct := 0; best_score := fzero; dead_tasks := ∅; task_tags := []; tag_to_group_id := [];
  group_task_ids := []; flop_cts := []; num_measures_per_round := 0; early_stopping_all := 0;
  early_stopping_task := 0; rounds := 0 |}.

Definition three_start : TaskScheduler :=
  ok_or dummy_scheduler (TaskScheduler_init three_tasks fsum three_log).
Definition three_warm : TaskScheduler :=
  ok_or dummy_scheduler (mfoldl (tune_task fsum three_search) three_start [0; 1; 2]%nat).
Definition three_dead : TaskScheduler := ok_or dummy_scheduler (tune_task fsum three_search three_warm 2).

(** A log with two records of the first task, the second of which failed *)
Definition three_log_file : list log_record :=
  [{| rec_target := "cuda"; rec_workload_key := "w0"; rec_error_no := 0; rec_costs := [of_Z 9] |};
   {| rec_target := "cuda"; rec_workload_key := "w0"; rec_error_no := 4; rec_costs := [of_Z 1] |}].
Definition three_begun : TaskScheduler :=
  match begin_tune three_tasks three_tuning (Some 6) three_start with Ok (s, _) => s | Raise _ => dummy_scheduler end.
Definition three_restored : TaskScheduler :=
  ok_or dummy_scheduler (restore_status three_tasks fsum three_log_file three_begun).
Definition three_tuned : TaskScheduler :=
  ok_or dummy_scheduler (tune_task fsum three_search three_restored 1).

Lemma task_scheduler_invariant_witness :
  best_costs three_tuned = [of_Z 9; of_Z 11; big_cost] ∧ num_measures_per_round three_tuned = 4 ∧
  early_stopping_task three_tuned = 6 ∧ task_cts three_tuned = [1; 1; 0] ∧
  sched_inv three_tasks fsum three_tuned ∧
  ∃ s', tune_task fsum three_search three_tuned 0 = Ok s' ∧ round_of three_search three_tuned 0 s'.
Proof.
  split; [vm_compute; reflexivity|]. split; [vm_compute; reflexivity|]. split; [vm_compute; reflexivity|].
  split; [vm_compute; reflexivity|].
  destruct (task_scheduler_invariant three_tasks fsum three_search three_log three_tuned three_costs) as (Hi & Hr & _).
  - apply (tuning_round _ _ _ _ three_restored 1); [|vm_compute; reflexivity].
    apply (tuning_restore _ _ _ _ three_begun three_log_file); [|vm_compute; reflexivity].
    apply (tuning_begin _ _ _ _ three_start three_tuning (Some 6) _ 20); [|vm_compute; reflexivity].
    apply tuning_init. vm_compute. reflexivity.
  - split; [exact Hi|]. exact (proj1 (Hr 0%nat fzero ltac:(cbn; lia))).
Defined.

Lemma round_robin_tune_witness :
  ∃ s0 s', TaskScheduler_init three_tasks fsum three_log = Ok s0 ∧
    (∀ fuel, (Z.to_nat 20 + length three_tasks < fuel)%nat →
       tune three_tasks fsum three_search (λ _ _, O) RoundRobin (of_dec 2 1) (of_Z 2) 3 fuel
         three_policies three_tuning None None s0 = Ok s') ∧
    ct s' < 20 + 4 ∧
    (∀ i, (i < length three_tasks)%nat → ∃ c, task_cts s' !! i = Some c ∧ 1 ≤ c) ∧
    stopped three_tasks 20 s'.
Proof.
  apply (round_robin_tune three_tasks fsum three_search three_log (λ _ _, O) (of_dec 2 1) (of_Z 2) 3
    three_tuning None 20 4 three_policies (ok_or [] (three_policies 4)));
    [discriminate|apply three_costs|vm_compute; reflexivity|reflexivity|reflexivity|lia|].
  intros k i. unfold three_search. destruct (decide (i = 2 ∧ 3 ≤ k)%nat); simpl; lia.
Defined.

Lemma gradient_choice_witness :
  2%nat ∈ dead_tasks three_dead ∧
  ∃ gs i g, mmapr (gradient fsum (of_dec 2 1) (of_Z 2) 3 three_dead) (seq 0 3) = Ok gs ∧
    choose_gradient three_tasks fsum (λ _ _, 2%nat) (of_dec 2 1) (of_Z 2) 3 three_dead = Ok i ∧
    (i < 3)%nat ∧ i ∉ dead_tasks three_dead ∧
    gs !! i = Some g ∧ ∀ g', g' ∈ gs → flt g' g = false.
Proof.
  split; [vm_compute; reflexivity|].
  set (gs := ok_or [] (mmapr (gradient fsum (of_dec 2 1) (of_Z 2) 3 three_dead) (seq 0 3))).
  assert (mmapr (gradient fsum (of_dec 2 1) (of_Z 2) 3 three_dead) (seq 0 3) = Ok gs) as Hgs
    by (vm_compute; reflexivity).
  destruct (gradient_choice three_tasks fsum (λ _ _, 2%nat) (of_dec 2 1) (of_Z 2) 3 three_dead gs
    (default fzero (gs !! 0%nat)) (default fzero (gs !! 2%nat))) as (i & g & H);
    [exact Hgs| | |vm_compute; reflexivity|].
  - vm_compute. left.
  - vm_compute. right. right. left.
  - exists gs, i, g. split; [exact Hgs|exact H].
Defined.

(** [tune] cannot be called with its default arguments: [psa_model_type] defaults to [None],
    which is no device of [psamodel_params], so that with the default search policy
    (and a budget that is large enough) the call raises [KeyError] before anything is
    tuned; with any other policy name it does not return either. *)
Theorem default_tune_key_error (tasks : list SearchTask) (objective_func : list float → float)
    (search : nat → nat → search_round) (choice : nat → nat → nat) (isfile : string → bool)
    (strat : strategy) (alpha beta : float) (window : Z) (fuel : nat) (model : option string)
    (opt : TuningOptions) (early : option Z) (s s1 : TaskScheduler) (trials : Z) :
  begin_tune tasks opt early s = Ok (s1, trials) →
  tune_named tasks objective_func search choice isfile strat alpha beta window fuel "default" None
    model None opt early None s = Raise KeyError ∧
  ∀ name s', tune_named tasks objective_func search choice isfile strat alpha beta window fuel name None
    model None opt early None s ≠ Ok s'.
Proof.
  intros Hb. unfold tune_named, tune. rewrite Hb. cbn [mbind result_bind]. split; [done|].
  intros name s'. pose proof (no_device_no_policy isfile name (length tasks) (num_measures_per_round s1)
    model None (num_measure_trials opt <? 0) "base_only") as Hno.
  destruct (make_search_policies _ _ _ _ _ _ _ _ _) as [ps|e]; [by destruct (Hno ps)|done].
Qed.

Lemma default_tune_key_error_witness :
  tune_named three_tasks fsum three_search (λ _ _, O) (λ _, false) Gradient (of_dec 2 1) (of_Z 2) 3 100
    "default" None None None three_tuning None None three_start = Raise KeyError ∧
  ∀ name s', tune_named three_tasks fsum three_search (λ _ _, O) (λ _, false) Gradient (of_dec 2 1)
    (of_Z 2) 3 100 name None None None three_tuning None None three_start ≠ Ok s'.
Proof.
  apply (default_tune_key_error three_tasks fsum three_search (λ _ _, O) (λ _, false) Gradient
    (of_dec 2 1) (of_Z 2) 3 100 None three_tuning None three_start
    (ok_or (dummy_scheduler, 0) (begin_tune three_tasks three_tuning None three_start)).1 20).
  vm_compute. reflexivity.
Defined.
