(* ===== verification/Features.v ===== *)
(** * Packed features ([python/tvm/auto_scheduler/feature.py], [src/auto_scheduler/feature.cc]
    and [feature_pam.cc])

    The native code serialises the feature vectors of a batch of programs into one byte
    array, which [unpack_feature] and [unpack_feature_pam] take apart. A 32-bit float is
    kept as its bit pattern (as a signed word): the features are only moved around. The
    number of statements of a record is stored as a float, and is decoded. *)

From Stdlib Require Import SpecFloat.
From S2P Require Import Prelude PyStr PyFloat JsonText Wire.

Definition DEFAULT_FEATURE_VEC_LEN : nat := 164.
Definition DEFAULT_FEATURE_VEC_LEN_PSA : nat := 11.
Definition DEFAULT_FEATURE_VEC_LEN_PAM : nat := 23.
Definition DEFAULT_FEATURE_SEQ_LEN_PAM : nat := 8.

(** ** 32-bit words and floats *)

(** The value of a single precision bit pattern as a Python float. *)
Definition f32_value (bits : Z) : float :=
  let u := bits mod 2 ^ 32 in
  let s := 2 ^ 31 <=? u in
  let e := (u / 2 ^ 23) mod 2 ^ 8 in
  let m := u mod 2 ^ 23 in
  if e =? 255 then (if m =? 0 then S754_infinity s else S754_nan)
  else
    let '(m, e) := if e =? 0 then (m, -149) else (2 ^ 23 + m, e - 150) in
    binary_normalize 53 1024 (if s then - m else m) e s.

(** The conversion of a count to single precision, below [2 ^ 24]. *)
Definition f32_of_count (n : Z) : Z :=
  if n =? 0 then 0
  else let e := Z.log2 n in (e + 127) * 2 ^ 23 + (n * 2 ^ (23 - e) - 2 ^ 23).

(** [struct.unpack_from("%di" % n, b, offset)]; ["%df"] reads the same words. *)
Fixpoint read_words (k : nat) (b : bytes) : result (list Z) :=
  match k with
  | O => Ok []
  | S k => w ← unpack_i32 (take 4 b); ws ← read_words k (drop 4 b); Ok (w :: ws)
  end.

Definition unpack_from (n : Z) (b : bytes) (offset : nat) : result (list Z) :=
  if (n <? 0) || (Z.of_nat (length b) <? Z.of_nat offset + 4 * n) then Raise StructError
  else read_words (Z.to_nat n) (drop offset b).

(** 32-bit words as memory holds them (the conversion to [int] wraps around). *)
Definition word_bytes (w : Z) : bytes :=
  [byte w; byte (w / 256); byte (w / 256 ^ 2); byte (w / 256 ^ 3)].

Definition write_words (ws : list Z) : bytes := ws ≫= word_bytes.

(** ** Unpacking *)

(** A list of rows from a flat list. *)
Fixpoint chunks {A} (rows k : nat) (l : list A) : list (list A) :=
  match rows with
  | O => []
  | S rows => take k l :: chunks rows k (drop k l)
  end.

Definition zeros (rows k : nat) : list (list Z) := replicate rows (replicate k 0).

(** The loop over the statements of a record. *)
Fixpoint read_rows (n_stmts vec_len : nat) (b : bytes) (offset : nat) : result (list (list Z) * nat) :=
  match n_stmts with
  | O => Ok ([], offset)
  | S n_stmts =>
      x ← unpack_from (Z.of_nat vec_len) b offset;
      '(row, offset) ← read_rows n_stmts vec_len b (offset + 4 * vec_len);
      Ok (x :: row, offset)
  end.

(** One record of [unpack_feature]. *)
Definition read_record (vec_len : nat) (b : bytes) (size : Z) (offset : nat)
    : result (list (list Z) * nat) :=
  if size =? 0 then Ok (zeros 1 vec_len, offset)
  else
    w ← unpack_from 1 b offset;
    x ← of_option IndexError (head w);
    n_stmts ← py_int (fadd (f32_value x) (of_dec 5 1));
    tmp_vec_len ← (if n_stmts =? 0 then Raise ZeroDivisionError else Ok ((size - 1) / n_stmts));
    _ ← py_assert (tmp_vec_len =? Z.of_nat vec_len);
    _ ← py_assert (tmp_vec_len * n_stmts =? size - 1);
    read_rows (Z.to_nat n_stmts) vec_len b (offset + 4).

Fixpoint read_records (vec_len : nat) (b : bytes) (sizes : list Z) (offset : nat)
    : result (list (list (list Z)) * nat) :=
  match sizes with
  | [] => Ok ([], offset)
  | size :: sizes =>
      '(f, offset) ← read_record vec_len b size offset;
      '(fs, offset) ← read_records vec_len b sizes offset;
      Ok (f :: fs, offset)
  end.

(** [sizes[:-3]] *)
Definition but_last3 {A} (l : list A) : list A := take (length l - 3) l.

(** The three arrays at the end, and the check that nothing is left. *)
Definition read_tail (b : bytes) (sizes : list Z) (offset : nat)
    : result (list Z * list Z * list Z) :=
  m ← py_nth sizes (-3);
  throughputs ← unpack_from m b offset;
  let offset := (offset + 4 * Z.to_nat m)%nat in
  m ← py_nth sizes (-2);
  task_ids ← unpack_from m b offset;
  let offset := (offset + 4 * Z.to_nat m)%nat in
  m ← py_nth sizes (-1);
  min_costs ← unpack_from m b offset;
  let offset := (offset + 4 * Z.to_nat m)%nat in
  _ ← py_assert (offset =? length b)%nat;
  Ok (throughputs, task_ids, min_costs).

Definition vec_len_of (mod_ : bool) : nat :=
  if mod_ then DEFAULT_FEATURE_VEC_LEN else DEFAULT_FEATURE_VEC_LEN_PSA.

Definition unpack_feature (byte_arr : bytes) (mod_ : bool)
    : result (list (list (list Z)) * list Z * list Z * list Z) :=
  let vec_len := vec_len_of mod_ in
  w ← unpack_from 1 byte_arr 0;
  n ← of_option IndexError (head w);
  sizes ← unpack_from (n + 3) byte_arr 4;
  let offset := (4 + 4 * Z.to_nat (n + 3))%nat in
  '(features, offset) ← read_records vec_len byte_arr (but_last3 sizes) offset;
  '(throughputs, task_ids, min_costs) ← read_tail byte_arr sizes offset;
  Ok (features, throughputs, task_ids, min_costs).

(** One record of [unpack_feature_pam]. The formats ["164f" * features_size] and ["8f" * 23]
    read the same words as a single count (a negative repetition is the empty format; what numpy's
    [reshape] makes of a negative dimension is not modelled). *)
Definition read_record_pam (b : bytes) (size features_size kmp_index : Z) (offset : nat)
    : result (list (list Z) * list (list Z) * nat) :=
  let seq_len := DEFAULT_FEATURE_SEQ_LEN_PAM in
  let pam_len := DEFAULT_FEATURE_VEC_LEN_PAM in
  if size =? 0 then Ok (zeros 1 DEFAULT_FEATURE_VEC_LEN, zeros seq_len pam_len, offset)
  else
    let rows := Z.to_nat features_size in
    x ← unpack_from (Z.of_nat (DEFAULT_FEATURE_VEC_LEN * rows)) b offset;
    _ ← (if features_size <? 0 then Raise NotImplementedError else Ok tt);
    let offset := (offset + 4 * (DEFAULT_FEATURE_VEC_LEN * rows))%nat in
    if 0 <=? kmp_index then
      y ← unpack_from (Z.of_nat (seq_len * pam_len)) b offset;
      Ok (chunks rows DEFAULT_FEATURE_VEC_LEN x, chunks seq_len pam_len y,
          (offset + 4 * (seq_len * pam_len))%nat)
    else Ok (chunks rows DEFAULT_FEATURE_VEC_LEN x, zeros seq_len pam_len, offset).

Fixpoint read_records_pam (b : bytes) (sizes fea_sizes kmps : list Z) (offset : nat)
    : result (list (list (list Z)) * list (list (list Z)) * nat) :=
  match sizes, fea_sizes, kmps with
  | size :: sizes, fea :: fea_sizes, kmp :: kmps =>
      '(f, g, offset) ← read_record_pam b size fea kmp offset;
      '(fs, gs, offset) ← read_records_pam b sizes fea_sizes kmps offset;
      Ok (f :: fs, g :: gs, offset)
  | _, _, _ => Ok ([], [], offset)
  end.

Definition unpack_feature_pam (byte_arr : bytes)
    : result (list Z * list Z * list (list (list Z)) * list (list (list Z)) * list Z * list Z * list Z) :=
  w ← unpack_from 1 byte_arr 0;
  n ← of_option IndexError (head w);
  sizes ← unpack_from (n + 3) byte_arr 4;
  let offset := (4 + 4 * Z.to_nat (n + 3))%nat in
  features_size ← unpack_from n byte_arr offset;
  let offset := (offset + 4 * Z.to_nat n)%nat in
  kmp_index ← unpack_from n byte_arr offset;
  let offset := (offset + 4 * Z.to_nat n)%nat in
  '(features, buf_features, offset) ←
    read_records_pam byte_arr (take (Z.to_nat n) sizes) features_size kmp_index offset;
  _ ← py_assert ((length buf_features =? length features)%nat
                 && (Z.of_nat (length features) =? n));
  '(throughputs, task_ids, min_costs) ← read_tail byte_arr sizes offset;
  Ok (features_size, kmp_index, features, buf_features, throughputs, task_ids, min_costs).

(** ** Packing (native code) *)

(** The row that the feature extraction appends for a record: the number of statements and
    the vectors, or nothing when the program could not be lowered. *)
Definition feature_row (r : option (list (list Z))) : list Z :=
  match r with
  | Some vecs => f32_of_count (Z.of_nat (length vecs)) :: concat vecs
  | None => []
  end.

Definition word_count {A} (l : list A) : Z := Z.of_nat (length l).

Definition SerializeFeatures (features : list (list Z)) (throughputs task_ids min_costs : list Z)
    : bytes :=
  let size_vector := [word_count features] ++ (word_count <$> features)
    ++ [word_count throughputs; word_count task_ids; word_count min_costs] in
  write_words (size_vector ++ concat features ++ throughputs ++ task_ids ++ min_costs).

(** The size of a record with PAM features. *)
Definition pam_size (stmt_num kmp_index : Z) : Z :=
  let buf_num := if 0 <=? kmp_index then 8 else 0 in
  stmt_num * Z.of_nat DEFAULT_FEATURE_VEC_LEN + buf_num * Z.of_nat DEFAULT_FEATURE_VEC_LEN_PAM.

Definition SerializeFeaturesPAM (features : list (list (list Z))) (fea_sizes kmp_indexes : list Z)
    (throughputs task_ids min_costs : list Z) : result bytes :=
  let sizes := zip_with pam_size fea_sizes kmp_indexes in
  let size_vector := [word_count features] ++ sizes
    ++ [word_count throughputs; word_count task_ids; word_count min_costs] in
  let total := word_count features + 4 + foldr (λ s acc, s + 2 + acc) 0 sizes
    + word_count throughputs + word_count task_ids + word_count min_costs in
  let data := size_vector ++ fea_sizes ++ kmp_indexes ++ (features ≫= @concat Z)
    ++ throughputs ++ task_ids ++ min_costs in
  _ ← py_assert (word_count size_vector =? 1 + word_count features + 3);
  _ ← py_assert (word_count data =? total);
  Ok (write_words data).

(** ** Words *)

Definition is_word (w : Z) : Prop := - 2 ^ 31 ≤ w < 2 ^ 31.

Lemma unpack_word w : is_word w → unpack_i32 (word_bytes w) = Ok w.
Proof.
  intros Hw. apply unpack_pack. unfold pack_i32, is_word in *.
  by rewrite (proj2 (Z.leb_le _ _)), (proj2 (Z.ltb_lt _ _)) by lia.
Qed.

Lemma write_words_app xs ys : write_words (xs ++ ys) = write_words xs ++ write_words ys.
Proof. apply bind_app. Qed.

Lemma write_words_length ws : length (write_words ws) = (4 * length ws)%nat.
Proof. induction ws as [|w ws IH]; [done|]. unfold write_words in *. csimpl. lia. Qed.

Lemma read_words_write ws post : Forall is_word ws →
  read_words (length ws) (write_words ws ++ post) = Ok ws.
Proof.
  induction 1 as [|w ws Hw _ IH]; [done|]. cbn [length read_words].
  change (take 4 (write_words (w :: ws) ++ post)) with (word_bytes w).
  change (drop 4 (write_words (w :: ws) ++ post)) with (write_words ws ++ post).
  rewrite unpack_word by done. cbn [mbind result_bind]. by rewrite IH.
Qed.

(** Reading back a block of words from the middle of an array. *)
Lemma unpack_from_words pre ws post n off :
  Forall is_word ws → n = word_count ws → off = (4 * length pre)%nat →
  unpack_from n (write_words (pre ++ ws ++ post)) off = Ok ws.
Proof.
  intros Hws -> ->. unfold unpack_from, word_count.
  rewrite !write_words_app, !length_app, !write_words_length.
  rewrite (proj2 (Z.ltb_ge _ _)), (proj2 (Z.ltb_ge _ _)) by lia. simpl orb. cbv iota.
  rewrite Nat2Z.id, <-(write_words_length pre), drop_app_length. by apply read_words_write.
Qed.

Lemma unpack_from_one pre w post off : is_word w → off = (4 * length pre)%nat →
  unpack_from 1 (write_words (pre ++ w :: post)) off = Ok [w].
Proof. intros Hw ->. apply (unpack_from_words pre [w] post); auto. Qed.

Lemma word_count_word {A} (l : list A) : word_count l < 2 ^ 31 → is_word (word_count l).
Proof. unfold word_count, is_word. lia. Qed.

(** ** The statement count *)

Lemma count_roundtrip_upto :
  forallb (λ n, match py_int (fadd (f32_value (f32_of_count (Z.of_nat n))) (of_dec 5 1)) with
                | Ok m => m =? Z.of_nat n | Raise _ => false end) (seq 0 1025) = true.
Proof. vm_compute. reflexivity. Qed.

Lemma count_roundtrip n : (n ≤ 1024)%nat →
  py_int (fadd (f32_value (f32_of_count (Z.of_nat n))) (of_dec 5 1)) = Ok (Z.of_nat n).
Proof.
  intros Hn. pose proof count_roundtrip_upto as H. rewrite forallb_forall in H.
  specialize (H n ltac:(apply in_seq; lia)). cbv beta in H.
  destruct (py_int _) as [m|]; [|done]. apply Z.eqb_eq in H. by subst.
Qed.

Lemma f32_of_count_word n : (n ≤ 1024)%nat → is_word (f32_of_count (Z.of_nat n)).
Proof.
  intros Hn. unfold f32_of_count. case_match eqn:E; [done|]. apply Z.eqb_neq in E.
  set (z := Z.of_nat n) in *. assert (Hl : 0 ≤ Z.log2 z ≤ 10).
  { split; [apply Z.log2_nonneg|]. change 10 with (Z.log2 1024). apply Z.log2_le_mono. lia. }
  pose proof (Z.log2_spec z ltac:(lia)) as [H1 H2].
  assert (z * 2 ^ (23 - Z.log2 z) < 2 ^ 24).
  { replace (2 ^ 24) with (2 ^ Z.succ (Z.log2 z) * 2 ^ (23 - Z.log2 z))
      by (rewrite <-Z.pow_add_r by lia; f_equal; lia).
    apply Z.mul_lt_mono_pos_r; [apply Z.pow_pos_nonneg; lia|lia]. }
  assert (0 ≤ z * 2 ^ (23 - Z.log2 z)) by (apply Z.mul_nonneg_nonneg; [lia|apply Z.pow_nonneg; lia]).
  unfold is_word. lia.
Qed.

(** ** Round trip of the flat features *)

(** A vector of the expected length. *)
Definition vec_ok (k : nat) (v : list Z) : Prop := length v = k ∧ Forall is_word v.

(** A record as the native code produces it: not lowered, or at least one statement. *)
Definition record_ok (k : nat) (r : option (list (list Z))) : Prop :=
  match r with
  | Some vecs => (1 ≤ length vecs ≤ 1024)%nat ∧ Forall (vec_ok k) vecs
  | None => True
  end.

Definition feature_of (k : nat) (r : option (list (list Z))) : list (list Z) :=
  default (zeros 1 k) r.

Lemma concat_vecs_length k vecs : Forall (vec_ok k) vecs →
  length (concat vecs) = (k * length vecs)%nat.
Proof. induction 1 as [|v vecs [<- _] _ IH]; simpl; [|rewrite length_app]; lia. Qed.

Lemma concat_vecs_words k vecs : Forall (vec_ok k) vecs → Forall is_word (concat vecs).
Proof. induction 1 as [|v vecs [_ Hv] _ IH]; simpl; [done|]. by apply Forall_app. Qed.

Lemma read_rows_words k vecs : Forall (vec_ok k) vecs → ∀ pre post,
  read_rows (length vecs) k (write_words (pre ++ concat vecs ++ post)) (4 * length pre)
  = Ok (vecs, (4 * length (pre ++ concat vecs))%nat).
Proof.
  induction 1 as [|v vecs [Hl Hv] _ IH]; intros pre post; [simpl; by rewrite app_nil_r|].
  cbn [length read_rows concat]. rewrite <-app_assoc.
  rewrite (unpack_from_words pre v) by (unfold word_count; auto with lia).
  cbn [mbind result_bind]. specialize (IH (pre ++ v) post). rewrite <-app_assoc in IH.
  replace (4 * length pre + 4 * k)%nat with (4 * length (pre ++ v))%nat
    by (rewrite length_app; lia).
  rewrite IH. cbn. by rewrite <-app_assoc.
Qed.

Lemma read_record_words k r pre post : record_ok k r →
  read_record k (write_words (pre ++ feature_row r ++ post)) (word_count (feature_row r))
    (4 * length pre) = Ok (feature_of k r, (4 * length (pre ++ feature_row r))%nat).
Proof.
  destruct r as [vecs|]; cbn [record_ok feature_row feature_of default];
    [|intros _; unfold read_record; cbn; by rewrite app_nil_r].
  intros [Hn Hv]. unfold read_record, word_count. pose proof (concat_vecs_length _ _ Hv) as Hl.
  cbn [length]. rewrite Hl. rewrite (proj2 (Z.eqb_neq _ 0)) by lia.
  cbn [app]. rewrite unpack_from_one by (try apply f32_of_count_word; lia).
  cbn [mbind result_bind head of_option]. rewrite count_roundtrip by lia.
  cbn [mbind result_bind]. rewrite (proj2 (Z.eqb_neq _ 0)) by lia. cbn [mbind result_bind].
  replace (Z.of_nat (S (k * length vecs)) - 1) with (Z.of_nat k * Z.of_nat (length vecs)) by lia.
  rewrite Z.div_mul, !Z.eqb_refl by lia. cbn [py_assert mbind result_bind].
  rewrite Nat2Z.id. pose proof (read_rows_words k vecs Hv (pre ++ [f32_of_count (Z.of_nat (length vecs))]) post) as H.
  rewrite <-!app_assoc, length_app in H. cbn [app length] in H.
  replace (4 * length pre + 4)%nat with (4 * (length pre + 1))%nat by lia. exact H.
Qed.

Lemma read_records_words k rs : Forall (record_ok k) rs → ∀ pre post,
  read_records k (write_words (pre ++ concat (feature_row <$> rs) ++ post))
    (word_count <$> (feature_row <$> rs)) (4 * length pre)
  = Ok (feature_of k <$> rs, (4 * length (pre ++ concat (feature_row <$> rs)))%nat).
Proof.
  induction 1 as [|r rs Hr _ IH]; intros pre post; [simpl; by rewrite app_nil_r|].
  rewrite !fmap_cons. cbn [read_records concat]. rewrite <-app_assoc.
  rewrite read_record_words by done. cbn [mbind result_bind].
  specialize (IH (pre ++ feature_row r) post). rewrite <-!app_assoc in IH. by rewrite IH.
Qed.

Lemma py_nth_from_end {A} (l : list A) x y z :
  py_nth (l ++ [x; y; z]) (-3) = Ok x ∧ py_nth (l ++ [x; y; z]) (-2) = Ok y ∧
  py_nth (l ++ [x; y; z]) (-1) = Ok z.
Proof.
  unfold py_nth. rewrite length_app. cbn [length Z.ltb Z.compare].
  replace (Z.to_nat (-3 + Z.of_nat (length l + 3))) with (length l + 0)%nat by lia.
  replace (Z.to_nat (-2 + Z.of_nat (length l + 3))) with (length l + 1)%nat by lia.
  replace (Z.to_nat (-1 + Z.of_nat (length l + 3))) with (length l + 2)%nat by lia.
  rewrite !lookup_app_r by lia. rewrite !Nat.add_sub' by lia.
  repeat case_match; try (bool_to_prop; lia); auto.
Qed.

Lemma word_count_nat {A} (l : list A) : Z.to_nat (word_count l) = length l.
Proof. apply Nat2Z.id. Qed.

Lemma read_tail_words l pre thr ids costs :
  Forall is_word thr → Forall is_word ids → Forall is_word costs →
  read_tail (write_words (pre ++ thr ++ ids ++ costs))
    (l ++ [word_count thr; word_count ids; word_count costs]) (4 * length pre)
  = Ok (thr, ids, costs).
Proof.
  intros Ht Hi Hc. unfold read_tail.
  destruct (py_nth_from_end l (word_count thr) (word_count ids) (word_count costs))
    as (-> & -> & ->).
  set (b := write_words _).
  assert (H1 : unpack_from (word_count thr) b (4 * length pre) = Ok thr)
    by (by apply unpack_from_words).
  assert (H2 : unpack_from (word_count ids) b (4 * length pre + 4 * length thr) = Ok ids).
  { subst b. rewrite app_assoc. apply unpack_from_words; auto. rewrite length_app. lia. }
  assert (H3 : unpack_from (word_count costs) b (4 * length pre + 4 * length thr + 4 * length ids)
               = Ok costs).
  { subst b. replace (pre ++ thr ++ ids ++ costs) with ((pre ++ thr ++ ids) ++ costs ++ [])
      by (by rewrite app_nil_r, <-!app_assoc).
    apply unpack_from_words; auto. rewrite !length_app. lia. }
  cbn [mbind result_bind]. rewrite H1. cbn [mbind result_bind].
  rewrite !word_count_nat, H2. cbn [mbind result_bind]. rewrite H3. cbn [mbind result_bind].
  subst b. rewrite write_words_length, !length_app.
  rewrite (proj2 (Nat.eqb_eq _ _)) by lia. done.
Qed.

(** What the arrays of a batch have to satisfy to be representable. *)
Definition batch_ok (n : nat) (thr ids costs : list Z) : Prop :=
  Forall is_word thr ∧ Forall is_word ids ∧ Forall is_word costs ∧
  Forall (λ k, Z.of_nat k < 2 ^ 31) [n; length thr; length ids; length costs].

Lemma but_last3_app {A} (l : list A) x y z : but_last3 (l ++ [x; y; z]) = l.
Proof.
  unfold but_last3. rewrite length_app. cbn [length]. rewrite Nat.add_sub. apply take_app_length.
Qed.

Lemma row_size_word k r : (k ≤ 164)%nat → record_ok k r → is_word (word_count (feature_row r)).
Proof.
  intros Hk. destruct r as [vecs|]; [|done]. intros [Hn Hv]. unfold word_count. cbn [feature_row length].
  rewrite (concat_vecs_length _ _ Hv). unfold is_word. nia.
Qed.

(** C20: What [unpack_feature] returns on the byte array that the native code packs for a batch is
    that batch: the vectors of every statement of every record (one zero vector for a record that
    could not be lowered), the throughputs, the task ids and the minimum costs, each bit for bit. *)
Theorem unpack_feature_roundtrip mod_ rs thr ids costs :
  Forall (record_ok (vec_len_of mod_)) rs → batch_ok (length rs) thr ids costs →
  unpack_feature (SerializeFeatures (feature_row <$> rs) thr ids costs) mod_
  = Ok (feature_of (vec_len_of mod_) <$> rs, thr, ids, costs).
Proof.
  set (k := vec_len_of mod_). intros Hrs (Ht & Hi & Hc & Hlen). repeat setoid_rewrite Forall_cons in Hlen.
  destruct Hlen as (Hn & Hlt & Hli & Hlc & _). unfold unpack_feature, SerializeFeatures. fold k.
  set (sizes := (word_count <$> (feature_row <$> rs)) ++ [word_count thr; word_count ids; word_count costs]).
  set (n := word_count (feature_row <$> rs)).
  assert (Hsz : n + 3 = word_count sizes).
  { unfold sizes, n, word_count. rewrite length_app, !length_fmap. cbn [length]. lia. }
  assert (Hws : Forall is_word sizes).
  { apply Forall_app. split; [|by repeat constructor; unfold is_word, word_count; lia].
    rewrite !Forall_fmap. eapply Forall_impl; [exact Hrs|]. intros r Hr. 
    apply (row_size_word k); [subst k; destruct mod_; cbv; lia|done]. }
  set (body := concat (feature_row <$> rs)). set (tail := thr ++ ids ++ costs).
  cbv zeta. rewrite <-app_assoc. set (b := write_words _).
  assert (H1 : unpack_from 1 b 0 = Ok [n]).
  { apply (unpack_from_one []); [|done]. apply word_count_word. unfold word_count.
    by rewrite length_fmap. }
  assert (H2 : unpack_from (n + 3) b 4 = Ok sizes) by (by apply (unpack_from_words [n])).
  assert (Hoff : (4 + 4 * Z.to_nat (n + 3))%nat = (4 * length ([n] ++ sizes))%nat)
    by (rewrite Hsz, word_count_nat; simpl; lia).
  pose proof (read_records_words k rs Hrs ([n] ++ sizes) tail) as H3.
  pose proof (read_tail_words (word_count <$> (feature_row <$> rs)) (([n] ++ sizes) ++ body)
    thr ids costs Ht Hi Hc) as H4.
  fold body in H3. rewrite <-!app_assoc in H3. rewrite <-(app_assoc _ body), <-app_assoc in H4. fold tail in H4. fold sizes in H4. fold b in H3, H4.
  rewrite H1. cbn [mbind result_bind head of_option]. rewrite H2. cbn [mbind result_bind].
  replace (but_last3 sizes) with (word_count <$> (feature_row <$> rs))
    by (symmetry; apply but_last3_app). rewrite Hoff, H3. cbn [mbind result_bind].
  by rewrite (app_assoc [n] sizes body), H4.
Qed.

(** ** Round trip of the PAM features *)

(** What the native extraction leaves for a record in [features], [fea_sizes] and [kmp_indexes]:
    the statement vectors, the index of the buffer sequence, negative if there is none, and its
    eight vectors. A record that could not be lowered has no vectors and index -1. *)
Record pam_record := { pr_vecs : list (list Z); pr_kmp : Z; pr_bufs : list (list Z) }.

Definition pam_rows (r : pam_record) : list (list Z) := pr_vecs r ++ pr_bufs r.
Definition pam_fea_size (r : pam_record) : Z := word_count (pr_vecs r).

Definition pam_record_ok (r : pam_record) : Prop :=
  (length (pr_vecs r) ≤ 1024)%nat ∧ is_word (pr_kmp r) ∧
  Forall (vec_ok DEFAULT_FEATURE_VEC_LEN) (pr_vecs r) ∧
  Forall (vec_ok DEFAULT_FEATURE_VEC_LEN_PAM) (pr_bufs r) ∧
  length (pr_bufs r) = if 0 <=? pr_kmp r then 8%nat else 0%nat.

Definition pam_feature_of (r : pam_record) : list (list Z) :=
  if (length (pr_vecs r) =? 0)%nat && (pr_kmp r <? 0) then zeros 1 DEFAULT_FEATURE_VEC_LEN
  else pr_vecs r.

Definition pam_buf_of (r : pam_record) : list (list Z) :=
  if pr_kmp r <? 0 then zeros DEFAULT_FEATURE_SEQ_LEN_PAM DEFAULT_FEATURE_VEC_LEN_PAM
  else pr_bufs r.

Lemma chunks_concat k vecs : Forall (vec_ok k) vecs → chunks (length vecs) k (concat vecs) = vecs.
Proof.
  induction 1 as [|v vecs [<- _] _ IH]; [done|]. cbn [length chunks concat].
  by rewrite take_app_length, drop_app_length, IH.
Qed.

Lemma pam_size_rows r : pam_record_ok r →
  word_count (concat (pam_rows r)) = pam_size (pam_fea_size r) (pr_kmp r).
Proof.
  intros (_ & _ & Hv & Hb & Hl). unfold pam_rows, pam_size, pam_fea_size, word_count.
  rewrite concat_app, length_app, (concat_vecs_length _ _ Hv), (concat_vecs_length _ _ Hb), Hl.
  cbv zeta. case_match; lia.
Qed.

Lemma pam_size_zero r : pam_size (pam_fea_size r) (pr_kmp r) = 0 ↔
  length (pr_vecs r) = 0%nat ∧ pr_kmp r < 0.
Proof.
  unfold pam_size, pam_fea_size, word_count, DEFAULT_FEATURE_VEC_LEN, DEFAULT_FEATURE_VEC_LEN_PAM.
  cbv zeta. destruct (Z.leb_spec 0 (pr_kmp r)); lia.
Qed.

Lemma read_record_pam_words r pre post : pam_record_ok r →
  read_record_pam (write_words (pre ++ concat (pam_rows r) ++ post))
    (pam_size (pam_fea_size r) (pr_kmp r)) (pam_fea_size r) (pr_kmp r) (4 * length pre)
  = Ok (pam_feature_of r, pam_buf_of r, (4 * length (pre ++ concat (pam_rows r)))%nat).
Proof.
  intros (_ & _ & Hv & Hb & Hl). pose proof (pam_size_zero r) as Hz.
  pose proof (concat_vecs_length _ _ Hv) as Lv. pose proof (concat_vecs_length _ _ Hb) as Lb.
  pose proof (concat_vecs_words _ _ Hv) as Wv. pose proof (concat_vecs_words _ _ Hb) as Wb.
  unfold read_record_pam, pam_feature_of, pam_buf_of, pam_rows. cbv zeta.
  destruct (Z.eqb_spec (pam_size (pam_fea_size r) (pr_kmp r)) 0) as [E|E].
  { destruct (proj1 Hz E) as [Hv0 Hk]. rewrite (proj2 (Z.leb_gt _ _) Hk) in Hl.
    rewrite (proj2 (Z.ltb_lt _ _) Hk), (proj2 (Nat.eqb_eq _ _) Hv0).
    apply nil_length_inv in Hv0, Hl. rewrite Hv0, Hl. cbn [concat app andb].
    by rewrite app_nil_r. }
  rewrite concat_app, <-app_assoc. unfold pam_fea_size. rewrite word_count_nat.
  rewrite (unpack_from_words pre (concat (pr_vecs r)) _
    (Z.of_nat (DEFAULT_FEATURE_VEC_LEN * length (pr_vecs r))))
    by (unfold word_count; rewrite ?Lv; auto).
  cbn [mbind result_bind]. rewrite (proj2 (Z.ltb_ge _ 0)) by (unfold word_count; lia).
  cbn [mbind result_bind]. rewrite chunks_concat by done.
  replace (4 * length pre + 4 * (DEFAULT_FEATURE_VEC_LEN * length (pr_vecs r)))%nat
    with (4 * length (pre ++ concat (pr_vecs r)))%nat by (rewrite length_app, Lv; lia).
  destruct (Z.leb_spec 0 (pr_kmp r)) as [Hk|Hk].
  - rewrite (proj2 (Z.ltb_ge _ _) Hk), andb_false_r, (app_assoc pre).
    rewrite unpack_from_words by (unfold word_count; rewrite ?Lb, ?Hl; auto).
    cbn [mbind result_bind]. change DEFAULT_FEATURE_SEQ_LEN_PAM with 8%nat. rewrite <-Hl.
    rewrite chunks_concat by done. rewrite (app_assoc pre), (length_app (pre ++ _)), Lb.
    do 2 f_equal. lia.
  - rewrite (proj2 (Z.ltb_lt _ _) Hk), andb_true_r, (proj2 (Nat.eqb_neq _ _)) by tauto.
    apply nil_length_inv in Hl. rewrite Hl. cbn [concat]. by rewrite app_nil_r.
Qed.

Lemma read_records_pam_words rs : Forall pam_record_ok rs → ∀ pre post,
  read_records_pam (write_words (pre ++ ((pam_rows <$> rs) ≫= @concat Z) ++ post))
    (zip_with pam_size (pam_fea_size <$> rs) (pr_kmp <$> rs)) (pam_fea_size <$> rs) (pr_kmp <$> rs)
    (4 * length pre)
  = Ok (pam_feature_of <$> rs, pam_buf_of <$> rs,
        (4 * length (pre ++ ((pam_rows <$> rs) ≫= @concat Z)))%nat).
Proof.
  induction 1 as [|r rs Hr _ IH]; intros pre post; [cbn; by rewrite app_nil_r|].
  rewrite !fmap_cons, bind_cons. cbn [read_records_pam zip_with]. rewrite <-app_assoc.
  rewrite read_record_pam_words by done. cbn [mbind result_bind].
  specialize (IH (pre ++ concat (pam_rows r)) post). rewrite <-!app_assoc in IH. by rewrite IH.
Qed.

Lemma pam_body_length rs : Forall pam_record_ok rs →
  word_count ((pam_rows <$> rs) ≫= @concat Z) + 2 * word_count rs
  = foldr (λ s acc, s + 2 + acc) 0 (zip_with pam_size (pam_fea_size <$> rs) (pr_kmp <$> rs)).
Proof.
  induction 1 as [|r rs Hr _ IH]; [done|]. rewrite !fmap_cons, bind_cons. cbn [zip_with foldr].
  rewrite <-IH, <-(pam_size_rows r) by done. unfold word_count. rewrite length_app. cbn [length]. lia.
Qed.

Lemma pam_words rs : Forall pam_record_ok rs →
  Forall is_word (zip_with pam_size (pam_fea_size <$> rs) (pr_kmp <$> rs)) ∧
  Forall is_word (pam_fea_size <$> rs) ∧ Forall is_word (pr_kmp <$> rs).
Proof.
  induction 1 as [|r rs (Hl & Hk & _) _ (IH1 & IH2 & IH3)]; [done|]. rewrite !fmap_cons.
  split_and!; constructor; auto; unfold is_word, pam_size, pam_fea_size, word_count in *.
  - unfold DEFAULT_FEATURE_VEC_LEN, DEFAULT_FEATURE_VEC_LEN_PAM. cbv zeta. case_match; lia.
  - lia.
Qed.

Section pam_layout.
Context (rs : list pam_record) (thr ids costs : list Z).
Context (Hrs : Forall pam_record_ok rs) (Hbatch : batch_ok (length rs) thr ids costs).

(** The parts of the packed array. *)
Let fs := pam_fea_size <$> rs.
Let ks := pr_kmp <$> rs.
Let szs := zip_with pam_size fs ks.
Let sizes := szs ++ [word_count thr; word_count ids; word_count costs].
Let body := (pam_rows <$> rs) ≫= @concat Z.
Let tail := thr ++ ids ++ costs.
Let n := word_count rs.
Let data := [n] ++ sizes ++ fs ++ ks ++ body ++ tail.

Lemma pam_layout_lengths :
  word_count fs = n ∧ word_count ks = n ∧ word_count szs = n ∧ word_count sizes = n + 3.
Proof.
  assert (Ef : word_count fs = n) by (unfold n, fs, word_count; by rewrite !length_fmap).
  assert (Ek : word_count ks = n) by (unfold n, ks, word_count; by rewrite !length_fmap).
  assert (Es : word_count szs = n).
  { unfold szs. unfold word_count in *. rewrite length_zip_with_l_eq; [done|lia]. }
  split_and!; try done. unfold sizes, word_count in *. rewrite length_app. cbn [length]. lia.
Qed.

Lemma serialize_pam_data :
  SerializeFeaturesPAM (pam_rows <$> rs) fs ks thr ids costs = Ok (write_words data).
Proof.
  destruct pam_layout_lengths as (Ef & Ek & Es & Hsz).
  pose proof (pam_body_length rs Hrs) as Hbody. unfold SerializeFeaturesPAM. cbv zeta.
  fold szs sizes body. fold fs ks szs body in Hbody. rewrite <-Hbody.
  replace (word_count (pam_rows <$> rs)) with n by (unfold n, word_count; by rewrite length_fmap).
  rewrite (proj2 (Z.eqb_eq (word_count ([n] ++ sizes)) _))
    by (unfold word_count in *; rewrite length_app; cbn [length]; lia).
  cbn [py_assert mbind result_bind].
  rewrite (proj2 (Z.eqb_eq (word_count (([n] ++ sizes) ++ fs ++ ks ++ body ++ tail)) _))
    by (unfold tail, word_count in *; rewrite !length_app; cbn [length]; lia).
  cbn [py_assert mbind result_bind]. unfold data. by rewrite <-!app_assoc.
Qed.

Lemma unpack_pam_header :
  unpack_from 1 (write_words data) 0 = Ok [n] ∧
  unpack_from (n + 3) (write_words data) 4 = Ok sizes ∧
  unpack_from n (write_words data) (4 + 4 * Z.to_nat (n + 3)) = Ok fs ∧
  unpack_from n (write_words data) (4 + 4 * Z.to_nat (n + 3) + 4 * Z.to_nat n) = Ok ks.
Proof.
  destruct pam_layout_lengths as (Ef & Ek & Es & Hsz). destruct (pam_words rs Hrs) as (W1 & W2 & W3).
  destruct Hbatch as (Ht & Hi & Hc & Hlen). repeat setoid_rewrite Forall_cons in Hlen.
  destruct Hlen as (Hn & Hlt & Hli & Hlc & _). split_and!.
  - apply (unpack_from_one []); [by apply word_count_word|done].
  - apply (unpack_from_words [n]); [|done..].
    apply Forall_app. split; [exact W1|]. repeat constructor; unfold is_word, word_count; lia.
  - unfold data. rewrite (app_assoc [n]). apply unpack_from_words; [done..|].
    unfold word_count in *. rewrite length_app. cbn [length]. lia.
  - unfold data. rewrite (app_assoc sizes), (app_assoc [n]). apply unpack_from_words; [done..|].
    unfold word_count in *. rewrite !length_app. cbn [length]. lia.
Qed.

Lemma unpack_pam_data :
  unpack_feature_pam (write_words data)
  = Ok (fs, ks, pam_feature_of <$> rs, pam_buf_of <$> rs, thr, ids, costs).
Proof.
  destruct pam_layout_lengths as (Ef & Ek & Es & Hsz). destruct unpack_pam_header as (H1 & H2 & H3 & H4).
  destruct Hbatch as (Ht & Hi & Hc & _).
  pose proof (read_records_pam_words rs Hrs ([n] ++ sizes ++ fs ++ ks) tail) as H5.
  pose proof (read_tail_words szs (([n] ++ sizes ++ fs ++ ks) ++ body) thr ids costs Ht Hi Hc) as H6.
  fold fs ks szs body in H5. fold tail sizes in H6.
  replace (([n] ++ sizes ++ fs ++ ks) ++ body ++ tail) with data in H5
    by (unfold data; by rewrite <-!app_assoc).
  replace ((([n] ++ sizes ++ fs ++ ks) ++ body) ++ tail) with data in H6
    by (unfold data; by rewrite <-!app_assoc).
  unfold unpack_feature_pam. rewrite H1. cbn [mbind result_bind head of_option].
  rewrite H2. cbn [mbind result_bind]. rewrite H3. cbn [mbind result_bind].
  rewrite H4. cbn [mbind result_bind]. unfold word_count in Ef, Ek, Es, Hsz.
  replace (4 + 4 * Z.to_nat (n + 3) + 4 * Z.to_nat n + 4 * Z.to_nat n)%nat
    with (4 * length ([n] ++ sizes ++ fs ++ ks))%nat by (rewrite !length_app; cbn [length]; lia).
  replace (take (Z.to_nat n) sizes) with szs
    by (unfold sizes; rewrite take_app_le, take_ge; lia || done).
  rewrite H5. cbn [mbind result_bind]. rewrite !length_fmap, Nat.eqb_refl.
  replace (Z.of_nat (length rs) =? n) with true by (symmetry; apply Z.eqb_refl). cbn [andb py_assert mbind result_bind].
  by rewrite H6.
Qed.
End pam_layout.

(** The native packing of a batch with PAM features passes its own size checks, and what
    [unpack_feature_pam] returns on the byte array is the batch: the statement counts and the
    sequence indices, the statement vectors and the eight vectors of the buffer sequence of every
    record (zeros where the native code has none), the throughputs, task ids and minimum costs. *)
Theorem unpack_feature_pam_roundtrip rs thr ids costs :
  Forall pam_record_ok rs → batch_ok (length rs) thr ids costs →
  ∃ b, SerializeFeaturesPAM (pam_rows <$> rs) (pam_fea_size <$> rs) (pr_kmp <$> rs)
         thr ids costs = Ok b ∧
       unpack_feature_pam b = Ok (pam_fea_size <$> rs, pr_kmp <$> rs, pam_feature_of <$> rs,
                                  pam_buf_of <$> rs, thr, ids, costs).
Proof. intros Hrs Hb. eexists. split; [by apply serialize_pam_data|by apply unpack_pam_data]. Qed.

(** A batch of a lowered record with two statements and one that failed. *)
Definition sample_records (k : nat) : list (option (list (list Z))) :=
  [Some [replicate k 7; replicate k (-3)]; None].

Lemma unpack_feature_roundtrip_witness :
  unpack_feature (SerializeFeatures (feature_row <$> sample_records 11) [5; 6] [0; 1] [8; 9]) false
  = Ok (feature_of 11 <$> sample_records 11, [5; 6], [0; 1], [8; 9]).
Proof.
  apply (unpack_feature_roundtrip false (sample_records 11)).
  - repeat constructor; cbv; intuition (congruence || lia).
  - split_and!; repeat constructor; cbv; congruence.
Defined.

Definition sample_pam : list pam_record :=
  [{| pr_vecs := [replicate 164 1; replicate 164 2]; pr_kmp := 1; pr_bufs := replicate 8 (replicate 23 4) |};
   {| pr_vecs := []; pr_kmp := -1; pr_bufs := [] |}].

Lemma unpack_feature_pam_roundtrip_witness :
  ∃ b, SerializeFeaturesPAM (pam_rows <$> sample_pam) [2; 0] [1; -1] [5; 6] [0; 1] [8; 9] = Ok b ∧
       unpack_feature_pam b = Ok ([2; 0], [1; -1], pam_feature_of <$> sample_pam,
                                  pam_buf_of <$> sample_pam, [5; 6], [0; 1], [8; 9]).
Proof.
  apply (unpack_feature_pam_roundtrip sample_pam).
  - repeat constructor; cbv; intuition (congruence || lia).
  - split_and!; repeat constructor; cbv; congruence.
Defined.
