(* ===== verification/Arith.v ===== *)
(** * Number operations shared by the analyzer and the datasets

    numpy's arithmetic as an interface, with the binary64 numbers the program uses and exact
    rationals as its instances. *)

From Stdlib Require Import SpecFloat QArith Qround Lqa.
From S2P Require Import Prelude PyFloat.
#[local] Open Scope Z_scope.

(** ** Numbers *)

Class Arith (A : Type) := {
  of_int : Z → A;
  add : A → A → A;
  mul : A → A → A;
  div : A → A → A;
  ceil : A → A;
  maximum : A → A → A;
  less : A → A → bool;
  equal : A → A → bool
}.

(** [np.ceil] *)
Definition fceil (x : float) : float :=
  match x with
  | S754_finite s m e =>
      if 0 <=? e then x
      else
        let d := 2 ^ (- e) in
        if s then binary_normalize 53 1024 (- (Zpos m / d)) 0 true
        else of_Z (- (- Zpos m / d))
  | _ => x
  end.

(** [np.maximum], which propagates NaN *)
Definition fmaximum (x y : float) : float :=
  if is_nan x || is_nan y then fnan else if flt x y then y else x.

Definition fminimum (x y : float) : float :=
  if is_nan x || is_nan y then fnan else if flt y x then y else x.

#[export] Instance float_arith : Arith float := {|
  of_int := of_Z; add := fadd; mul := fmul; div := fdiv; ceil := fceil;
  maximum := fmaximum; less := flt; equal := feq |}.

#[export] Instance Q_arith : Arith Q := {|
  of_int := inject_Z; add := Qplus; mul := Qmult; div := Qdiv;
  ceil := λ q, inject_Z (Qceiling q);
  maximum := λ x y, if Qle_bool x y then y else x;
  less := λ x y, negb (Qle_bool y x);
  equal := Qeq_bool |}.

(** [np.max] of an array that is not empty *)
Definition np_max {A} `{Arith A} (l : list A) : A :=
  match l with [] => of_int 0 | x :: _ => foldl maximum x l end.

(** ** Binary64 *)

Lemma fmaximum_spec x y : is_nan (fmaximum x y) = false →
  is_nan x = false ∧ is_nan y = false ∧ flt (fmaximum x y) x = false ∧ flt (fmaximum x y) y = false.
Proof.
  unfold fmaximum. destruct (is_nan x), (is_nan y); try done. cbn [orb]. intros _.
  destruct (flt x y) eqn:E; eauto using flt_irrefl, flt_asym.
Qed.

Lemma fminimum_spec x y : is_nan (fminimum x y) = false →
  is_nan x = false ∧ is_nan y = false ∧ flt x (fminimum x y) = false ∧ flt y (fminimum x y) = false.
Proof.
  unfold fminimum. destruct (is_nan x), (is_nan y); try done. cbn [orb]. intros _.
  destruct (flt y x) eqn:E; eauto using flt_irrefl, flt_asym.
Qed.

Lemma fmax_fold m xs : is_nan (foldl fmaximum m xs) = false →
  Forall (λ x, is_nan x = false ∧ flt (foldl fmaximum m xs) x = false) (m :: xs).
Proof.
  revert m. induction xs as [|x xs IH]; intros m Hn; cbn [foldl] in *;
    [by repeat constructor; auto using flt_irrefl|].
  pose proof (IH _ Hn) as [[H1 H2] H3]%Forall_cons. 
  destruct (fmaximum_spec m x H1) as (Nm & Nx & Lm & Lx).
  constructor; [|constructor]; eauto using flt_neg_trans.
Qed.

Lemma fmin_fold m xs : is_nan (foldl fminimum m xs) = false →
  Forall (λ x, is_nan x = false ∧ flt x (foldl fminimum m xs) = false) (m :: xs).
Proof.
  revert m. induction xs as [|x xs IH]; intros m Hn; cbn [foldl] in *;
    [by repeat constructor; auto using flt_irrefl|].
  pose proof (IH _ Hn) as [[H1 H2] H3]%Forall_cons. 
  destruct (fminimum_spec m x H1) as (Nm & Nx & Lm & Lx).
  constructor; [|constructor]; eauto using flt_neg_trans.
Qed.

Lemma fold_select (op : float → float → float) (P : float → Prop) m xs :
  (∀ x y, P x → P y → P (op x y)) → P m → Forall P xs → P (foldl op m xs).
Proof. intros Hop Hm Hxs. revert m Hm. induction Hxs; intros m Hm; cbn; eauto. Qed.

(** ** Rationals *)

Section rationals.
#[local] Open Scope Q_scope.

Lemma inject_pos z : (0 < z)%Z → 0 < inject_Z z.
Proof. intros Hz. change 0 with (inject_Z 0). by rewrite <-Zlt_Qlt. Qed.

Lemma div_pos x y : 0 < x → 0 < y → 0 < x / y.
Proof. intros Hx Hy. apply Qlt_shift_div_l; [done|]. lra. Qed.

Lemma div_le_one x y : 0 < y → x <= y → x / y <= 1.
Proof. intros Hy Hx. apply Qle_shift_div_r; [done|]. lra. Qed.

Lemma ceil_above x : 0 < x → x <= ceil x ∧ 0 < ceil x.
Proof. intros Hx. pose proof (Qle_ceiling x). cbn. split; [done|]. by eapply Qlt_le_trans. Qed.

Lemma maximum_ge x y : x <= maximum x y ∧ y <= maximum x y.
Proof.
  cbn. destruct (Qle_bool x y) eqn:E; [apply Qle_bool_iff in E; split; lra|].
  assert (¬ x <= y) by (by rewrite <-Qle_bool_iff, E). split; lra.
Qed.
End rationals.
