(* ===== verification/PSAModel.v ===== *)
(** * The symbol-based analyzer ([python/tvm/auto_scheduler/cost_model/psa_model.py])

    The latency of a program is estimated from its statement features by a roofline with
    penalties. The formula is written once over an interface of number operations; the
    program computes with binary64 numbers, and the bound on the estimate is shown for the
    exact rational instance. numpy's elementwise operations on the columns of a feature
    matrix are one function of a row. *)

From Stdlib Require Import SpecFloat QArith Qround Lqa.
From S2P Require Import Prelude PyDict PyStr PyFloat Arith SearchPolicies.
#[local] Open Scope Z_scope.

(** ** [PSAModelInternal] *)

(** [reg_cap] of [PSAModelInternal.__init__], which [PSAModel] leaves at its default. *)
Definition reg_cap : Z := 128.

Section model.
Context {A : Type} `{Arith A}.
Variable self : psa_params.

Definition warp_penalty (block_size : A) : A :=
  let block_warps_nums_ := div block_size (of_int (arch_warp_size self)) in
  div block_warps_nums_ (ceil block_warps_nums_).

Definition thread_penalty (reuse : A) : A := add (of_int 1) (div (of_int 1) reuse).

(** [sche_units_nums / (np.ceil(sche_units_nums / sche_units_totals) * sche_units_totals)] *)
Definition peak_penalty (grid_size block_size : A) : A :=
  let block_warps_nums := ceil (div block_size (of_int (arch_warp_size self))) in
  let part := of_int (arch_sm_partition self) in
  let midKernel := less grid_size (of_int (active_blocks_per_sm self * sm_nums self)) in
  let tinykernel := midKernel && less block_warps_nums part in
  let samllkernel := midKernel && (less part block_warps_nums || equal part block_warps_nums) in
  let activate_warps :=
    if samllkernel then part else if tinykernel then block_warps_nums else of_int 1 in
  let sche_units_nums := mul grid_size activate_warps in
  let sche_units_totals :=
    of_int (if midKernel then arch_sm_partition self * sm_nums self
            else sm_nums self * active_blocks_per_sm self) in
  div sche_units_nums (mul (ceil (div sche_units_nums sche_units_totals)) sche_units_totals).

Definition reg_penalty (reg_usage : A) : A :=
  if less reg_usage (of_int reg_cap) then of_int 1 else div reg_usage (of_int reg_cap).

(** The latency of one statement: a row of the feature matrix. *)
Definition stmt_latency (feature : list A) : result A :=
  grid_size ← py_nth feature (-3);
  block_size ← py_nth feature (-2);
  reuse ← py_nth feature 6;
  reg_usage ← py_nth feature 2;
  compute_workload ← py_nth feature 1;
  dram_workload ← py_nth feature 5;
  let compute_kernel_tp :=
    div (mul (mul (of_int (peak_performance self)) (peak_penalty grid_size block_size))
             (warp_penalty block_size)) (reg_penalty reg_usage) in
  let compute_time_ns :=
    div (div (mul compute_workload (thread_penalty reuse)) compute_kernel_tp) (of_int 1000000) in
  let memory_latency :=
    div (mul (div (mul dram_workload (of_int 1)) (of_int (glbmem_bandwidth self))) (of_int 1000))
        (of_int (1024 * 1024 * 1024)) in
  Ok (maximum compute_time_ns memory_latency).

Definition all_zero (feature : list (list A)) : bool :=
  forallb (forallb (λ x, equal x (of_int 0))) feature.

(** One program of [_inf]. *)
Definition inf_one (feature : list (list A)) : result A :=
  if all_zero feature then Ok (of_int (-1))
  else
    latencies ← mapM stmt_latency feature;
    let total_latency := add (of_int 0) (foldl add (of_int 0) latencies) in
    Ok (div (of_int 1) total_latency).

Definition _inf (psa_features : list (list (list A))) : result (list A) := mapM inf_one psa_features.
End model.

(** ** [PSAModel] *)

(** [feature.min()]; [feature.max()] is [np_max] *)
Definition fmin_list (l : list float) : float := foldl fminimum (default fnan (head l)) l.

(** [predict] on the features of the states: the programs that could not be lowered, whose
    features are all zero, get minus infinity. *)
Definition predict_fix (feature : list (list float)) (v : float) : result float :=
  match concat feature with
  | [] => Raise ValueError
  | (_ :: _) as xs =>
      Ok (if feq (fmin_list xs) (np_max xs) && feq (np_max xs) fzero then fninf else v)
  end.

Fixpoint predict_fixes (features : list (list (list float))) (ret : list float)
    : result (list float) :=
  match features, ret with
  | f :: features, v :: ret =>
      v' ← predict_fix f v; vs ← predict_fixes features ret; Ok (v' :: vs)
  | _, _ => Ok []
  end.

Definition predict (self : psa_params) (features : list (list (list float))) : result (list float) :=
  ret ← _inf self features;
  predict_fixes features ret.

(** ** The roofline bound *)

Section roofline.
#[local] Open Scope Q_scope.
Variable self : psa_params.

Record hw_ok : Prop := {
  hw_peak : (0 < peak_performance self)%Z;
  hw_bandwidth : (0 < glbmem_bandwidth self)%Z;
  hw_active : (0 < active_blocks_per_sm self)%Z;
  hw_sms : (0 < sm_nums self)%Z;
  hw_part : (0 < arch_sm_partition self)%Z;
  hw_warp : (0 < arch_warp_size self)%Z
}.

(** The features of a statement that was lowered: a launched kernel, and no negative work. *)
Record stmt_ok (f : list Q) : Prop := {
  so_len : length f = 11%nat;
  so_grid : 0 < nth 8 f 0;
  so_block : 0 < nth 9 f 0;
  so_reuse : 0 < nth 6 f 0;
  so_work : 0 <= nth 1 f 0;
  so_dram : 0 <= nth 5 f 0
}.

(** The time the hardware needs at its peak rates: a statement's work at peak performance, or its
    traffic at full bandwidth, whichever is longer. *)
Definition roofline (f : list Q) : Q :=
  let compute := nth 1 f 0 / inject_Z (peak_performance self) / inject_Z 1000000 in
  let memory := nth 5 f 0 / inject_Z (glbmem_bandwidth self) * inject_Z 1000
                / inject_Z (1024 * 1024 * 1024) in
  if Qle_bool compute memory then memory else compute.

Definition roofline_total (prog : list (list Q)) : Q := foldr (λ f t, roofline f + t) 0 prog.

Lemma penalty_ratio x y : 0 < x → 0 < y → 0 < x / (ceil (x / y) * y) ∧ x / (ceil (x / y) * y) <= 1.
Proof.
  intros Hx Hy. destruct (ceil_above (x / y)) as [Hc Hp]; [by apply div_pos|].
  assert (Hm : 0 < ceil (x / y) * y) by nra. split; [by apply div_pos|].
  apply div_le_one; [done|]. apply Qle_trans with (x / y * y); [|nra].
  rewrite Qmult_comm, Qmult_div_r by lra. lra.
Qed.

Context (Hw : hw_ok).

Lemma warp_penalty_le_one block : 0 < block →
  0 < warp_penalty self block ∧ warp_penalty self block <= 1.
Proof.
  intros Hb. unfold warp_penalty. cbv zeta. set (x := div block _).
  assert (Hx : 0 < x) by (apply div_pos; [done|apply inject_pos, Hw]).
  destruct (ceil_above x Hx) as [H1 H2]. split; [by apply div_pos|by apply div_le_one].
Qed.

Lemma peak_penalty_le_one grid block : 0 < grid → 0 < block →
  0 < peak_penalty self grid block ∧ peak_penalty self grid block <= 1.
Proof.
  intros Hg Hb. unfold peak_penalty. cbv zeta. apply penalty_ratio.
  - assert (Hc : 0 < ceil (div block (of_int (arch_warp_size self)))).
    { apply ceil_above, div_pos; [done|apply inject_pos, Hw]. }
    pose proof (inject_pos _ (hw_part Hw)) as Hp. cbn [mul of_int Q_arith] in *.
    repeat case_match; try nra. change (inject_Z 1) with 1. nra.
  - apply inject_pos. destruct Hw. by case_match; apply Z.mul_pos_pos.
Qed.

Lemma reg_penalty_ge_one reg : 1 <= reg_penalty reg.
Proof.
  unfold reg_penalty. destruct (less _ _) eqn:E; [apply Qle_refl|]. cbn in E |- *.
  apply negb_false_iff, Qle_bool_iff in E. apply Qle_shift_div_l; [done|]. by rewrite Qmult_1_l.
Qed.

Lemma thread_penalty_ge_one reuse : 0 < reuse → 1 <= thread_penalty reuse.
Proof. intros Hr. change (1 <= 1 + 1 / reuse). pose proof (div_pos 1 reuse eq_refl Hr). lra. Qed.

(** Penalties only slow the compute part down. *)
Lemma compute_time_ge work peak pp wp rp tp :
  0 <= work → 0 < peak → 0 < pp → pp <= 1 → 0 < wp → wp <= 1 → 1 <= rp → 1 <= tp →
  work / peak <= work * tp / (peak * pp * wp / rp).
Proof.
  intros Hwk Hp Hpp Hpp1 Hwp Hwp1 Hrp Htp.
  assert (H1 : 0 < peak * pp) by (by apply Qmult_lt_0_compat).
  assert (H2 : 0 < peak * pp * wp) by (by apply Qmult_lt_0_compat).
  assert (Hk : 0 < peak * pp * wp / rp) by (apply div_pos; lra).
  apply Qle_shift_div_l; [done|]. apply Qle_trans with work; [|nra].
  assert (Hkp : peak * pp * wp / rp <= peak).
  { apply Qle_shift_div_r; [lra|]. assert (peak * pp <= peak) by nra. nra. }
  apply Qle_trans with (work / peak * peak); [|rewrite Qmult_comm, Qmult_div_r; lra].
  rewrite !(Qmult_comm (work / peak)). apply Qmult_le_compat_r; [done|].
  apply Qle_shift_div_l; [done|]. lra.
Qed.

Lemma stmt_latency_roofline f : stmt_ok f →
  ∃ lat, stmt_latency self f = Ok lat ∧ roofline f <= lat.
Proof.
  intros [Hl Hg Hb Hr Hwk Hd]. do 11 (destruct f as [|? f]; [done|]). destruct f; [|done].
  cbn [nth] in *. eexists. split; [reflexivity|].
  destruct (maximum_ge
    (div (div (mul q0 (thread_penalty q5))
      (div (mul (mul (of_int (peak_performance self)) (peak_penalty self q7 q8))
        (warp_penalty self q8)) (reg_penalty q1))) (of_int 1000000))
    (div (mul (div (mul q4 (of_int 1)) (of_int (glbmem_bandwidth self))) (of_int 1000))
        (of_int (1024 * 1024 * 1024)))) as [Hc Hm].
  unfold roofline. cbn [nth]. case_match; [eapply Qle_trans, Hm|eapply Qle_trans, Hc].
  - cbn. change (inject_Z 1) with 1. apply Qle_lteq. right. unfold Qdiv. ring.
  - cbn [div mul of_int Q_arith]. unfold Qdiv at 1 3. apply Qmult_le_compat_r; [|done].
    destruct (peak_penalty_le_one q7 q8 Hg Hb), (warp_penalty_le_one q8 Hb).
    apply compute_time_ge; auto using reg_penalty_ge_one, thread_penalty_ge_one.
    apply inject_pos, Hw.
Qed.

Lemma roofline_nonneg f : stmt_ok f → 0 <= roofline f.
Proof.
  intros [_ _ _ _ Hwk Hd]. unfold roofline.
  assert (0 <= nth 1 f 0 / inject_Z (peak_performance self) / inject_Z 1000000).
  { do 2 (apply Qle_shift_div_l; [by try apply inject_pos, Hw|rewrite Qmult_0_l]). done. }
  assert (0 <= nth 5 f 0 / inject_Z (glbmem_bandwidth self) * inject_Z 1000
               / inject_Z (1024 * 1024 * 1024)).
  { apply Qle_shift_div_l; [done|]. rewrite Qmult_0_l. apply Qmult_le_0_compat; [|done].
    apply Qle_shift_div_l; [apply inject_pos, Hw|]. by rewrite Qmult_0_l. }
  by case_match.
Qed.

Lemma latencies_roofline prog : Forall stmt_ok prog →
  ∃ ls, mapM (stmt_latency self) prog = Ok ls ∧ roofline_total prog <= foldr Qplus 0 ls.
Proof.
  induction 1 as [|f prog Hf _ (ls & Hls & IH)]; [by exists []|].
  destruct (stmt_latency_roofline f Hf) as (lat & Hlat & Hle). exists (lat :: ls).
  cbn [mapM]. rewrite Hlat. cbn [mbind result_bind]. rewrite Hls. split; [done|]. by apply Qplus_le_compat.
Qed.

Lemma foldl_plus ls a : foldl Qplus a ls == a + foldr Qplus 0 ls.
Proof.
  revert a. induction ls as [|x ls IH]; intros a; cbn; [by rewrite Qplus_0_r|].
  rewrite IH. symmetry. apply Qplus_assoc.
Qed.

Lemma launched_not_zero prog : Forall stmt_ok prog → prog ≠ [] → all_zero prog = false.
Proof.
  destruct 1 as [|f prog [Hl Hg _ _ _ _] _]; [done|]. intros _. unfold all_zero. cbn [forallb].
  apply andb_false_iff. left. apply not_true_iff_false. rewrite forallb_forall. intros Hz.
  specialize (Hz (nth 8 f 0) ltac:(apply nth_In; lia)). apply Qeq_bool_eq in Hz.
  cbn [of_int Q_arith] in Hz. change (inject_Z 0) with 0 in Hz. lra.
Qed.

Lemma inf_one_roofline prog : Forall stmt_ok prog → 0 < roofline_total prog →
  ∃ v, inf_one self prog = Ok v ∧ 0 < v ∧ v * roofline_total prog <= 1.
Proof.
  intros Hp Ht. destruct (latencies_roofline prog Hp) as (ls & Hls & Hle). unfold inf_one.
  rewrite (launched_not_zero prog Hp) by (by intros ->). rewrite Hls. cbn [mbind result_bind].
  set (t := add _ _). assert (Et : t == foldr Qplus 0 ls).
  { unfold t. cbn. rewrite foldl_plus. change (inject_Z 0) with 0. lra. }
  assert (Hpos : 0 < t) by lra. eexists. split; [reflexivity|].
  change (div (of_int 1) t) with (1 / t). split; [by apply div_pos|].
  apply Qle_trans with (1 / t * t); [|rewrite Qmult_comm, Qmult_div_r; lra].
  rewrite !(Qmult_comm (1 / t)). apply Qmult_le_compat_r; [lra|]. by apply Qlt_le_weak, div_pos.
Qed.

End roofline.

(** ** Programs that could not be lowered *)

(** The smallest and the largest entry are zero exactly when all entries are. *)
Lemma min_max_zero x xs : let l := x :: xs in
  feq (fmin_list l) (np_max l) && feq (np_max l) fzero = forallb (λ y, feq y fzero) l.
Proof.
  intros l. apply eq_true_iff_eq. rewrite andb_true_iff, forallb_forall. split.
  - intros [H1 H2] y Hy. change (np_max l) with (foldl fmaximum x l) in *.
    change (fmin_list l) with (foldl fminimum x l) in *.
    assert (Nmax : is_nan (foldl fmaximum x l) = false) by (by destruct (foldl fmaximum _ _)).
    assert (Nmin : is_nan (foldl fminimum x l) = false) by (by destruct (foldl fminimum _ _)).
    pose proof (fmax_fold _ _ Nmax) as [_ Hmax]%Forall_cons.
    pose proof (fmin_fold _ _ Nmin) as [_ Hmin]%Forall_cons.
    rewrite Forall_forall in Hmax, Hmin. apply list_elem_of_In in Hy.
    destruct (Hmax y Hy) as [Ny Hge], (Hmin y Hy) as [_ Hle].
    rewrite (flt_feq_r _ _ _ H1), (flt_feq_r _ _ _ H2) in Hle. rewrite (flt_feq_l _ _ _ H2) in Hge.
    destruct (flt_total y fzero Ny eq_refl) as [|[]]; congruence.
  - intros Hz. assert (Hall : Forall (λ y, feq y fzero = true) l).
    { apply Forall_forall. intros y Hy. by apply Hz, list_elem_of_In. }
    assert (Hop : ∀ op, op = fmaximum ∨ op = fminimum → ∀ a b, feq a fzero = true →
      feq b fzero = true → feq (op a b) fzero = true).
    { intros op Hop a b Ha Hb. destruct Hop; subst op; unfold fmaximum, fminimum;
      by destruct a, b; cbn in *; repeat case_match. }
    assert (Hmax : feq (np_max l) fzero = true).
    { apply (fold_select fmaximum (λ v, feq v fzero = true)); [eauto|by inversion Hall|done]. }
    assert (Hmin : feq (fmin_list l) fzero = true).
    { apply (fold_select fminimum (λ v, feq v fzero = true)); [eauto|by inversion Hall|done]. }
    split; [|done]. rewrite feq_iff in *. intuition congruence.
Qed.

Lemma all_zero_concat (f : list (list float)) :
  all_zero f = forallb (λ y, feq y fzero) (concat f).
Proof.
  unfold all_zero. induction f as [|r f IH]; [done|]. cbn [forallb concat].
  rewrite forallb_app, <-IH. f_equal.
Qed.

Lemma predict_fix_zero f v : concat f ≠ [] →
  predict_fix f v = Ok (if all_zero f then fninf else v).
Proof.
  unfold predict_fix. rewrite all_zero_concat. destruct (concat f) as [|x xs] eqn:E; [done|].
  intros _. by rewrite min_max_zero.
Qed.

(** [PSAModel.predict] gives a program whose feature matrix is all zero, as the unpacking of a
    program that could not be lowered is, minus infinity, and leaves the score of the analyzer to
    every other program, whatever the features are. *)
Theorem predict_invalid_states self features ret :
  Forall (λ f, concat f ≠ []) features → _inf self features = Ok ret →
  predict self features
  = Ok (zip_with (λ f v, if all_zero f then fninf else v) features ret).
Proof.
  unfold predict. intros Hf Hr. rewrite Hr. cbn [mbind result_bind]. clear Hr.
  revert ret. induction Hf as [|f fs Hf _ IH]; intros [|v ret]; cbn [predict_fixes zip_with]; try done.
  rewrite predict_fix_zero by done. cbn [mbind result_bind]. by rewrite IH.
Qed.

(** A statement of a launched kernel on the default device, as floats and exactly. *)
Definition sample_stmt {A} `{Arith A} : list A :=
  of_int <$> [64; 1000000; 200; 4; 5; 4096; 8; 1; 50; 100; 1].


Lemma predict_invalid_states_witness :
  predict (gpu 14900 550 80) [[sample_stmt]; [replicate 11 fzero]]
  = Ok (zip_with (λ f v, if all_zero f then fninf else v) [[sample_stmt]; [replicate 11 fzero]]
          (default [] (match _inf (gpu 14900 550 80) [[sample_stmt]; [replicate 11 fzero]] with
                       | Ok ret => Some ret | Raise _ => None end))).
Proof.
  apply predict_invalid_states; [by repeat constructor|]. vm_compute. reflexivity.
Defined.
