(* ===== verification/Dataset.v ===== *)
(** * Datasets of measured programs ([python/tvm/auto_scheduler/dataset.py])

    [Dataset] and [PAMDataset]: per learning task, the features of the measured programs, their
    throughputs relative to the fastest one and its latency. A numpy array is the list of its
    rows. The numbers are those of [Arith]: binary64 in the program, exact rationals where a
    theorem is about normalisation. Arrays that were never given ([None]) are [None] here. *)

From Stdlib Require Import QArith Lqa.
From S2P Require Import Prelude PyDict PyStr PyFloat Arith.
#[local] Open Scope Z_scope.

(** [LearningTask(workload_key, target)] *)
Definition LearningTask : Type := string * string.

(** [try: m except ValueError: h] *)
Definition try_value_error {S A} (m h : M S A) : M S A := λ s,
  match m s with (Raise ValueError, s') => h s' | r => r end.

(** The state a local object is left in, if nothing was raised. *)
Definition exec {S} (m : M S unit) (s : S) : result S :=
  match m s with (Ok _, s') => Ok s' | (Raise e, _) => Raise e end.

Section dataset.
Context {A : Type} `{Arith A}.

(** Features of one program *)
Context {F : Type}.

(** [np.concatenate], which raises [ValueError] when the shapes do not match *)
Variable concatenate : ∀ X : Type, list X → list X → result (list X).

Record Dataset := {
  ds_features : dict LearningTask (list F);
  ds_throughputs : dict LearningTask (option (list A));
  ds_min_latency : dict LearningTask (option A);
  ds_measure_records : list LearningTask            (* its keys *)
}.

(** [Dataset.__init__] *)
Definition empty_dataset : Dataset :=
  {| ds_features := []; ds_throughputs := []; ds_min_latency := []; ds_measure_records := [] |}.

Definition with_features d (s : Dataset) : Dataset :=
  {| ds_features := d; ds_throughputs := ds_throughputs s; ds_min_latency := ds_min_latency s;
     ds_measure_records := ds_measure_records s |}.
Definition with_throughputs d (s : Dataset) : Dataset :=
  {| ds_features := ds_features s; ds_throughputs := d; ds_min_latency := ds_min_latency s;
     ds_measure_records := ds_measure_records s |}.
Definition with_min_latency d (s : Dataset) : Dataset :=
  {| ds_features := ds_features s; ds_throughputs := ds_throughputs s; ds_min_latency := d;
     ds_measure_records := ds_measure_records s |}.

(** [self.field[task] = value] *)
Definition set_features task v : M Dataset unit :=
  modify (λ s, with_features (dset (ds_features s) task v) s).
Definition set_throughputs task v : M Dataset unit :=
  modify (λ s, with_throughputs (dset (ds_throughputs s) task v) s).
Definition set_min_latency task v : M Dataset unit :=
  modify (λ s, with_min_latency (dset (ds_min_latency s) task v) s).

(** The second half of [load_task_data] on a known task: both arrays of throughputs are scaled to
    the common minimum. *)
Definition merge_throughputs (task : LearningTask) (throughputs : option (list A))
    (min_latency : option A) : M Dataset unit :=
  new_min ← lift (of_option AssertionError min_latency);
  s ← get_st;
  old ← lift (dindex (ds_min_latency s) task);
  old_min ← lift (of_option TypeError old);
  let combined_min_latency := if less new_min old_min then new_min else old_min in
  old_thr ← lift (dindex (ds_throughputs s) task);
  old_thr ← lift (of_option TypeError old_thr);
  new_thr ← lift (of_option TypeError throughputs);
  _ ← set_throughputs task
        (Some (((λ t, mul t (div combined_min_latency old_min)) <$> old_thr)
               ++ ((λ t, mul t (div combined_min_latency new_min)) <$> new_thr)));
  set_min_latency task (Some combined_min_latency).

Definition load_task_data (task : LearningTask) (features : list F) (throughputs : option (list A))
    (min_latency : option A) : M Dataset unit :=
  s ← get_st;
  if dmem (ds_features s) task then
    old ← lift (dindex (ds_features s) task);
    _ ← try_value_error
          (l ← lift (concatenate F old features); set_features task l)
          (set_features task (old ++ features));
    merge_throughputs task throughputs min_latency
  else
    _ ← set_features task features;
    _ ← set_throughputs task throughputs;
    set_min_latency task min_latency.

Definition create_one_task task features throughputs min_latency : result Dataset :=
  exec (load_task_data task features throughputs min_latency) empty_dataset.

Definition update_from_dataset (dataset : Dataset) : M Dataset unit :=
  mfor (λ task,
    s ← get_st;
    if dmem (ds_features s) task then mret tt
    else
      f ← lift (dindex (ds_features dataset) task);
      _ ← set_features task f;
      t ← lift (dindex (ds_throughputs dataset) task);
      _ ← set_throughputs task t;
      m ← lift (dindex (ds_min_latency dataset) task);
      set_min_latency task m) (dkeys (ds_features dataset)).

(** ** Measured pairs *)

Context {Input Result : Type}.
(** [inp.task.workload_key] and [str(inp.task.target)] *)
Variables workload_key target : Input → string.

Definition input_to_learning_task (inp : Input) : LearningTask := (workload_key inp, target inp).

(** The grouping of the pairs by task, in the order in which the tasks appear. *)
Definition group_pairs (pairs : list (Input * Result))
    : dict LearningTask (list Input * list Result) :=
  foldl (λ new_data p,
    let task := input_to_learning_task p.1 in
    let '(is_, rs) := default ([], []) (dget new_data task) in
    dset new_data task (is_ ++ [p.1], rs ++ [p.2])) [] pairs.

(** [get_per_store_features_from_measure_pairs]: features, throughputs, task ids, minimum
    latencies *)
Variable featurize : list Input → list Result → result (list F * list A * list Z * list A).

Definition update_from_measure_pairs (inputs : list Input) (results : list Result)
    : M Dataset unit :=
  mfor (λ '(task, (inputs, results)),
    '(features, throughputs, task_ids, min_latency) ← lift (featurize inputs results);
    _ ← lift (py_assert (forallb (Z.eqb 0) task_ids));
    _ ← lift (py_assert (length min_latency =? 1)%nat);
    m ← lift (py_nth min_latency 0);
    load_task_data task features (Some throughputs) (Some m)) (group_pairs (zip inputs results)).

(** ** Splitting *)

(** The k-th call of [np.random.permutation(n)] *)
Variable permutation : nat → nat → list nat.
(** [np.random.shuffle(tasks)] *)
Variable shuffle : list LearningTask → list LearningTask.

Definition split_point (train_set_ratio : option float) (train_set_num : option Z) (n : nat)
    : result Z :=
  match train_set_num with
  | None =>
      ratio ← of_option TypeError train_set_ratio;
      py_int (fmul ratio (of_Z (Z.of_nat n)))
  | Some num => Ok num
  end.

(** The indices of the two parts. *)
Definition split_indices (shuffle_time : bool) (k n : nat) (split : Z) : list nat * list nat :=
  let order := if shuffle_time then permutation k n else reverse (seq 0 n) in
  let b := slice_bound (length order) split in
  (take b order, drop b order).

(** One part of a task into the train or the test set. *)
Definition load_part (self : Dataset) (task : LearningTask) (features : list F)
    (throughputs : option (list A)) (indices : list nat) (out : Dataset) : result Dataset :=
  match indices with
  | [] => Ok out
  | _ =>
      thr ← of_option TypeError throughputs;
      part ← fancy_index thr indices;
      m ← dindex (ds_min_latency self) task;
      m ← of_option TypeError m;
      fs ← fancy_index features indices;
      exec (load_task_data task fs (Some part) (Some (div m (np_max part)))) out
  end.

Definition split_task (self : Dataset) ratio num shuffle_time (sets : Dataset * Dataset)
    (t : nat * LearningTask) : result (Dataset * Dataset) :=
  let '(k, task) := t in
  features ← dindex (ds_features self) task;
  throughputs ← dindex (ds_throughputs self) task;
  split ← split_point ratio num (length features);
  let '(train_indices, test_indices) := split_indices shuffle_time k (length features) split in
  train ← load_part self task features throughputs train_indices sets.1;
  test ← load_part self task features throughputs test_indices sets.2;
  Ok (train, test).

Definition random_split_within_task (self : Dataset) (train_set_ratio : option float)
    (train_set_num : option Z) (shuffle_time : bool) : result (Dataset * Dataset) :=
  _ ← py_assert (match train_set_ratio, train_set_num with None, None => false | _, _ => true end);
  mfoldl (split_task self train_set_ratio train_set_num shuffle_time)
    (empty_dataset, empty_dataset) (imap pair (dkeys (ds_features self))).

(** [len(self)] *)
Definition dataset_len (self : Dataset) : result Z :=
  mfoldl (λ n t, l ← of_option TypeError t; Ok (n + Z.of_nat (length l))) 0
    (dvalues (ds_throughputs self)).

Definition random_split_by_task (self : Dataset) (train_set_ratio : float)
    : result (Dataset * Dataset) :=
  n ← dataset_len self;
  train_records ← py_int (fmul (of_Z n) train_set_ratio);
  '(_, sets) ← mfoldl (λ '(ct, (train, test)) task,
    features ← dindex (ds_features self) task;
    throughputs ← dindex (ds_throughputs self) task;
    let ct := ct + Z.of_nat (length features) in
    m ← dindex (ds_min_latency self) task;
    if (ct <=? train_records : bool)
    then train ← exec (load_task_data task features throughputs m) train; Ok (ct, (train, test))
    else test ← exec (load_task_data task features throughputs m) test; Ok (ct, (train, test)))
    (0, (empty_dataset, empty_dataset)) (shuffle (dkeys (ds_features self)));
  Ok sets.

(** [target_to_task] of [random_split_by_target] *)
Definition group_targets (tasks : list LearningTask) : dict string (list LearningTask) :=
  foldl (λ d task, dset d task.2 (default [] (dget d task.2) ++ [task])) [] tasks.

Definition random_split_by_target (self : Dataset) (train_set_ratio : float)
    : result (Dataset * Dataset) :=
  let target_to_task := group_targets (dkeys (ds_features self)) in
  n ← dataset_len self;
  train_records ← py_int (fmul (of_Z n) train_set_ratio);
  '(_, sets) ← mfoldl (λ '(ct, sets) (target : string),
    tasks ← dindex target_to_task target;
    '(tmp_adder, sets) ← mfoldl (λ '(tmp_adder, (train, test)) task,
      features ← dindex (ds_features self) task;
      throughputs ← dindex (ds_throughputs self) task;
      let tmp_adder := tmp_adder + Z.of_nat (length features) in
      if (ct <=? train_records : bool)
      then train ← exec (load_task_data task features throughputs None) train;
           Ok (tmp_adder, (train, test))
      else test ← exec (load_task_data task features throughputs None) test;
           Ok (tmp_adder, (train, test))) (0, sets) tasks;
    Ok (ct + tmp_adder, sets)) (0, (empty_dataset, empty_dataset))
    (reverse (dkeys target_to_task));
  Ok sets.

Definition tasks (self : Dataset) : list LearningTask :=
  match ds_features self with [] => ds_measure_records self | d => dkeys d end.

(** [targets]: a set, here in the order of the first occurrence. *)
Definition targets (self : Dataset) : list string :=
  foldl (λ ret t, if decide (t.2 ∈ ret) then ret else ret ++ [t.2]) [] (tasks self).

Definition extract_subset (self : Dataset) (tasks : list LearningTask) : result Dataset :=
  mfoldl (λ ret task,
    if negb (dmem (ds_features self) task) then Ok ret
    else
      f ← dindex (ds_features self) task;
      t ← dindex (ds_throughputs self) task;
      m ← dindex (ds_min_latency self) task;
      exec (load_task_data task f t m) ret) empty_dataset tasks.
End dataset.

Arguments Dataset A F : clear implicits.
