(* ===== verification/DatasetInv.v ===== *)
(** * Datasets: splitting and merging

    Splitting a dataset within its tasks partitions the records of every task, and merging
    measurements keeps the latency that every record stands for. *)

From Stdlib Require Import QArith Lqa.
From S2P Require Import Prelude PyDict PyStr PyFloat Arith Dataset.
#[local] Open Scope Z_scope.

Section datasets.
Context {A : Type} `{Arith A} {F : Type}.
Variable concatenate : ∀ X : Type, list X → list X → result (list X).

(** Keys agree, and every task has as many throughputs as programs and a minimum latency. *)
Record dataset_ok (d : Dataset A F) : Prop := {
  dok_wf : dict_wf (ds_features d);
  dok_thr : dkeys (ds_throughputs d) = dkeys (ds_features d);
  dok_min : dkeys (ds_min_latency d) = dkeys (ds_features d);
  dok_task : ∀ task fs, dget (ds_features d) task = Some fs →
    ∃ thr m, dget (ds_throughputs d) task = Some (Some thr) ∧
             dget (ds_min_latency d) task = Some (Some m) ∧ length thr = length fs
}.

(** The programs of a task with their throughputs. *)
Definition records (d : Dataset A F) (task : LearningTask) : list (F * A) :=
  zip (default [] (dget (ds_features d) task))
      (default [] (default None (dget (ds_throughputs d) task))).

Lemma empty_dataset_ok : dataset_ok empty_dataset.
Proof. by split; try constructor. Qed.

(** The dataset after the data of a task is stored. *)
Definition store (task : LearningTask) (fs : list F) (thr : list A) (m : A) (d : Dataset A F) :=
  with_min_latency (dset (ds_min_latency d) task (Some m))
    (with_throughputs (dset (ds_throughputs d) task (Some thr))
      (with_features (dset (ds_features d) task fs) d)).

Lemma load_fresh task fs thr m d : task ∉ dkeys (ds_features d) →
  exec (load_task_data concatenate task fs (Some thr) (Some m)) d = Ok (store task fs thr m d).
Proof.
  intros Hf. unfold load_task_data, exec. mrun. unfold dmem.
  rewrite (proj2 (dget_None _ _) Hf). done.
Qed.

Lemma dkeys_dset_cong {V W} (d : dict LearningTask V) (e : dict LearningTask W) k v w :
  dkeys d = dkeys e → dkeys (dset d k v) = dkeys (dset e k w).
Proof.
  intros Hk. destruct (decide (k ∈ dkeys d)) as [Hin|Hout].
  - rewrite !dkeys_dset_old by (congruence || done). done.
  - rewrite !dset_fresh by congruence. unfold dkeys in *. rewrite !fmap_app. by rewrite Hk.
Qed.

Lemma store_ok task fs thr m d : dataset_ok d → length thr = length fs →
  dataset_ok (store task fs thr m d).
Proof.
  intros [Hwf Ht Hm Htask] Hl. split; cbn.
  - by apply dict_wf_dset.
  - by apply dkeys_dset_cong.
  - by apply dkeys_dset_cong.
  - intros task' fs' Hget. destruct (decide (task = task')) as [<-|Hne].
    + rewrite !dget_dset_eq in *. simplify_eq. eauto.
    + rewrite !dget_dset_ne in * by done. eauto.
Qed.

Lemma records_store task fs thr m d task' :
  records (store task fs thr m d) task' = if decide (task' = task) then zip fs thr else records d task'.
Proof.
  unfold records. cbn. case_decide; subst; [by rewrite !dget_dset_eq|by rewrite !dget_dset_ne].
Qed.

Lemma elem_store task fs thr m d task' :
  task' ∈ dkeys (ds_features (store task fs thr m d)) ↔ task' = task ∨ task' ∈ dkeys (ds_features d).
Proof. apply elem_dkeys_dset. Qed.

(** ** Splitting within the tasks *)

Lemma fancy_index_zip {X Y} (xs : list X) (ys : list Y) idx :
  length xs = length ys → Forall (λ i, i < length xs)%nat idx →
  ∃ xs' ys', fancy_index xs idx = Ok xs' ∧ fancy_index ys idx = Ok ys' ∧
    length xs' = length ys' ∧ length ys' = length idx ∧ fancy_index (zip xs ys) idx = Ok (zip xs' ys').
Proof.
  intros Hl. unfold fancy_index. induction 1 as [|i idx Hi _ (xs' & ys' & H1 & H2 & Hlen & Hn & H3)]; cbn [mmapr].
  { by exists [], []. }
  destruct (lookup_lt_is_Some_2 xs i) as [x Hx]; [lia|].
  destruct (lookup_lt_is_Some_2 ys i) as [y Hy]; [lia|].
  assert (zip xs ys !! i = Some (x, y)) as Hxy by (apply lookup_zip_with_Some; eauto).
  exists (x :: xs'), (y :: ys'). rewrite Hx, Hy, Hxy. cbn [of_option mbind result_bind].
  rewrite H1, H2, H3. cbn. split_and!; auto.
Qed.

Lemma fancy_index_app {X} (xs : list X) i j a b :
  fancy_index xs i = Ok a → fancy_index xs j = Ok b → fancy_index xs (i ++ j) = Ok (a ++ b).
Proof.
  unfold fancy_index. revert a. induction i as [|k i IH]; intros a Ha Hb; cbn [mmapr app] in *; [by simplify_eq|].
  destruct (of_option _ _) as [x|]; [|done]. cbn [mbind result_bind] in *.
  destruct (mmapr _ i) as [a'|]; [|done]. cbn [mbind result_bind] in *. simplify_eq.
  by rewrite (IH a' eq_refl Hb).
Qed.

Lemma omap_lookup_seq {X} (xs : list X) : ∀ pre,
  omap (λ i, (pre ++ xs) !! i) (seq (length pre) (length xs)) = xs.
Proof.
  induction xs as [|x xs IH]; intros pre; [done|]. csimpl.
  rewrite list_lookup_middle by done. f_equal. specialize (IH (pre ++ [x])).
  rewrite length_app, <-app_assoc in IH. cbn [length app] in IH. by rewrite Nat.add_1_r in IH.
Qed.

Lemma fancy_index_omap {X} (xs out : list X) idx :
  fancy_index xs idx = Ok out → out = omap (λ i, xs !! i) idx.
Proof.
  revert out. unfold fancy_index. induction idx as [|i idx IH]; intros out Ho; cbn [mmapr] in Ho;
    [by simplify_eq|].
  csimpl. destruct (xs !! i) as [x|]; [|done]. cbn [of_option mbind result_bind] in Ho.
  destruct (mmapr _ idx) as [out'|]; [|done]. cbn in Ho. simplify_eq. by rewrite (IH out' eq_refl).
Qed.

(** Gathering along a permutation of the indices permutes the array. *)
Lemma fancy_index_perm {X} (xs out : list X) idx :
  idx ≡ₚ seq 0 (length xs) → fancy_index xs idx = Ok out → out ≡ₚ xs.
Proof.
  intros Hp ->%fancy_index_omap. rewrite Hp. by apply reflexive_eq, (omap_lookup_seq xs []).
Qed.

(** One part of a task. *)
Lemma load_part_ok self task fs thr m idx out :
  dget (ds_min_latency self) task = Some (Some m) → length thr = length fs →
  Forall (λ i, i < length fs)%nat idx → task ∉ dkeys (ds_features out) → dataset_ok out →
  ∃ out' part, load_part concatenate self task fs (Some thr) idx out = Ok out' ∧ dataset_ok out' ∧
    fancy_index (zip fs thr) idx = Ok part ∧ length part = length idx ∧ records out' task = part ∧
    (∀ t, t ≠ task → records out' t = records out t) ∧
    dkeys (ds_features out') ⊆ task :: dkeys (ds_features out).
Proof.
  intros Hm Hl Hidx Hout Hok.
  destruct (fancy_index_zip fs thr idx (eq_sym Hl) Hidx) as (fs' & thr' & H1 & H2 & Hlen & Hn & H3).
  destruct idx as [|i idx].
  - exists out, []. cbn in H3. split_and!; try done; [|set_solver].
    unfold records. by rewrite (proj2 (dget_None _ _) Hout).
  - cbn [load_part of_option mbind result_bind]. rewrite H2. cbn [mbind result_bind].
    unfold dindex. rewrite Hm. cbn [of_option mbind result_bind]. rewrite H1. cbn [mbind result_bind].
    rewrite load_fresh by done. eexists _, _. split_and!; [done|by apply store_ok|done| | | |].
    + rewrite length_zip_with. lia.
    + rewrite records_store. by case_decide.
    + intros t Ht. rewrite records_store. by case_decide.
    + intros t. rewrite elem_store. set_solver.
Qed.

Section splits.
Variable permutation : nat → nat → list nat.
Hypothesis permutation_perm : ∀ k n, permutation k n ≡ₚ seq 0 n.

Lemma split_indices_perm shuffle_time k n split i j :
  split_indices permutation shuffle_time k n split = (i, j) →
  i ++ j ≡ₚ seq 0 n ∧ length i = slice_bound n split.
Proof.
  unfold split_indices. intros [= <- <-]. rewrite take_drop.
  set (order := if shuffle_time then _ else _).
  assert (order ≡ₚ seq 0 n) as Hp.
  { unfold order. destruct shuffle_time; [done|]. by rewrite reverse_Permutation. }
  split; [done|]. rewrite length_take, Hp, length_seq. unfold slice_bound.
  case_match; bool_to_prop; lia.
Qed.

(** What a split has done with the tasks it has gone through. *)
Definition split_done (self : Dataset A F) ratio num (tasks : list LearningTask)
    (sets : Dataset A F * Dataset A F) : Prop :=
  dataset_ok sets.1 ∧ dataset_ok sets.2 ∧
  dkeys (ds_features sets.1) ⊆ tasks ∧ dkeys (ds_features sets.2) ⊆ tasks ∧
  ∀ task, task ∈ tasks →
    records sets.1 task ++ records sets.2 task ≡ₚ records self task ∧
    ∃ split, split_point ratio num (length (records self task)) = Ok split ∧
      length (records sets.1 task) = slice_bound (length (records self task)) split.

Lemma split_task_done self ratio num shuffle_time tasks sets k task :
  dataset_ok self → task ∈ dkeys (ds_features self) → task ∉ tasks →
  (∃ split, split_point ratio num (length (records self task)) = Ok split) →
  split_done self ratio num tasks sets →
  ∃ sets', split_task concatenate permutation self ratio num shuffle_time sets (k, task) = Ok sets' ∧
    split_done self ratio num (tasks ++ [task]) sets'.
Proof.
  intros Hself Hin Hnew [split Hsplit] (Hok1 & Hok2 & Hk1 & Hk2 & Hdone).
  destruct (dget (ds_features self) task) as [fs|] eqn:Hfs; [|by apply dget_None in Hfs].
  destruct (dok_task _ Hself task fs Hfs) as (thr & m & Hthr & Hm & Hl).
  assert (records self task = zip fs thr) as Hrec by (unfold records; by rewrite Hfs, Hthr).
  assert (length (records self task) = length fs) as Hlr by (rewrite Hrec, length_zip_with; lia).
  rewrite Hlr in Hsplit. unfold split_task, dindex. rewrite Hfs, Hthr.
  cbn [of_option mbind result_bind]. rewrite Hsplit. cbn [mbind result_bind].
  destruct (split_indices _ _ _ _ _) as [i j] eqn:Hij.
  destruct (split_indices_perm _ _ _ _ _ _ Hij) as [Hp Hli].
  assert (Forall (λ x, x < length fs)%nat (i ++ j)) as [Hi Hj]%Forall_app.
  { rewrite Hp. apply Forall_forall. intros x. rewrite elem_of_seq. lia. }
  destruct (load_part_ok self task fs thr m i sets.1) as (o1 & p1 & -> & K1 & G1 & L1 & R1 & Q1 & D1);
    [done..|set_solver|done|]. cbn [mbind result_bind].
  destruct (load_part_ok self task fs thr m j sets.2) as (o2 & p2 & -> & K2 & G2 & L2 & R2 & Q2 & D2);
    [done..|set_solver|done|]. cbn [mbind result_bind].
  eexists. split; [done|]. split_and!; cbn; [done|done|set_solver|set_solver|].
  intros t [Ht | ->%list_elem_of_singleton]%elem_of_app.
  - rewrite Q1, Q2 by set_solver. by apply Hdone.
  - rewrite R1, R2, Hlr, Hrec. split; [|exists split; split; [done|lia]].
    eapply fancy_index_perm; [|by apply fancy_index_app]. rewrite length_zip_with.
    rewrite Hl, Nat.min_id. done.
Qed.

Lemma split_tasks_done self ratio num shuffle_time :
  dataset_ok self →
  (∀ task, task ∈ dkeys (ds_features self) →
     ∃ split, split_point ratio num (length (records self task)) = Ok split) →
  ∃ sets, mfoldl (split_task concatenate permutation self ratio num shuffle_time)
            (empty_dataset, empty_dataset) (imap pair (dkeys (ds_features self))) = Ok sets ∧
    split_done self ratio num (dkeys (ds_features self)) sets.
Proof.
  intros Hself Hsplit.
  pose proof (imap_pair_snd (dkeys (ds_features self))) as Hsnd.
  destruct (mfoldl_inv (split_task concatenate permutation self ratio num shuffle_time)
    (λ ts, split_done self ratio num ts.*2) (imap pair (dkeys (ds_features self)))
    (empty_dataset, empty_dataset)) as (sets & Hrun & Hsets); [| |rewrite Hsnd in Hsets; eauto].
  { split_and!; try apply empty_dataset_ok; cbn; try done. by intros ? ?%not_elem_of_nil. }
  intros pre [k task] rest sets Heq Hdone. rewrite fmap_app.
  assert (dkeys (ds_features self) = pre.*2 ++ task :: rest.*2) as Hkeys
    by (by rewrite <-Hsnd, Heq, fmap_app).
  pose proof (dok_wf _ Hself) as Hnd. unfold dict_wf in Hnd. rewrite Hkeys in Hnd.
  apply NoDup_app in Hnd as (_ & Hnd & _).
  apply split_task_done; try done; [rewrite Hkeys; set_solver| |apply Hsplit; rewrite Hkeys; set_solver].
  intros Hin. apply (Hnd task Hin). set_solver.
Qed.
End splits.
End datasets.

(** C19: Splitting a well formed dataset within its tasks, at random or by time, always returns two
    well formed datasets with no other tasks, such that the records of every task are exactly those
    of its two parts, each record with its throughput, and the first part has the size that the
    ratio or the number asks for, cut as a Python slice. *)
Theorem split_within_task_partition {A} `{Arith A} {F}
    (concatenate : ∀ X : Type, list X → list X → result (list X))
    (permutation : nat → nat → list nat) (self : Dataset A F) ratio num shuffle_time :
  (∀ k n, permutation k n ≡ₚ seq 0 n) → dataset_ok self →
  (∀ task, task ∈ dkeys (ds_features self) →
     ∃ split, split_point ratio num (length (records self task)) = Ok split) →
  (ratio ≠ None ∨ num ≠ None) →
  ∃ train test,
    random_split_within_task concatenate permutation self ratio num shuffle_time = Ok (train, test) ∧
    dataset_ok train ∧ dataset_ok test ∧
    (∀ task, task ∈ dkeys (ds_features train) ∨ task ∈ dkeys (ds_features test) →
       task ∈ dkeys (ds_features self)) ∧
    ∀ task, task ∈ dkeys (ds_features self) →
      records train task ++ records test task ≡ₚ records self task ∧
      ∃ split, split_point ratio num (length (records self task)) = Ok split ∧
        length (records train task) = slice_bound (length (records self task)) split.
Proof.
  intros Hperm Hself Hsplit Hgiven.
  destruct (split_tasks_done concatenate permutation Hperm self ratio num shuffle_time Hself Hsplit)
    as ([train test] & Hrun & H1 & H2 & H3 & H4 & H5).
  exists train, test. unfold random_split_within_task.
  replace (match ratio with Some _ => true | None => _ end) with true
    by (destruct ratio, num; tauto).
  cbn [py_assert mbind result_bind]. rewrite Hrun. split_and!; try done. set_solver.
Qed.

(** ** Merging measurements *)

Section merging.
#[local] Open Scope Q_scope.
Context {F : Type}.
Variable concatenate : ∀ X : Type, list X → list X → result (list X).

(** Relative throughputs: the fastest program has 1. *)
Definition normalised (thr : list Q) : Prop :=
  Forall (λ t, 0 < t ∧ t <= 1) thr ∧ Exists (λ t, t == 1) thr.

Record dataset_norm (d : Dataset Q F) : Prop := {
  dn_ok : dataset_ok d;
  dn_task : ∀ task thr m, dget (ds_throughputs d) task = Some (Some thr) →
    dget (ds_min_latency d) task = Some (Some m) → 0 < m ∧ normalised thr
}.

(** The measured latency that a relative throughput stands for. *)
Definition latency (m t : Q) : Q := m / t.

Definition latencies (d : Dataset Q F) (task : LearningTask) : list Q :=
  match default None (dget (ds_throughputs d) task), default None (dget (ds_min_latency d) task) with
  | Some thr, Some m => latency m <$> thr
  | _, _ => []
  end.

(** Scaling from the minimum [m] to a smaller one. *)
Lemma rescale_latency m c t : 0 < m → 0 < c → 0 < t → latency c (t * (c / m)) == latency m t.
Proof. intros Hm Hc Ht. unfold latency. field. repeat split; lra. Qed.

Lemma rescale_range m c t : 0 < c → c <= m → 0 < t → t <= 1 → 0 < t * (c / m) ∧ t * (c / m) <= 1.
Proof.
  intros Hc Hm Ht Ht1. assert (0 < c / m) by (apply div_pos; lra).
  assert (c / m <= 1) by (apply div_le_one; lra).
  split; [by apply Qmult_lt_0_compat|]. apply Qle_trans with (1 * (c / m)); [|lra].
  apply Qmult_le_compat_r; lra.
Qed.

Lemma rescale_all m c thr : 0 < m → 0 < c → c <= m → Forall (λ t, 0 < t ∧ t <= 1) thr →
  Forall (λ t, 0 < t ∧ t <= 1) ((λ t, t * (c / m)) <$> thr) ∧
  Forall2 Qeq (latency c <$> ((λ t, t * (c / m)) <$> thr)) (latency m <$> thr).
Proof.
  intros Hm Hc Hle. induction 1 as [|t thr [Ht Ht1] _ [IH1 IH2]]; [by split; constructor|].
  rewrite !fmap_cons. split; constructor; auto using rescale_range, rescale_latency.
Qed.

Lemma rescale_same m thr : 0 < m → Exists (λ t, t == 1) thr →
  Exists (λ t, t == 1) ((λ t, t * (m / m)) <$> thr).
Proof.
  intros Hm. induction 1 as [t thr Ht|t thr _ IH]; rewrite fmap_cons; [left|by right].
  rewrite Ht. field. lra.
Qed.

(** The throughputs that [load_task_data] stores for a known task. *)
Lemma merged_normalised m1 m2 thr1 thr2 :
  let c := if less m2 m1 then m2 else m1 in
  0 < m1 → 0 < m2 → normalised thr1 → normalised thr2 →
  let thr := ((λ t, mul t (div c m1)) <$> thr1) ++ ((λ t, mul t (div c m2)) <$> thr2) in
  0 < c ∧ normalised thr ∧
  Forall2 Qeq (latency c <$> thr) ((latency m1 <$> thr1) ++ (latency m2 <$> thr2)).
Proof.
  intros c H1 H2 [N1 E1] [N2 E2] thr.
  assert (0 < c ∧ c <= m1 ∧ c <= m2 ∧ (c = m1 ∨ c = m2)) as (Hc & L1 & L2 & Hcase).
  { unfold c. cbn. destruct (Qle_bool m1 m2) eqn:E; cbn.
    - apply Qle_bool_iff in E. split_and!; auto; lra.
    - assert (¬ m1 <= m2) by (by rewrite <-Qle_bool_iff, E). split_and!; auto; lra. }
  destruct (rescale_all m1 c thr1) as [A1 B1]; [done..|].
  destruct (rescale_all m2 c thr2) as [A2 B2]; [done..|].
  split; [done|]. unfold thr. split; [split|].
  - by apply Forall_app.
  - apply Exists_app. clearbody c. destruct Hcase; subst c; auto using rescale_same.
  - rewrite fmap_app. by apply Forall2_app.
Qed.

Hypothesis concatenate_spec : ∀ X (a b : list X),
  concatenate X a b = Ok (a ++ b) ∨ concatenate X a b = Raise ValueError.

Lemma load_known task old fs thr1 thr m1 m (d : Dataset Q F) :
  dget (ds_features d) task = Some old → dget (ds_throughputs d) task = Some (Some thr1) →
  dget (ds_min_latency d) task = Some (Some m1) →
  let c := if less m m1 then m else m1 in
  exec (load_task_data concatenate task fs (Some thr) (Some m)) d
  = Ok (store task (old ++ fs)
          (((λ t, mul t (div c m1)) <$> thr1) ++ ((λ t, mul t (div c m)) <$> thr)) c d).
Proof.
  intros Hf Ht Hm c. unfold exec, load_task_data, dmem. mrun. rewrite Hf. unfold dindex at 1.
  rewrite Hf. cbn [of_option]. mrun.
  erewrite M_bind_ok; last first.
  { unfold try_value_error, lift, mbind, M_bind.
    destruct (concatenate_spec F old fs) as [-> | ->]; reflexivity. }
  unfold merge_throughputs, dindex. cbn [of_option]. mrun. cbn. rewrite Hm, Ht. done.
Qed.

Lemma store_norm task fs thr m d : dataset_norm d → length thr = length fs →
  0 < m → normalised thr → dataset_norm (store task fs thr m d).
Proof.
  intros [Hok Hn] Hl Hm Ht. split; [by apply store_ok|]. intros t thr' m'. cbn.
  destruct (decide (task = t)) as [<-|Hne]; [|rewrite !dget_dset_ne by done; apply Hn].
  rewrite !dget_dset_eq. intros [= <-] [= <-]. done.
Qed.

Lemma latencies_store task fs thr m d t :
  latencies (store task fs thr m d) t = if decide (t = task) then latency m <$> thr else latencies d t.
Proof.
  unfold latencies. cbn. case_decide; subst; [by rewrite !dget_dset_eq|by rewrite !dget_dset_ne].
Qed.
End merging.

Section merging_theorem.
#[local] Open Scope Q_scope.

(** Loading measurements of a task, whether it is known or not and whether numpy can
    concatenate the arrays or not, keeps the dataset normalised (the throughputs of a task lie in
    (0, 1] and the fastest program has 1), appends the programs, changes no other task, and in
    exact arithmetic keeps the latency of every record, the old ones and the new ones. *)
Theorem load_task_data_latencies {F} (concatenate : ∀ X : Type, list X → list X → result (list X))
    (d : Dataset Q F) task fs thr m :
  (∀ X (a b : list X), concatenate X a b = Ok (a ++ b) ∨ concatenate X a b = Raise ValueError) →
  dataset_norm d → 0 < m → normalised thr → length thr = length fs →
  ∃ d', exec (load_task_data concatenate task fs (Some thr) (Some m)) d = Ok d' ∧ dataset_norm d' ∧
    dget (ds_features d') task = Some (default [] (dget (ds_features d) task) ++ fs) ∧
    Forall2 Qeq (latencies d' task) (latencies d task ++ (latency m <$> thr)) ∧
    ∀ t, t ≠ task → records d' t = records d t ∧ latencies d' t = latencies d t.
Proof.
  intros Hcat Hd Hm Ht Hl. destruct (dget (ds_features d) task) as [old|] eqn:Hold.
  - destruct (dok_task _ (dn_ok _ Hd) task old Hold) as (thr1 & m1 & Hthr & Hmin & Hl1).
    destruct (dn_task _ Hd task thr1 m1 Hthr Hmin) as [Hm1 Hn1].
    destruct (merged_normalised m1 m thr1 thr Hm1 Hm Hn1 Ht) as (Hc & Hn & Hlat).
    rewrite (load_known _ Hcat task old fs thr1 thr m1 m) by done. eexists. split; [done|]. split_and!.
    + apply store_norm; try done. rewrite !length_app, !length_fmap. lia.
    + cbn. by rewrite dget_dset_eq.
    + rewrite latencies_store. case_decide; [|done].
      replace (latencies d task) with (latency m1 <$> thr1); [done|].
      unfold latencies. by rewrite Hthr, Hmin.
    + intros t Hne. rewrite records_store, latencies_store. by case_decide.
  - pose proof (proj1 (dget_None _ _) Hold) as Hfresh.
    rewrite load_fresh by done. eexists. split; [done|]. split_and!.
    + by apply store_norm.
    + cbn. by rewrite dget_dset_eq.
    + rewrite latencies_store. case_decide; [|done]. unfold latencies.
      rewrite (proj2 (dget_None (ds_throughputs d) task)) by (by rewrite (dok_thr _ (dn_ok _ Hd))).
      by apply Forall2_fmap, Forall_Forall2_diag, Forall_true.
    + intros t Hne. rewrite records_store, latencies_store. by case_decide.
Qed.
End merging_theorem.

(** ** Examples *)

Definition np_concat (X : Type) (a b : list X) : result (list X) := Ok (a ++ b).
Definition flip_perm (k n : nat) : list nat := reverse (seq 0 n).
Definition conv_task : LearningTask := ("conv2d", "cuda").

Definition float_set : Dataset float nat :=
  store conv_task [10; 11; 12]%nat [of_Z 1; of_dec 5 1; of_dec 25 2] (of_Z 3) empty_dataset.

Definition exact_set : Dataset Q nat := store conv_task [10; 11]%nat [1; 1 # 2]%Q (3 # 1) empty_dataset.

Lemma split_within_task_partition_witness :
  ∃ train test,
    random_split_within_task np_concat flip_perm float_set (Some (of_dec 7 1)) None true
    = Ok (train, test) ∧ length (records train conv_task) = 2%nat.
Proof.
  destruct (split_within_task_partition np_concat flip_perm float_set (Some (of_dec 7 1)) None true)
    as (train & test & Hrun & _ & _ & _ & Hrec).
  - intros k n. apply reverse_Permutation.
  - by apply store_ok; [apply empty_dataset_ok|].
  - intros task ->%list_elem_of_singleton. by exists 2.
  - by left.
  - exists train, test. split; [done|].
    destruct (Hrec conv_task) as (_ & split & Hsp & Hlen); [by apply list_elem_of_singleton|].
    rewrite Hlen. vm_compute in Hsp. by injection Hsp as <-.
Defined.

Lemma load_task_data_latencies_witness :
  ∃ d', exec (load_task_data np_concat conv_task [12]%nat (Some [1%Q]) (Some (2 # 1))) exact_set = Ok d'
    ∧ Forall2 Qeq (latencies d' conv_task) [3 # 1; 6 # 1; 2 # 1].
Proof.
  destruct (load_task_data_latencies np_concat exact_set conv_task [12]%nat [1%Q] (2 # 1))
    as (d' & Hrun & _ & _ & Hlat & _).
  - intros X a b. by left.
  - apply store_norm; [|done|done|split; [repeat constructor; done|by left]].
    split; [apply empty_dataset_ok|done].
  - done.
  - split; [repeat constructor; done|by left].
  - done.
  - exists d'. split; [done|]. revert Hlat. generalize (latencies d' conv_task). intros l Hlat.
    change (Forall2 Qeq l [3 / 1; 3 / (1 # 2); 2 / 1]%Q) in Hlat.
    repeat (inversion Hlat as [|? ? ? ? ? Hlat']; subst; clear Hlat; rename Hlat' into Hlat;
            constructor; [by etrans|]). by inversion Hlat.
Defined.
