(* ===== verification/PAMDataset.v ===== *)
(** * Datasets with PAM features ([PAMDataset] of [python/tvm/auto_scheduler/dataset.py])

    A [PAMDataset] keeps four arrays per task beside the throughputs: the statement features, the
    buffer features, the statement counts and the sequence indices. It implements a [Dataset]
    whose programs are the zipped rows of the four arrays. *)

From S2P Require Import Prelude PyDict PyStr PyFloat Arith Dataset DatasetInv.
#[local] Open Scope Z_scope.

Section pam.
Context {A : Type} `{Arith A} {F B : Type}.
Variable concatenate : ∀ X : Type, list X → list X → result (list X).

Record PAMDataset := {
  pd_base : Dataset A F;                               (* the fields of [Dataset] *)
  pd_features_sizes : dict LearningTask (list Z);
  pd_kmp_indexs : dict LearningTask (list Z);
  pd_buf_features : dict LearningTask (list B)
}.

(** [PAMDataset.__init__] *)
Definition empty_pam : PAMDataset :=
  {| pd_base := empty_dataset; pd_features_sizes := []; pd_kmp_indexs := []; pd_buf_features := [] |}.

Definition with_base d (p : PAMDataset) : PAMDataset :=
  {| pd_base := d; pd_features_sizes := pd_features_sizes p; pd_kmp_indexs := pd_kmp_indexs p;
     pd_buf_features := pd_buf_features p |}.
Definition with_features_sizes d (p : PAMDataset) : PAMDataset :=
  {| pd_base := pd_base p; pd_features_sizes := d; pd_kmp_indexs := pd_kmp_indexs p;
     pd_buf_features := pd_buf_features p |}.
Definition with_kmp_indexs d (p : PAMDataset) : PAMDataset :=
  {| pd_base := pd_base p; pd_features_sizes := pd_features_sizes p; pd_kmp_indexs := d;
     pd_buf_features := pd_buf_features p |}.
Definition with_buf_features d (p : PAMDataset) : PAMDataset :=
  {| pd_base := pd_base p; pd_features_sizes := pd_features_sizes p;
     pd_kmp_indexs := pd_kmp_indexs p; pd_buf_features := d |}.

(** An operation of the base class. *)
Definition on_base {X} (m : M (Dataset A F) X) : M PAMDataset X := λ p,
  let '(r, d) := m (pd_base p) in (r, with_base d p).

(** [self.field[task] = value] *)
Definition set_features_sizes task v : M PAMDataset unit :=
  modify (λ p, with_features_sizes (dset (pd_features_sizes p) task v) p).
Definition set_kmp_indexs task v : M PAMDataset unit :=
  modify (λ p, with_kmp_indexs (dset (pd_kmp_indexs p) task v) p).
Definition set_buf_features task v : M PAMDataset unit :=
  modify (λ p, with_buf_features (dset (pd_buf_features p) task v) p).

(** The rows appended to the four arrays of a known task, by [join] of old and new rows. *)
Definition append_arrays (join : ∀ X : Type, list X → list X → result (list X)) (task : LearningTask)
    (features : list F) (buf_features : list B) (features_sizes kmp_indexs : list Z)
    : M PAMDataset unit :=
  p ← get_st;
  old ← lift (dindex (ds_features (pd_base p)) task);
  l ← lift (join F old features);
  _ ← on_base (set_features task l);
  p ← get_st;
  old ← lift (dindex (pd_buf_features p) task);
  l ← lift (join B old buf_features);
  _ ← set_buf_features task l;
  p ← get_st;
  old ← lift (dindex (pd_features_sizes p) task);
  l ← lift (join Z old features_sizes);
  _ ← set_features_sizes task l;
  p ← get_st;
  old ← lift (dindex (pd_kmp_indexs p) task);
  l ← lift (join Z old kmp_indexs);
  set_kmp_indexs task l.

(** [list(old)] extended *)
Definition extended (X : Type) (a b : list X) : result (list X) := Ok (a ++ b).

Definition pam_load_task_data (task : LearningTask) (features : list F) (buf_features : list B)
    (features_sizes kmp_indexs : list Z) (throughputs : option (list A)) (min_latency : option A)
    : M PAMDataset unit :=
  p ← get_st;
  if dmem (ds_features (pd_base p)) task then
    _ ← try_value_error
          (append_arrays concatenate task features buf_features features_sizes kmp_indexs)
          (append_arrays extended task features buf_features features_sizes kmp_indexs);
    on_base (merge_throughputs task throughputs min_latency)
  else
    _ ← on_base (set_features task features);
    _ ← set_buf_features task buf_features;
    _ ← set_features_sizes task features_sizes;
    _ ← set_kmp_indexs task kmp_indexs;
    _ ← on_base (set_throughputs task throughputs);
    on_base (set_min_latency task min_latency).

Definition pam_create_one_task task features buf_features features_sizes kmp_indexs throughputs
    min_latency : result PAMDataset :=
  exec (pam_load_task_data task features buf_features features_sizes kmp_indexs throughputs
          min_latency) empty_pam.

Definition pam_update_from_dataset (dataset : PAMDataset) : M PAMDataset unit :=
  mfor (λ task,
    p ← get_st;
    if dmem (ds_features (pd_base p)) task then mret tt
    else
      f ← lift (dindex (ds_features (pd_base dataset)) task);
      _ ← on_base (set_features task f);
      b ← lift (dindex (pd_buf_features dataset) task);
      _ ← set_buf_features task b;
      s ← lift (dindex (pd_features_sizes dataset) task);
      _ ← set_features_sizes task s;
      k ← lift (dindex (pd_kmp_indexs dataset) task);
      _ ← set_kmp_indexs task k;
      t ← lift (dindex (ds_throughputs (pd_base dataset)) task);
      _ ← on_base (set_throughputs task t);
      m ← lift (dindex (ds_min_latency (pd_base dataset)) task);
      on_base (set_min_latency task m)) (dkeys (ds_features (pd_base dataset))).

Context {Input Result : Type}.
Variables workload_key target : Input → string.

(** [get_per_store_features_from_measure_pairs_pam]: features, buffer features, statement counts,
    sequence indices, throughputs, task ids, minimum latencies *)
Variable featurize : list Input → list Result →
  result (list F * list B * list Z * list Z * list A * list Z * list A).

Definition pam_update_from_measure_pairs (inputs : list Input) (results : list Result)
    : M PAMDataset unit :=
  mfor (λ '(task, (inputs, results)),
    '(features, buf_features, sizes, kmps, throughputs, task_ids, min_latency) ←
      lift (featurize inputs results);
    _ ← lift (py_assert (forallb (Z.eqb 0) task_ids));
    _ ← lift (py_assert (length min_latency =? 1)%nat);
    m ← lift (py_nth min_latency 0);
    pam_load_task_data task features buf_features sizes kmps (Some throughputs) (Some m))
    (group_pairs workload_key target (zip inputs results)).

(** ** Splitting and subsets *)

Variable permutation : nat → nat → list nat.
Variable shuffle : list LearningTask → list LearningTask.

(** The four arrays of a task and its throughputs. *)
Definition pam_arrays (self : PAMDataset) (task : LearningTask)
    : result (list F * list B * list Z * list Z * option (list A)) :=
  features ← dindex (ds_features (pd_base self)) task;
  buf_features ← dindex (pd_buf_features self) task;
  sizes ← dindex (pd_features_sizes self) task;
  kmps ← dindex (pd_kmp_indexs self) task;
  throughputs ← dindex (ds_throughputs (pd_base self)) task;
  Ok (features, buf_features, sizes, kmps, throughputs).

Definition pam_load_part (self : PAMDataset) (task : LearningTask)
    (arrays : list F * list B * list Z * list Z * option (list A)) (indices : list nat)
    (out : PAMDataset) : result PAMDataset :=
  let '(features, buf_features, sizes, kmps, throughputs) := arrays in
  match indices with
  | [] => Ok out
  | _ =>
      thr ← of_option TypeError throughputs;
      part ← fancy_index thr indices;
      m ← dindex (ds_min_latency (pd_base self)) task;
      m ← of_option TypeError m;
      fs ← fancy_index features indices;
      bs ← fancy_index buf_features indices;
      ss ← fancy_index sizes indices;
      ks ← fancy_index kmps indices;
      exec (pam_load_task_data task fs bs ss ks (Some part) (Some (div m (np_max part)))) out
  end.

Definition pam_split_task (self : PAMDataset) ratio num shuffle_time
    (sets : PAMDataset * PAMDataset) (t : nat * LearningTask) : result (PAMDataset * PAMDataset) :=
  let '(k, task) := t in
  arrays ← pam_arrays self task;
  let n := length arrays.1.1.1.1 in
  split ← split_point ratio num n;
  let '(train_indices, test_indices) := split_indices permutation shuffle_time k n split in
  train ← pam_load_part self task arrays train_indices sets.1;
  test ← pam_load_part self task arrays test_indices sets.2;
  Ok (train, test).

Definition pam_random_split_within_task (self : PAMDataset) (train_set_ratio : option float)
    (train_set_num : option Z) (shuffle_time : bool) : result (PAMDataset * PAMDataset) :=
  _ ← py_assert (match train_set_ratio, train_set_num with None, None => false | _, _ => true end);
  mfoldl (pam_split_task self train_set_ratio train_set_num shuffle_time)
    (empty_pam, empty_pam) (imap pair (dkeys (ds_features (pd_base self)))).

(** All records of a task into a set. *)
Definition pam_load_all (self : PAMDataset) task (min_latency : option A) (out : PAMDataset)
    : result PAMDataset :=
  '(features, buf_features, sizes, kmps, throughputs) ← pam_arrays self task;
  exec (pam_load_task_data task features buf_features sizes kmps throughputs min_latency) out.

Definition pam_random_split_by_task (self : PAMDataset) (train_set_ratio : float)
    : result (PAMDataset * PAMDataset) :=
  n ← dataset_len (pd_base self);
  train_records ← py_int (fmul (of_Z n) train_set_ratio);
  '(_, sets) ← mfoldl (λ '(ct, (train, test)) task,
    arrays ← pam_arrays self task;
    let ct := ct + Z.of_nat (length arrays.1.1.1.1) in
    m ← dindex (ds_min_latency (pd_base self)) task;
    if (ct <=? train_records : bool)
    then train ← pam_load_all self task m train; Ok (ct, (train, test))
    else test ← pam_load_all self task m test; Ok (ct, (train, test)))
    (0, (empty_pam, empty_pam)) (shuffle (dkeys (ds_features (pd_base self))));
  Ok sets.

Definition pam_random_split_by_target (self : PAMDataset) (train_set_ratio : float)
    : result (PAMDataset * PAMDataset) :=
  let target_to_task := group_targets (dkeys (ds_features (pd_base self))) in
  n ← dataset_len (pd_base self);
  train_records ← py_int (fmul (of_Z n) train_set_ratio);
  '(_, sets) ← mfoldl (λ '(ct, sets) (target : string),
    tasks ← dindex target_to_task target;
    '(tmp_adder, sets) ← mfoldl (λ '(tmp_adder, (train, test)) task,
      arrays ← pam_arrays self task;
      let tmp_adder := tmp_adder + Z.of_nat (length arrays.1.1.1.1) in
      if (ct <=? train_records : bool)
      then train ← pam_load_all self task None train; Ok (tmp_adder, (train, test))
      else test ← pam_load_all self task None test; Ok (tmp_adder, (train, test))) (0, sets) tasks;
    Ok (ct + tmp_adder, sets)) (0, (empty_pam, empty_pam)) (reverse (dkeys target_to_task));
  Ok sets.

Definition pam_extract_subset (self : PAMDataset) (tasks : list LearningTask) : result PAMDataset :=
  mfoldl (λ ret task,
    if negb (dmem (ds_features (pd_base self)) task) then Ok ret
    else
      m ← dindex (ds_min_latency (pd_base self)) task;
      pam_load_all self task m ret) empty_pam tasks.

(** [math.floor(ratio * record_num)], raised to all records when it is at most ten. *)
Definition select_num (ratio : float) (record_num : nat) : result Z :=
  x ← py_floor (fmul ratio (of_Z (Z.of_nat record_num)));
  Ok (if x <=? 10 then Z.of_nat record_num else x).

Definition pam_extract_subset_ratio (self : PAMDataset) (ratio : float) : result PAMDataset :=
  mfoldl (λ ret '(k, task),
    features ← dindex (ds_features (pd_base self)) task;
    let record_num := length features in
    num ← select_num ratio record_num;
    let perm := permutation k record_num in
    let random_select := take (slice_bound (length perm) num) perm in
    fs ← fancy_index features random_select;
    b ← dindex (pd_buf_features self) task;
    bs ← fancy_index b random_select;
    s ← dindex (pd_features_sizes self) task;
    ss ← fancy_index s random_select;
    kmp ← dindex (pd_kmp_indexs self) task;
    ks ← fancy_index kmp random_select;
    t ← dindex (ds_throughputs (pd_base self)) task;
    t ← of_option TypeError t;
    ts ← fancy_index t random_select;
    m ← dindex (ds_min_latency (pd_base self)) task;
    exec (pam_load_task_data task fs bs ss ks (Some ts) m) ret)
    empty_pam (imap pair (dkeys (ds_features (pd_base self)))).

(** [max(l)] of a list of integers *)
Definition py_max (l : list Z) : result Z :=
  match l with [] => Raise ValueError | x :: l => Ok (foldl Z.max x l) end.

Definition gemmtasks (self : PAMDataset) : result (list LearningTask) :=
  mfoldl (λ gemm_list i,
    fea_size ← dindex (pd_features_sizes self) i;
    kmp_index ← dindex (pd_kmp_indexs self) i;
    a ← py_max fea_size;
    if negb (10 <? a) then Ok gemm_list
    else
      b ← py_max kmp_index;
      Ok (if -1 <? b then gemm_list ++ [i] else gemm_list)) []
    (dkeys (ds_features (pd_base self))).
End pam.

Arguments PAMDataset A F B : clear implicits.

(** ** Refinement *)

Section refinement.
Context {A : Type} `{Arith A} {F B : Type}.
Variable concatenate : ∀ X : Type, list X → list X → result (list X).

(** A row of the four arrays. *)
Definition row : Type := F * (B * (Z * Z)).

Definition rows (fs : list F) (bs : list B) (ss ks : list Z) : list row :=
  zip fs (zip bs (zip ss ks)).

Definition rows_of (p : PAMDataset A F B) (task : LearningTask) (fs : list F) : list row :=
  rows fs (default [] (dget (pd_buf_features p) task)) (default [] (dget (pd_features_sizes p) task))
       (default [] (dget (pd_kmp_indexs p) task)).

(** The dataset of zipped rows that a [PAMDataset] stands for. *)
Definition view (p : PAMDataset A F B) : Dataset A row := {|
  ds_features := (λ '(task, fs), (task, rows_of p task fs)) <$> ds_features (pd_base p);
  ds_throughputs := ds_throughputs (pd_base p);
  ds_min_latency := ds_min_latency (pd_base p);
  ds_measure_records := ds_measure_records (pd_base p) |}.

(** The arrays of every task have one row per program. *)
Record pam_ok (p : PAMDataset A F B) : Prop := {
  po_base : dataset_ok (pd_base p);
  po_task : ∀ task fs, dget (ds_features (pd_base p)) task = Some fs →
    ∃ bs ss ks, dget (pd_buf_features p) task = Some bs ∧ dget (pd_features_sizes p) task = Some ss ∧
      dget (pd_kmp_indexs p) task = Some ks ∧
      length bs = length fs ∧ length ss = length fs ∧ length ks = length fs
}.

Lemma dkeys_view p : dkeys (ds_features (view p)) = dkeys (ds_features (pd_base p)).
Proof. unfold dkeys, view. cbn. rewrite <-list_fmap_compose. apply list_fmap_ext. by intros ? []. Qed.

Lemma dget_view p task :
  dget (ds_features (view p)) task = rows_of p task <$> dget (ds_features (pd_base p)) task.
Proof.
  unfold view. cbn. generalize (ds_features (pd_base p)) as d.
  induction d as [|[t fs] d IH]; [done|]. rewrite fmap_cons. cbn. case_decide; [by subst|done].
Qed.

(** The dataset after the arrays of a task are stored. *)
Definition pam_store (task : LearningTask) fs bs ss ks thr m (p : PAMDataset A F B) : PAMDataset A F B :=
  {| pd_base := store task fs thr m (pd_base p);
     pd_features_sizes := dset (pd_features_sizes p) task ss;
     pd_kmp_indexs := dset (pd_kmp_indexs p) task ks;
     pd_buf_features := dset (pd_buf_features p) task bs |}.

Lemma pam_load_fresh task fs bs ss ks thr m p : task ∉ dkeys (ds_features (pd_base p)) →
  exec (pam_load_task_data concatenate task fs bs ss ks (Some thr) (Some m)) p
  = Ok (pam_store task fs bs ss ks thr m p).
Proof.
  intros Hf. unfold pam_load_task_data, exec. mrun. unfold dmem.
  rewrite (proj2 (dget_None _ _) Hf). done.
Qed.

Lemma rows_of_store task fs bs ss ks thr m p t f :
  rows_of (pam_store task fs bs ss ks thr m p) t f
  = if decide (t = task) then rows f bs ss ks else rows_of p t f.
Proof.
  unfold rows_of. cbn. case_decide; subst; [by rewrite !dget_dset_eq|by rewrite !dget_dset_ne].
Qed.

Lemma view_store task fs bs ss ks thr m p : dict_wf (ds_features (pd_base p)) →
  view (pam_store task fs bs ss ks thr m p) = store task (rows fs bs ss ks) thr m (view p).
Proof.
  intros Hwf. unfold view at 1, store, with_min_latency, with_throughputs, with_features. cbn. f_equal.
  revert Hwf. generalize (ds_features (pd_base p)) as d. unfold dict_wf.
  assert (∀ d : list (LearningTask * list F), task ∉ d.*1 →
    (λ '(t, f), (t, rows_of (pam_store task fs bs ss ks thr m p) t f)) <$> d
    = (λ '(t, f), (t, rows_of p t f)) <$> d) as Hother.
  { intros d Hd. apply list_fmap_ext. intros i [t f] Hi. rewrite rows_of_store.
    case_decide as Ht; [|done]. destruct Hd. subst t. apply list_elem_of_lookup_2 in Hi.
    by apply (list_elem_of_fmap_2 fst) in Hi. }
  induction d as [|[t f] d IH]; intros Hwf; cbn [dset].
  - rewrite !fmap_cons, rows_of_store, decide_True by done. done.
  - apply NoDup_cons in Hwf as [Hnot Hwf]. rewrite (fmap_cons _ (t, f)). cbn [dset].
    case_decide as Ht; rewrite fmap_cons, rows_of_store.
    + subst. rewrite decide_True by done. f_equal. by apply Hother.
    + rewrite decide_False by congruence. f_equal. by apply IH.
Qed.

Lemma pam_store_ok task fs bs ss ks thr m p : pam_ok p →
  length thr = length fs → length bs = length fs → length ss = length fs → length ks = length fs →
  pam_ok (pam_store task fs bs ss ks thr m p).
Proof.
  intros [Hb Ht] H1 H2 H3 H4. split; [by apply store_ok|]. intros t f. cbn.
  destruct (decide (task = t)) as [<-|Hne].
  - rewrite !dget_dset_eq. intros [= <-]. eauto 10.
  - rewrite !dget_dset_ne by done. apply Ht.
Qed.

Lemma rows_length fs bs ss ks : length bs = length fs → length ss = length fs →
  length ks = length fs → length (rows fs bs ss ks) = length fs.
Proof. intros. unfold rows. rewrite !length_zip_with. lia. Qed.

Lemma fancy_index_rows fs bs ss ks idx : length bs = length fs → length ss = length fs →
  length ks = length fs → Forall (λ i, i < length fs)%nat idx →
  ∃ fs' bs' ss' ks', fancy_index fs idx = Ok fs' ∧ fancy_index bs idx = Ok bs' ∧
    fancy_index ss idx = Ok ss' ∧ fancy_index ks idx = Ok ks' ∧
    length fs' = length idx ∧ length bs' = length idx ∧ length ss' = length idx ∧
    length ks' = length idx ∧ fancy_index (rows fs bs ss ks) idx = Ok (rows fs' bs' ss' ks').
Proof.
  intros Hb Hs Hk Hidx.
  destruct (fancy_index_zip ss ks idx) as (ss' & ks' & E1 & E2 & L1 & L2 & E3); [lia|by rewrite Hs|].
  destruct (fancy_index_zip bs (zip ss ks) idx) as (bs' & z & E4 & E5 & L3 & L4 & E6);
    [rewrite length_zip_with; lia|by rewrite Hb|].
  destruct (fancy_index_zip fs (zip bs (zip ss ks)) idx) as (fs' & z' & E7 & E8 & L5 & L6 & E9);
    [rewrite !length_zip_with; lia|done|].
  exists fs', bs', ss', ks'. rewrite E3 in E5. simplify_eq. rewrite E6 in E8. simplify_eq.
  rewrite length_zip_with in L3. split_and!; auto; lia.
Qed.

Lemma pam_load_part_refines self task fs bs ss ks thr m idx out :
  dget (ds_min_latency (pd_base self)) task = Some (Some m) → length thr = length fs →
  length bs = length fs → length ss = length fs → length ks = length fs →
  Forall (λ i, i < length fs)%nat idx →
  task ∉ dkeys (ds_features (pd_base out)) → pam_ok out →
  ∃ out', pam_load_part concatenate self task (fs, bs, ss, ks, Some thr) idx out = Ok out' ∧
    pam_ok out' ∧
    load_part concatenate (view self) task (rows fs bs ss ks) (Some thr) idx (view out)
    = Ok (view out') ∧
    dkeys (ds_features (pd_base out')) ⊆ task :: dkeys (ds_features (pd_base out)).
Proof.
  intros Hm Hl Hb Hs Hk Hidx Hnew Hok. destruct idx as [|i idx].
  { exists out. split_and!; try done. set_solver. }
  destruct (fancy_index_rows fs bs ss ks (i :: idx)) as
    (fs' & bs' & ss' & ks' & E1 & E2 & E3 & E4 & L1 & L2 & L3 & L4 & E5); [done..|].
  destruct (fancy_index_in thr (i :: idx)) as (part & E6 & L6 & _); [by rewrite Hl|].
  unfold pam_load_part, load_part, dindex. cbn [of_option mbind result_bind]. rewrite E6.
  cbn [mbind result_bind ds_min_latency view]. rewrite Hm. cbn [of_option mbind result_bind].
  rewrite E1. cbn [mbind result_bind]. rewrite E2. cbn [mbind result_bind].
  rewrite E3. cbn [mbind result_bind]. rewrite E4. cbn [mbind result_bind].
  rewrite E5. cbn [mbind result_bind]. rewrite pam_load_fresh by done.
  rewrite load_fresh by (by rewrite dkeys_view). eexists. split_and!; [done| | |].
  - apply pam_store_ok; [done|lia..].
  - rewrite view_store; [done|]. apply dok_wf, po_base, Hok.
  - intros t Ht%elem_store. set_solver.
Qed.

Section splits.
Variable permutation : nat → nat → list nat.
Hypothesis permutation_perm : ∀ k n, permutation k n ≡ₚ seq 0 n.
Context (self : PAMDataset A F B) (ratio : option float) (num : option Z) (shuffle_time : bool).
Context (Hself : pam_ok self).
Context (Hsplit : ∀ task fs, dget (ds_features (pd_base self)) task = Some fs →
  ∃ split, split_point ratio num (length fs) = Ok split).

(** The sets built so far, and what the abstract split has built. *)
Definition split_sim (ts : list (nat * LearningTask)) (sets : PAMDataset A F B * PAMDataset A F B)
    : Prop :=
  pam_ok sets.1 ∧ pam_ok sets.2 ∧ dkeys (ds_features (pd_base sets.1)) ⊆ ts.*2 ∧
  dkeys (ds_features (pd_base sets.2)) ⊆ ts.*2 ∧
  mfoldl (split_task concatenate permutation (view self) ratio num shuffle_time)
    (empty_dataset, empty_dataset) ts = Ok (view sets.1, view sets.2).

Lemma pam_split_task_sim ts sets k task :
  task ∈ dkeys (ds_features (pd_base self)) → task ∉ ts.*2 → split_sim ts sets →
  ∃ sets', pam_split_task concatenate permutation self ratio num shuffle_time sets (k, task) = Ok sets' ∧
    split_sim (ts ++ [(k, task)]) sets'.
Proof.
  intros Hin Hnew (Hok1 & Hok2 & Hk1 & Hk2 & Hrun).
  destruct (dget (ds_features (pd_base self)) task) as [fs|] eqn:Hfs; [|by apply dget_None in Hfs].
  destruct (dok_task _ (po_base _ Hself) task fs Hfs) as (thr & m & Hthr & Hm & Hl).
  destruct (po_task _ Hself task fs Hfs) as (bs & ss & ks & Hbs & Hss & Hks & Lb & Ls & Lk).
  destruct (Hsplit task fs Hfs) as [split Hsp].
  assert (rows_of self task fs = rows fs bs ss ks) as Hrows by (unfold rows_of; by rewrite Hbs, Hss, Hks).
  unfold split_sim. rewrite (mfoldl_snoc _ _ _ _ _ Hrun), fmap_app.
  unfold pam_split_task, split_task, pam_arrays, dindex.
  rewrite dget_view. cbn [ds_throughputs view]. rewrite Hfs, Hbs, Hss, Hks, Hthr.
  cbn [fmap option_fmap option_map of_option mbind result_bind fst snd].
  rewrite Hrows, rows_length, Hsp by done. cbn [mbind result_bind].
  destruct (split_indices _ _ _ _ _) as [i j] eqn:Hij.
  destruct (split_indices_perm _ permutation_perm _ _ _ _ _ _ Hij) as [Hp _].
  assert (Forall (λ x, x < length fs)%nat (i ++ j)) as [Hi Hj]%Forall_app.
  { rewrite Hp. apply Forall_forall. intros x. rewrite elem_of_seq. lia. }
  destruct (pam_load_part_refines self task fs bs ss ks thr m i sets.1) as (o1 & -> & K1 & -> & D1);
    [done..|set_solver|done|]. cbn [mbind result_bind].
  destruct (pam_load_part_refines self task fs bs ss ks thr m j sets.2) as (o2 & -> & K2 & -> & D2);
    [done..|set_solver|done|]. cbn [mbind result_bind].
  eexists. split; [done|]. cbn. split_and!; [done|done|set_solver|set_solver|done].
Qed.
End splits.
End refinement.

(** C7: A [PAMDataset] implements a [Dataset] of rows: splitting it within its tasks returns two
    well formed datasets, and they stand for what splitting the dataset of rows returns. The four
    arrays of a record therefore stay together, on the same side of the split. *)
Theorem pam_split_refines {A} `{Arith A} {F B}
    (concatenate : ∀ X : Type, list X → list X → result (list X))
    (permutation : nat → nat → list nat) (self : PAMDataset A F B) ratio num shuffle_time :
  (∀ k n, permutation k n ≡ₚ seq 0 n) → pam_ok self →
  (∀ task fs, dget (ds_features (pd_base self)) task = Some fs →
     ∃ split, split_point ratio num (length fs) = Ok split) →
  (ratio ≠ None ∨ num ≠ None) →
  ∃ train test,
    pam_random_split_within_task concatenate permutation self ratio num shuffle_time = Ok (train, test) ∧
    pam_ok train ∧ pam_ok test ∧
    random_split_within_task concatenate permutation (view self) ratio num shuffle_time
    = Ok (view train, view test).
Proof.
  intros Hperm Hself Hsplit Hgiven.
  set (ts := imap pair (dkeys (ds_features (pd_base self)))).
  assert (ts.*2 = dkeys (ds_features (pd_base self))) as Hsnd by apply imap_pair_snd.
  destruct (mfoldl_inv (pam_split_task concatenate permutation self ratio num shuffle_time)
    (split_sim concatenate permutation self ratio num shuffle_time) ts (empty_pam, empty_pam))
    as ([train test] & Hrun & H1 & H2 & _ & _ & Hsim).
  - split_and!; try done; split; try apply empty_dataset_ok; done.
  - intros pre [k task] rest sets Heq. rewrite Heq, fmap_app in Hsnd.
    pose proof (dok_wf _ (po_base _ Hself)) as Hnd. unfold dict_wf in Hnd. rewrite <-Hsnd in Hnd.
    apply NoDup_app in Hnd as (_ & Hnd & _).
    apply pam_split_task_sim; try done; [rewrite <-Hsnd; set_solver|].
    intros Hin. apply (Hnd task Hin). set_solver.
  - exists train, test. unfold pam_random_split_within_task, random_split_within_task.
    replace (match ratio with Some _ => true | None => _ end) with true
      by (destruct ratio, num; tauto).
    cbn [py_assert mbind result_bind]. by rewrite dkeys_view.
Qed.

Definition pam_set : PAMDataset float nat nat :=
  pam_store conv_task [10; 11; 12]%nat [20; 21; 22]%nat [12; 3; 4] [1; -1; 0]
    [of_Z 1; of_dec 5 1; of_dec 25 2] (of_Z 3) empty_pam.

Lemma pam_split_refines_witness :
  ∃ train test,
    pam_random_split_within_task np_concat flip_perm pam_set None (Some 1) false = Ok (train, test) ∧
    random_split_within_task np_concat flip_perm (view pam_set) None (Some 1) false
    = Ok (view train, view test) ∧ records (view train) conv_task = [((12%nat, (22%nat, (4, 0))), of_dec 25 2)].
Proof.
  destruct (pam_split_refines np_concat flip_perm pam_set None (Some 1) false)
    as (train & test & Hrun & _ & _ & Hview).
  - intros k n. apply reverse_Permutation.
  - apply pam_store_ok; try done. split; [apply empty_dataset_ok|done].
  - eauto.
  - by right.
  - exists train, test. split_and!; [done|done|]. vm_compute in Hrun. by injection Hrun as <- <-.
Defined.
