(* ===== verification/FirstMin.v ===== *)
(** * The first of the cheapest

    Histories keep an entry until a strictly cheaper one comes. What remains is the first of the
    cheapest, which dropping other entries does not change. *)

From stdpp Require Import strings.
From S2P Require Import Prelude PyFloat.

Section first_min.
Context {X : Type} (cost : X → float).

(** Replacing an entry by a strictly cheaper one *)
Definition better (best : option X) (x : X) : option X :=
  match best with
  | None => Some x
  | Some other => if flt (cost x) (cost other) then Some x else Some other
  end.

Definition first_min (l : list X) : option X := foldl better None l.

(** The first of the elements with the smallest cost, if there is any. *)
Definition is_first_min (l : list X) (best : option X) : Prop :=
  match best with
  | None => l = []
  | Some r => ∃ pre rest, l = pre ++ r :: rest ∧
      (∀ x, x ∈ pre → flt (cost r) (cost x) = true) ∧
      (∀ x, x ∈ rest → flt (cost x) (cost r) = false)
  end.

Definition numbers (l : list X) : Prop := Forall (λ x, is_nan (cost x) = false) l.

Lemma better_idem best x : better (better best x) x = better best x.
Proof.
  destruct best as [o|]; simpl; [|by rewrite flt_irrefl].
  destruct (flt _ _) eqn:E; simpl; [by rewrite flt_irrefl|by rewrite E].
Qed.

Lemma numbers_filter p l : numbers l → numbers (List.filter p l).
Proof.
  unfold numbers. rewrite !Forall_forall. intros Hl x Hx. apply Hl.
  apply list_elem_of_In, filter_In in Hx as [Hx _]. by apply list_elem_of_In.
Qed.

Lemma first_min_spec l : numbers l → is_first_min l (first_min l).
Proof.
  unfold first_min, numbers. induction l as [|r l IH] using rev_ind; [done|].
  intros [Hl [Hr _]%Forall_cons]%Forall_app. specialize (IH Hl). rewrite foldl_app. cbn [foldl].
  destruct (foldl better None l) as [o|]; cbn [better is_first_min] in *.
  - destruct IH as (pre & rest & -> & Hpre & Hrest). apply Forall_app in Hl as [Hp [Ho Hq]%Forall_cons].
    destruct (flt (cost r) (cost o)) eqn:E.
    + exists (pre ++ o :: rest), []. split; [done|]. split; [|by intros ? ?%not_elem_of_nil].
      intros x [Hx|[->|Hx]%elem_of_cons]%elem_of_app; [|done|].
      * eapply flt_trans; [exact E|by apply Hpre].
      * rewrite Forall_forall in Hq. eapply flt_lt_nlt; [by apply Hq|exact E|by apply Hrest].
    + exists pre, (rest ++ [r]). split; [by rewrite <-app_assoc|]. split; [done|].
      intros x [Hx | ->%list_elem_of_singleton]%elem_of_app; [by apply Hrest|done].
  - subst l. exists [], []. split; [done|]. by split; intros ? ?%not_elem_of_nil.
Qed.

Lemma is_first_min_unique l a b : is_first_min l a → is_first_min l b → a = b.
Proof.
  intros Ha Hb. destruct a as [a|], b as [b|]; cbn in Ha, Hb.
  - destruct Ha as (pre & rest & Hl & Hpre & Hrest), Hb as (pre' & rest' & Hl' & Hpre' & Hrest').
    rewrite Hl in Hl'. apply app_eq_inv in Hl' as [(k & -> & Hk)|(k & -> & Hk)];
      (destruct k as [|x k]; cbn in Hk; [by simplify_eq|]); injection Hk as <- ->.
    + assert (flt (cost a) (cost b) = true) as H1 by (apply Hpre; set_solver).
      rewrite Hrest' in H1 by set_solver. done.
    + assert (flt (cost b) (cost a) = true) as H1 by (apply Hpre'; set_solver).
      rewrite Hrest in H1 by set_solver. done.
  - subst. by destruct Ha as (? & ? & Hl & _); destruct (app_cons_not_nil _ _ _ Hl).
  - subst. by destruct Hb as (? & ? & Hl & _); destruct (app_cons_not_nil _ _ _ Hl).
  - done.
Qed.

(** Of the elements with a key of a set the first one each *)
Fixpoint pick_by (key : X → string) (best : list string) (l : list X) : list X :=
  match l with
  | [] => []
  | x :: l =>
      if decide (key x ∈ best) then x :: pick_by key (filter (λ k, k ≠ key x) best) l
      else pick_by key best l
  end.

Lemma pick_by_sublist key best l : pick_by key best l `sublist_of` l.
Proof. revert best. induction l as [|x l IH]; intros best; [done|]. cbn [pick_by]. case_decide; by constructor. Qed.

Lemma pick_by_app key l1 l2 : ∀ best, ∃ best',
  pick_by key best (l1 ++ l2) = pick_by key best l1 ++ pick_by key best' l2 ∧
  ∀ k, k ∈ best → k ∉ key <$> l1 → k ∈ best'.
Proof.
  induction l1 as [|x l1 IH]; intros best; [by exists best|]. cbn [app pick_by]. case_decide.
  - destruct (IH (filter (λ k, k ≠ key x) best)) as (best' & -> & Hb). exists best'. split; [done|].
    intros k Hk Hn. rewrite fmap_cons, not_elem_of_cons in Hn. apply Hb; [|tauto]. apply list_elem_of_filter. tauto.
  - destruct (IH best) as (best' & -> & Hb). exists best'. split; [done|].
    intros k Hk Hn. rewrite fmap_cons, not_elem_of_cons in Hn. apply Hb; tauto.
Qed.

Lemma filter_split (f : X → bool) l pre r rest : List.filter f l = pre ++ r :: rest →
  ∃ l1 l2, l = l1 ++ r :: l2 ∧ List.filter f l1 = pre ∧ List.filter f l2 = rest ∧ f r = true.
Proof.
  revert pre. induction l as [|x l IH]; intros pre H; [by destruct pre|]. cbn [List.filter] in H. destruct (f x) eqn:E.
  - destruct pre as [|y pre]; injection H as <- H.
    + by exists [], l.
    + destruct (IH pre H) as (l1 & l2 & -> & <- & <- & Hr). exists (x :: l1), l2. cbn [List.filter app]. by rewrite E.
  - destruct (IH pre H) as (l1 & l2 & -> & <- & <- & Hr). exists (x :: l1), l2. cbn [List.filter app]. by rewrite E.
Qed.

Lemma sublist_filter_elem (f : X → bool) l l' x : l' `sublist_of` l → x ∈ List.filter f l' → x ∈ List.filter f l.
Proof.
  intros Hs Hx. apply list_elem_of_In, filter_In in Hx as [Hx Hf]. apply list_elem_of_In, filter_In. split; [|done].
  apply list_elem_of_In. apply list_elem_of_In in Hx. by eapply elem_of_submseteq; [|apply sublist_submseteq].
Qed.

Lemma numbers_sublist l l' : l' `sublist_of` l → numbers l → numbers l'.
Proof.
  unfold numbers. rewrite !Forall_forall. intros Hs Hl x Hx. apply Hl.
  by eapply elem_of_submseteq; [|apply sublist_submseteq].
Qed.

(** If elements of the same key cost the same, the first of the cheapest is picked with its key. *)
Lemma first_min_pick key best (f : X → bool) l : numbers l →
  (∀ x y, x ∈ l → y ∈ l → key x = key y → f x = f y ∧ cost x = cost y) →
  (∀ r, first_min (List.filter f l) = Some r → key r ∈ best) →
  first_min (List.filter f (pick_by key best l)) = first_min (List.filter f l).
Proof.
  intros Hn Hsame Hbest. pose proof (pick_by_sublist key best l) as Hsub.
  eapply is_first_min_unique; [apply first_min_spec, numbers_filter, (numbers_sublist l); [exact Hsub|done]|].
  pose proof (first_min_spec _ (numbers_filter f l Hn)) as Hmin.
  destruct (first_min (List.filter f l)) as [r|]; cbn in *.
  - destruct Hmin as (pre & rest & Hl & Hpre & Hrest).
    destruct (filter_split f l pre r rest Hl) as (l1 & l2 & -> & <- & <- & Hr).
    destruct (pick_by_app key l1 (r :: l2) best) as (best' & -> & Hb).
    assert (key r ∈ best') as Hin.
    { apply Hb; [by apply Hbest|]. intros (y & Hy & Hin)%list_elem_of_fmap.
      destruct (Hsame r y) as [Hf Hc]; [set_solver|set_solver|done|].
      assert (flt (cost r) (cost y) = true) as Hlt; [|by rewrite Hc, flt_irrefl in Hlt].
      apply Hpre. apply list_elem_of_In, filter_In. split; [by apply list_elem_of_In|congruence]. }
    cbn [pick_by]. rewrite decide_True by done. rewrite List.filter_app. cbn [List.filter]. rewrite Hr.
    eexists _, _. split; [reflexivity|]. split; intros x Hx; [apply Hpre|apply Hrest];
      (eapply sublist_filter_elem; [apply pick_by_sublist|exact Hx]).
  - destruct (List.filter f (pick_by key best l)) as [|x l'] eqn:E; [done|].
    assert (x ∈ List.filter f l) as Hx by (eapply sublist_filter_elem; [exact Hsub|rewrite E; left]). rewrite Hmin in Hx.
    by apply not_elem_of_nil in Hx.
Qed.

End first_min.
