(* ===== verification/Dispatcher.v ===== *)
(** * Dispatch contexts of AutoTVM ([python/tvm/autotvm/task/dispatcher.py])

    The stack of contexts that templates query for a configuration. Contexts and configurations
    are mutable objects that are shared: a context is a reference to the store of contexts, which
    holds its [_old_ctx] link, and a configuration is a reference to the store of configurations. *)

From S2P Require Import Prelude PyDict PyStr PyFloat.

Section dispatcher.
(** Workloads (hashable tuples) *)
Context {W : Type} `{EqDecision W}.

(** [np.mean] of the costs *)
Variable mean : list float → float.

(** The text of the warning for a target and a workload *)
Variable warning : string → option W → string.

(** [_env.GLOBAL_SCOPE.silent] *)
Variable silent : bool.

Record Target := { tg_str : string; tg_model : string; tg_keys : list string }.

(** [str(target)]; a target may be [None]. *)
Definition target_str (t : option Target) : string :=
  match t with Some t => tg_str t | None => "None" end.

(** A reference to a configuration object *)
Definition cfg := nat.

Record cfg_obj := {
  co_fallback : bool;              (* a [FallbackConfigEntity] *)
  co_cost : option float;
  co_workload : option W
}.

Record MeasureInput := { mi_target : Target; mi_workload : option W; mi_config : cfg }.
Record MeasureResult := { mr_costs : list float; mr_error_no : Z }.

#[local] Abbreviation best_map := (dict (string * option W) (MeasureInput * MeasureResult)).

Inductive ctx_kind :=
| ApplyConfig (config : cfg) (workload : option W)
| ApplyHistoryBest (best_by_targetkey best_by_model : best_map) (best_user_defined : dict (string * option W) cfg)
| FallbackContext (memory : dict (string * option W) cfg)
| ApplyGraphBest (records : list (MeasureInput * MeasureResult)) (counter : nat)
    (global_cfg_dict : dict (string * option W) cfg).

Record context := { c_old : option nat; c_kind : ctx_kind }.

Record world := {
  w_ctxs : list context;
  w_current : option nat;          (* [DispatchContext.current] *)
  w_cfgs : list cfg_obj;
  w_warnings : list string         (* [DispatchContext.warning_messages] *)
}.

Definition with_ctxs l (w : world) : world :=
  {| w_ctxs := l; w_current := w_current w; w_cfgs := w_cfgs w; w_warnings := w_warnings w |}.
Definition with_current c (w : world) : world :=
  {| w_ctxs := w_ctxs w; w_current := c; w_cfgs := w_cfgs w; w_warnings := w_warnings w |}.
Definition with_cfgs l (w : world) : world :=
  {| w_ctxs := w_ctxs w; w_current := w_current w; w_cfgs := l; w_warnings := w_warnings w |}.
Definition with_warnings l (w : world) : world :=
  {| w_ctxs := w_ctxs w; w_current := w_current w; w_cfgs := w_cfgs w; w_warnings := l |}.

Definition get_ctx (id : nat) : M world context :=
  w ← get_st; lift (of_option AttributeError (w_ctxs w !! id)).

Definition set_kind (id : nat) (k : ctx_kind) : M world unit :=
  modify (λ w, with_ctxs (alter (λ c, {| c_old := c_old c; c_kind := k |}) id (w_ctxs w)) w).

(** [FallbackConfigEntity()] *)
Definition new_fallback_cfg : M world cfg :=
  w ← get_st;
  _ ← put_st (with_cfgs (w_cfgs w ++ [{| co_fallback := true; co_cost := None; co_workload := None |}]) w);
  mret (length (w_cfgs w)).

Definition set_cost (c : cfg) (x : float) : M world unit :=
  modify (λ w, with_cfgs (alter (λ o, {| co_fallback := co_fallback o; co_cost := Some x;
                                         co_workload := co_workload o |}) c (w_cfgs w)) w).
Definition set_workload (c : cfg) (wl : option W) : M world unit :=
  modify (λ w, with_cfgs (alter (λ o, {| co_fallback := co_fallback o; co_cost := co_cost o;
                                         co_workload := wl |}) c (w_cfgs w)) w).

(** ** Making, entering and leaving contexts *)

(** [DispatchContext.__init__] *)
Definition new_ctx (k : ctx_kind) : M world nat :=
  w ← get_st;
  _ ← put_st (with_ctxs (w_ctxs w ++ [{| c_old := w_current w; c_kind := k |}]) w);
  mret (length (w_ctxs w)).

Definition ctx_enter (id : nat) : M world unit :=
  w ← get_st;
  _ ← put_st (with_ctxs (alter (λ c, {| c_old := w_current w; c_kind := c_kind c |}) id (w_ctxs w)) w);
  modify (with_current (Some id)).

Definition ctx_exit (id : nat) : M world unit :=
  c ← get_ctx id;
  modify (with_current (c_old c)).

(** [DispatchContext.current = FallbackContext()] at import *)
Definition world_init : world :=
  {| w_ctxs := [{| c_old := None; c_kind := FallbackContext [] |}]; w_current := Some 0%nat;
     w_cfgs := []; w_warnings := [] |}.

(** ** [ApplyHistoryBest.load] *)

Definition cost_of (r : MeasureInput * MeasureResult) : float := mean (mr_costs r.2).

(** [np.mean(other_res.costs) > np.mean(res.costs)] *)
Definition beats (r other : MeasureInput * MeasureResult) : bool := flt (cost_of r) (cost_of other).

Definition load_key (r : MeasureInput * MeasureResult) (best : best_map) (k : string) : best_map :=
  let key := (k, mi_workload r.1) in
  match dget best key with
  | None => dset best key r
  | Some other => if beats r other then dset best key r else best
  end.

Definition load_model (r : MeasureInput * MeasureResult) (best : best_map) : best_map :=
  let model := tg_model (mi_target r.1) in
  let key := (model, mi_workload r.1) in
  match dget best key with
  | None => if String.eqb model "unknown" then best else dset best key r
  | Some other => if beats r other then dset best key r else best
  end.

Definition load_record (maps : best_map * best_map) (r : MeasureInput * MeasureResult)
    : best_map * best_map :=
  let '(by_key, by_model) := maps in
  if negb (mr_error_no r.2 =? 0) then maps
  else (foldl (load_key r) by_key (tg_keys (mi_target r.1)), load_model r by_model).

Definition load_records (maps : best_map * best_map) (records : list (MeasureInput * MeasureResult))
    : best_map * best_map :=
  foldl load_record maps records.

Definition history_load (id : nat) (records : list (MeasureInput * MeasureResult)) : M world unit :=
  c ← get_ctx id;
  match c_kind c with
  | ApplyHistoryBest by_key by_model user =>
      let '(by_key, by_model) := load_records (by_key, by_model) records in
      set_kind id (ApplyHistoryBest by_key by_model user)
  | _ => raise AttributeError
  end.

(** [ApplyHistoryBest(records)] *)
Definition new_history (records : list (MeasureInput * MeasureResult)) : M world nat :=
  id ← new_ctx (ApplyHistoryBest [] [] []);
  _ ← history_load id records;
  mret id.

(** ** [update] *)

Definition ctx_update (id : nat) (target : option Target) (workload : option W) (c : cfg)
    : M world unit :=
  ctx ← get_ctx id;
  match c_kind ctx with
  | ApplyConfig _ _ => set_kind id (ApplyConfig c workload)
  | ApplyHistoryBest by_key by_model user =>
      match target with
      | None => raise AttributeError
      | Some t =>
          _ ← set_cost c fzero;
          let user := dset user (tg_model t, workload) c in
          set_kind id (ApplyHistoryBest by_key by_model
            (foldl (λ user k, dset user (k, workload) c) user (tg_keys t)))
      end
  | FallbackContext memory => set_kind id (FallbackContext (dset memory (target_str target, workload) c))
  | ApplyGraphBest records counter global =>
      set_kind id (ApplyGraphBest records counter (dset global (target_str target, workload) c))
  end.

(** ** [query] *)

(** [ApplyHistoryBest._query_inside] on a target *)
Definition history_query (by_key by_model : best_map) (user : dict (string * option W) cfg) (t : Target)
    (workload : option W) : option cfg :=
  let pick (best : best_map) k :=
    match dget user (k, workload) with
    | Some c => Some c
    | None => mi_config ∘ fst <$> dget best (k, workload)
    end in
  match pick by_model (tg_model t) with
  | Some c => Some c
  | None => foldl (λ found k, match found with Some c => Some c | None => pick by_key k end)
              None (tg_keys t)
  end.

Definition fallback_query (id : nat) (memory : dict (string * option W) cfg) (target : option Target)
    (workload : option W) : M world cfg :=
  let key := (target_str target, workload) in
  match dget memory key with
  | Some c => mret c
  | None =>
      w ← get_st;
      let msg := warning (target_str target) workload in
      _ ← (if silent || bool_decide (msg ∈ w_warnings w) then mret tt
           else modify (λ w, with_warnings (msg :: w_warnings w) w));
      c ← new_fallback_cfg;
      _ ← set_kind id (FallbackContext (dset memory key c));
      mret c
  end.

Definition graph_query (id : nat) records counter (global : dict (string * option W) cfg) (target : option Target)
    (workload : option W) : M world cfg :=
  match records !! counter with
  | Some (inp, _) =>
      let c := mi_config inp in
      let wkl := mi_workload inp in
      _ ← lift (py_assert (match workload with None => true | Some _ => bool_decide (wkl = workload) end));
      _ ← set_kind id (ApplyGraphBest records (S counter) global);
      _ ← ctx_update id target wkl c;
      _ ← set_workload c wkl;
      mret c
  | None =>
      let key := (target_str target, workload) in
      match dget global key with
      | Some c => mret c
      | None =>
          c ← new_fallback_cfg;
          _ ← set_kind id (ApplyGraphBest records counter (dset global key c));
          mret c
      end
  end.

(** [_query_inside] *)
Definition query_inside (id : nat) (target : option Target) (workload : option W)
    : M world (option cfg) :=
  ctx ← get_ctx id;
  match c_kind ctx with
  | ApplyConfig c _ => _ ← set_kind id (ApplyConfig c workload); mret (Some c)
  | ApplyHistoryBest by_key by_model user =>
      match target with
      | None => raise RuntimeError
      | Some t => mret (history_query by_key by_model user t workload)
      end
  | FallbackContext memory => c ← fallback_query id memory target workload; mret (Some c)
  | ApplyGraphBest records counter global =>
      c ← graph_query id records counter global target workload; mret (Some c)
  end.

(** [query]: the answer of the context, or of the contexts above it. *)
Fixpoint query (fuel : nat) (id : nat) (target : option Target) (workload : option W)
    : M world cfg :=
  match fuel with
  | O => raise OutOfFuel
  | S fuel =>
      ret ← query_inside id target workload;
      match ret with
      | Some c => mret c
      | None =>
          ctx ← get_ctx id;
          match c_old ctx with
          | None => raise AttributeError
          | Some old => query fuel old target workload
          end
      end
  end.

(** [clear_fallback_cache] *)
Definition clear_cache (id : nat) (memory : dict (string * option W) cfg) (target : option Target)
    (workload : option W) : M world unit :=
  let key := (target_str target, workload) in
  if dmem memory key then set_kind id (FallbackContext (ddel memory key)) else mret tt.

Fixpoint clear_fallback_cache (fuel : nat) (id : nat) (target : option Target) (workload : option W)
    : M world unit :=
  match fuel with
  | O => raise OutOfFuel
  | S fuel =>
      ctx ← get_ctx id;
      match c_kind ctx with
      | FallbackContext memory => clear_cache id memory target workload
      | _ =>
          match c_old ctx with
          | None => raise AttributeError
          | Some old => clear_fallback_cache fuel old target workload
          end
      end
  end.
End dispatcher.
