(* ===== verification/DispatcherInv.v ===== *)
(** * Dispatch contexts of AutoTVM: what the history keeps and what a query finds

    The history context keeps, per target key and per model, the best record of the log, and a
    query under properly nested contexts is answered by the innermost context that knows the
    workload. *)

From S2P Require Import Prelude PyDict PyStr PyFloat FirstMin Dispatcher.

Section history.
Context {W : Type} `{EqDecision W}.
Variable mean : list float → float.
#[local] Abbreviation record := (@MeasureInput W * MeasureResult)%type.

#[local] Abbreviation cost := (@cost_of W mean).

(** The records a target key, or a model, is about. *)
Definition for_key (k : string) (wl : option W) (r : record) : bool :=
  (mr_error_no r.2 =? 0) && bool_decide (k ∈ tg_keys (mi_target r.1)) && bool_decide (mi_workload r.1 = wl).

Definition for_model (m : string) (wl : option W) (r : record) : bool :=
  (mr_error_no r.2 =? 0) && bool_decide (tg_model (mi_target r.1) = m) && bool_decide (m ≠ "unknown")
  && bool_decide (mi_workload r.1 = wl).

Lemma load_key_get r best k k' wl :
  dget (load_key mean r best k) (k', wl)
  = if decide (k' = k ∧ wl = mi_workload r.1) then better cost (dget best (k', wl)) r else dget best (k', wl).
Proof.
  unfold load_key, better, beats. case_decide as Hd.
  - destruct Hd as [-> ->]. destruct (dget best _) as [o|] eqn:E; [|by rewrite dget_dset_eq].
    case_match; [by rewrite dget_dset_eq|done].
  - assert ((k, mi_workload r.1) ≠ (k', wl)) by (intros [= <- <-]; tauto).
    repeat case_match; by rewrite ?dget_dset_ne.
Qed.

Lemma load_keys_get r ks best k wl :
  dget (foldl (load_key mean r) best ks) (k, wl)
  = if decide (k ∈ ks ∧ wl = mi_workload r.1) then better cost (dget best (k, wl)) r else dget best (k, wl).
Proof.
  revert best. induction ks as [|k0 ks IH]; intros best; cbn [foldl].
  - rewrite decide_False; [done|]. by intros [?%not_elem_of_nil _].
  - rewrite IH, load_key_get.
    repeat case_decide; rewrite ?better_idem; try done; exfalso; set_solver.
Qed.

Lemma load_model_get r best m wl : dget best ("unknown", wl) = None →
  dget (load_model mean r best) (m, wl)
  = if decide (m = tg_model (mi_target r.1) ∧ m ≠ "unknown" ∧ wl = mi_workload r.1)
    then better cost (dget best (m, wl)) r else dget best (m, wl).
Proof.
  intros Hu. unfold load_model, better, beats. cbv zeta.
  destruct (decide (tg_model (mi_target r.1) = m ∧ wl = mi_workload r.1)) as [[<- ->]|Hne].
  - destruct (dget best (tg_model _, _)) as [o|] eqn:E.
    + rewrite decide_True by (split_and!; [done| |done]; intros Hm; rewrite Hm in E; congruence).
      destruct (flt _ _); [by rewrite dget_dset_eq|done].
    + destruct (String.eqb_spec (tg_model (mi_target r.1)) "unknown") as [Hm|Hm].
      * by rewrite decide_False by tauto.
      * by rewrite decide_True, dget_dset_eq.
  - rewrite decide_False by (intros (-> & _ & ->); tauto).
    assert ((tg_model (mi_target r.1), mi_workload r.1) ≠ (m, wl)) by (intros [= <- <-]; tauto).
    repeat case_match; by rewrite ?dget_dset_ne.
Qed.

Lemma load_records_get rs bk bm : (∀ wl, dget bm ("unknown", wl) = None) →
  ∀ k wl,
    dget (load_records mean (bk, bm) rs).1 (k, wl) = foldl (better cost) (dget bk (k, wl)) (List.filter (for_key k wl) rs) ∧
    dget (load_records mean (bk, bm) rs).2 (k, wl) = foldl (better cost) (dget bm (k, wl)) (List.filter (for_model k wl) rs).
Proof.
  revert bk bm. induction rs as [|r rs IH]; intros bk bm Hu k wl; [done|].
  unfold load_records in *. cbn [foldl load_record List.filter].
  unfold for_key at 1, for_model at 1. destruct (Z.eqb_spec (mr_error_no r.2) 0) as [He|He]; cbn [negb andb].
  2: { by apply IH. }
  destruct (IH (foldl (load_key mean r) bk (tg_keys (mi_target r.1))) (load_model mean r bm)) with (k := k) (wl := wl) as [H1 H2].
  { intros wl'. rewrite load_model_get by done. rewrite decide_False by tauto. done. }
  split; [etrans; [exact H1|]; rewrite load_keys_get|etrans; [exact H2|]; rewrite load_model_get by done];
    repeat case_bool_decide; case_decide; cbn [andb foldl]; done || (exfalso; naive_solver).
Qed.
End history.

(** The two maps of a new history context. *)
Lemma load_records_best {W} `{EqDecision W} (mean : list float → float)
    (rs : list (@MeasureInput W * MeasureResult)) k wl :
  dget (load_records mean ([], []) rs).1 (k, wl) = first_min (cost_of mean) (List.filter (for_key k wl) rs) ∧
  dget (load_records mean ([], []) rs).2 (k, wl) = first_min (cost_of mean) (List.filter (for_model k wl) rs).
Proof. exact (load_records_get mean rs [] [] (λ _, eq_refl) k wl). Qed.

(** The keys of a target that lead to an answer, in the order in which a query tries them. *)
Lemma first_answer {X Y} (f : X → option Y) l (acc : option Y) :
  foldl (λ found k, match found with Some c => Some c | None => f k end) acc l
  = match acc with Some c => Some c | None => head (omap f l) end.
Proof.
  revert acc. induction l as [|x l IH]; intros acc; [by destruct acc|]. cbn [foldl]. rewrite IH.
  destruct acc; [done|]. csimpl. by destruct (f x).
Qed.

(** After a log is loaded into a new history context, the entry of a target key and a workload
    is the first of the error-free records of that workload on a target with the key whose mean
    cost is smallest, and absent if there is none; likewise for the model, except for "unknown".
    A query answers with the best record of the model or else of the first key that has one, and
    finds nothing only if no error-free record of the workload has the model or a key. *)
Theorem history_best {W} `{EqDecision W} (mean : list float → float)
    (rs : list (@MeasureInput W * MeasureResult)) :
  numbers (cost_of mean) rs →
  let '(bk, bm) := load_records mean ([], []) rs in
  (∀ k wl, is_first_min (cost_of mean) (List.filter (for_key k wl) rs) (dget bk (k, wl))) ∧
  (∀ m wl, is_first_min (cost_of mean) (List.filter (for_model m wl) rs) (dget bm (m, wl))) ∧
  ∀ t wl, history_query bk bm [] t wl
    = match dget bm (tg_model t, wl) with
      | Some r => Some (mi_config r.1)
      | None => head (omap (λ k, mi_config ∘ fst <$> dget bk (k, wl)) (tg_keys t))
      end.
Proof.
  intros Hnan. set (maps := load_records mean ([], []) rs).
  pose proof (load_records_best mean rs : ∀ k wl, dget maps.1 (k, wl) = _ ∧ dget maps.2 (k, wl) = _) as Hget.
  destruct maps as [bk bm]. cbn [fst snd] in Hget.
  split_and!.
  - intros k wl. destruct (Hget k wl) as [-> _]. by apply first_min_spec, numbers_filter.
  - intros m wl. destruct (Hget m wl) as [_ ->]. by apply first_min_spec, numbers_filter.
  - intros t wl. unfold history_query. cbn [dget]. rewrite first_answer.
    by destruct (dget bm (tg_model t, wl)).
Qed.

(** Three measurements of one workload, the second one failed. *)
Definition sample_log : list (@MeasureInput nat * MeasureResult) :=
  let gpu := {| tg_str := "cuda"; tg_model := "unknown"; tg_keys := ["cuda"; "gpu"] |} in
  let inp c := {| mi_target := gpu; mi_workload := Some 7%nat; mi_config := c |} in
  [(inp 0%nat, {| mr_costs := [of_Z 3]; mr_error_no := 0 |});
   (inp 1%nat, {| mr_costs := [of_Z 1]; mr_error_no := 4 |});
   (inp 2%nat, {| mr_costs := [of_Z 2]; mr_error_no := 0 |})].

Lemma history_best_witness :
  let mean l := default fzero (head l) in
  is_first_min (cost_of mean) (List.filter (for_key "gpu" (Some 7%nat)) sample_log)
    (dget (load_records mean ([], []) sample_log).1 ("gpu", Some 7%nat)).
Proof.
  intros mean. pose proof (history_best mean sample_log) as H.
  destruct (load_records mean ([], []) sample_log) as [bk bm].
  apply H. repeat constructor.
Defined.
