(* ===== verification/DispatcherNest.v ===== *)
(** * Dispatch contexts of AutoTVM: nesting

    Under properly nested [with] statements the links between the contexts form the stack of the
    entered contexts, whatever is queried, updated or loaded in between, and a query is answered
    along that stack. A context that is entered again inside itself breaks this. *)

From S2P Require Import Prelude PyDict PyStr PyFloat Dispatcher.

Section nesting.
Context {W : Type} `{EqDecision W}.
Variable mean : list float → float.
Variable warning : string → option W → string.
Variable silent : bool.

(** The class of a context *)
Inductive ctx_class := AConfig | AHistory | AFallback | AGraph.

Definition class_of (k : @ctx_kind W) : ctx_class :=
  match k with
  | ApplyConfig _ _ => AConfig
  | ApplyHistoryBest _ _ _ => AHistory
  | FallbackContext _ => AFallback
  | ApplyGraphBest _ _ _ => AGraph
  end.

(** The links and the classes of all contexts *)
Definition skeleton (w : @world W) : list (option nat * ctx_class) :=
  (λ c, (c_old c, class_of (c_kind c))) <$> w_ctxs w.

(** Nothing but the contents of contexts and configurations changes. *)
Definition same_shape (w w' : @world W) : Prop :=
  skeleton w' = skeleton w ∧ w_current w' = w_current w.

Lemma same_shape_refl w : same_shape w w.
Proof. done. Qed.

Lemma same_shape_trans w w' w'' : same_shape w w' → same_shape w' w'' → same_shape w w''.
Proof. intros [H1 H2] [H3 H4]. split; congruence. Qed.

(** A computation that keeps the shape when it runs in a context of the given class. *)
Definition keeps {A} (id : nat) (cl : ctx_class) (m : M (@world W) A) : Prop :=
  ∀ w, snd <$> skeleton w !! id = Some cl → same_shape w (m w).2.

Lemma keeps_bind {A B} id cl (m : M (@world W) A) (k : A → M world B) :
  keeps id cl m → (∀ a, keeps id cl (k a)) → keeps id cl (m ≫= k).
Proof.
  intros Hm Hk w Hw. specialize (Hm w Hw). unfold mbind, M_bind.
  destruct (m w) as [[a|e] w'] eqn:E; [|done]. cbn in Hm.
  eapply same_shape_trans; [exact Hm|]. apply Hk. by rewrite (proj1 Hm).
Qed.

Lemma keeps_pure {A} id cl (m : M (@world W) A) : (∀ w, same_shape w (m w).2) → keeps id cl m.
Proof. intros H w _. apply H. Qed.

Lemma skeleton_set_kind id k w :
  skeleton ((set_kind id k w).2) = alter (λ p, (p.1, class_of k)) id (skeleton w).
Proof.
  unfold skeleton, set_kind. cbn. by apply list_fmap_alter, Forall_true.
Qed.

Lemma keeps_set_kind id cl k : class_of k = cl → keeps id cl (set_kind id k).
Proof.
  intros <- w Hw. split; [|done]. rewrite skeleton_set_kind. apply list_eq. intros i.
  destruct (decide (i = id)) as [->|Hne]; [|by rewrite list_lookup_alter_ne].
  rewrite list_lookup_alter_eq. destruct (skeleton w !! id) as [[o c]|]; [|done].
  cbn in *. by simplify_eq.
Qed.

Lemma keeps_new_cfg id cl : keeps id cl new_fallback_cfg.
Proof. by apply keeps_pure. Qed.

Lemma keeps_ret {A} id cl (a : A) : keeps id cl (mret a).
Proof. by apply keeps_pure. Qed.

Lemma keeps_lift {A} id cl (r : result A) : keeps id cl (lift r).
Proof. by apply keeps_pure. Qed.

Lemma keeps_set_cost id cl c x : keeps id cl (set_cost c x).
Proof. by apply keeps_pure. Qed.

Lemma keeps_set_workload id cl c x : keeps id cl (set_workload c x).
Proof. by apply keeps_pure. Qed.

(** What is done with a context after it is looked up runs in a context of its class. *)
Lemma shape_get_ctx {A} id (k : context → M (@world W) A) w :
  (∀ c, keeps id (class_of (c_kind c)) (k c)) → same_shape w ((get_ctx id ≫= k) w).2.
Proof.
  intros Hk. unfold get_ctx. unfold mbind, M_bind, get_st, lift.
  destruct (w_ctxs w !! id) as [c|] eqn:Hc; [|done]. cbn. apply Hk.
  unfold skeleton. by rewrite list_lookup_fmap, Hc.
Qed.
End nesting.

Create HintDb shape discriminated.
#[export] Hint Resolve keeps_set_kind keeps_new_cfg keeps_ret keeps_lift keeps_set_cost
  keeps_set_workload same_shape_refl : shape.

(** Steps through a computation that keeps the shape. *)
Ltac keeps_tac :=
  repeat first [ solve [auto with shape] | match goal with |- keeps _ _ (_ ≫= _) => apply keeps_bind; [|intros ?] end
               | progress cbv zeta
               | match goal with |- keeps _ _ (match ?x with _ => _ end) => destruct x end ].

Section operations.
Context {W : Type} `{EqDecision W}.
Variable mean : list float → float.
Variable warning : string → option W → string.
Variable silent : bool.

Lemma shape_update id (t : option Target) (wl : option W) c w : same_shape w (ctx_update id t wl c w).2.
Proof.
  apply shape_get_ctx. intros ctx. destruct (c_kind ctx); cbn [class_of]; keeps_tac.
  by apply keeps_pure.
Qed.

Lemma keeps_update id cl id' (t : option Target) (wl : option W) c : keeps id cl (ctx_update id' t wl c).
Proof. apply keeps_pure. intros w. apply shape_update. Qed.

Lemma shape_load id (rs : list (@MeasureInput W * MeasureResult)) w :
  same_shape w (history_load mean id rs w).2.
Proof.
  apply shape_get_ctx. intros ctx. destruct (c_kind ctx); cbn [class_of]; try (by apply keeps_pure).
  keeps_tac.
Qed.

Lemma shape_query_inside id t wl w : same_shape w (query_inside warning silent id t wl w).2.
Proof.
  apply shape_get_ctx. intros ctx. destruct (c_kind ctx); cbn [class_of].
  - keeps_tac.
  - destruct t; keeps_tac. by apply keeps_pure.
  - unfold fallback_query. keeps_tac; by apply keeps_pure.
  - unfold graph_query. keeps_tac; apply keeps_update.
Qed.

Lemma shape_query fuel id t wl w : same_shape w (query warning silent fuel id t wl w).2.
Proof.
  revert id w. induction fuel as [|fuel IH]; intros id w; [done|]. cbn [query].
  pose proof (shape_query_inside id t wl w) as H1. unfold mbind at 1, M_bind at 1.
  destruct (query_inside warning silent id t wl w) as [[[c|]|e] w1]; try done. cbn in H1.
  eapply same_shape_trans; [exact H1|]. apply shape_get_ctx. intros ctx.
  apply keeps_pure. intros w2. destruct (c_old ctx); [apply IH|done].
Qed.

Lemma shape_clear fuel id t (wl : option W) w : same_shape w (clear_fallback_cache fuel id t wl w).2.
Proof.
  revert id w. induction fuel as [|fuel IH]; intros id w; [done|]. cbn [clear_fallback_cache].
  apply shape_get_ctx. intros ctx. unfold clear_cache. destruct (c_kind ctx); cbn [class_of]; keeps_tac;
    apply keeps_pure; intros w2; done || apply IH.
Qed.

(** ** The stack of entered contexts *)

(** The contexts that were entered and not left, the innermost first; the root is the fallback
    context made at import. *)
Inductive nested : list nat → @world W → Prop :=
| nested_init : nested [0%nat] world_init
| nested_new st w k : nested st w → nested st (new_ctx k w).2
| nested_enter st w id : nested st w → id ∉ st → (id < length (w_ctxs w))%nat →
    nested (id :: st) (ctx_enter id w).2
| nested_exit st w id id' : nested (id :: id' :: st) w → nested (id' :: st) (ctx_exit id w).2
| nested_query st w fuel id t wl : nested st w → nested st (query warning silent fuel id t wl w).2
| nested_update st w id t wl c : nested st w → nested st (ctx_update id t wl c w).2
| nested_load st w id rs : nested st w → nested st (history_load mean id rs w).2
| nested_clear st w fuel id t wl : nested st w → nested st (clear_fallback_cache fuel id t wl w).2.

(** The links lead along the stack to the root. *)
Fixpoint linked (sk : list (option nat * ctx_class)) (st : list nat) : Prop :=
  match st with
  | [] => False
  | [r] => r = 0%nat ∧ snd <$> sk !! r = Some AFallback
  | a :: ((b :: _) as rest) => fst <$> sk !! a = Some (Some b) ∧ linked sk rest
  end.

Definition nest_ok (st : list nat) (w : @world W) : Prop :=
  w_current w = head st ∧ NoDup st ∧ linked (skeleton w) st.

Lemma linked_cons sk a st : linked sk (a :: st) →
  match st with [] => a = 0%nat ∧ snd <$> sk !! a = Some AFallback
  | b :: _ => fst <$> sk !! a = Some (Some b) ∧ linked sk st end.
Proof. by destruct st. Qed.

Lemma linked_ext sk sk' st : (∀ i, i ∈ st → is_Some (sk !! i) → sk' !! i = sk !! i) →
  linked sk st → linked sk' st.
Proof.
  induction st as [|a st IH]; intros Hext Hl; [done|]. apply linked_cons in Hl.
  assert (Ha : is_Some (sk !! a)) by (destruct st; destruct Hl as [H1 H2]; destruct (sk !! a); done || eauto).
  destruct st as [|b st]; cbn [linked]; rewrite (Hext a) by (done || set_solver).
  - done.
  - destruct Hl as [H1 H2]. split; [done|]. apply IH; [|done]. intros i Hi. apply Hext. set_solver.
Qed.

Lemma nest_ok_shape st w w' : same_shape w w' → nest_ok st w → nest_ok st w'.
Proof. intros [H1 H2] (Hc & Hd & Hl). unfold nest_ok. by rewrite H1, H2. Qed.

Lemma skeleton_enter id (w : @world W) :
  skeleton (ctx_enter id w).2 = alter (λ p, (w_current w, p.2)) id (skeleton w).
Proof. unfold skeleton, ctx_enter. cbn. by apply list_fmap_alter, Forall_true. Qed.

Lemma skeleton_new k (w : @world W) :
  skeleton (new_ctx k w).2 = skeleton w ++ [(w_current w, class_of k)].
Proof. unfold skeleton. exact (fmap_app _ (w_ctxs w) _). Qed.

Lemma nested_ok st w : nested st w → nest_ok st w.
Proof.
  induction 1 as [|st w k _ (Hc & Hd & Hl)|st w id _ (Hc & Hd & Hl) Hnew Hid|st w id id' _ (Hc & Hd & Hl)
    |st w fuel id t wl _ IH|st w id t wl c _ IH|st w id rs _ IH|st w fuel id t wl _ IH].
  - split_and!; [done|apply NoDup_singleton|done].
  - split_and!; [done|done|]. eapply linked_ext; [|exact Hl]. intros i _ [x Hx]. rewrite Hx.
    rewrite skeleton_new. by apply lookup_app_l_Some.
  - split_and!; [done|by constructor|]. rewrite skeleton_enter.
    assert (Hlk : linked (alter (λ p, (w_current w, p.2)) id (skeleton w)) st).
    { eapply linked_ext; [|exact Hl]. intros i Hi _. apply list_lookup_alter_ne. set_solver. }
    destruct st as [|b st]; [done|]. cbn [linked]. split; [|done].
    rewrite list_lookup_alter_eq. unfold skeleton. rewrite list_lookup_fmap.
    destruct (lookup_lt_is_Some_2 _ _ Hid) as [c ->]. cbn. by rewrite Hc.
  - destruct Hl as [Hold Hl]. apply NoDup_cons in Hd as [_ Hd].
    unfold skeleton in Hold. rewrite list_lookup_fmap in Hold.
    destruct (w_ctxs w !! id) as [c|] eqn:Hlk; [|done].
    assert (ctx_exit id w = (Ok tt, with_current (c_old c) w)) as ->
      by (unfold ctx_exit, get_ctx, mbind, M_bind, get_st, lift; by rewrite Hlk).
    cbn in Hold. split_and!; [cbn; congruence|done|done].
  - eapply nest_ok_shape; [apply shape_query|done].
  - eapply nest_ok_shape; [apply shape_update|done].
  - eapply nest_ok_shape; [apply shape_load|done].
  - eapply nest_ok_shape; [apply shape_clear|done].
Qed.

(** ** What a query finds *)

(** The answer of the first context of the stack that has one. *)
Fixpoint resolve (st : list nat) (t : option Target) (wl : option W) : M (@world W) cfg :=
  match st with
  | [] => raise AttributeError
  | id :: st =>
      ret ← query_inside warning silent id t wl;
      match ret with Some c => mret c | None => resolve st t wl end
  end.

(** The root always answers. *)
Lemma fallback_answers id t wl w c w' : query_inside warning silent id t wl w = (Ok c, w') →
  snd <$> skeleton w !! id = Some AFallback → is_Some c.
Proof.
  unfold query_inside, get_ctx, skeleton, mbind, M_bind, get_st, lift. rewrite list_lookup_fmap.
  destruct (w_ctxs w !! id) as [ctx|]; [|done]. cbn [of_option fmap option_fmap option_map].
  intros Hq Hcl. cbn in Hcl. destruct (c_kind ctx); try done. destruct (fallback_query _ _ _ _ _ _ w) as [[x|e] w1]; [|done].
  injection Hq as <- _. eauto.
Qed.

Lemma query_resolve st t wl : ∀ fuel w id, (length st ≤ fuel)%nat → linked (skeleton w) st →
  head st = Some id → query warning silent fuel id t wl w = resolve st t wl w.
Proof.
  induction st as [|a st IH]; intros fuel w id Hf Hl Hh; [done|]. simplify_eq/=.
  destruct fuel as [|fuel]; [simpl in Hf; lia|]. cbn [query].
  unfold mbind, M_bind. pose proof (shape_query_inside id t wl w) as [Hsk _].
  destruct (query_inside warning silent id t wl w) as [[[c|]|e] w1] eqn:E; try done. cbn in Hsk.
  destruct st as [|b st].
  { destruct Hl as [-> Hcl]. by destruct (fallback_answers _ _ _ _ _ _ E Hcl). }
  destruct Hl as [Hold Hl]. rewrite <-Hsk in Hold, Hl. pose proof Hold as Hold'.
  unfold skeleton in Hold'. rewrite list_lookup_fmap in Hold'.
  unfold get_ctx, mbind, M_bind, get_st, lift.
  destruct (w_ctxs w1 !! id) as [ctx|]; [|done]. injection Hold' as Hold'. cbn [of_option].
  cbn in Hold'. rewrite Hold'. apply IH; [simpl in *; lia|done|done].
Qed.

Lemma linked_valid (w : @world W) st i : linked (skeleton w) st → i ∈ st → is_Some (w_ctxs w !! i).
Proof.
  induction st as [|a st IH]; intros Hl Hi; [done|]. apply linked_cons in Hl.
  apply elem_of_cons in Hi as [->|Hi].
  - destruct (w_ctxs w !! a) as [c|] eqn:Hc; [eauto|].
    assert (skeleton w !! a = None) as Hn by (unfold skeleton; by rewrite list_lookup_fmap, Hc).
    rewrite Hn in Hl. by destruct st; destruct Hl.
  - destruct st; [by apply not_elem_of_nil in Hi|]. destruct Hl as [_ Hl]. by apply IH.
Qed.

Lemma linked_length (w : @world W) st : linked (skeleton w) st → NoDup st →
  (length st ≤ length (w_ctxs w))%nat.
Proof.
  intros Hl Hd. rewrite <-(length_seq (length (w_ctxs w)) 0).
  apply submseteq_length, NoDup_submseteq; [done|].
  intros i Hi. apply elem_of_seq. pose proof (linked_valid w st i Hl Hi) as H%lookup_lt_is_Some_1. lia.
Qed.

(** Why a context refuses to answer: a history is asked without a target, or the next record of a
    graph is of another workload than the one asked for. *)
Definition refuses (w : @world W) (t : option Target) (wl : option W) (id : nat) (e : exc) : Prop :=
  match c_kind <$> w_ctxs w !! id with
  | Some (ApplyHistoryBest _ _ _) => t = None ∧ e = RuntimeError
  | Some (ApplyGraphBest records counter _) => e = AssertionError ∧ is_Some wl ∧
      ∃ r, records !! counter = Some r ∧ mi_workload r.1 ≠ wl
  | _ => False
  end.

Lemma query_inside_errors id t wl w e w' : is_Some (w_ctxs w !! id) →
  query_inside warning silent id t wl w = (Raise e, w') → refuses w t wl id e.
Proof.
  intros [ctx Hc]. unfold refuses, query_inside, get_ctx, mbind, M_bind, get_st, lift. rewrite Hc.
  cbn [of_option fmap option_fmap option_map].
  destruct (c_kind ctx) as [| |memory|records counter global] eqn:Hk.
  - done.
  - destruct t; cbn; intros [= <- _]; auto.
  - unfold fallback_query. cbv zeta. unfold mbind, M_bind, get_st.
    destruct (dget _ _); [done|]. by destruct (silent || _).
  - unfold graph_query, mbind, M_bind, lift. destruct (records !! counter) as [[inp res]|].
    + destruct wl as [wl|]; cbn; [case_bool_decide as Hw; cbn|];
        [| intros [= <- _]; split_and!; [done..|]; by exists (inp, res) |];
        unfold ctx_update, get_ctx, mbind, M_bind, get_st, lift; cbn;
        by rewrite list_lookup_alter_eq, Hc.
    + destruct (dget _ _); done.
Qed.

(** A context without an answer is left as it was. *)
Lemma query_inside_none id t wl w w' : query_inside warning silent id t wl w = (Ok None, w') → w' = w.
Proof.
  unfold query_inside, get_ctx, mbind, M_bind, get_st, lift.
  destruct (w_ctxs w !! id) as [ctx|]; [|done]. cbn [of_option]. destruct (c_kind ctx).
  - done.
  - destruct t; cbn; by intros [= _ <-].
  - by destruct (fallback_query _ _ _ _ _ _ w) as [[x|e] w1].
  - by destruct (graph_query _ _ _ _ _ _ w) as [[x|e] w1].
Qed.

Lemma resolve_errors st t wl : ∀ w e w', linked (skeleton w) st →
  resolve st t wl w = (Raise e, w') → ∃ id, id ∈ st ∧ refuses w t wl id e.
Proof.
  induction st as [|a st IH]; intros w e w' Hl; [done|]. cbn [resolve]. unfold mbind, M_bind.
  destruct (query_inside warning silent a t wl w) as [[[c|]|e'] w1] eqn:E.
  - done.
  - destruct st as [|b st].
    { destruct Hl as [-> Hcl]. by destruct (fallback_answers _ _ _ _ _ _ E Hcl). }
    apply query_inside_none in E as ->. destruct Hl as [_ Hl]. intros (id & Hin & Hr)%IH; [|done].
    exists id. split; [by right|done].
  - intros [= <- <-]. exists a. split; [by left|]. eapply query_inside_errors; [|exact E].
    eapply linked_valid; [exact Hl|set_solver].
Qed.
End operations.

(** C22: Contexts are made, queried, updated, loaded and cleared in any order, and entered and left
    in nested order, where a context is not entered again while it is entered. Then the current
    context is the innermost one that was entered and not left, and leaving it makes the one around
    it current. A query of the current context ends, with the answer of the innermost context of the
    stack that has one. It raises only where a context of the stack refuses: a history that is asked
    without a target (RuntimeError), or a graph whose next record is of another workload than the
    one asked for (AssertionError); in all other cases there is an answer. *)
Theorem dispatch_nesting {W} `{EqDecision W} mean (warning : string → option W → string) silent st w :
  nested mean warning silent st w →
  w_current w = head st ∧
  (∀ id id' rest, st = id :: id' :: rest → w_current (ctx_exit id w).2 = Some id') ∧
  ∀ id t wl, w_current w = Some id →
    let q := query warning silent (length (w_ctxs w)) id t wl w in
    q = resolve warning silent st t wl w ∧
    ((∀ id' e, id' ∈ st → ¬ refuses w t wl id' e) → ∃ c, q.1 = Ok c) ∧
    ∀ e, q.1 = Raise e → ∃ id', id' ∈ st ∧ refuses w t wl id' e.
Proof.
  intros Hn. pose proof (nested_ok _ _ _ _ _ Hn) as (Hc & Hd & Hl). split_and!; [done| |].
  - intros id id' rest ->. by apply nested_exit, nested_ok in Hn as [-> _].
  - intros id t wl Hid q. rewrite Hc in Hid.
    assert (q = resolve warning silent st t wl w) as Hq
      by (apply query_resolve; [by apply linked_length|done|done]).
    assert (∀ e, q.1 = Raise e → ∃ id', id' ∈ st ∧ refuses w t wl id' e) as Herr.
    { intros e He. destruct q as [r w'] eqn:E. cbn in He. subst r. symmetry in Hq. by eapply resolve_errors. }
    split_and!; [done| |done]. intros Hno. destruct q.1 as [c|e]; [by exists c|].
    destruct (Herr e eq_refl) as (id' & Hin & Hr). by destruct (Hno id' e Hin).
Qed.

(** A history context that is entered a second time inside itself is its own outer context:
    leaving it twice does not restore the context that was current before, it stays current, and
    a query it cannot answer never ends. *)
Theorem dispatch_reentry {W} `{EqDecision W} (warning : string → option W → string) silent
    (w : @world W) id old bk bm user t wl :
  w_ctxs w !! id = Some {| c_old := old; c_kind := ApplyHistoryBest bk bm user |} →
  history_query bk bm user t wl = None →
  let w' := ((_ ← ctx_enter id; _ ← ctx_enter id; _ ← ctx_exit id; ctx_exit id) w).2 in
  w_current w' = Some id ∧
  ∀ fuel, (query warning silent fuel id (Some t) wl w').1 = Raise OutOfFuel.
Proof.
  intros Hid Hq w'.
  assert (w_current w' = Some id ∧
    w_ctxs w' !! id = Some {| c_old := Some id; c_kind := ApplyHistoryBest bk bm user |}) as [Hcur Hctx].
  { subst w'. unfold ctx_enter, ctx_exit, get_ctx, modify, put_st, get_st, lift, mbind, M_bind. cbn.
    rewrite !list_lookup_alter_eq, Hid. cbn. rewrite !list_lookup_alter_eq, Hid. cbn.
    by rewrite !list_lookup_alter_eq, Hid. }
  split; [done|]. induction fuel as [|fuel IH]; [done|]. cbn [query].
  unfold query_inside, get_ctx, mbind, M_bind, get_st, lift. rewrite Hctx. cbn [of_option c_kind].
  rewrite Hq. cbn. rewrite Hctx. exact IH.
Qed.

(** ** Examples *)

Definition cuda : Target := {| tg_str := "cuda"; tg_model := "v100"; tg_keys := ["cuda"; "gpu"] |}.

Definition two_histories : M (@world nat) unit :=
  a ← new_ctx (ApplyHistoryBest [] [] []);
  _ ← ctx_enter a;
  b ← new_ctx (ApplyHistoryBest [] [] []);
  ctx_enter b.

Lemma dispatch_nesting_witness :
  (query (λ _ _, "") false 3 2 (Some cuda) (Some 5%nat) (two_histories world_init).2).1 = Ok 0%nat.
Proof.
  destruct (dispatch_nesting (λ _, fzero) (λ _ _, "") false [2; 1; 0]%nat (two_histories world_init).2)
    as (_ & _ & Hq).
  - change (two_histories world_init).2
      with (ctx_enter 2 (new_ctx (ApplyHistoryBest [] [] [])
             (ctx_enter 1 (new_ctx (ApplyHistoryBest [] [] []) (world_init (W := nat))).2).2).2).2.
    apply nested_enter; [|set_solver|vm_compute; lia]. apply nested_new.
    apply nested_enter; [|set_solver|vm_compute; lia]. apply nested_new, nested_init.
  - destruct (Hq 2%nat (Some cuda) (Some 5%nat) eq_refl) as [Hr _].
    exact (f_equal fst Hr).
Defined.

Lemma dispatch_reentry_witness :
  (query (λ _ _, "") false 1000 1 (Some cuda) (Some 5%nat)
    ((_ ← ctx_enter 1; _ ← ctx_enter 1; _ ← ctx_exit 1; ctx_exit 1)
       (new_ctx (ApplyHistoryBest [] [] []) world_init).2).2).1 = Raise OutOfFuel.
Proof.
  destruct (dispatch_reentry (λ _ _, "") false (new_ctx (ApplyHistoryBest [] [] []) world_init).2
    1 (Some 0%nat) [] [] [] cuda (Some 5%nat)) as [_ Hq]; [done|done|]. apply Hq.
Defined.
