(* ===== verification/Record.v ===== *)
(** * Records of AutoTVM ([python/tvm/autotvm/record.py])

    The JSON rows of a log file. The arguments of a task are nested Python values; a tuple is
    printed as a list and read back as a tuple. The pickle protocol is not modelled. *)

From S2P Require Import Prelude PyDict PyStr PyFloat PyJson JsonText SplitSpace ConfigSpace Dispatcher.

(** ** Tasks ([python/tvm/autotvm/task/task.py]) *)

(** Python values of task arguments; [PDict] is a parsed object that is left as it is. *)
#[local] Unset Elimination Schemes.
Inductive pyval :=
| PNone
| PBool (b : bool)
| PInt (z : Z)
| PFloat (f : float)
| PStr (s : string)
| PTuple (l : list pyval)
| PList (l : list pyval)
| PDict (d : list (string * json)).
#[local] Set Elimination Schemes.

Section pyval_ind.
Context (P : pyval → Prop).
Context (Hnone : P PNone) (Hbool : ∀ b, P (PBool b)) (Hint : ∀ z, P (PInt z))
  (Hfloat : ∀ f, P (PFloat f)) (Hstr : ∀ s, P (PStr s))
  (Htuple : ∀ l, Forall P l → P (PTuple l)) (Hlist : ∀ l, Forall P l → P (PList l))
  (Hdict : ∀ d, P (PDict d)).

Fixpoint pyval_nested_ind (v : pyval) : P v :=
  let fix go l : Forall P l :=
    match l with
    | [] => List.Forall_nil _
    | x :: l => List.Forall_cons _ x l (pyval_nested_ind x) (go l)
    end in
  match v with
  | PNone => Hnone
  | PBool b => Hbool b
  | PInt z => Hint z
  | PFloat f => Hfloat f
  | PStr s => Hstr s
  | PTuple l => Htuple l (go l)
  | PList l => Hlist l (go l)
  | PDict d => Hdict d
  end.
End pyval_ind.

Record Task := { tk_name : string; tk_args : pyval; tk_kwargs : list (string * json) }.

(** [_encode] of [serialize_args]: sequences become tuples, other containers are refused. *)
Fixpoint serialize_value (v : pyval) : result pyval :=
  match v with
  | PTuple l | PList l =>
      vs ← (fix go l := match l with
            | [] => Ok []
            | x :: l => y ← serialize_value x; ys ← go l; Ok (y :: ys)
            end) l;
      Ok (PTuple vs)
  | PDict _ => Raise RuntimeError
  | _ => Ok v
  end.

Definition serialize_args (args : pyval) : result (list pyval) :=
  match args with
  | PTuple l | PList l => mmapr serialize_value l
  | _ => Raise NotImplementedError
  end.

(** [Task.workload] *)
Definition workload (t : Task) : result pyval :=
  args ← serialize_args (tk_args t);
  Ok (PTuple (PStr (tk_name t) :: args)).

(** ** Rows *)

Record RInput := {
  ri_target : Target; ri_task : Task; ri_config : ConfigEntity;
  ri_cost : option float            (* [config.cost] *)
}.
Record RResult := {
  rr_costs : list float; rr_error_no : Z; rr_all_cost : float; rr_timestamp : float
}.

(** The value [json.dumps] prints for an argument. *)
Fixpoint json_of_pyval (v : pyval) : json :=
  match v with
  | PNone => JNull
  | PBool b => JBool b
  | PInt z => JInt z
  | PFloat f => JFloat f
  | PStr s => JStr s
  | PTuple l | PList l => JList (json_of_pyval <$> l)
  | PDict d => JObj d
  end.

(** [clean_json_to_python]; a boolean is an [int] in Python. *)
Fixpoint clean_json_to_python (x : json) : pyval :=
  match x with
  | JList l => PTuple (clean_json_to_python <$> l)
  | JBool b => PInt (if b then 1 else 0)
  | JInt z => PInt z
  | JNull => PNone
  | JFloat f => PFloat f
  | JStr s => PStr s
  | JObj d => PDict d
  end.

Section record.
Variable float_repr : float → text.
(** [tvm.__version__] *)
Variable tvm_version : string.
(** [Target(s)] *)
Variable parse_target : string → result Target.
(** [np.mean] *)
Variable mean : list float → float.
(** Whether a task name is in [TASK_TABLE] *)
Variable registered : string → bool.

Definition AUTOTVM_LOG_VERSION : float := of_dec 2 1.

(** The dictionary of a row. *)
Definition record_json (h : list entity) (inp : RInput) (result : RResult) : Prelude.result json :=
  config ← to_json_dict h (ri_config inp);
  let costs := if rr_error_no result =? 0 then rr_costs result else [of_Z (10 ^ 9)] in
  Ok (JObj [("input", JList [JStr (tg_str (ri_target inp)); JStr (tk_name (ri_task inp));
                             json_of_pyval (tk_args (ri_task inp)); JObj (tk_kwargs (ri_task inp))]);
            ("config", config);
            ("result", JList [JList (JFloat <$> costs); JInt (rr_error_no result);
                              JFloat (rr_all_cost result); JFloat (rr_timestamp result)]);
            ("version", JFloat AUTOTVM_LOG_VERSION);
            ("tvm_version", JStr tvm_version)]).

(** [encode(inp, result)] with the JSON protocol *)
Definition encode (h : list entity) (inp : RInput) (result : RResult) : Prelude.result text :=
  json_dict ← record_json h inp result;
  Ok (dumps float_repr json_dict).

(** A number of a row; an integer stands for the float of its value. *)
Definition as_float (v : json) : result float :=
  match v with JFloat f => Ok f | JInt z => Ok (of_Z z) | _ => Raise TypeError end.

(** [MeasureResult(...)] of the four items *)
Definition decode_result (v : json) : result RResult :=
  l ← as_list v;
  match l with
  | [costs; error_no; all_cost; timestamp] =>
      costs ← as_list costs;
      costs ← mmapr as_float costs;
      error_no ← as_int error_no;
      all_cost ← as_float all_cost;
      timestamp ← as_float timestamp;
      Ok {| rr_costs := costs; rr_error_no := error_no; rr_all_cost := all_cost;
            rr_timestamp := timestamp |}
  | _ => Raise TypeError
  end.

(** [Task(name, args)], which looks the template up *)
Definition Task_init (name args : pyval) : result Task :=
  match name with
  | PStr name =>
      if registered name then Ok {| tk_name := name; tk_args := args; tk_kwargs := [] |}
      else Raise RuntimeError
  | _ => Raise NotImplementedError
  end.

(** [decode(row)] with the JSON protocol: [None] for a row of version 0.1. The entities of the
    configuration are new objects. *)
Definition decode (h : list entity) (row : text)
    : result (option (list entity * RInput * RResult)) :=
  row ← loads row;
  v ← match row with JObj d => Ok (dget d "v") | _ => Raise TypeError end;
  if match v with Some (JFloat f) => feq f (of_dec 1 1) | _ => false end then Ok None
  else
    input ← jget row "input";
    input ← as_list input;
    match input with
    | [tgt; task_name; task_args; _] =>
        tgt ← as_str tgt;
        let tgt := if str_contains "-target" tgt then str_replace tgt "-target" "-mtriple" else tgt in
        tgt ← parse_target tgt;
        tsk ← Task_init (clean_json_to_python task_name) (clean_json_to_python task_args);
        config ← jget row "config";
        '(h, config) ← from_json_dict h config;
        r ← jget row "result";
        r ← decode_result r;
        Ok (Some (h, {| ri_target := tgt; ri_task := tsk; ri_config := config;
                      ri_cost := Some (mean (rr_costs r)) |}, r))
    | _ => Raise ValueError
    end.

(** ** Round trip *)

(** What a row keeps of an argument: sequences come back as tuples, booleans as integers. *)
Fixpoint row_value (v : pyval) : pyval :=
  match v with
  | PTuple l | PList l => PTuple (row_value <$> l)
  | PBool b => PInt (if b then 1 else 0)
  | _ => v
  end.

(** Arguments that come back as they were: no booleans, and no lists outside of dictionaries. *)
Fixpoint row_safe (v : pyval) : bool :=
  match v with
  | PTuple l => forallb row_safe l
  | PBool _ | PList _ => false
  | _ => true
  end.

Lemma clean_json_of_pyval v : clean_json_to_python (json_of_pyval v) = row_value v.
Proof.
  induction v as [| | | | |l IH|l IH|] using pyval_nested_ind; try done;
    cbn [json_of_pyval clean_json_to_python row_value]; f_equal;
    induction IH as [|x l Hx _ IHl]; try done; rewrite !fmap_cons, Hx; by f_equal.
Qed.

Lemma row_value_safe v : row_safe v = true → row_value v = v.
Proof.
  induction v as [| | | | |l IH| |] using pyval_nested_ind; intros Hs; try done.
  cbn [row_value row_safe] in *. f_equal.
  induction IH as [|x l Hx _ IHl]; [done|]. cbn [forallb] in Hs. apply andb_true_iff in Hs as [H1 H2].
  rewrite fmap_cons, Hx by done. f_equal. by apply IHl.
Qed.

Lemma mmapr_as_float fs : mmapr as_float (JFloat <$> fs) = Ok fs.
Proof. induction fs as [|f fs IH]; csimpl; [done|]. by rewrite IH. Qed.

(** The result that a row keeps: the costs of a failed measurement are replaced. *)
Definition row_result (r : RResult) : RResult :=
  {| rr_costs := if rr_error_no r =? 0 then rr_costs r else [of_Z (10 ^ 9)];
     rr_error_no := rr_error_no r; rr_all_cost := rr_all_cost r; rr_timestamp := rr_timestamp r |}.

Lemma decode_row_result (r : RResult) :
  decode_result (JList [JList (JFloat <$> rr_costs (row_result r)); JInt (rr_error_no r);
                        JFloat (rr_all_cost r); JFloat (rr_timestamp r)]) = Ok (row_result r).
Proof. unfold decode_result. cbn. rewrite mmapr_as_float. done. Qed.

(** C37: Decoding an encoded record gives back its target, its task with name and arguments, its
    configuration (index, hash and every entity) and its result, with 1e9 for the costs of a failed
    measurement. Of the arguments, lists come back as tuples and booleans as integers; keyword
    arguments are lost. This holds for a registered task, floats that print readably, and a target
    that its string denotes and whose string does not contain [-target]. *)
Theorem record_roundtrip h h' inp r j :
  dict_wf (entity_map (ce_base (ri_config inp))) →
  Forall (λ '(_, loc), (loc < length h)%nat) (entity_map (ce_base (ri_config inp))) →
  record_json h inp r = Ok j → plain float_repr j = true → registered (tk_name (ri_task inp)) = true →
  parse_target (tg_str (ri_target inp)) = Ok (ri_target inp) →
  str_contains "-target" (tg_str (ri_target inp)) = false →
  ∃ row h'' inp',
    encode h inp r = Ok row ∧ decode h' row = Ok (Some (h'', inp', row_result r)) ∧
    ri_target inp' = ri_target inp ∧ tk_name (ri_task inp') = tk_name (ri_task inp) ∧
    tk_args (ri_task inp') = row_value (tk_args (ri_task inp)) ∧
    (row_safe (tk_args (ri_task inp)) = true → tk_args (ri_task inp') = tk_args (ri_task inp)) ∧
    tk_kwargs (ri_task inp') = [] ∧
    ce_index (ri_config inp') = ce_index (ri_config inp) ∧
    code_hash (ce_base (ri_config inp')) = code_hash (ce_base (ri_config inp)) ∧
    (∀ name, entity_at h'' (ri_config inp') name = entity_at h (ri_config inp) name) ∧
    ri_cost inp' = Some (mean (rr_costs (row_result r))).
Proof.
  intros Hwf Hloc Hj Hp Hreg Hparse Htgt. unfold encode. rewrite Hj. cbn [mbind result_bind].
  destruct (config_json_read h h' (ri_config inp) Hwf Hloc) as (jc & h'' & c' & Hto & Hfrom & Hi & Hh & _ & He).
  unfold record_json in Hj. rewrite Hto in Hj. cbn [mbind result_bind] in Hj. injection Hj as <-.
  eexists _, h'', _. split; [done|]. unfold decode. rewrite loads_dumps by done.
  cbn [mbind result_bind]. set (costs := if rr_error_no r =? 0 then _ else _).
  match goal with |- context [JObj (("input", ?a) :: ?l)] => set (d := ("input", a) :: l) end.
  assert (dget d "v" = None) as -> by reflexivity. cbn [mbind result_bind].
  assert (jget (JObj d) "input" = Ok (JList [JStr (tg_str (ri_target inp)); JStr (tk_name (ri_task inp));
    json_of_pyval (tk_args (ri_task inp)); JObj (tk_kwargs (ri_task inp))])) as -> by reflexivity.
  cbn [mbind result_bind as_list as_str]. rewrite Htgt. cbv zeta. rewrite Hparse.
  cbn [mbind result_bind Task_init clean_json_to_python]. rewrite Hreg. cbn [mbind result_bind].
  assert (jget (JObj d) "config" = Ok jc) as -> by reflexivity.
  cbn [mbind result_bind]. rewrite Hfrom. cbn [mbind result_bind].
  assert (jget (JObj d) "result" = Ok (JList [JList (JFloat <$> costs); JInt (rr_error_no r);
    JFloat (rr_all_cost r); JFloat (rr_timestamp r)])) as -> by reflexivity.
  cbn [mbind result_bind]. change costs with (rr_costs (row_result r)).
  rewrite decode_row_result. cbn [mbind result_bind].
  split; [reflexivity|]. cbn [ri_target ri_task ri_config ri_cost tk_name tk_args tk_kwargs].
  rewrite clean_json_of_pyval. pose proof (row_value_safe (tk_args (ri_task inp))). auto 10.
Qed.
End record.

(** A convolution record, with a printer for the floats it has. *)
Definition sample_repr (f : float) : text :=
  if decide (f = of_dec 2 1) then chars "0.2" else if decide (f = of_dec 5 1) then chars "0.5"
  else chars "1.5".

Definition sample_input : RInput := {|
  ri_target := {| tg_str := "cuda -model=v100"; tg_model := "v100"; tg_keys := ["cuda"; "gpu"] |};
  ri_task := {| tk_name := "conv2d"; tk_kwargs := [];
    tk_args := PTuple [PTuple [PStr "TENSOR"; PTuple [PInt 1; PInt 3]; PStr "float32"]; PList [PInt 1; PInt 1]; PBool true] |};
  ri_config := ConfigEntity_init 5 (Some "h") [("tile", 0%nat)] []; ri_cost := None |}.

Definition sample_result : RResult := {|
  rr_costs := [of_dec 5 1; of_dec 15 1]; rr_error_no := 0; rr_all_cost := of_dec 15 1;
  rr_timestamp := of_dec 5 1 |}.

Lemma record_roundtrip_witness :
  ∃ row h'' inp', encode sample_repr "0.8" [ESplit {| size := [-1; 4] |}] sample_input sample_result = Ok row ∧
    decode (λ _, Ok (ri_target sample_input)) (λ _, fzero) (λ _, true) [] row
    = Ok (Some (h'', inp', sample_result)) ∧
    tk_args (ri_task inp')
    = PTuple [PTuple [PStr "TENSOR"; PTuple [PInt 1; PInt 3]; PStr "float32"]; PTuple [PInt 1; PInt 1]; PInt 1].
Proof.
  destruct (record_roundtrip sample_repr "0.8" (λ _, Ok (ri_target sample_input)) (λ _, fzero) (λ _, true)
    [ESplit {| size := [-1; 4] |}] [] sample_input sample_result
    (match record_json "0.8" [ESplit {| size := [-1; 4] |}] sample_input sample_result with
     | Ok j => j | Raise _ => JNull end))
    as (row & h'' & inp' & H1 & H2 & _ & _ & H3 & _).
  - apply NoDup_singleton.
  - repeat constructor.
  - vm_compute. reflexivity.
  - vm_compute. reflexivity.
  - reflexivity.
  - reflexivity.
  - reflexivity.
  - exists row, h'', inp'. split; [exact H1|]. split; [exact H2|exact H3].
Defined.
