(* ===== verification/RecordFiles.v ===== *)
(** * Log files of AutoTVM ([load_from_file], [split_workload] and [pick_best] of
    [python/tvm/autotvm/record.py])

    A file is the list of its lines. Every decoded record has its own configuration object, so
    that the position of a record in the log stands for its configuration in the history context
    that [pick_best] builds. *)

From S2P Require Import Prelude PyDict PyStr PyFloat PyJson JsonText ConfigSpace FirstMin Dispatcher DispatcherInv Record.

#[export] Instance pyval_eq_dec : EqDecision pyval.
Proof.
  unfold EqDecision, RelDecision. fix go 1. intros v w.
  destruct v as [|b1|z1|f1|s1|l1|l1|d1], w as [|b2|z2|f2|s2|l2|l2|d2];
    try (right; abstract congruence).
  - by left.
  - refine (cast_if (decide (b1 = b2))); abstract congruence.
  - refine (cast_if (decide (z1 = z2))); abstract congruence.
  - refine (cast_if (decide (f1 = f2))); abstract congruence.
  - refine (cast_if (decide (s1 = s2))); abstract congruence.
  - refine (cast_if (@list_eq_dec pyval go l1 l2)); abstract congruence.
  - refine (cast_if (@list_eq_dec pyval go l1 l2)); abstract congruence.
  - refine (cast_if (decide (d1 = d2))); abstract congruence.
Defined.

Section files.
Variable float_repr : float → text.
Variable tvm_version : string.
Variable parse_target : string → result Target.
Variable mean : list float → float.
Variable registered : string → bool.
(** [str] of the arguments, the keyword arguments and a configuration *)
Variable str_args : pyval → string.
Variable str_kwargs : list (string * json) → string.
Variable str_config : list entity → ConfigEntity → string.

#[local] Abbreviation log_record := (RInput * RResult)%type.
#[local] Abbreviation history_record := (@MeasureInput pyval * MeasureResult)%type.

Definition measure_str_key (h : list entity) (inp : RInput) (include_config : bool) : string :=
  join EmptyString
    [tg_str (ri_target inp); tk_name (ri_task inp); str_args (tk_args (ri_task inp));
     str_kwargs (tk_kwargs (ri_task inp));
     if include_config then str_config h (ri_config inp) else EmptyString].

(** A line that [load_from_file] decodes. *)
Definition is_row (row : text) : bool :=
  match row with [] => false | c :: _ => negb (bool_decide (c = "#"%char)) end.

Definition load_rows (h : list entity) (rows : list text)
    : result (list entity * list log_record) :=
  mfoldl (λ '(h, log) row,
    ret ← decode parse_target mean registered h row;
    match ret with
    | None => Ok (h, log)
    | Some (h, inp, res) => Ok (h, log ++ [(inp, res)])
    end) (h, []) rows.

Definition load_from_file (h : list entity) (lines : list text)
    : result (list entity * list log_record) :=
  load_rows h (List.filter is_row lines).

(** ** [split_workload] *)

Definition group_workloads (h : list entity) (log : list log_record) : dict string (list log_record) :=
  foldl (λ d r, let wkl := measure_str_key h r.1 false in
                dset d wkl (default [] (dget d wkl) ++ [r])) [] log.

(** The records of a workload without those whose key was seen before. *)
Fixpoint clean_records (h : list entity) (added : list string) (v : list log_record)
    : list log_record :=
  match v with
  | [] => []
  | r :: v =>
      let str_key := measure_str_key h r.1 true in
      if decide (str_key ∈ added) then clean_records h added v
      else r :: clean_records h (str_key :: added) v
  end.

Definition newline : text := ["010"%char].

(** [encode(inp, res) + "\n"] of all records *)
Definition write_records (h : list entity) (v : list log_record) : result (list text) :=
  mmapr (λ r, row ← encode float_repr tvm_version h r.1 r.2; Ok (row ++ newline)) v.

(** ["%03d" % i] *)
Definition pad3 (i : nat) : string :=
  let s := pretty (Z.of_nat i) in
  join EmptyString (replicate (3 - String.length s) "0" ++ [s]).

(** The files that are written. [args] is the global of the command line, which is not defined
    when the module is imported. *)
Definition split_workload (args_i : option string) (h : list entity) (lines : list text) (clean : bool)
    : result (list (string * list text)) :=
  '(h, log) ← load_rows h lines;
  mmapr (λ '(i, (k, v)),
    let v := if clean : bool then clean_records h [] v else v in
    in_file ← of_option NameError args_i;
    rows ← write_records h v;
    Ok (in_file +:+ "." +:+ pad3 i +:+ ".wkl", rows)) (imap pair (group_workloads h log)).

(** ** [pick_best] *)

(** A record as the history context sees it. *)
Definition history_record_of (i : nat) (r : log_record) : result history_record :=
  wl ← (if negb (rr_error_no r.2 =? 0) then Ok PNone else workload (ri_task r.1));
  Ok ({| mi_target := ri_target r.1; mi_workload := Some wl; mi_config := i |},
      {| mr_costs := rr_costs r.2; mr_error_no := rr_error_no r.2 |}).

Definition history_of (log : list log_record) : result (list history_record) :=
  mmapr (λ '(i, r), history_record_of i r) (imap pair log).

(** The key of the record a history entry came from. *)
Definition key_at (h : list entity) (log : list log_record) (r : history_record) : string :=
  match log !! mi_config r.1 with
  | Some (inp, _) => measure_str_key h inp true
  | None => EmptyString
  end.

Definition best_set (h : list entity) (log : list log_record) (hist : list history_record)
    : list string :=
  let '(by_key, by_model) := load_records mean ([], []) hist in
  remove_dups ((key_at h log <$> dvalues by_model) ++ (key_at h log <$> dvalues by_key)).

(** The records written: of every key of the set the first one. *)
Fixpoint pick_records (h : list entity) (best : list string) (log : list log_record)
    : list log_record :=
  match log with
  | [] => []
  | r :: log =>
      let key := measure_str_key h r.1 true in
      if decide (key ∈ best) then r :: pick_records h (filter (λ k, k ≠ key) best) log
      else pick_records h best log
  end.

(** The lines of the output file, from those of the input file and of an existing output file. *)
Definition pick_best (h : list entity) (in_lines : list text) (out_lines : option (list text))
    : result (list text) :=
  '(h, log1) ← load_from_file h in_lines;
  '(h, log2) ← (match out_lines with
                | Some lines => load_from_file h lines
                | None => Ok (h, [])
                end);
  let log := log1 ++ log2 in
  hist ← history_of log;
  write_records h (pick_records h (best_set h log hist) log).

(** ** What [pick_best] keeps *)

(** The history has a record for every record of the log, which points back to it. *)
Lemma history_points log hist : history_of log = Ok hist →
  Forall2 (λ r x, log !! mi_config x.1 = Some r) log hist.
Proof.
  unfold history_of. intros Hh. pose proof (mmapr_length _ _ _ Hh) as Hlen. rewrite length_imap in Hlen.
  apply Forall2_same_length_lookup. split; [done|]. intros i r x Hi Hx.
  destruct (mmapr_lookup _ _ _ _ _ Hh Hx) as ([j r'] & Hj & Hr).
  rewrite list_lookup_imap, Hi in Hj. cbn in Hj. injection Hj as <- <-.
  unfold history_record_of in Hr. apply result_bind_ok in Hr as (wl & _ & [= <-]). exact Hi.
Qed.

Lemma pick_records_by h best log : pick_records h best log = pick_by (λ r, measure_str_key h r.1 true) best log.
Proof.
  revert best. induction log as [|r log IH]; intros best; [done|]. cbn [pick_records pick_by]. case_decide; by rewrite IH.
Qed.

Lemma best_set_elem h log hist r k :
  dget (load_records mean ([], []) hist).1 k = Some r ∨
  dget (load_records mean ([], []) hist).2 k = Some r → key_at h log r ∈ best_set h log hist.
Proof.
  intros Hr. unfold best_set. destruct (load_records mean ([], []) hist) as [bk bm]. cbn in Hr.
  apply elem_of_remove_dups, elem_of_app. destruct Hr as [Hr|Hr]; [right|left];
    apply list_elem_of_fmap_2; apply dget_elem in Hr; by apply (list_elem_of_fmap_2 snd) in Hr.
Qed.

(** The records picked are those that the history entries picked in the same way came from. *)
Lemma picked_of_history h log hist (best : list string) : history_of log = Ok hist →
  pick_records h best log = omap (λ x, log !! mi_config x.1) (pick_by (key_at h log) best hist).
Proof.
  intros Hp%history_points. rewrite pick_records_by.
  assert (∀ l l', Forall2 (λ r x, log !! mi_config x.1 = Some r) l l' → ∀ best,
    pick_by (λ r, measure_str_key h r.1 true) best l
    = omap (λ x : history_record, log !! mi_config x.1) (pick_by (key_at h log) best l')) as Hgen; [|by apply Hgen].
  induction 1 as [|[inp res] x l l' Hx _ IH]; intros best'; [done|]. cbn [pick_by].
  assert (key_at h log x = measure_str_key h inp true) as -> by (unfold key_at; by rewrite Hx).
  cbn [fst]. case_decide; [|done]. csimpl. by rewrite Hx, IH.
Qed.

(** Records with the same key are the same measurement: they agree on target, task and result. *)
Definition keys_determine (h : list entity) (log : list log_record) : Prop :=
  ∀ r r', r ∈ log → r' ∈ log → measure_str_key h r.1 true = measure_str_key h r'.1 true →
    ri_target r.1 = ri_target r'.1 ∧ ri_task r.1 = ri_task r'.1 ∧ r.2 = r'.2.

Lemma history_agrees h log hist x y : history_of log = Ok hist → keys_determine h log → x ∈ hist → y ∈ hist →
  key_at h log x = key_at h log y →
  mi_target x.1 = mi_target y.1 ∧ mi_workload x.1 = mi_workload y.1 ∧ x.2 = y.2.
Proof.
  unfold history_of. intros Hh Hk [i Hx]%list_elem_of_lookup [j Hy]%list_elem_of_lookup.
  destruct (mmapr_lookup _ _ _ _ _ Hh Hx) as ([i' r] & Hi & Hr). destruct (mmapr_lookup _ _ _ _ _ Hh Hy) as ([j' r'] & Hj & Hr').
  rewrite list_lookup_imap in Hi, Hj. apply fmap_Some in Hi as (r0 & Hri & [= -> ->]). apply fmap_Some in Hj as (r1 & Hrj & [= -> ->]).
  pose proof (Forall2_lookup_lr _ _ _ _ _ _ (history_points _ _ Hh) Hri Hx) as Ex.
  pose proof (Forall2_lookup_lr _ _ _ _ _ _ (history_points _ _ Hh) Hrj Hy) as Ey. cbv beta in Ex, Ey.
  unfold key_at. rewrite Ex, Ey. intros Hkey.
  unfold history_record_of in Hr, Hr'. apply result_bind_ok in Hr as (wl & Hwl & [= <-]). apply result_bind_ok in Hr' as (wl' & Hwl' & [= <-]).
  assert (ri_target r0.1 = ri_target r1.1 ∧ ri_task r0.1 = ri_task r1.1 ∧ r0.2 = r1.2) as (E1 & E2 & E3).
  { apply Hk; [by eapply list_elem_of_lookup_2|by eapply list_elem_of_lookup_2|]. by destruct r0, r1. }
  rewrite E1, E3. rewrite E2, E3 in Hwl. rewrite Hwl in Hwl'. by injection Hwl' as <-.
Qed.

Lemma same_uses (x y : history_record) k wl :
  mi_target x.1 = mi_target y.1 ∧ mi_workload x.1 = mi_workload y.1 ∧ x.2 = y.2 →
  for_key k wl x = for_key k wl y ∧ for_model k wl x = for_model k wl y ∧ cost_of mean x = cost_of mean y.
Proof. intros (H1 & H2 & H3). unfold for_key, for_model, cost_of. by rewrite H1, H2, H3. Qed.

(** C8: When records of the log with the same key (target, task, arguments and configuration) are the
    same measurement, as they are when no configuration was measured twice and also when a file is
    picked into one that holds some of its records, [pick_best] writes a part of the log, in order,
    that is as good as the whole: a history context loaded from the records it writes has for every
    target key, every model and every workload the same entry as one loaded from the whole log. *)
Theorem pick_best_keeps_history h log hist :
  history_of log = Ok hist → keys_determine h log → numbers (cost_of mean) hist →
  ∃ sel, sel `sublist_of` hist ∧
    pick_records h (best_set h log hist) log = omap (λ x, log !! mi_config x.1) sel ∧
    (∀ h0 in_lines out_lines h1 log1 log2, load_from_file h0 in_lines = Ok (h1, log1) →
      match out_lines with Some lines => load_from_file h1 lines | None => Ok (h1, []) end = Ok (h, log2) →
      log = log1 ++ log2 →
      pick_best h0 in_lines out_lines = write_records h (omap (λ x, log !! mi_config x.1) sel)) ∧
    ∀ k wl,
      dget (load_records mean ([], []) sel).1 (k, wl) = dget (load_records mean ([], []) hist).1 (k, wl) ∧
      dget (load_records mean ([], []) sel).2 (k, wl) = dget (load_records mean ([], []) hist).2 (k, wl).
Proof.
  intros Hh Hk Hnan. exists (pick_by (key_at h log) (best_set h log hist) hist).
  pose proof (picked_of_history h log hist (best_set h log hist) Hh) as Hpick. split_and!; [apply pick_by_sublist|done| |].
  - intros h0 in_lines out_lines h1 log1 log2 H1 H2 ->. unfold pick_best. rewrite H1. cbn [mbind result_bind].
    rewrite H2. cbn [mbind result_bind]. rewrite Hh. cbn [mbind result_bind]. by rewrite Hpick.
  - intros k wl. destruct (load_records_best mean hist k wl) as [H1 H2].
    destruct (load_records_best mean (pick_by (key_at h log) (best_set h log hist) hist) k wl) as [H3 H4].
    rewrite H3, H4, H1, H2. split; (apply first_min_pick; [done| |]).
    1, 3: intros x y Hx Hy Hxy; by edestruct (same_uses x y k wl (history_agrees _ _ _ _ _ Hh Hk Hx Hy Hxy)) as (? & ? & ?).
    + intros r Hr. apply (best_set_elem h log hist r (k, wl)). left. by rewrite H1.
    + intros r Hr. apply (best_set_elem h log hist r (k, wl)). right. by rewrite H2.
Qed.
End files.

(** ** Examples *)

Definition sample_key_args (v : pyval) : string := "".
Definition sample_key_config (h : list entity) (c : ConfigEntity) : string := pretty (ce_index c).

(** A measurement of configuration [i] that took [t] seconds. *)
Definition measured (i t : Z) : RInput * RResult :=
  ({| ri_target := ri_target sample_input; ri_task := ri_task sample_input;
      ri_config := ConfigEntity_init i (Some "h") [] []; ri_cost := None |},
   {| rr_costs := [of_Z t]; rr_error_no := 0; rr_all_cost := of_Z t; rr_timestamp := of_Z t |}).

Definition first_cost (l : list float) : float := default fzero (head l).

Definition hist_of_log (log : list (RInput * RResult)) : list (@MeasureInput pyval * MeasureResult) :=
  match history_of log with Ok hist => hist | Raise _ => [] end.

(** The second measurement occurs twice. *)
Lemma pick_best_keeps_history_witness :
  let log := [measured 1 5; measured 2 3; measured 3 4; measured 2 3] in
  ∃ sel, sel `sublist_of` hist_of_log log ∧
    pick_records sample_key_args (λ _, "") sample_key_config []
      (best_set first_cost sample_key_args (λ _, "") sample_key_config [] log (hist_of_log log)) log
    = omap (λ x, log !! mi_config x.1) sel.
Proof.
  intros log. destruct (pick_best_keeps_history (λ _, []) "v" (λ _, Raise ValueError) first_cost (λ _, true) sample_key_args (λ _, "") sample_key_config [] log
    (hist_of_log log)) as (sel & H1 & H2 & _).
  - vm_compute. reflexivity.
  - intros r r' Hr Hr'. unfold log in Hr, Hr'. rewrite !elem_of_cons in Hr, Hr'.
    destruct Hr as [->|[->|[->|[->|[]%not_elem_of_nil]]]], Hr' as [->|[->|[->|[->|[]%not_elem_of_nil]]]]; try done; intros Hkey;
      by vm_compute in Hkey.
  - repeat constructor.
  - by exists sel.
Defined.

(** A configuration measured twice: the record written is the first one, not the best one. *)
Example pick_best_writes_first :
  let log := [measured 1 5; measured 1 3] in
  pick_records sample_key_args (λ _, "") sample_key_config []
    (best_set first_cost sample_key_args (λ _, "") sample_key_config [] log (hist_of_log log)) log
  = [measured 1 5].
Proof. vm_compute. reflexivity. Qed.
