(* ===== verification/WorkloadKey.v ===== *)
(** * Workload keys of the auto-scheduler

    [python/tvm/auto_scheduler/utils.py] and [workload_registry.py]: keys are JSON lists of a
    function name (or the hash of a compute DAG) and arguments. The functions and the tensors they
    return, and the node serializer of the runtime, are parameters. *)

From Stdlib Require Import SpecFloat QArith Lqa.
From S2P Require Import Prelude PyDict PyFloat PyJson JsonText Arith Record.
#[local] Open Scope Z_scope.

(** ** Python's equality and hashing of parsed values *)

(** Numbers of different types that are equal are the same key of a dictionary. *)
Definition canon (v : json) : json :=
  match v with
  | JBool b => JInt (if b then 1 else 0)
  | JFloat f => match py_int f with
                | Ok z => if feq (of_Z z) f then JInt z else v
                | Raise _ => v
                end
  | _ => v
  end.

(** [a == b] for values that are not containers *)
Definition py_eq (a b : json) : bool :=
  bool_decide (canon a = canon b) && bool_decide (a ≠ JFloat fnan).

(** The key of a dictionary entry. Two NaNs are different keys, which is not modelled. *)
Definition hash_key (v : json) : result json :=
  match v with
  | JList _ | JObj _ => Raise TypeError
  | JFloat S754_nan => Raise NotImplementedError
  | _ => Ok (canon v)
  end.

(** ** Decoding a key *)

Fixpoint flatten_elt (v : json) : list json :=
  match v with JList l => concat (flatten_elt <$> l) | _ => [v] end.

Definition flatten_list (inp : list json) : list json := concat (flatten_elt <$> inp).

Definition decode_workload_key (workload_key : string) : result (json * option (list json)) :=
  match loads (chars workload_key) with
  | Ok (JList (name :: args)) => Ok (name, Some (flatten_list args))
  | Ok _ | Raise ValueError => Ok (JStr workload_key, None)
  | Raise e => Raise e
  end.

(** ** The distance of two workloads *)

(** [isinstance(v, int)] *)
Definition int_of (v : json) : option Z :=
  match v with JInt z => Some z | JBool b => Some (if b then 1 else 0) | _ => None end.

Section distance.
Context {A : Type} `{Arith A}.

(** The loop over the pairs of arguments; [None] is [float("inf")]. The remainder by a float that
    is not a whole number is not modelled. *)
Fixpoint dis_loop (dis_f : A) (l : list (json * json)) : result (option A) :=
  match l with
  | [] => Ok (Some dis_f)
  | (target_arg, arg) :: l =>
      match int_of target_arg with
      | Some t =>
          if (t =? 0) || py_eq arg (JInt 0) then
            if negb (py_eq target_arg arg) then Ok None else dis_loop dis_f l
          else match canon arg with
               | JInt a => if negb (t mod a =? 0) then Ok None
                           else dis_loop (mul dis_f (div (of_int t) (of_int a))) l
               | JFloat _ => Raise NotImplementedError
               | _ => Raise TypeError
               end
      | None => if negb (py_eq target_arg arg) then Ok None else dis_loop dis_f l
      end
  end.

Definition calc_workload_dis_factor (target_workload_pair workload_pair : json * option (list json))
    : result (option A) :=
  let '(target_key, target_args) := target_workload_pair in
  let target_args := default [] target_args in
  let '(key, args) := workload_pair in
  let args := default [] args in
  if negb (py_eq key target_key) || negb (length target_args =? length args)%nat then Ok None
  else dis_loop (of_int 1) (zip target_args args).
End distance.

(** ** Arguments ([serialize_args], [deserialize_args]) *)

(** A tensor is known by its shape, here without symbolic dimensions, and its type. *)
Inductive arg := ATensor (shape : list Z) (dtype : string) | AVal (v : pyval).

Fixpoint list_to_tuple (x : pyval) : pyval :=
  match x with PList l => PTuple (list_to_tuple <$> l) | _ => x end.

(** One element; [isinstance(t, Hashable)] looks at the outermost type only. *)
Definition serialize_arg (t : arg) : result pyval :=
  match t with
  | ATensor shape dtype => Ok (PTuple [PStr "TENSOR"; PTuple (PInt <$> shape); PStr dtype])
  | AVal (PDict _) => Raise AssertionError
  | AVal v => Ok (list_to_tuple v)
  end.

Definition serialize_args (args : option (list arg)) : result (list pyval) :=
  match args with None => Ok [] | Some args => mmapr serialize_arg args end.

(** The values [json.loads] makes *)
Fixpoint pyval_of_json (v : json) : pyval :=
  match v with
  | JNull => PNone
  | JBool b => PBool b
  | JInt z => PInt z
  | JFloat f => PFloat f
  | JStr s => PStr s
  | JList l => PList (pyval_of_json <$> l)
  | JObj d => PDict d
  end.

(** One element; [placeholder] takes a list of integers and a type. *)
Definition deserialize_arg (t : json) : result arg :=
  match t with
  | JList [] => Raise IndexError
  | JList (JStr "TENSOR" :: rest) =>
      match rest with
      | JList shape :: JStr dtype :: _ =>
          shape ← mmapr as_int shape; Ok (ATensor shape dtype)
      | [] | [_] => Raise IndexError
      | _ => Raise NotImplementedError
      end
  | _ => Ok (AVal (pyval_of_json t))
  end.

Definition deserialize_args (args : list json) : result (list arg) := mmapr deserialize_arg args.

(** ** The registry ([WORKLOAD_FUNC_REGISTRY]) *)

Section registry.
(** Functions that declare a computation and the tensors they return *)
Variable F T : Type.
(** [get_func_name(f)] *)
Variable func_name_of : F → string.
(** [f( *args)] *)
Variable call : F → list arg → result (list T).
Variable float_repr : float → text.

Inductive reg_entry := Func (f : F) | Tensors (l : list T).
Definition registry := dict string reg_entry.

(** What is given as [func_name]: a function, a name or something else. *)
Inductive func_arg := ByFunc (f : F) | ByName (s : string) | ByOther.

(** The inner function [register] *)
Definition register (func_name : string) (override : bool) (myf : reg_entry) : M registry reg_entry :=
  reg ← get_st;
  if dmem reg func_name && negb override then raise RuntimeError
  else _ ← put_st (dset reg func_name myf); mret myf.

(** [register_workload] with [f], which registers it, or without, which returns the inner function *)
Inductive registered := Done (v : reg_entry) | Decorator (k : reg_entry → M registry reg_entry).

Definition register_workload (func_name : func_arg) (f : option F) (override : bool) : M registry registered :=
  '(name, f) ← lift (match func_name with
                     | ByFunc g => Ok (func_name_of g, Some g)
                     | ByName s => Ok (s, f)
                     | ByOther => Raise ValueError
                     end);
  match f with
  | Some g => v ← register name override (Func g); mret (Done v)
  | None => mret (Decorator (register name override))
  end.

Definition register_workload_tensors (workload_key : string) (tensors : list T) (override : bool)
    : M registry string :=
  r ← register_workload (ByName workload_key) None override;
  match r with
  | Decorator k => _ ← k (Tensors tensors); mret workload_key
  | Done _ => raise TypeError
  end.

Definition make_workload_key (reg : registry) (func : func_arg) (args : option (list arg)) : result string :=
  func_name ← (match func with
               | ByFunc f => Ok (func_name_of f)
               | ByName s => Ok s
               | ByOther => Raise ValueError
               end);
  if negb (dmem reg func_name) then Raise ValueError
  else
    args ← serialize_args args;
    Ok (of_chars (dumps float_repr (JList (JStr func_name :: (json_of_pyval <$> args))))).

(** A parsed key as a sequence, for [workload[0]] and [workload[1:]] *)
Definition items (workload : json) : result (list json) :=
  match workload with
  | JList l => Ok l
  | JStr s => Ok ((λ c, JStr (of_chars [c])) <$> chars s)
  | JObj _ => Raise KeyError
  | _ => Raise TypeError
  end.

(** [workload[0]] as a key of the registry; a name that is no string is in no registry. *)
Definition head_name (workload : list json) : result string :=
  name ← of_option IndexError (head workload);
  match name with
  | JStr s => Ok s
  | JList _ | JObj _ => Raise TypeError
  | _ => Raise KeyError
  end.

Definition workload_key_to_tensors (reg : registry) (workload_key : string) : result reg_entry :=
  match dget reg workload_key with
  | Some value => Ok value
  | None =>
      workload ← loads (chars workload_key) ≫= items;
      name ← head_name workload;
      value ← dindex reg name;
      match value with
      | Tensors _ => Raise AssertionError
      | Func f => args ← deserialize_args (tail workload); Tensors <$> call f args
      end
  end.

(** *** Sending an entry to another process *)

(** A function goes as it is, tensors as the text [SaveJSON] makes of them. *)
Inductive serialized := SFunc (f : F) | SJson (s : string).
(** [SaveJSON] of tensors, and [LoadJSON] *)
Variable SaveJSON : list T → string.
Variable LoadJSON : serialized → result reg_entry.

Definition serialize_workload_registry_entry (reg : registry) (workload_key : string)
    : result (string * serialized) :=
  sname ← (if dmem reg workload_key then Ok workload_key
           else workload ← loads (chars workload_key) ≫= items; head_name workload);
  svalue ← dindex reg sname;
  Ok (sname, match svalue with Func f => SFunc f | Tensors l => SJson (SaveJSON l) end).

Definition deserialize_workload_registry_entry (data : string * serialized) : M registry unit :=
  let '(name, value) := data in
  reg ← get_st;
  if dmem reg name then mret tt
  else v ← lift (LoadJSON value); put_st (dset reg name v).
End registry.

(** ** Round trips *)

(** What is read back of an argument: tuples come back as lists. *)
Fixpoint to_lists (v : pyval) : pyval :=
  match v with PTuple l | PList l => PList (to_lists <$> l) | _ => v end.

Definition read_back (t : arg) : arg := match t with AVal v => AVal (to_lists v) | _ => t end.

Definition arg_json (t : arg) : json :=
  match t with
  | ATensor shape dtype => JList [JStr "TENSOR"; JList (JInt <$> shape); JStr dtype]
  | AVal v => json_of_pyval v
  end.

(** Arguments that [deserialize_args] does not mistake for a tensor. *)
Definition distinct_arg (t : arg) : bool :=
  match t with
  | AVal (PTuple l) | AVal (PList l) =>
      match l with [] => false | v :: _ => bool_decide (json_of_pyval v ≠ JStr "TENSOR") end
  | AVal (PDict _) => false
  | _ => true
  end.

Lemma json_list_to_tuple v : json_of_pyval (list_to_tuple v) = json_of_pyval v.
Proof.
  induction v as [| | | | |l IH|l IH|d] using pyval_nested_ind; try done. cbn. f_equal.
  rewrite <-list_fmap_compose. by apply Forall_fmap_ext_1.
Qed.

Lemma pyval_of_json_of v : pyval_of_json (json_of_pyval v) = to_lists v.
Proof.
  induction v as [| | | | |l IH|l IH|d] using pyval_nested_ind; try done; cbn; f_equal;
    rewrite <-list_fmap_compose; by apply Forall_fmap_ext_1.
Qed.

Lemma serialize_arg_json t v : serialize_arg t = Ok v → json_of_pyval v = arg_json t.
Proof.
  destruct t as [shape dtype|w]; cbn.
  - intros [= <-]. cbn. by rewrite <-list_fmap_compose.
  - destruct w; intros [= <-]; try done; apply (json_list_to_tuple (PList _)).
Qed.

Lemma serialize_args_json ts vs : mmapr serialize_arg ts = Ok vs → json_of_pyval <$> vs = arg_json <$> ts.
Proof.
  revert vs. induction ts as [|t ts IH]; cbn [mmapr]; intros vs H; [by injection H as <-|].
  apply result_bind_ok in H as (v & Hv & H). apply result_bind_ok in H as (vs' & Hvs & [= <-]).
  cbn. f_equal; [by apply serialize_arg_json|by apply IH].
Qed.

Lemma as_ints shape : mmapr as_int (JInt <$> shape) = Ok shape.
Proof. induction shape as [|z l IH]; [done|]. cbn in *. by rewrite IH. Qed.

Lemma deserialize_arg_json t : distinct_arg t = true → deserialize_arg (arg_json t) = Ok (read_back t).
Proof.
  destruct t as [shape dtype|v]; intros Hd; [cbn; by rewrite as_ints|].
  cbn [arg_json read_back]. rewrite <-pyval_of_json_of.
  assert (∀ w ws, json_of_pyval w ≠ JStr "TENSOR" →
    deserialize_arg (JList (json_of_pyval w :: (json_of_pyval <$> ws)))
    = Ok (AVal (pyval_of_json (JList (json_of_pyval w :: (json_of_pyval <$> ws)))))) as Hl.
  { intros w ws Hw. unfold deserialize_arg. repeat case_match; by simplify_eq. }
  destruct v as [| | | | |[|w ws]|[|w ws]|]; try done; apply Hl; by apply bool_decide_eq_true in Hd.
Qed.

Lemma deserialize_args_json ts : forallb distinct_arg ts = true →
  deserialize_args (arg_json <$> ts) = Ok (read_back <$> ts).
Proof.
  unfold deserialize_args. induction ts as [|t ts IH]; [done|]. cbn [forallb].
  intros [Ht Hts]%andb_prop. cbn. by rewrite deserialize_arg_json, IH.
Qed.

(** C38: A workload key made for a registered function and its arguments decodes to the function's
    name and the flat list of the arguments, and the tensors of the key are those the function
    returns for the arguments, tensors with their shape and type and tuples as lists; provided no
    argument is an empty sequence or a sequence that starts with the mark of a tensor, and the
    key itself is not registered. *)
Theorem workload_key_roundtrip {F T} (func_name_of : F → string) (call : F → list arg → result (list T))
    (float_repr : float → text) (reg : registry F T) name f args key :
  dget reg name = Some (Func F T f) →
  make_workload_key F T func_name_of float_repr reg (ByName F name) (Some args) = Ok key →
  forallb (plain float_repr) (arg_json <$> args) = true →
  forallb distinct_arg args = true →
  dget reg key = None →
  decode_workload_key key = Ok (JStr name, Some (flatten_list (arg_json <$> args))) ∧
  workload_key_to_tensors F T call reg key = Tensors F T <$> call f (read_back <$> args).
Proof.
  intros Hf Hk Hp Hd Hreg. unfold make_workload_key, dmem in Hk.
  cbn [mbind result_bind] in Hk. rewrite Hf in Hk. cbn [negb] in Hk.
  apply result_bind_ok in Hk as (vs & Hvs & Hk). apply serialize_args_json in Hvs. rewrite Hvs in Hk.
  assert (loads (chars key) = Ok (JList (JStr name :: (arg_json <$> args)))) as Hl.
  { assert (key = of_chars (dumps float_repr (JList (JStr name :: (arg_json <$> args))))) as -> by congruence.
    unfold chars, of_chars. rewrite String.list_ascii_of_string_of_list_ascii. by apply loads_dumps. }
  split; [unfold decode_workload_key; by rewrite Hl|].
  unfold workload_key_to_tensors. rewrite Hreg, Hl. cbn [mbind result_bind items head_name of_option head tail].
  unfold dindex. rewrite Hf. cbn [of_option mbind result_bind]. by rewrite deserialize_args_json.
Qed.

Lemma workload_key_roundtrip_witness :
  ∃ key, decode_workload_key key
           = Ok (JStr "matmul", Some (JInt 64 :: JInt 2 :: JInt 3 :: JStr "TENSOR" :: JInt 8 :: JStr "int8" :: [])) ∧
         workload_key_to_tensors unit (list arg) (λ _ l, Ok [l]) [("matmul", Func unit (list arg) tt)] key
           = Ok (Tensors unit (list arg) [[AVal (PInt 64); AVal (PList [PInt 2; PInt 3]); ATensor [8] "int8"]]).
Proof.
  eexists.
  apply (workload_key_roundtrip (λ _, "matmul") (λ _ l, Ok [l]) (λ _, []) [("matmul", Func unit (list arg) tt)]
    "matmul" tt [AVal (PInt 64); AVal (PTuple [PInt 2; PInt 3]); ATensor [8] "int8"]); vm_compute; reflexivity.
Defined.

(** ** The distance factor in exact arithmetic *)

(** Arguments the factor is meant for: a positive integer against a positive integer, or a string
    against a string. *)
Definition comparable (t a : json) : bool :=
  match t, a with
  | JInt t, JInt a => (0 <? t) && (0 <? a)
  | JStr _, JStr _ => true
  | _, _ => false
  end.

(** The factor of one pair, if the schedule of the second can be used for the first. *)
Definition pair_factor (t a : json) : option Q :=
  match t, a with
  | JInt t, JInt a => if t mod a =? 0 then Some (inject_Z (t / a)) else None
  | _, _ => if bool_decide (t = a) then Some 1%Q else None
  end.

Definition product (l : list Q) : Q := fold_right Qmult 1%Q l.

Lemma div_exact (t a : Z) : 0 < a → t mod a = 0 → (inject_Z t / inject_Z a == inject_Z (t / a))%Q.
Proof.
  intros Ha Hm. assert (t = a * (t / a)) as Ht by (apply Z_div_exact_full_2; lia).
  rewrite Ht at 1. rewrite inject_Z_mult. field. change 0%Q with (inject_Z 0). rewrite inject_Z_injective. lia.
Qed.

Lemma dis_loop_factor l d : Forall (λ p, comparable p.1 p.2 = true) l →
  match dis_loop d l with
  | Ok (Some d') => ∃ fs, mapM (λ p, pair_factor p.1 p.2) l = Some fs ∧ (d' == d * product fs)%Q
  | Ok None => mapM (λ p, pair_factor p.1 p.2) l = None
  | Raise _ => False
  end.
Proof.
  intros Hl. revert d. induction Hl as [|[t a] l Hc _ IH]; intros d; cbn [dis_loop].
  { exists []. split; [done|]. cbn. ring. }
  destruct t as [| |t| |t| |], a as [| |a| |a| |]; try done; cbn [fst snd comparable] in Hc.
  - apply andb_prop in Hc as [Ht%Z.ltb_lt Ha%Z.ltb_lt]. cbn [int_of canon].
    assert ((t =? 0) || py_eq (JInt a) (JInt 0) = false) as ->.
    { apply orb_false_intro; [lia|]. unfold py_eq. apply andb_false_intro1, bool_decide_eq_false_2. intros [= Ha0]. lia. }
    cbn [mapM fst snd]. change (pair_factor (JInt t) (JInt a)) with (if t mod a =? 0 then Some (inject_Z (t / a)) else None).
    destruct (Z.eqb_spec (t mod a) 0) as [Hm|Hm]; cbn [negb]; [|done].
    specialize (IH (mul d (div (of_int t) (of_int a)))).
    destruct (dis_loop _ l) as [[d'|]|e]; [|by cbn; rewrite IH|done].
    destruct IH as (fs & -> & Hd). exists (inject_Z (t / a) :: fs). split; [done|].
    rewrite Hd. cbn [product fold_right]. fold (product fs).
    change (mul d (div (of_int t) (of_int a))) with (d * (inject_Z t / inject_Z a))%Q.
    rewrite div_exact by done. ring.
  - cbn [int_of]. unfold py_eq. cbn [canon mapM fst snd].
    change (pair_factor (JStr t) (JStr a)) with (if bool_decide (JStr t = JStr a) then Some 1%Q else None).
    rewrite (bool_decide_eq_true_2 (JStr t ≠ JFloat fnan)) by done. rewrite andb_true_r.
    case_bool_decide as Hta; cbn [negb]; [|done]. specialize (IH d).
    destruct (dis_loop _ l) as [[d'|]|e]; [|by cbn; rewrite IH|done].
    destruct IH as (fs & -> & Hd). exists (1%Q :: fs). split; [done|].
    rewrite Hd. cbn [product fold_right]. fold (product fs). ring.
Qed.

Lemma pair_factor_ge t a q : comparable t a = true → pair_factor t a = Some q →
  (1 <= q)%Q ∧ ((q == 1)%Q ↔ t = a).
Proof.
  destruct t as [| |t| |t| |], a as [| |a| |a| |]; try done; cbn.
  - intros [Ht%Z.ltb_lt Ha%Z.ltb_lt]%andb_prop. destruct (Z.eqb_spec (t mod a) 0) as [Hm|]; [|done].
    intros [= <-]. assert (t = a * (t / a)) as Heq by (apply Z_div_exact_full_2; lia).
    change 1%Q with (inject_Z 1). rewrite <-Zle_Qle, inject_Z_injective. split; [nia|].
    split; [intros H1; rewrite H1 in Heq; f_equal; lia|intros [= ->]; by apply Z_div_same_full; lia].
  - intros _. case_bool_decide as Hta; intros [= <-]. split; [apply Qle_refl|]. done.
Qed.

Lemma product_ge l fs : Forall (λ p, comparable p.1 p.2 = true) l →
  mapM (λ p, pair_factor p.1 p.2) l = Some fs →
  (1 <= product fs)%Q ∧ ((product fs == 1)%Q ↔ Forall (λ p : json * json, p.1 = p.2) l).
Proof.
  intros Hl. revert fs. induction Hl as [|[t a] l Hc _ IH]; intros fs; cbn [mapM].
  { intros [= <-]. split; [apply Qle_refl|]. by split. }
  intros (q & Hq & (fs' & Hfs & [= <-])%bind_Some)%bind_Some.
  apply (pair_factor_ge t a q Hc) in Hq as [Hq1 Hq2]. destruct (IH fs' Hfs) as [Hp1 Hp2].
  cbn [product fold_right]. fold (product fs'). split; [nra|]. rewrite Forall_cons, <-Hp2. cbn [fst snd].
  rewrite <-Hq2. split; [intros He; split; nra|]. intros [-> ->]. ring.
Qed.

(** C39: In exact arithmetic, for two workloads of one function whose arguments are positive integers
    or strings, the distance factor is computed without an error. It is infinite exactly if the
    argument lists differ in length or in a string, or an argument is not a multiple of the
    candidate's; otherwise it is the product of the quotients, at least 1, and equal to 1 exactly
    for the workload itself. *)
Theorem dis_factor_optimal name (ts args : list json) :
  py_eq name name = true →
  (length ts = length args → Forall (λ p, comparable p.1 p.2 = true) (zip ts args)) →
  match calc_workload_dis_factor (A:=Q) (name, Some ts) (name, Some args) with
  | Ok None => length ts ≠ length args ∨ mapM (λ p, pair_factor p.1 p.2) (zip ts args) = None
  | Ok (Some d) => length ts = length args ∧
      (∃ fs, mapM (λ p, pair_factor p.1 p.2) (zip ts args) = Some fs ∧ (d == product fs)%Q) ∧
      (1 <= d)%Q ∧ ((d == 1)%Q ↔ args = ts)
  | Raise _ => False
  end.
Proof.
  intros Hn Hc. unfold calc_workload_dis_factor. rewrite Hn. cbn [negb orb].
  change (default [] (Some ts)) with ts. change (default [] (Some args)) with args.
  destruct (Nat.eqb_spec (length ts) (length args)) as [Hlen|]; cbn [negb]; [|by left].
  specialize (Hc Hlen). pose proof (dis_loop_factor _ (of_int 1) Hc) as Hl.
  destruct (dis_loop _ _) as [[d|]|]; [|by right|done].
  destruct Hl as (fs & Hfs & Hd). change (of_int 1) with 1%Q in Hd. rewrite Qmult_1_l in Hd.
  destruct (product_ge _ fs Hc Hfs) as [Hge Hone]. split; [done|]. split; [eauto|].
  rewrite Hd. split; [done|]. rewrite Hone. clear -Hlen. split.
  - revert args Hlen. induction ts as [|t ts IH]; intros [|a args] Hlen; try done. cbn.
    intros [Ht Hr]%Forall_cons. cbn in Ht. rewrite Ht. f_equal; apply IH; [by injection Hlen|done].
  - intros ->. clear. induction ts as [|t ts IH]; [by constructor|]. by constructor.
Qed.

Lemma dis_factor_optimal_witness :
  match calc_workload_dis_factor (A:=Q) (JStr "f", Some [JInt 8; JStr "NCHW"]) (JStr "f", Some [JInt 4; JStr "NCHW"]) with
  | Ok (Some d) => (1 <= d)%Q ∧ d ≠ 1%Q
  | _ => False
  end.
Proof.
  pose proof (dis_factor_optimal (JStr "f") [JInt 8; JStr "NCHW"] [JInt 4; JStr "NCHW"] eq_refl) as H.
  assert (length [JInt 8; JStr "NCHW"] = length [JInt 4; JStr "NCHW"] →
    Forall (λ p, comparable p.1 p.2 = true) (zip [JInt 8; JStr "NCHW"] [JInt 4; JStr "NCHW"])) as Hc
    by (intros _; repeat constructor).
  specialize (H Hc). clear Hc.
  change (calc_workload_dis_factor (A:=Q) (JStr "f", Some [JInt 8; JStr "NCHW"]) (JStr "f", Some [JInt 4; JStr "NCHW"]))
    with (Ok (Some (1 * (8 / 4))%Q)) in *.
  destruct H as (_ & _ & H1 & _). by split.
Defined.

(** With a negative argument, such as the axis of a reduction, the factor of another workload is
    below 1, the factor of the workload itself. *)
Example dis_factor_negative :
  calc_workload_dis_factor (A:=float) (JStr "f", Some [JInt (-1)]) (JStr "f", Some [JInt 1]) = Ok (Some (of_Z (-1))) ∧
  calc_workload_dis_factor (A:=float) (JStr "f", Some [JInt (-1)]) (JStr "f", Some [JInt (-1)]) = Ok (Some (of_Z 1)).
Proof. by split; vm_compute. Qed.

(** An empty sequence cannot be read back. *)
Example empty_argument_error : serialize_args (Some [AVal (PList [])]) = Ok [PTuple []] ∧
  deserialize_args [json_of_pyval (PTuple [])] = Raise IndexError.
Proof. done. Qed.
