(* ===== verification/AnsorDispatcher.v ===== *)
(** * Dispatch contexts of the auto-scheduler ([python/tvm/auto_scheduler/dispatcher.py])

    The history context and its maps from target keys over workload hashes to the arguments of a
    workload. States are values of any type; [np.mean] is a parameter. *)

From S2P Require Import Prelude PyDict PyFloat PyJson Arith FirstMin WorkloadKey.

Section ansor.
Context {State : Type}.
(** [np.mean] *)
Variable mean : list float → float.

(** ** Records *)

Record STarget := { st_str : string; st_keys : list string; st_model : string }.
Record SInput := { si_workload_key : string; si_target : STarget; si_state : State }.
(** A cost is a float constant or another expression. *)
Inductive cost_expr := FloatImm (value : float) | OtherExpr.
Record SResult := { sr_costs : list cost_expr; sr_error_no : Z }.

(** [LearningTask], [input_to_learning_task] *)
Definition LearningTask : Type := string * string.
Definition input_to_learning_task (inp : SInput) : LearningTask :=
  (si_workload_key inp, st_str (si_target inp)).

(** ** The maps of best records *)

Definition args_key : Type := option (list json).
Definition entry := dict args_key (State * float).
Definition best_records := dict string (dict json entry).

(** [best_records[target_key][workload_hash]], which [get_workload_entry] has made *)
Definition entry_at (best : best_records) (k : string) (h : json) : entry :=
  default [] (m ← dget best k; dget m h).
Definition set_entry (best : best_records) (k : string) (h : json) (e : entry) : best_records :=
  dset best k (dset (default [] (dget best k)) h e).

(** The tuple of arguments as a key of an entry *)
Definition hash_args (args : option (list json)) : result args_key :=
  match args with None => Ok None | Some l => Some <$> mmapr hash_key l end.

(** [get_workload_entry]: makes the entry if need be. Its key in the map, the hash and the
    arguments are returned; the entry itself is read and written through the key. *)
Definition get_workload_entry (target_key workload_key : string)
    : M best_records (json * json * option (list json)) :=
  '(workload_hash, workload_args) ← lift (decode_workload_key workload_key);
  _ ← modify (λ best, if dmem best target_key then best else dset best target_key []);
  h ← lift (hash_key workload_hash);
  _ ← modify (λ best, if dmem (default [] (dget best target_key)) h then best
                      else set_entry best target_key h []);
  mret (h, workload_hash, workload_args).

(** ** [ApplyHistoryBest] *)

Record ApplyHistoryBest := {
  best_by_targetkey : best_records;
  best_by_model : best_records;
  best_user_defined : best_records;
  include_compatible : bool
}.

(** Running an operation on one of the maps *)
Definition on_targetkey {A} (m : M best_records A) : M ApplyHistoryBest A := λ s,
  let '(r, b) := m (best_by_targetkey s) in
  (r, {| best_by_targetkey := b; best_by_model := best_by_model s;
         best_user_defined := best_user_defined s; include_compatible := include_compatible s |}).
Definition on_model {A} (m : M best_records A) : M ApplyHistoryBest A := λ s,
  let '(r, b) := m (best_by_model s) in
  (r, {| best_by_targetkey := best_by_targetkey s; best_by_model := b;
         best_user_defined := best_user_defined s; include_compatible := include_compatible s |}).
Definition on_user {A} (m : M best_records A) : M ApplyHistoryBest A := λ s,
  let '(r, b) := m (best_user_defined s) in
  (r, {| best_by_targetkey := best_by_targetkey s; best_by_model := best_by_model s;
         best_user_defined := b; include_compatible := include_compatible s |}).

(** *** [load] *)

Definition record_cost (res : SResult) : float :=
  mean (omap (λ x, match x with FloatImm v => Some v | OtherExpr => None end) (sr_costs res)).

(** The entry of one map for a new record; [fresh] tells if a new workload is recorded. *)
Definition load_entry (fresh : bool) (k workload_key : string) (state : State) (cost : float)
    : M best_records unit :=
  '(h, _, workload_args) ← get_workload_entry k workload_key;
  a ← lift (hash_args workload_args);
  best ← get_st;
  let e := entry_at best k h in
  let set := put_st (set_entry best k h (dset e a (state, cost))) in
  match dget e a with
  | None => if fresh then set else mret tt
  | Some (_, other_cost) => if flt cost other_cost then set else mret tt
  end.

(** The body of the loop for a record that counts *)
Definition load_one (r : SInput * SResult) : M ApplyHistoryBest unit :=
  let '(inp, res) := r in
  if negb (sr_error_no res =? 0) then mret tt
  else
    let cost := record_cost res in
    let model := st_model (si_target inp) in
    _ ← mfor (λ k, on_targetkey (load_entry true k (si_workload_key inp) (si_state inp) cost))
             (st_keys (si_target inp));
    on_model (load_entry (negb (String.eqb model "unknown")) model (si_workload_key inp) (si_state inp) cost).

(** [counter >= n] for a limit that may be absent *)
Definition reached (counter : Z) (limit : option Z) : bool :=
  match limit with None => false | Some n => n <=? counter end.

Fixpoint load_loop (n_lines n_lines_per_task : option Z) (counter : Z) (counter_per_task : dict LearningTask Z)
    (records : list (SInput * SResult)) : M ApplyHistoryBest unit :=
  match records with
  | [] => mret tt
  | r :: records =>
      let task := input_to_learning_task r.1 in
      if reached counter n_lines then mret tt
      else
        let cpt := if dmem counter_per_task task then counter_per_task else dset counter_per_task task 0 in
        let c := default 0 (dget cpt task) in
        if reached c n_lines_per_task then load_loop n_lines n_lines_per_task counter cpt records
        else
          _ ← load_one r;
          load_loop n_lines n_lines_per_task (counter + 1) (dset cpt task (c + 1)) records
  end.

Definition load (records : list (SInput * SResult)) (n_lines n_lines_per_task : option Z) : M ApplyHistoryBest unit :=
  load_loop n_lines n_lines_per_task 0 [] records.

Definition ApplyHistoryBest_init (records : list (SInput * SResult)) (n_lines n_line_per_task : option Z)
    (include_compatible : bool) : result unit * ApplyHistoryBest :=
  load records n_lines n_line_per_task
    {| best_by_targetkey := []; best_by_model := []; best_user_defined := [];
       include_compatible := include_compatible |}.

(** *** [_query_inside] *)

(** The best of the compatible records: the loop over [entry.items()] with [ret] and [best_cost] *)
Fixpoint best_compatible (workload_hash : json) (workload_args : option (list json)) (items : entry)
    (ret : option State) (best_cost : float) : result (option State) :=
  match items with
  | [] => Ok ret
  | (args, (state, cost)) :: items =>
      d ← calc_workload_dis_factor (workload_hash, workload_args) (workload_hash, args);
      let dis_f := default finf d in
      if feq dis_f finf then best_compatible workload_hash workload_args items ret best_cost
      else
        let cost := fmul cost dis_f in
        if bool_decide (ret = None :> option State) || flt cost best_cost
        then best_compatible workload_hash workload_args items (Some state) cost
        else best_compatible workload_hash workload_args items ret best_cost
  end.

Definition match_record (compatible : bool) (target_key workload_key : string) : M best_records (option State) :=
  '(h, workload_hash, workload_args) ← get_workload_entry target_key workload_key;
  a ← lift (hash_args workload_args);
  best ← get_st;
  let e := entry_at best target_key h in
  match dget e a with
  | Some (state, _) => mret (Some state)
  | None => if compatible then lift (best_compatible workload_hash workload_args e None finf) else mret None
  end.

(** [ret is not None: return ret], or else the rest *)
Definition or_else {S} (m k : M S (option State)) : M S (option State) :=
  ret ← m;
  match ret with Some s => mret (Some s) | None => k end.

Fixpoint query_keys (compatible : bool) (keys : list string) (workload_key : string)
    : M ApplyHistoryBest (option State) :=
  match keys with
  | [] => mret None
  | k :: keys =>
      or_else (on_user (match_record compatible k workload_key))
        (or_else (on_targetkey (match_record compatible k workload_key))
          (query_keys compatible keys workload_key))
  end.

Definition history_query_inside (target : option STarget) (workload_key : string) : M ApplyHistoryBest (option State) :=
  match target with
  | None => raise RuntimeError
  | Some target =>
      s ← get_st;
      let compatible := include_compatible s in
      or_else (on_user (match_record compatible (st_model target) workload_key))
        (or_else (on_model (match_record compatible (st_model target) workload_key))
          (query_keys compatible (st_keys target) workload_key))
  end.

(** *** [update] *)

Definition update_entry (k workload_key : string) (state : State) : M best_records unit :=
  '(h, _, workload_args) ← get_workload_entry k workload_key;
  a ← lift (hash_args workload_args);
  modify (λ best, set_entry best k h (dset (entry_at best k h) a (state, of_Z 1))).

Definition history_update (target : STarget) (workload_key : string) (state : State) : M ApplyHistoryBest unit :=
  _ ← on_user (update_entry (st_model target) workload_key state);
  mfor (λ k, on_user (update_entry k workload_key state)) (st_keys target).
End ansor.

(** ** Contexts *)

Section contexts.
Context {State : Type}.

Record FallbackContext := {
  fb_memory : dict (string * string) (option State);
  fb_verbose : Z;
  fb_messages : list string       (* the set of messages given so far *)
}.

Inductive ctx_kind :=
| History (h : @ApplyHistoryBest State)
| Fallback (f : FallbackContext).

Record context := { c_old : option nat; c_kind : ctx_kind }.
(** The contexts made so far, and [DispatchContext.current] *)
Record world := { w_ctxs : list context; w_current : option nat; w_warnings : list string }.

Definition with_ctx (id : nat) (f : context → context) (w : world) : world :=
  {| w_ctxs := alter f id (w_ctxs w); w_current := w_current w; w_warnings := w_warnings w |}.

Definition get_ctx (id : nat) : M world context :=
  w ← get_st; lift (of_option AttributeError (w_ctxs w !! id)).

(** [DispatchContext.__init__] *)
Definition new_ctx (k : ctx_kind) : M world nat :=
  w ← get_st;
  _ ← put_st {| w_ctxs := w_ctxs w ++ [{| c_old := w_current w; c_kind := k |}];
                w_current := w_current w; w_warnings := w_warnings w |};
  mret (length (w_ctxs w)).

Definition ctx_enter (id : nat) : M world unit :=
  w ← get_st;
  _ ← modify (with_ctx id (λ c, {| c_old := w_current w; c_kind := c_kind c |}));
  modify (λ w, {| w_ctxs := w_ctxs w; w_current := Some id; w_warnings := w_warnings w |}).

Definition ctx_exit (id : nat) : M world unit :=
  c ← get_ctx id;
  modify (λ w, {| w_ctxs := w_ctxs w; w_current := c_old c; w_warnings := w_warnings w |}).

(** [DispatchContext.current = FallbackContext()] at import *)
Definition FallbackContext_init : FallbackContext := {| fb_memory := []; fb_verbose := 1; fb_messages := [] |}.
Definition world_init : world :=
  {| w_ctxs := [{| c_old := None; c_kind := Fallback FallbackContext_init |}]; w_current := Some 0%nat;
     w_warnings := [] |}.

Definition set_kind (id : nat) (k : ctx_kind) : M world unit :=
  modify (with_ctx id (λ c, {| c_old := c_old c; c_kind := k |})).

(** The request of a query; the DAG is given as it prints. *)
Record request := {
  q_target : STarget; q_workload_key : string; q_has_complex_op : bool; q_dag : string; q_func_name : string
}.

Definition newline : string := String (Ascii.ascii_of_nat 10) EmptyString.

Definition fallback_message (q : request) : string :=
  "-----------------------------------" +:+ newline +:+ q_func_name q +:+ newline +:+
  "Cannot find tuned schedules for target=" +:+ st_str (q_target q) +:+
  ", workload_key=" +:+ q_workload_key q +:+ ". A fallback TOPI schedule is used, " +:+
  "which may bring great performance regression or even compilation failure. " +:+
  "Compute DAG info:" +:+ newline +:+ q_dag q.

(** [FallbackContext.query] *)
Definition fallback_query (id : nat) (f : FallbackContext) (q : request) : M world (option State) :=
  let key := (st_str (q_target q), q_workload_key q) in
  match dget (fb_memory f) key with
  | Some state => mret state
  | None =>
      let msg := fallback_message q in
      let warn := ((fb_verbose f =? 2) || (q_has_complex_op q && (fb_verbose f =? 1)))
                  && bool_decide (msg ∉ fb_messages f) in
      _ ← (if warn then modify (λ w, {| w_ctxs := w_ctxs w; w_current := w_current w;
                                        w_warnings := w_warnings w ++ [msg] |}) else mret tt);
      _ ← set_kind id (Fallback {| fb_memory := dset (fb_memory f) key None; fb_verbose := fb_verbose f;
                                   fb_messages := if warn then fb_messages f ++ [msg] else fb_messages f |});
      mret None
  end.

(** [query] of the context [id]: in the context itself, or else in the one it was entered from.
    The fuel bounds the contexts asked. *)
Fixpoint query (fuel : nat) (id : nat) (q : request) : M world (option State) :=
  match fuel with
  | O => raise OutOfFuel
  | S fuel =>
      c ← get_ctx id;
      match c_kind c with
      | Fallback f => fallback_query id f q
      | History h =>
          let '(r, h') := history_query_inside (Some (q_target q)) (q_workload_key q) h in
          _ ← set_kind id (History h');
          ret ← lift r;
          match ret with
          | Some s => mret (Some s)
          | None => old ← lift (of_option AttributeError (c_old c)); query fuel old q
          end
      end
  end.

(** [update] of the context [id] *)
Definition ctx_update (id : nat) (target : STarget) (workload_key : string) (state : State) : M world unit :=
  c ← get_ctx id;
  match c_kind c with
  | History h =>
      let '(r, h') := history_update target workload_key state h in
      _ ← set_kind id (History h');
      lift r
  | Fallback f =>
      set_kind id (Fallback {| fb_memory := dset (fb_memory f) (st_str target, workload_key) (Some state);
                               fb_verbose := fb_verbose f; fb_messages := fb_messages f |})
  end.
End contexts.
