(* ===== verification/AnsorHistory.v ===== *)
(** * The history of the auto-scheduler: what it keeps and what a query finds

    The nested maps are seen as one map from a target key, a workload hash and arguments to a
    state with its cost. Loading keeps the cheapest record of each, the limits on the number of
    lines select records beforehand, and a query takes an exact match or the cheapest compatible
    record. *)

From S2P Require Import Prelude PyDict PyFloat PyJson Arith FirstMin WorkloadKey AnsorDispatcher.

Section history.
Context {State : Type}.
Variable mean : list float → float.
#[local] Abbreviation record := (@SInput State * SResult)%type.
#[local] Abbreviation best_records := (@best_records State).

(** The hash and arguments of a workload key, as keys of the maps *)
Definition locate (workload_key : string) : result (json * args_key) :=
  '(h, args) ← decode_workload_key workload_key;
  h ← hash_key h; a ← hash_args args; Ok (h, a).

Definition view (best : best_records) (k : string) (h : json) (a : args_key) : option (State * float) :=
  dget (entry_at best k h) a.

Lemma entry_at_set (best : best_records) k h e k' h' :
  entry_at (set_entry best k h e) k' h' = if decide (k' = k ∧ h' = h) then e else entry_at best k' h'.
Proof.
  unfold entry_at, set_entry. destruct (decide (k' = k)) as [->|Hk].
  - rewrite dget_dset_eq. cbn. destruct (decide (h' = h)) as [->|Hh].
    + by rewrite dget_dset_eq, decide_True.
    + rewrite decide_False by tauto. rewrite dget_dset_ne by done. by destruct (dget best k).
  - rewrite decide_False by tauto. by rewrite dget_dset_ne.
Qed.

Lemma get_workload_entry_run (best : best_records) k wk h a : locate wk = Ok (h, a) →
  ∃ hash args best', decode_workload_key wk = Ok (hash, args) ∧ hash_args args = Ok a ∧
    get_workload_entry k wk best = (Ok (h, hash, args), best') ∧
    ∀ k' h', entry_at best' k' h' = entry_at best k' h'.
Proof.
  unfold locate. intros H. apply result_bind_ok in H as ([hash args] & Hd & H).
  apply result_bind_ok in H as (h0 & Hh & H). apply result_bind_ok in H as (a0 & Ha & [= -> ->]).
  unfold get_workload_entry. rewrite Hd. eexists hash, args, _. split; [done|]. split; [done|].
  cbv [mbind M_bind lift modify mret M_ret]. rewrite Hh. split; [done|]. intros k' h'.
  set (b1 := if dmem best k then best else dset best k []).
  assert (∀ k' h', entry_at b1 k' h' = entry_at best k' h') as Hb1.
  { intros k1 h1. unfold b1, dmem, entry_at. destruct (dget best k) eqn:E; [done|].
    destruct (decide (k1 = k)) as [->|]; [by rewrite dget_dset_eq, E|by rewrite dget_dset_ne]. }
  change (entry_at (if dmem (default [] (dget b1 k)) h then b1 else set_entry b1 k h []) k' h' = entry_at best k' h').
  clearbody b1. unfold dmem. destruct (dget (default [] (dget b1 k)) h) eqn:E; [by apply Hb1|].
  rewrite entry_at_set. case_decide as Hk; [|by apply Hb1]. destruct Hk as [-> ->]. rewrite <-Hb1.
  unfold entry_at. destruct (dget b1 k) as [m|]; [|done]. cbn in *. by rewrite E.
Qed.

(** One entry that meets a new record *)
Definition absorb (fresh : bool) (o : option (State * float)) (v : State * float) : option (State * float) :=
  if fresh then better snd o v else match o with None => None | Some _ => better snd o v end.

Lemma load_entry_run fresh best k wk st c h a : locate wk = Ok (h, a) →
  ∃ best', load_entry fresh k wk st c best = (Ok tt, best') ∧ ∀ k' h' a',
    view best' k' h' a' = if decide (k' = k ∧ h' = h ∧ a' = a) then absorb fresh (view best k h a) (st, c)
                          else view best k' h' a'.
Proof.
  intros Hl. destruct (get_workload_entry_run best k wk h a Hl) as (hash & args & b1 & Hd & Ha & Hrun & Hv).
  unfold load_entry. rewrite (M_bind_ok _ _ _ _ _ Hrun). cbn beta iota. rewrite Ha.
  cbv [mbind M_bind lift get_st put_st mret M_ret]. rewrite Hv.
  assert (∀ k' h' a', view (set_entry b1 k h (dset (entry_at best k h) a (st, c))) k' h' a'
    = if decide (k' = k ∧ h' = h ∧ a' = a) then Some (st, c) else view best k' h' a') as Hset.
  { intros k' h' a'. unfold view. rewrite entry_at_set.
    destruct (decide (k' = k ∧ h' = h)) as [[-> ->]|].
    - destruct (decide (a' = a)) as [->|Hne]; [by rewrite dget_dset_eq, decide_True|].
      rewrite decide_False by tauto. rewrite dget_dset_ne by congruence. done.
    - rewrite decide_False by tauto. by rewrite Hv. }
  assert (∀ o, o = view best k h a → ∀ k' h' a', view b1 k' h' a'
    = if decide (k' = k ∧ h' = h ∧ a' = a) then o else view best k' h' a') as Hsame.
  { intros o -> k' h' a'. unfold view. rewrite Hv. case_decide as Hk; [by destruct Hk as (-> & -> & ->)|done]. }
  assert (dget (entry_at best k h) a = view best k h a) as -> by done.
  destruct (view best k h a) as [[st0 c0]|]; unfold absorb, better; cbn [snd];
    [destruct (flt c c0)|]; destruct fresh; eexists; (split; [done|]); first [exact Hset|by apply Hsame].
Qed.

(** ** Loading *)

Definition value_of (r : record) : State * float := (si_state r.1, record_cost mean r.2).

(** The records an entry of the map by target key, or by model, is about *)
Definition for_key (k : string) (h : json) (a : args_key) (r : record) : bool :=
  (sr_error_no r.2 =? 0) && bool_decide (k ∈ st_keys (si_target r.1))
  && bool_decide (locate (si_workload_key r.1) = Ok (h, a)).

Definition for_model (m : string) (h : json) (a : args_key) (r : record) : bool :=
  (sr_error_no r.2 =? 0) && bool_decide (st_model (si_target r.1) = m) && bool_decide (m ≠ "unknown")
  && bool_decide (locate (si_workload_key r.1) = Ok (h, a)).

Definition locatable (r : record) : bool :=
  match locate (si_workload_key r.1) with Ok _ => true | Raise _ => false end.

Lemma load_keys_run ks wk st c h a (s : ApplyHistoryBest) : locate wk = Ok (h, a) →
  ∃ s', mfor (λ k, on_targetkey (load_entry true k wk st c)) ks s = (Ok tt, s') ∧
    best_by_model s' = best_by_model s ∧ best_user_defined s' = best_user_defined s ∧
    include_compatible s' = include_compatible s ∧ ∀ k' h' a',
    view (best_by_targetkey s') k' h' a'
    = if decide (k' ∈ ks ∧ h' = h ∧ a' = a) then better snd (view (best_by_targetkey s) k' h' a') (st, c)
      else view (best_by_targetkey s) k' h' a'.
Proof.
  intros Hl. revert s. induction ks as [|k ks IH]; intros s; cbn [mfor].
  { by exists s. }
  destruct (load_entry_run true (best_by_targetkey s) k wk st c h a Hl) as (b & Hb & Hv).
  set (s1 := {| best_by_targetkey := b; best_by_model := best_by_model s;
                best_user_defined := best_user_defined s; include_compatible := include_compatible s |}).
  assert (on_targetkey (load_entry true k wk st c) s = (Ok tt, s1)) as H1 by (unfold on_targetkey; by rewrite Hb).
  rewrite (M_bind_ok _ _ _ _ _ H1). destruct (IH s1) as (s' & Hs' & Hm & Hu & Hc & Hview).
  exists s'. split_and!; [exact Hs'|exact Hm|exact Hu|exact Hc|]. intros k' h' a'.
  rewrite Hview. cbn [s1 best_by_targetkey]. rewrite Hv. unfold absorb.
  destruct (decide (k' = k ∧ h' = h ∧ a' = a)) as [(-> & -> & ->)|Hne].
  - rewrite (decide_True (P := _ ∈ k :: ks ∧ _)) by set_solver. case_decide; [apply better_idem|done].
  - destruct (decide (k' ∈ ks ∧ h' = h ∧ a' = a)) as [Hin|Hin];
      [rewrite decide_True by set_solver|rewrite decide_False by set_solver]; done.
Qed.

(** Nothing is kept for the model "unknown". *)
Definition no_unknown (s : @ApplyHistoryBest State) : Prop := ∀ h a, view (best_by_model s) "unknown" h a = None.

Lemma load_one_run r (s : ApplyHistoryBest) : locatable r = true → no_unknown s →
  ∃ s', load_one mean r s = (Ok tt, s') ∧ no_unknown s' ∧
    best_user_defined s' = best_user_defined s ∧ include_compatible s' = include_compatible s ∧
    ∀ k h a,
      view (best_by_targetkey s') k h a
      = foldl (better snd) (view (best_by_targetkey s) k h a) (value_of <$> List.filter (for_key k h a) [r]) ∧
      view (best_by_model s') k h a
      = foldl (better snd) (view (best_by_model s) k h a) (value_of <$> List.filter (for_model k h a) [r]).
Proof.
  destruct r as [inp res]. unfold locatable. cbn [fst snd]. destruct (locate _) as [[h a]|] eqn:Hl; [|done].
  intros _ Hu. unfold load_one, for_key, for_model. cbn [fst snd List.filter].
  destruct (Z.eqb_spec (sr_error_no res) 0) as [He|He]; cbn [negb andb]; [|by exists s].
  destruct (load_keys_run (st_keys (si_target inp)) _ (si_state inp) (record_cost mean res) h a s Hl)
    as (s1 & H1 & Hm1 & Hu1 & Hc1 & Hv1).
  rewrite (M_bind_ok _ _ _ _ _ H1). set (m := st_model (si_target inp)) in *.
  destruct (load_entry_run (negb (String.eqb m "unknown")) (best_by_model s1) m _ (si_state inp)
    (record_cost mean res) h a Hl) as (b & Hb & Hvb).
  unfold on_model. rewrite Hb. eexists. split; [done|]. unfold no_unknown.
  cbn [best_by_model best_by_targetkey best_user_defined include_compatible]. rewrite Hm1 in Hvb.
  split; [|split; [done|split; [done|]]].
  - intros h' a'. rewrite Hvb. case_decide as Hd; [|by apply Hu]. destruct Hd as (<- & -> & ->).
    cbn. by rewrite Hu.
  - intros k h' a'. rewrite Hv1, Hvb, Hl. split.
    + repeat case_bool_decide; case_decide; cbn; done || (exfalso; naive_solver).
    + destruct (String.eqb_spec m "unknown") as [Hmu|Hmu]; cbn [negb absorb].
      * rewrite Hmu, Hu. case_decide as Hd; [destruct Hd as (-> & -> & ->); rewrite Hu|];
          repeat case_bool_decide; cbn; congruence || done || (exfalso; naive_solver).
      * repeat case_bool_decide; case_decide as Hd; cbn; try done; try (exfalso; naive_solver).
        by destruct Hd as (-> & -> & ->).
Qed.

(** *** The limits on lines *)

Definition same_task (r r' : record) : bool :=
  bool_decide (input_to_learning_task r'.1 = input_to_learning_task r.1).

(** The records with fewer than [per] records of their task before them *)
Fixpoint within (per : option Z) (before rs : list record) : list record :=
  match rs with
  | [] => []
  | r :: rs =>
      let rest := within per (before ++ [r]) rs in
      if reached (Z.of_nat (length (List.filter (same_task r) before))) per then rest else r :: rest
  end.

Definition take_lines (n : option Z) (rs : list record) : list record :=
  match n with None => rs | Some n => take (Z.to_nat n) rs end.

(** The records that count: the first [n_lines] of those *)
Definition considered (n_lines n_lines_per_task : option Z) (rs : list record) : list record :=
  take_lines n_lines (within n_lines_per_task [] rs).

Definition task_count (before : list record) (t : LearningTask) : Z :=
  Z.of_nat (length (List.filter (λ r : record, bool_decide (input_to_learning_task r.1 = t)) before)).

(** A counter is the number of records of the task so far, or both have reached the limit. *)
Definition counts (per : option Z) (before : list record) (cpt : dict LearningTask Z) : Prop :=
  ∀ t, let c := default 0 (dget cpt t) in
    c = task_count before t ∨ (reached c per = true ∧ reached (task_count before t) per = true).

Lemma counts_reached per before cpt t : counts per before cpt →
  reached (default 0 (dget cpt t)) per = reached (task_count before t) per.
Proof. intros H. destruct (H t) as [->|[-> ->]]; done. Qed.

Lemma task_count_snoc before (r : record) t : task_count (before ++ [r]) t
  = task_count before t + if decide (input_to_learning_task r.1 = t) then 1 else 0.
Proof.
  unfold task_count. rewrite List.filter_app, length_app. cbn [List.filter].
  case_bool_decide; case_decide; try done; cbn [length]; lia.
Qed.

Lemma reached_mono per c c' : c ≤ c' → reached c per = true → reached c' per = true.
Proof. destruct per; [|done]. cbn. lia. Qed.

Lemma counts_step per before cpt (r : record) : counts per before cpt →
  let t := input_to_learning_task r.1 in
  if reached (task_count before t) per then counts per (before ++ [r]) cpt
  else counts per (before ++ [r]) (dset cpt t (default 0 (dget cpt t) + 1)).
Proof.
  intros H t. destruct (reached (task_count before t) per) eqn:E; intros t'; rewrite task_count_snoc; fold t.
  - destruct (decide (t = t')) as [<-|]; [|rewrite Z.add_0_r; apply H]. right.
    split; [by rewrite (counts_reached _ before)|by eapply reached_mono; [|exact E]; lia].
  - destruct (decide (t = t')) as [<-|]; [|rewrite dget_dset_ne by done; rewrite Z.add_0_r; apply H].
    rewrite dget_dset_eq. cbn. left. destruct (H t) as [->|[_ ?]]; [done|congruence].
Qed.

Lemma load_loop_considered n per rs : ∀ counter cpt before s, counts per before cpt →
  load_loop mean n per counter cpt rs s
  = mfor (load_one mean) (take_lines ((λ n, n - counter) <$> n) (within per before rs)) s.
Proof.
  induction rs as [|r rs IH]; intros counter cpt before s Hc; cbn [load_loop within].
  { destruct n; cbn; by rewrite ?take_nil. }
  set (t := input_to_learning_task r.1) in *.
  change (length (List.filter (same_task r) before)) with (length (List.filter (λ r' : record, bool_decide (input_to_learning_task r'.1 = t)) before)).
  fold (task_count before t).
  destruct (reached counter n) eqn:En.
  { destruct n as [n|]; [|done]. cbn in *. by replace (Z.to_nat (n - counter)) with O by lia. }
  set (cpt' := if dmem cpt t then cpt else dset cpt t 0).
  assert (∀ t', default 0 (dget cpt' t') = default 0 (dget cpt t')) as Hcpt.
  { intros t'. unfold cpt', dmem. destruct (dget cpt t) eqn:E; [done|].
    destruct (decide (t = t')) as [<-|]; [by rewrite dget_dset_eq, E|by rewrite dget_dset_ne]. }
  assert (counts per before cpt') as Hc' by (intros t'; rewrite Hcpt; apply Hc).
  clearbody cpt'. rewrite (counts_reached _ _ _ _ Hc'). pose proof (counts_step per before cpt' r Hc') as Hs.
  cbv zeta in Hs. fold t in Hs. destruct (reached (task_count before t) per); [by apply IH|].
  destruct n as [n|]; cbn [fmap option_fmap option_map take_lines] in *.
  - cbn in En. replace (Z.to_nat (n - counter)) with (S (Z.to_nat (n - (counter + 1)))) by lia.
    cbn [take mfor]. unfold mbind, M_bind. destruct (load_one mean r s) as [[[]|] s1]; [|done]. by apply IH.
  - cbn [mfor]. unfold mbind, M_bind. destruct (load_one mean r s) as [[[]|] s1]; [|done]. by apply IH.
Qed.

Lemma load_all_run rs : forallb locatable rs = true → ∀ s : ApplyHistoryBest, no_unknown s →
  ∃ s', mfor (load_one mean) rs s = (Ok tt, s') ∧
    best_user_defined s' = best_user_defined s ∧ include_compatible s' = include_compatible s ∧
    ∀ k h a,
      view (best_by_targetkey s') k h a
      = foldl (better snd) (view (best_by_targetkey s) k h a) (value_of <$> List.filter (for_key k h a) rs) ∧
      view (best_by_model s') k h a
      = foldl (better snd) (view (best_by_model s) k h a) (value_of <$> List.filter (for_model k h a) rs).
Proof.
  induction rs as [|r rs IH]; cbn [forallb mfor]; intros Hl s Hu; [by exists s|].
  apply andb_prop in Hl as [Hr Hl]. destruct (load_one_run r s Hr Hu) as (s1 & H1 & Hu1 & Hd1 & Hc1 & Hv1).
  rewrite (M_bind_ok _ _ _ _ _ H1). destruct (IH Hl s1 Hu1) as (s2 & H2 & Hd2 & Hc2 & Hv2).
  exists s2. split_and!; [done|congruence|congruence|]. intros k h a.
  change (r :: rs) with ([r] ++ rs). rewrite !List.filter_app, !fmap_app, !foldl_app.
  destruct (Hv1 k h a) as [<- <-]. apply Hv2.
Qed.
End history.

(** C21: A history made from a log, with or without limits on its lines, takes into account the
    records with fewer than the per-task limit of records of their task before them, and of those
    the first as many as the limit on lines allows. If their workload keys can be decoded to
    hashable keys, the entry of a target key (or a model other than "unknown"), a workload hash
    and arguments is the state and cost of the first of the cheapest error-free records for it,
    and absent if there is none. *)
Theorem ansor_history_best {State} (mean : list float → float) (rs : list (@SInput State * SResult))
    (n_lines n_lines_per_task : option Z) (compatible : bool) :
  let rs' := considered n_lines n_lines_per_task rs in
  forallb locatable rs' = true → numbers (record_cost mean ∘ snd) rs' →
  ∃ s, ApplyHistoryBest_init mean rs n_lines n_lines_per_task compatible = (Ok tt, s) ∧
    best_user_defined s = [] ∧ include_compatible s = compatible ∧
    ∀ k h a,
      is_first_min snd (value_of mean <$> List.filter (for_key k h a) rs') (view (best_by_targetkey s) k h a) ∧
      is_first_min snd (value_of mean <$> List.filter (for_model k h a) rs') (view (best_by_model s) k h a).
Proof.
  intros rs' Hl Hn. unfold ApplyHistoryBest_init, load.
  rewrite load_loop_considered with (before := []) by (intros t; by left).
  replace (take_lines _ _) with rs' by (unfold rs', considered; destruct n_lines; cbn; by rewrite ?Z.sub_0_r).
  match goal with |- context [mfor _ _ ?s0] =>
    destruct (load_all_run mean rs' Hl s0 (λ _ _, eq_refl)) as (s & Hs & Hu & Hc & Hv) end.
  exists s. split_and!; [exact Hs|exact Hu|exact Hc|]. intros k h a. destruct (Hv k h a) as [-> ->].
  assert (∀ p, numbers snd (value_of mean <$> List.filter p rs')) as Hnum.
  { intros p. unfold numbers. apply Forall_fmap. by apply (numbers_filter (record_cost mean ∘ snd)). }
  split; by apply (first_min_spec snd).
Qed.

Lemma ansor_history_best_witness :
  let t := {| st_str := "llvm"; st_keys := ["cpu"]; st_model := "unknown" |} in
  let r w i c := ({| si_workload_key := w; si_target := t; si_state := i |},
                  {| sr_costs := [FloatImm (of_Z c)]; sr_error_no := 0 |}) in
  ∃ s, ApplyHistoryBest_init (hd fnan) [r "[1, 8]" 0 9; r "[1, 8]" 1 7; r "[1, 4]" 2 6; r "[1, 8]" 3 1]
         (Some 3) (Some 2) false = (Ok tt, s) ∧
    view (best_by_targetkey s) "cpu" (JInt 1) (Some [JInt 8]) = Some (1, of_Z 7) ∧
    view (best_by_model s) "unknown" (JInt 1) (Some [JInt 8]) = None.
Proof.
  intros t r. destruct (ansor_history_best (hd fnan)
    [r "[1, 8]" 0 9; r "[1, 8]" 1 7; r "[1, 4]" 2 6; r "[1, 8]" 3 1] (Some 3) (Some 2) false)
    as (s & Hs & _ & _ & Hv); [by vm_compute|by repeat constructor|].
  exists s. split; [exact Hs|]. split.
  - eapply is_first_min_unique; [apply (proj1 (Hv _ _ _))|].
    exists [(0, of_Z 9)], []. split; [by vm_compute|]. split; intros x Hx; [|by apply not_elem_of_nil in Hx].
    apply list_elem_of_singleton in Hx as ->. by vm_compute.
  - eapply is_first_min_unique; [apply (proj2 (Hv _ _ _))|]. by vm_compute.
Defined.
