(* ===== verification/AnsorQuery.v ===== *)
(** * Queries of the history of the auto-scheduler

    A query asks the entries of the user, then those of the log, for the model and then for each
    key of the target. An entry answers with the record of the same arguments, or with the
    cheapest of the compatible ones after scaling by the distance factor. *)

From S2P Require Import Prelude PyDict PyFloat PyJson Arith FirstMin WorkloadKey AnsorDispatcher AnsorHistory.

Section query.
Context {State : Type}.
#[local] Abbreviation best_records := (@best_records State).

(** ** Reference: what an entry answers *)

(** A record of the entry with its cost scaled, if it is compatible *)
Definition scaled (hash : json) (args : option (list json)) (item : args_key * (State * float))
    : result (option (State * float)) :=
  d ← calc_workload_dis_factor (hash, args) (hash, item.1);
  Ok (if feq (default finf d) finf then None else Some (item.2.1, fmul item.2.2 (default finf d))).

Definition nearest (hash : json) (args : option (list json)) (e : entry) : result (option State) :=
  cs ← mmapr (scaled hash args) e;
  Ok (fst <$> first_min snd (omap id cs)).

Definition found (compatible : bool) (best : best_records) (k workload_key : string) : result (option State) :=
  '(hash, args) ← decode_workload_key workload_key;
  '(h, a) ← locate workload_key;
  match view best k h a with
  | Some (state, _) => Ok (Some state)
  | None => if compatible then nearest hash args (entry_at best k h) else Ok None
  end.

Lemma best_compatible_acc hash args (e : entry) : ∀ cs acc,
  mmapr (scaled hash args) e = Ok cs →
  best_compatible hash args e (fst <$> acc) (default finf (snd <$> acc))
  = Ok (fst <$> foldl (better snd) acc (omap id cs)).
Proof.
  induction e as [|[a [st c]] e IH]; intros cs acc; cbn [mmapr best_compatible].
  { by intros [= <-]. }
  intros H. apply result_bind_ok in H as (v & Hv & H). apply result_bind_ok in H as (cs' & Hcs & [= <-]).
  unfold scaled in Hv. cbn [fst snd] in Hv. apply result_bind_ok in Hv as (d & Hd & [= <-]).
  rewrite Hd. cbn [mbind result_bind]. specialize (IH cs'). destruct (feq _ _); csimpl; [by apply IH|].
  destruct acc as [[st0 c0]|]; cbn [fmap option_fmap option_map fst snd default].
  - rewrite bool_decide_eq_false_2 by done. cbn [orb foldl better snd id].
    destruct (flt _ c0); [apply (IH (Some (st, _)) Hcs)|apply (IH (Some (st0, c0)) Hcs)].
  - rewrite bool_decide_eq_true_2 by done. apply (IH (Some (st, _)) Hcs).
Qed.

(** The maps agree as far as queries can tell. *)
Definition same_entries (b b' : best_records) : Prop := ∀ k h, entry_at b' k h = entry_at b k h.

Lemma found_same compatible b b' k wk : same_entries b b' → found compatible b' k wk = found compatible b k wk.
Proof.
  intros H. unfold found. destruct (decode_workload_key wk) as [[hash args]|]; [|done].
  cbn [mbind result_bind]. destruct (locate wk) as [[h a]|]; [|done]. cbn [mbind result_bind].
  unfold view. by rewrite H.
Qed.

Lemma match_record_run compatible best k wk r : found compatible best k wk = Ok r →
  ∃ best', match_record compatible k wk best = (Ok r, best') ∧ same_entries best best'.
Proof.
  unfold found. intros H. apply result_bind_ok in H as ([hash args] & Hd & H).
  apply result_bind_ok in H as ([h a] & Hl & H).
  destruct (get_workload_entry_run best k wk h a Hl) as (hash' & args' & b1 & Hd' & Ha & Hrun & Hv).
  assert (hash' = hash ∧ args' = args) as [-> ->] by (by split; congruence).
  exists b1. split; [|done]. unfold match_record. rewrite (M_bind_ok _ _ _ _ _ Hrun). cbn beta iota. rewrite Ha.
  cbv [mbind M_bind lift get_st mret M_ret]. rewrite Hv. fold (view best k h a).
  destruct (view best k h a) as [[st c]|]; [by injection H as <-|].
  destruct compatible; [|by injection H as <-]. unfold nearest in H.
  apply result_bind_ok in H as (cs & Hcs & [= <-]). 
  pose proof (best_compatible_acc hash args _ cs None Hcs) as Hbest. cbn [fmap option_fmap option_map default] in Hbest.
  by rewrite Hbest.
Qed.

(** ** The order of the entries asked *)

Definition answers (s : ApplyHistoryBest) (t : STarget) (wk : string) : list (result (option State)) :=
  let c := include_compatible s in
  found c (best_user_defined s) (st_model t) wk :: found c (best_by_model s) (st_model t) wk ::
  concat ((λ k, [found c (best_user_defined s) k wk; found c (best_by_targetkey s) k wk]) <$> st_keys t).

Definition same_history (s s' : @ApplyHistoryBest State) : Prop :=
  same_entries (best_by_targetkey s) (best_by_targetkey s') ∧
  same_entries (best_by_model s) (best_by_model s') ∧
  same_entries (best_user_defined s) (best_user_defined s') ∧
  include_compatible s' = include_compatible s.

#[export] Instance same_history_preorder : PreOrder same_history.
Proof.
  split; [by intros s|]. intros s1 s2 s3 (H1 & H2 & H3 & H4) (K1 & K2 & K3 & K4).
  split_and!; [intros ? ?; by rewrite K1|intros ? ?; by rewrite K2|intros ? ?; by rewrite K3|congruence].
Qed.

(** A computation that changes nothing a query can tell and answers with [r] *)
Definition asks (s : ApplyHistoryBest) (m : M ApplyHistoryBest (option State)) (r : option State) : Prop :=
  ∀ s1, same_history s s1 → ∃ s2, m s1 = (Ok r, s2) ∧ same_history s s2.

Lemma asks_or_else s m k r r' : asks s m r → asks s k r' →
  asks s (or_else m k) (match r with Some st => Some st | None => r' end).
Proof.
  intros Hm Hk s1 H1. destruct (Hm s1 H1) as (s2 & Hs2 & H2). unfold or_else.
  rewrite (M_bind_ok _ _ _ _ _ Hs2). destruct r; [by exists s2|by apply Hk].
Qed.

Lemma asks_on s k wk r c :
  (found c (best_user_defined s) k wk = Ok r → asks s (on_user (match_record c k wk)) r) ∧
  (found c (best_by_model s) k wk = Ok r → asks s (on_model (match_record c k wk)) r) ∧
  (found c (best_by_targetkey s) k wk = Ok r → asks s (on_targetkey (match_record c k wk)) r).
Proof.
  split_and!; intros Hf s1 (H1 & H2 & H3 & H4);
    [rewrite <-(found_same c _ _ k wk H3) in Hf|rewrite <-(found_same c _ _ k wk H2) in Hf
    |rewrite <-(found_same c _ _ k wk H1) in Hf];
    destruct (match_record_run _ _ _ _ _ Hf) as (b & Hb & Hsame);
    unfold on_user, on_model, on_targetkey; rewrite Hb; eexists; (split; [done|]);
    split_and!; cbn; try done; intros ? ?; rewrite Hsame; auto.
Qed.

Lemma asks_keys s ks wk l :
  mmapr id (concat ((λ k, [found (include_compatible s) (best_user_defined s) k wk;
                           found (include_compatible s) (best_by_targetkey s) k wk]) <$> ks)) = Ok l →
  asks s (query_keys (include_compatible s) ks wk) (head (omap id l)).
Proof.
  revert l. induction ks as [|k ks IH]; intros l; cbn [fmap list_fmap concat app mmapr query_keys].
  { intros [= <-] s1 H1. by exists s1. }
  intros H. apply result_bind_ok in H as (u & Hu & H). apply result_bind_ok in H as (l1 & H & [= <-]).
  apply result_bind_ok in H as (v & Hv & H). apply result_bind_ok in H as (l2 & Hl & [= <-]).
  destruct (asks_on s k wk u (include_compatible s)) as (A1 & _ & _).
  destruct (asks_on s k wk v (include_compatible s)) as (_ & _ & A2).
  pose proof (asks_or_else _ _ _ _ _ (A1 Hu) (asks_or_else _ _ _ _ _ (A2 Hv) (IH l2 Hl))) as Hall.
  csimpl. by destruct u, v.
Qed.
End query.

(** C10: A query of a history answers with the first answer among: the user's entry of the target's
    model, the log's entry of the model, and for each key of the target in order the user's and
    the log's entry of the key. An entry answers with the state of the record with the same
    arguments or else, if compatible records are allowed, with the state of the first of the
    compatible records whose cost times the distance factor is smallest. The entries are as
    before. *)
Theorem ansor_query {State} (s : @ApplyHistoryBest State) (t : STarget) (wk : string) l :
  mmapr id (answers s t wk) = Ok l →
  ∃ s', history_query_inside (Some t) wk s = (Ok (head (omap id l)), s') ∧ same_history s s'.
Proof.
  unfold answers. cbn [mmapr]. intros H.
  apply result_bind_ok in H as (u & Hu & H). apply result_bind_ok in H as (l1 & H & [= <-]).
  apply result_bind_ok in H as (v & Hv & H). apply result_bind_ok in H as (l2 & Hl & [= <-]).
  destruct (asks_on s (st_model t) wk u (include_compatible s)) as (A1 & _ & _).
  destruct (asks_on s (st_model t) wk v (include_compatible s)) as (_ & A2 & _).
  pose proof (asks_or_else _ _ _ _ _ (A1 Hu) (asks_or_else _ _ _ _ _ (A2 Hv) (asks_keys s _ wk l2 Hl))) as Hall.
  destruct (Hall s) as (s' & Hs' & Hsame); [reflexivity|]. exists s'. split; [|done].
  unfold history_query_inside. rewrite M_get_bind. cbv zeta. rewrite Hs'. csimpl. by destruct u, v.
Qed.

Lemma ansor_query_witness :
  let t := {| st_str := "llvm"; st_keys := ["cpu"]; st_model := "unknown" |} in
  let s := {| best_by_targetkey := [("cpu", [(JInt 1, [(Some [JInt 4], (10, of_Z 3)); (Some [JInt 8], (11, of_Z 2));
                                                       (Some [JInt 5], (12, of_Z 1))])])];
              best_by_model := []; best_user_defined := []; include_compatible := true |} in
  ∃ s', history_query_inside (Some t) "[1, 16]" s = (Ok (Some 11), s') ∧ same_history s s'.
Proof.
  intros t s. apply (ansor_query s t "[1, 16]" [None; None; None; Some 11]). by vm_compute.
Defined.

(** ** Updates *)

Lemma update_entry_run {State} (best : @best_records State) k wk st h a : locate wk = Ok (h, a) →
  ∃ best', update_entry k wk st best = (Ok tt, best') ∧
    view best' k h a = Some (st, of_Z 1) ∧
    (∀ k', view best k' h a = Some (st, of_Z 1) → view best' k' h a = Some (st, of_Z 1)).
Proof.
  intros Hl. destruct (get_workload_entry_run best k wk h a Hl) as (hash & args & b1 & Hd & Ha & Hrun & Hv).
  unfold update_entry. rewrite (M_bind_ok _ _ _ _ _ Hrun). cbn beta iota. rewrite Ha.
  cbv [mbind M_bind lift modify]. eexists. split; [done|]. unfold view. rewrite entry_at_set, decide_True by done.
  split; [by rewrite dget_dset_eq|]. intros k' Hk'. rewrite entry_at_set. case_decide; [by rewrite dget_dset_eq|].
  by rewrite Hv.
Qed.

Lemma update_keys_run {State} ks wk st h a k0 (s : @ApplyHistoryBest State) : locate wk = Ok (h, a) →
  view (best_user_defined s) k0 h a = Some (st, of_Z 1) →
  ∃ s', mfor (λ k, on_user (update_entry k wk st)) ks s = (Ok tt, s') ∧
    view (best_user_defined s') k0 h a = Some (st, of_Z 1).
Proof.
  intros Hl. revert s. induction ks as [|k ks IH]; intros s Hs; cbn [mfor]; [by exists s|].
  destruct (update_entry_run (best_user_defined s) k wk st h a Hl) as (b & Hb & _ & Hkeep).
  erewrite M_bind_ok by (unfold on_user; by rewrite Hb). apply IH. by apply Hkeep.
Qed.

(** After an update of a workload whose key can be decoded to hashable keys, a query of the
    history for the same target and workload answers with the state of the update, whatever the
    log had and whether or not compatible records are allowed. *)
Theorem ansor_update_query {State} (s : @ApplyHistoryBest State) (t : STarget) (wk : string) (st : State) h a :
  locate wk = Ok (h, a) →
  ∃ s', history_update t wk st s = (Ok tt, s') ∧ (history_query_inside (Some t) wk s').1 = Ok (Some st).
Proof.
  intros Hl. destruct (update_entry_run (best_user_defined s) (st_model t) wk st h a Hl) as (b & Hb & Hv & _).
  unfold history_update. erewrite M_bind_ok by (unfold on_user; by rewrite Hb).
  match goal with |- context [mfor _ _ ?s1] =>
    destruct (update_keys_run (st_keys t) wk st h a (st_model t) s1 Hl Hv) as (s' & Hs' & Hv') end.
  exists s'. split; [done|]. unfold history_query_inside. rewrite M_get_bind. cbv zeta.
  destruct (asks_on s' (st_model t) wk (Some st) (include_compatible s')) as [Hask _].
  destruct (Hask) with (s1 := s') as (s2 & Hs2 & _); [|reflexivity|].
  - unfold found. destruct (get_workload_entry_run (best_user_defined s') (st_model t) wk h a Hl)
      as (hash & args & _ & Hd & _). rewrite Hd, Hl. cbn [mbind result_bind]. by rewrite Hv'.
  - unfold or_else at 1. by rewrite (M_bind_ok _ _ _ _ _ Hs2).
Qed.

Lemma ansor_update_query_witness :
  let t := {| st_str := "llvm"; st_keys := ["cpu"]; st_model := "unknown" |} in
  let s := {| best_by_targetkey := []; best_by_model := []; best_user_defined := []; include_compatible := false |} in
  ∃ s', history_update t "[1, [8, 4]]" 7 s = (Ok tt, s') ∧ (history_query_inside (Some t) "[1, [8, 4]]" s').1 = Ok (Some 7).
Proof.
  intros t s. apply (ansor_update_query s t "[1, [8, 4]]" 7 (JInt 1) (Some [JInt 8; JInt 4])). by vm_compute.
Defined.
