(* ===== verification/Int64.v ===== *)
(** * 64-bit integers of the compiler ([src/arith/int_operator.h])

    Arithmetic on [int64_t]: a result outside the range is undefined behaviour in C++ and an
    exception here. Loops of the Euclidean algorithm take 128 iterations at most, since a remainder
    is at most half of the one two iterations before. *)

From S2P Require Import Prelude.

Definition int64_max : Z := 2 ^ 63 - 1.
Definition int64_min : Z := - 2 ^ 63.
Definition in64 (z : Z) : bool := (int64_min <=? z) && (z <=? int64_max).

(** The value of an operation on [int64_t] *)
Definition i64 (z : Z) : result Z := if in64 z then Ok z else Raise OverflowError.

Definition add64 (x y : Z) : result Z := i64 (x + y).
Definition sub64 (x y : Z) : result Z := i64 (x - y).
Definition mul64 (x y : Z) : result Z := i64 (x * y).
Definition neg64 (x : Z) : result Z := i64 (- x).
(** [/] and [%] truncate *)
Definition div64 (x y : Z) : result Z := if y =? 0 then Raise ZeroDivisionError else i64 (Z.quot x y).
Definition rem64 (x y : Z) : result Z := if y =? 0 then Raise ZeroDivisionError else _ ← i64 (Z.quot x y); i64 (Z.rem x y).
(** [>>], with a shift count in range *)
Definition shr64 (x y : Z) : result Z :=
  if (0 <=? y) && (y <? 64) then i64 (Z.shiftr x y) else Raise OverflowError.
Definition shl64 (x y : Z) : result Z :=
  if (0 <=? y) && (y <? 64) then i64 (Z.shiftl x y) else Raise OverflowError.

(** ** [WillOverflow] *)

Definition WillOverflow_Add (x y min_value max_value : Z) : result bool :=
  c1 ← (if 0 <? y then m ← sub64 max_value y; Ok (m <? x) else Ok false);
  if c1 : bool then Ok true
  else if y <? 0 then m ← sub64 min_value y; Ok (x <? m) else Ok false.

Definition WillOverflow_Sub (x y min_value max_value : Z) : result bool :=
  c1 ← (if 0 <? y then m ← add64 min_value y; Ok (x <? m) else Ok false);
  if c1 : bool then Ok true
  else if y <? 0 then m ← add64 max_value y; Ok (m <? x) else Ok false.

Definition WillOverflow_Mul (x y min_value max_value : Z) : result bool :=
  if y =? 0 then Ok false
  else if 0 <? y then
    lo ← div64 min_value y;
    if x <? lo then Ok true else hi ← div64 max_value y; Ok (hi <? x)
  else if (y =? -1) && (x =? int64_min) then Ok true
  else
    lo ← div64 min_value y;
    if lo <? x then Ok true else hi ← div64 max_value y; Ok (x <? hi).

Definition WillOverflow_Mod (x y min_value max_value : Z) : bool := y =? 0.

(** ** Divisions *)

Definition truncdiv (x y : Z) : result Z := div64 x y.
Definition truncmod (x y : Z) : result Z := rem64 x y.

Definition floordiv (x y : Z) : result Z :=
  rdiv ← div64 x y;
  rmod ← rem64 x y;
  let is_floor_div := ((0 <=? y) && (0 <=? rmod)) || ((y <? 0) && (rmod <=? 0)) in
  if is_floor_div then Ok rdiv else sub64 rdiv 1.

Definition floormod (x y : Z) : result Z :=
  rmod ← rem64 x y;
  let is_floor_div := ((0 <=? y) && (0 <=? rmod)) || ((y <? 0) && (rmod <=? 0)) in
  if is_floor_div then Ok rmod else add64 rmod y.

(** ** Greatest common divisors *)

(** The loop of [ExtendedEuclidean] with the variables [old_s], [s], [old_r] and [r] *)
Fixpoint euclid_loop (fuel : nat) (old_s s old_r r : Z) : result (Z * Z) :=
  match fuel with
  | O => Raise OutOfFuel
  | S fuel =>
      if r =? 0 then Ok (old_s, old_r)
      else
        q ← div64 old_r r;
        qr ← mul64 q r;
        r' ← sub64 old_r qr;
        qs ← mul64 q s;
        s' ← sub64 old_s qs;
        euclid_loop fuel s s' r r'
  end.

Definition ExtendedEuclidean (a b : Z) : result (Z * Z * Z) :=
  abs_a ← (if 0 <=? a then Ok a else neg64 a);
  '(old_s, old_r) ← euclid_loop 128 1 0 abs_a b;
  x ← (if 0 <=? a then Ok old_s else neg64 old_s);
  y ← (if b =? 0 then Ok 1 else xa ← mul64 x a; d ← sub64 old_r xa; div64 d b);
  Ok (old_r, x, y).

(** [while (a % b != 0) { a = a % b; swap(a, b); }] *)
Fixpoint gcd_loop (fuel : nat) (a b : Z) : result Z :=
  match fuel with
  | O => Raise OutOfFuel
  | S fuel =>
      m ← rem64 a b;
      if m =? 0 then Ok b else gcd_loop fuel b m
  end.

Definition ZeroAwareGCD (a b : Z) : result Z :=
  a ← (if a <? 0 then neg64 a else Ok a);
  b ← (if b <? 0 then neg64 b else Ok b);
  let '(a, b) := if a <? b then (b, a) else (a, b) in
  if b =? 0 then Ok a else gcd_loop 128 a b.

Definition LeastCommonMultiple (a b : Z) : result Z :=
  ab ← mul64 a b;
  '(g, _, _) ← ExtendedEuclidean a b;
  div64 ab g.

(** ** Correctness *)

Lemma i64_in z : int64_min ≤ z ≤ int64_max → i64 z = Ok z.
Proof. unfold i64, in64. intros [H1%Z.leb_le H2%Z.leb_le]. by rewrite H1, H2. Qed.

Lemma i64_inv z w : i64 z = Ok w → w = z ∧ int64_min ≤ z ≤ int64_max.
Proof. unfold i64, in64. destruct (_ && _) eqn:E; [|done]. apply andb_prop in E as [?%Z.leb_le ?%Z.leb_le]. by intros [= <-]. Qed.

(** Inverting computations on 64-bit integers *)
Ltac inv64 := repeat
  match goal with
  | H : (_ ≫= _) = Ok _ |- _ => apply result_bind_ok in H as (? & ? & H)
  | H : Raise _ = Ok _ |- _ => discriminate H
  | H : i64 _ = Ok _ |- _ => apply i64_inv in H as [-> H]
  | H : context [div64] |- _ => unfold div64 in H
  | H : context [rem64] |- _ => unfold rem64 in H
  | H : context [add64] |- _ => unfold add64 in H
  | H : context [sub64] |- _ => unfold sub64 in H
  | H : context [mul64] |- _ => unfold mul64 in H
  | H : context [neg64] |- _ => unfold neg64 in H
  end.

Lemma rem64_pos a b : 0 ≤ a ≤ int64_max → 0 < b → rem64 a b = Ok (a mod b).
Proof.
  intros Ha Hb. unfold rem64. rewrite (proj2 (Z.eqb_neq b 0)) by lia.
  rewrite Z.quot_div_nonneg, Z.rem_mod_nonneg by lia.
  assert (0 ≤ a / b) by (apply Z.div_pos; lia). assert (a / b ≤ a) by (apply Z.div_le_upper_bound; nia).
  pose proof (Z.mod_pos_bound a b Hb). assert (a mod b ≤ a) by (apply Z.mod_le; lia).
  rewrite i64_in by (unfold int64_min, int64_max in *; lia). cbn [mbind result_bind].
  by rewrite i64_in by (unfold int64_min, int64_max in *; lia).
Qed.

(** A remainder is less than half of the divisor before it. *)
Lemma mod_mod_half b m : 0 < m < b → 0 ≤ b mod m ∧ 2 * (b mod m) < b.
Proof.
  intros H. pose proof (Z.mod_pos_bound b m ltac:(lia)). pose proof (Z.div_mod b m ltac:(lia)).
  assert (1 ≤ b / m) by (apply Z.div_le_lower_bound; lia). nia.
Qed.

Lemma gcd_loop_ok n : ∀ fuel a b, (2 * n < fuel)%nat → 0 ≤ a ≤ int64_max → 0 < b < 2 ^ Z.of_nat n →
  b ≤ int64_max → gcd_loop fuel a b = Ok (Z.gcd a b).
Proof.
  assert (∀ a b, 0 < b → Z.gcd b (a mod b) = Z.gcd a b) as Hg.
  { intros a b Hb. rewrite Z.gcd_comm, Z.gcd_mod, Z.gcd_comm by lia. done. }
  assert (∀ a b, 0 < b → a mod b = 0 → Z.gcd a b = b) as Hz.
  { intros a b Hb H0. rewrite <-Hg, H0, Z.gcd_0_r by done. lia. }
  induction n as [|n IH]; intros fuel a b Hf Ha Hb Hb'; [lia|].
  destruct fuel as [|[|fuel]]; try lia. cbn [gcd_loop]. rewrite rem64_pos by lia. cbn [mbind result_bind].
  pose proof (Z.mod_pos_bound a b ltac:(lia)). destruct (Z.eqb_spec (a mod b) 0) as [H0|H0]; [by rewrite Hz by lia|].
  cbn [gcd_loop]. rewrite rem64_pos by lia. cbn [mbind result_bind]. rewrite <-Hg by lia.
  destruct (mod_mod_half b (a mod b)) as [H1 H2]; [lia|].
  destruct (Z.eqb_spec (b mod (a mod b)) 0) as [H3|H3]; [by rewrite Hz by lia|].
  rewrite <-(Hg b) by lia. apply IH; [lia|lia| |lia].
  rewrite Nat2Z.inj_succ, Z.pow_succ_r in Hb by lia. lia.
Qed.

Lemma ZeroAwareGCD_ok a b : int64_min < a ≤ int64_max → int64_min < b ≤ int64_max →
  ZeroAwareGCD a b = Ok (Z.gcd a b).
Proof.
  intros Ha Hb. unfold ZeroAwareGCD, neg64.
  assert (∀ z, int64_min < z ≤ int64_max → (if z <? 0 then i64 (- z) else Ok z) = Ok (Z.abs z)) as Habs.
  { intros z Hz. destruct (Z.ltb_spec z 0); [rewrite i64_in by (unfold int64_min, int64_max in *; lia)|]; f_equal; lia. }
  rewrite !Habs by done. cbn [mbind result_bind]. rewrite <-(Z.gcd_abs_l a), <-(Z.gcd_abs_r (Z.abs a) b).
  assert (0 ≤ Z.abs a ≤ int64_max ∧ 0 ≤ Z.abs b ≤ int64_max) as [Ha' Hb'] by (unfold int64_min, int64_max in *; lia).
  generalize dependent (Z.abs a). generalize dependent (Z.abs b). clear. intros b Hb a Ha.
  assert (∀ x y, 0 ≤ x ≤ int64_max → 0 ≤ y ≤ int64_max → (if y =? 0 then Ok x else gcd_loop 128 x y) = Ok (Z.gcd x y)) as H.
  { intros x y Hx Hy. destruct (Z.eqb_spec y 0) as [->|]; [rewrite Z.gcd_0_r; f_equal; lia|].
    apply (gcd_loop_ok 63); [lia|lia| |lia]. unfold int64_max in *. lia. }
  destruct (Z.ltb_spec a b); [rewrite (Z.gcd_comm a b)|]; by apply H.
Qed.

(** *** The extended algorithm *)

Lemma abs_alternate x y q : x * y ≤ 0 → 0 ≤ q → Z.abs (x - q * y) = Z.abs x + q * Z.abs y.
Proof.
  intros Hxy Hq. destruct (Z.le_gt_cases 0 x), (Z.le_gt_cases 0 y).
  - assert (x = 0 ∨ y = 0) as [-> | ->] by nia; [|lia]. rewrite (Z.abs_eq y), Z.abs_neq by nia. lia.
  - rewrite (Z.abs_neq y), (Z.abs_eq x), Z.abs_eq by nia. lia.
  - rewrite (Z.abs_eq y), (Z.abs_neq x), Z.abs_neq by nia. lia.
  - nia.
Qed.

Lemma scaled_bound u v q r m : 0 ≤ u → 0 ≤ v → 0 ≤ q → 0 < r → 0 ≤ m →
  (v + q * u) * r + u * m = u * (r * q + m) + v * r ∧ v + q * u ≤ u * (r * q + m) + v * r ∧
  q * u ≤ u * (r * q + m) + v * r.
Proof. intros Hu Hv Hq Hr Hm. split; [ring|]. split; nia. Qed.

Section euclid.
Variable a b : Z.
Hypothesis (Ha : 0 ≤ a ≤ int64_max) (Hb : 0 ≤ b ≤ int64_max).

(** The remainders are combinations of [a] and [b]; the coefficients alternate in sign and stay
    within [b]. *)
Record euclid_inv (old_s s old_r r : Z) : Prop := {
  ei_old : ∃ t, a * old_s + b * t = old_r;
  ei_new : ∃ t, a * s + b * t = r;
  ei_gcd : Z.gcd old_r r = Z.gcd a b;
  ei_size : Z.abs s * old_r + Z.abs old_s * r = b;
  ei_sign : old_s * s ≤ 0;
  ei_range : 0 ≤ old_r ≤ int64_max ∧ 0 ≤ r ≤ int64_max ∧ Z.abs old_s ≤ Z.max 1 b ∧ Z.abs s ≤ Z.max 1 b
}.

Lemma euclid_step old_s s old_r r : euclid_inv old_s s old_r r → 0 < r →
  let q := old_r / r in
  euclid_inv s (old_s - q * s) r (old_r mod r) ∧ Z.abs (q * s) ≤ b ∧ 0 ≤ q ≤ old_r.
Proof.
  intros [[t1 H1] [t2 H2] Hg Hs Hn (R1 & R2 & R3 & R4)] Hr q.
  assert (0 ≤ q) as Hq by (apply Z.div_pos; lia).
  pose proof (Z.mod_pos_bound old_r r Hr) as Hm. pose proof (Z.div_mod old_r r ltac:(lia)) as Hdm. fold q in Hdm.
  pose proof (abs_alternate old_s s q Hn Hq) as Habs. pose proof (Z.abs_nonneg s) as Hs0.
  destruct (scaled_bound (Z.abs s) (Z.abs old_s) q r (old_r mod r)) as (Hs' & Hw & Hqs); [lia..|].
  rewrite <-Hdm, Hs, <-Habs in *.
  assert (q ≤ old_r) by (rewrite Hdm; clear -Hq Hr Hm; nia).
  split; [|split; [rewrite Z.abs_mul, (Z.abs_eq q) by done; lia|lia]]. split.
  - by exists t2.
  - exists (t1 - q * t2).
    replace (a * (old_s - q * s) + b * (t1 - q * t2)) with ((a * old_s + b * t1) - q * (a * s + b * t2)) by ring.
    rewrite H1, H2. lia.
  - rewrite Z.gcd_comm, Z.gcd_mod by lia. by rewrite Z.gcd_comm.
  - done.
  - rewrite Z.mul_sub_distr_l. assert (0 ≤ q * (s * s)) by (apply Z.mul_nonneg_nonneg; [done|apply Z.square_nonneg]). lia.
  - lia.
Qed.

Lemma euclid_run fuel old_s s old_r r : euclid_inv old_s s old_r r → 0 < r →
  euclid_loop (S fuel) old_s s old_r r
  = euclid_loop fuel s (old_s - old_r / r * s) r (old_r mod r).
Proof.
  intros H Hr. pose proof (euclid_step _ _ _ _ H Hr) as (H' & Hq & Hq').
  destruct H as [_ _ _ _ _ (R1 & R2 & R3 & R4)]. destruct H' as [_ _ _ _ _ (_ & _ & _ & R4')].
  cbn [euclid_loop]. rewrite (proj2 (Z.eqb_neq r 0)) by lia.
  pose proof (Z.div_mod old_r r ltac:(lia)). pose proof (Z.mod_pos_bound old_r r Hr).
  unfold div64, mul64, sub64. rewrite (proj2 (Z.eqb_neq r 0)), Z.quot_div_nonneg by lia.
  assert (int64_max = 2 ^ 63 - 1 ∧ int64_min = - 2 ^ 63) as [? ?] by done.
  rewrite i64_in by lia. cbn [mbind result_bind]. rewrite i64_in by nia. cbn [mbind result_bind].
  rewrite i64_in by nia. cbn [mbind result_bind]. rewrite i64_in by lia. cbn [mbind result_bind].
  rewrite i64_in by lia. cbn [mbind result_bind]. by replace (old_r - old_r / r * r) with (old_r mod r) by lia.
Qed.

Lemma euclid_loop_ok n : ∀ fuel old_s s old_r r, (2 * n < fuel)%nat → r < 2 ^ Z.of_nat n →
  euclid_inv old_s s old_r r → ∃ x, euclid_loop fuel old_s s old_r r = Ok (x, Z.gcd a b) ∧
    (∃ t, a * x + b * t = Z.gcd a b) ∧ Z.abs x ≤ Z.max 1 b.
Proof.
  assert (∀ fuel old_s s old_r r, euclid_inv old_s s old_r r → r = 0 →
    ∃ x, euclid_loop (S fuel) old_s s old_r r = Ok (x, Z.gcd a b) ∧
    (∃ t, a * x + b * t = Z.gcd a b) ∧ Z.abs x ≤ Z.max 1 b) as Hdone.
  { intros fuel old_s s old_r r [H1 _ Hg _ _ (R1 & _ & R3 & _)] ->. cbn.
    rewrite Z.gcd_0_r, Z.abs_eq in Hg by lia. subst old_r. eauto. }
  induction n as [|n IH]; intros fuel old_s s old_r r Hf Hr H;
    assert (0 ≤ r) by (destruct H as [_ _ _ _ _ (_ & R2 & _)]; lia).
  { destruct fuel; [lia|]. apply Hdone; [done|]. cbn in Hr. lia. }
  destruct fuel as [|[|fuel]]; try lia. destruct (decide (r = 0)) as [->|Hr0]; [by apply Hdone|].
  rewrite euclid_run by (done || lia). destruct (euclid_step _ _ _ _ H) as (H' & _); [lia|]. cbv zeta in H'.
  pose proof (Z.mod_pos_bound old_r r ltac:(lia)).
  destruct (decide (old_r mod r = 0)) as [E|E]; [by apply Hdone|].
  rewrite euclid_run by (done || lia). destruct (euclid_step _ _ _ _ H') as (H'' & _); [lia|].
  apply IH; [lia| |done]. destruct (mod_mod_half r (old_r mod r)); [lia|].
  rewrite Nat2Z.inj_succ, Z.pow_succ_r in Hr by lia. lia.
Qed.

Lemma euclid_ok : ∃ x, euclid_loop 128 1 0 a b = Ok (x, Z.gcd a b) ∧
  (∃ t, a * x + b * t = Z.gcd a b) ∧ Z.abs x ≤ Z.max 1 b.
Proof.
  apply (euclid_loop_ok 63); [lia|unfold int64_max in *; lia|]. split; [exists 0; lia|exists 1; lia|done| | |]; lia.
Qed.
End euclid.

Lemma ExtendedEuclidean_run a b : 0 ≤ a ≤ int64_max → 0 ≤ b ≤ int64_max →
  ∃ x t, a * x + b * t = Z.gcd a b ∧ Z.abs x ≤ Z.max 1 b ∧
    ExtendedEuclidean a b
    = if b =? 0 then Ok (Z.gcd a b, x, 1)
      else xa ← i64 (x * a); d ← i64 (Z.gcd a b - xa); y ← i64 (Z.quot d b); Ok (Z.gcd a b, x, y).
Proof.
  intros Ha Hb. destruct (euclid_ok a b Ha Hb) as (x & Hx & (t & Ht) & Hxb). exists x, t.
  split; [done|]. split; [done|]. unfold ExtendedEuclidean, mul64, sub64, div64.
  rewrite (proj2 (Z.leb_le 0 a)) by lia. cbn [mbind result_bind]. rewrite Hx. cbn [mbind result_bind].
  destruct (b =? 0); [done|]. destruct (i64 (x * a)); [|done]. cbn [mbind result_bind].
  by destruct (i64 (_ - _)).
Qed.

Lemma quot_exact b t : b ≠ 0 → Z.quot (b * t) b = t.
Proof. intros Hb. rewrite Z.mul_comm. by apply Z.quot_mul. Qed.

Lemma ExtendedEuclidean_inv a b g x y : 0 ≤ a ≤ int64_max → 0 ≤ b ≤ int64_max →
  ExtendedEuclidean a b = Ok (g, x, y) → g = Z.gcd a b ∧ a * x + b * y = g.
Proof.
  intros Ha Hb H. destruct (ExtendedEuclidean_run a b Ha Hb) as (x0 & t & Ht & Hx & E). rewrite E in H.
  destruct (Z.eqb_spec b 0) as [->|Hb0].
  - injection H as <- <- <-. lia.
  - inv64. injection H as <- <- <-. split; [done|].
    replace (Z.gcd a b - x0 * a) with (b * t) by lia. by rewrite quot_exact.
Qed.

(** For non-negative 64-bit arguments the extended Euclidean algorithm ends within 128
    iterations and never overflows before its last two products; if it returns, it returns the
    greatest common divisor with coefficients that combine the arguments to it, and it returns
    whenever the product of the arguments is below [2^62]. *)
Theorem extended_euclidean_correct a b : 0 ≤ a ≤ int64_max → 0 ≤ b ≤ int64_max →
  match ExtendedEuclidean a b with
  | Ok (g, x, y) => g = Z.gcd a b ∧ a * x + b * y = g
  | Raise e => e = OverflowError ∧ 2 ^ 62 ≤ a * b
  end.
Proof.
  intros Ha Hb. destruct (ExtendedEuclidean a b) as [[[g x] y]|e] eqn:E; [by apply ExtendedEuclidean_inv|].
  destruct (ExtendedEuclidean_run a b Ha Hb) as (x & t & Ht & Hx & H). rewrite E in H.
  destruct (Z.eqb_spec b 0) as [->|Hb0]; [done|].
  assert (e = OverflowError) as ->.
  { unfold i64 in H. destruct (in64 (x * a)); cbn [mbind result_bind] in H; [|by injection H].
    destruct (in64 (Z.gcd a b - x * a)); cbn [mbind result_bind] in H; [|by injection H].
    destruct (in64 _); cbn [mbind result_bind] in H; [done|by injection H]. }
  split; [done|]. destruct (Z.le_gt_cases (2 ^ 62) (a * b)) as [|Hab]; [done|exfalso].
  assert (Z.abs (x * a) < 2 ^ 62) by (rewrite Z.abs_mul, (Z.abs_eq a) by lia; nia).
  assert (0 ≤ Z.gcd a b ≤ int64_max ∧ (a = 0 ∨ Z.gcd a b < 2 ^ 62)) as (Hg & Hg').
  { split; [split; [apply Z.gcd_nonneg|]|].
    - transitivity b; [|lia]. apply Z.divide_pos_le; [lia|apply Z.gcd_divide_r].
    - destruct (decide (a = 0)); [by left|right]. apply Z.le_lt_trans with a; [|nia].
      apply Z.divide_pos_le; [lia|apply Z.gcd_divide_l]. }
  assert (int64_max = 2 ^ 63 - 1 ∧ int64_min = - 2 ^ 63) as [E1 E2] by done.
  rewrite (i64_in (x * a)) in H by lia. cbn [mbind result_bind] in H.
  replace (Z.gcd a b - x * a) with (b * t) in H by lia.
  assert (- int64_max ≤ b * t ≤ int64_max) as Hbt.
  { replace (b * t) with (Z.gcd a b - x * a) by lia. destruct Hg' as [->|]; [rewrite Z.mul_0_r in *|]; lia. }
  rewrite (i64_in (b * t)) in H by lia. cbn [mbind result_bind] in H. rewrite quot_exact, i64_in in H; [done|nia|done].
Qed.

Lemma extended_euclidean_correct_witness : ExtendedEuclidean 240 46 = Ok (2, -9, 47) ∧ 2 = Z.gcd 240 46 ∧ 240 * -9 + 46 * 47 = 2.
Proof.
  assert (ExtendedEuclidean 240 46 = Ok (2, -9, 47)) as E by (by vm_compute). split; [exact E|].
  pose proof (extended_euclidean_correct 240 46) as H. rewrite E in H. apply H; by split; vm_compute.
Defined.

(** *** Divisions and overflow tests *)

Lemma rem_div_floor x y : y ≠ 0 →
  x / y = Z.quot x y - (if ((0 <=? y) && (0 <=? Z.rem x y)) || ((y <? 0) && (Z.rem x y <=? 0)) then 0 else 1).
Proof.
  intros Hy. pose proof (Z.quot_rem x y Hy) as Hqr. pose proof (Z.rem_bound_abs x y Hy) as Hb.
  symmetry. apply (Z.div_unique _ _ _ (x - y * (Z.quot x y - if ((0 <=? y) && (0 <=? Z.rem x y)) || ((y <? 0) && (Z.rem x y <=? 0)) then 0 else 1))); [|lia].
  destruct (Z.leb_spec 0 y), (Z.leb_spec 0 (Z.rem x y)), (Z.ltb_spec y 0), (Z.leb_spec (Z.rem x y) 0); cbn [andb orb]; lia.
Qed.

Lemma floordiv_inv x y z : floordiv x y = Ok z → y ≠ 0 ∧ z = x / y.
Proof.
  unfold floordiv, div64, rem64. destruct (Z.eqb_spec y 0) as [->|Hy]; [done|]. intros H.
  apply result_bind_ok in H as (q & Hq & H). apply result_bind_ok in H as (r & Hr & H). inv64.
  rewrite (rem_div_floor x y) by done. split; [done|]. destruct (_ || _); [injection H; lia|]. inv64. lia.
Qed.

Lemma WillOverflow_Add_inv x y lo hi r : WillOverflow_Add x y lo hi = Ok r → lo ≤ 0 ≤ hi →
  r = true ∧ (x + y < lo ∧ y < 0 ∨ hi < x + y ∧ 0 < y) ∨ r = false ∧ (y = 0 ∨ lo ≤ x + y ∧ y < 0 ∨ x + y ≤ hi ∧ 0 < y).
Proof.
  unfold WillOverflow_Add. intros H Hlh.
  destruct (Z.ltb_spec 0 y); cbn [mbind result_bind] in H; inv64; simplify_eq;
    try (destruct (Z.ltb_spec (hi - y) x); simplify_eq); destruct (Z.ltb_spec y 0); inv64; simplify_eq; try lia.
Qed.

(** The test of a product against a symmetric range *)
Lemma WillOverflow_Mul_inv x y hi r : 0 ≤ hi ≤ int64_max → WillOverflow_Mul x y (- hi) hi = Ok r →
  r = true ∧ (hi < x * y ∧ (0 < x ∧ 0 < y ∨ x < 0 ∧ y < 0) ∨ x * y < - hi ∧ (0 < x ∧ y < 0 ∨ x < 0 ∧ 0 < y)) ∨
  r = false ∧ - hi ≤ x * y ≤ hi.
Proof.
  intros Hhi. unfold WillOverflow_Mul, div64. destruct (Z.eqb_spec y 0) as [->|Hy].
  { intros [= <-]. right. rewrite Z.mul_0_r. lia. }
  destruct (Z.ltb_spec 0 y) as [Hp|Hp].
  - rewrite Z.quot_opp_l, Z.quot_div_nonneg by lia.
    pose proof (Z.div_mod hi y Hy) as Hd. pose proof (Z.mod_pos_bound hi y Hp) as Hm.
    assert (0 ≤ hi / y) by (apply Z.div_pos; lia). generalize dependent (hi / y). generalize dependent (hi mod y).
    intros m Hm d Hd Hd0 H. inv64. destruct (Z.ltb_spec x (- d)).
    + simplify_eq. left. split; [done|]. right. nia.
    + inv64. simplify_eq. destruct (Z.ltb_spec d x); [left|right]; (split; [done|]); [left|]; nia.
  - destruct ((y =? -1) && (x =? int64_min)) eqn:E.
    { intros [= <-]. apply andb_prop in E as [->%Z.eqb_eq ->%Z.eqb_eq]. left. split; [done|]. left.
      unfold int64_min, int64_max in *. lia. }
    clear E. replace (Z.quot (- hi) y) with (hi / (- y)) by (rewrite <-Z.quot_div_nonneg, Z.quot_opp_r, Z.quot_opp_l by lia; lia).
    replace (Z.quot hi y) with (- (hi / (- y))) by (rewrite <-Z.quot_div_nonneg, Z.quot_opp_r by lia; lia).
    pose proof (Z.div_mod hi (- y) ltac:(lia)) as Hd. pose proof (Z.mod_pos_bound hi (- y) ltac:(lia)) as Hm.
    assert (0 ≤ hi / (- y)) by (apply Z.div_pos; lia). generalize dependent (hi / (- y)). generalize dependent (hi mod (- y)).
    intros m Hm d Hd Hd0 H. inv64. destruct (Z.ltb_spec d x).
    + simplify_eq. left. split; [done|]. right. nia.
    + inv64. simplify_eq. destruct (Z.ltb_spec x (- d)); [left|right]; (split; [done|]); [left|]; nia.
Qed.
