(* ===== verification/TIR.v ===== *)
(** * Integer expressions of the compiler ([include/tvm/tir/expr.h])

    The scalar integer expressions the arithmetic analyzers look into, and their values. Variables
    are compared by identity, given as a number. Expressions the analyzers know nothing of (loads,
    calls and so on) are opaque. An expression has no value here if evaluating it overflows its
    type, divides by zero, shifts out of range or casts with loss: the analyzers assume that this
    does not happen. Both values of a [Select] are evaluated, as its documentation says. The extreme values of [int64_t], which the analyzers use as infinities, are no
    values either. *)

From S2P Require Import Prelude Int64.

(** ** Types *)

Inductive TypeCode := kInt | kUInt | kOther.
Record DataType := { dt_code : TypeCode; dt_bits : Z }.

#[export] Instance TypeCode_eq_dec : EqDecision TypeCode.
Proof. solve_decision. Defined.
#[export] Instance DataType_eq_dec : EqDecision DataType.
Proof. solve_decision. Defined.

Definition is_int (dt : DataType) : bool := bool_decide (dt_code dt = kInt).
Definition is_uint (dt : DataType) : bool := bool_decide (dt_code dt = kUInt).
Definition Bool : DataType := {| dt_code := kUInt; dt_bits := 1 |}.
Definition Int (bits : Z) : DataType := {| dt_code := kInt; dt_bits := bits |}.
Definition UInt (bits : Z) : DataType := {| dt_code := kUInt; dt_bits := bits |}.

(** ** Expressions *)

Record Var := { v_id : nat; v_dtype : DataType; v_size : bool (* a [SizeVar] *) }.
#[export] Instance Var_eq_dec : EqDecision Var.
Proof. solve_decision. Defined.

Inductive binop := Add | Sub | Mul | Div | Mod | FloorDiv | FloorMod | Min | Max.
Inductive cmpop := EQ | NE | LT | LE | GT | GE.
#[export] Instance binop_eq_dec : EqDecision binop.
Proof. solve_decision. Defined.
#[export] Instance cmpop_eq_dec : EqDecision cmpop.
Proof. solve_decision. Defined.

Inductive PrimExpr :=
| IntImm (dt : DataType) (value : Z)
| EVar (v : Var)
| Bin (op : binop) (a b : PrimExpr)
| Cmp (op : cmpop) (a b : PrimExpr)
| And (a b : PrimExpr)
| Or (a b : PrimExpr)
| Not (a : PrimExpr)
| Select (condition true_value false_value : PrimExpr)
| Cast (dt : DataType) (value : PrimExpr)
| Let (var : Var) (value body : PrimExpr)
| ShiftRight (a b : PrimExpr)
| BitwiseAnd (a b : PrimExpr)
| Opaque (dt : DataType) (id : nat).

#[export] Instance PrimExpr_eq_dec : EqDecision PrimExpr.
Proof. solve_decision. Defined.

(** [expr->dtype], as the constructors set it *)
Fixpoint dtype_of (e : PrimExpr) : DataType :=
  match e with
  | IntImm dt _ | Cast dt _ | Opaque dt _ => dt
  | EVar v => v_dtype v
  | Bin _ a _ | ShiftRight a _ | BitwiseAnd a _ => dtype_of a
  | Cmp _ _ _ | And _ _ | Or _ _ | Not _ => Bool
  | Select _ t _ => dtype_of t
  | Let _ _ body => dtype_of body
  end.

(** ** Values *)

Definition kPosInf : Z := int64_max.
Definition kNegInf : Z := - kPosInf.

(** Whether an integer is a value of a type, other than the extremes of [int64_t] *)
Definition fits (dt : DataType) (v : Z) : bool :=
  (kNegInf <? v) && (v <? kPosInf) &&
  match dt_code dt with
  | kInt => (- 2 ^ (dt_bits dt - 1) <=? v) && (v <? 2 ^ (dt_bits dt - 1)) && (0 <? dt_bits dt)
  | kUInt => (0 <=? v) && (v <? 2 ^ dt_bits dt) && (0 <=? dt_bits dt)
  | kOther => false
  end.

Definition guard (dt : DataType) (o : option Z) : option Z :=
  v ← o; if fits dt v then Some v else None.

Definition eval_bin (op : binop) (x y : Z) : option Z :=
  match op with
  | Add => Some (x + y)
  | Sub => Some (x - y)
  | Mul => Some (x * y)
  | Div => if y =? 0 then None else Some (Z.quot x y)
  | Mod => if y =? 0 then None else Some (Z.rem x y)
  | FloorDiv => if y =? 0 then None else Some (x / y)
  | FloorMod => if y =? 0 then None else Some (x mod y)
  | Min => Some (Z.min x y)
  | Max => Some (Z.max x y)
  end.

Definition eval_cmp (op : cmpop) (x y : Z) : bool :=
  match op with
  | EQ => x =? y
  | NE => negb (x =? y)
  | LT => x <? y
  | LE => x <=? y
  | GT => y <? x
  | GE => y <=? x
  end.

Definition truth (b : bool) : Z := if b then 1 else 0.

(** The value in an environment of variables and of opaque expressions *)
Fixpoint eval (other : nat → Z) (env : nat → Z) (e : PrimExpr) : option Z :=
  guard (dtype_of e)
    match e with
    | IntImm _ value => Some value
    | EVar v => if v_size v && (env (v_id v) <? 0) then None else Some (env (v_id v))
    | Bin op a b => x ← eval other env a; y ← eval other env b; eval_bin op x y
    | Cmp op a b => x ← eval other env a; y ← eval other env b; Some (truth (eval_cmp op x y))
    | And a b => x ← eval other env a; y ← eval other env b; Some (truth (negb (x =? 0) && negb (y =? 0)))
    | Or a b => x ← eval other env a; y ← eval other env b; Some (truth (negb (x =? 0) || negb (y =? 0)))
    | Not a => x ← eval other env a; Some (truth (x =? 0))
    | Select c t f => x ← eval other env c; y ← eval other env t; z ← eval other env f; Some (if x =? 0 then z else y)
    | Cast _ a => eval other env a
    | Let var value body =>
        x ← eval other env value;
        if fits (v_dtype var) x && negb (v_size var && (x <? 0))
        then eval other (λ i, if decide (i = v_id var) then x else env i) body else None
    | ShiftRight a b => x ← eval other env a; y ← eval other env b;
                        if (0 <=? y) && (y <? 64) then Some (Z.shiftr x y) else None
    | BitwiseAnd a b => x ← eval other env a; y ← eval other env b; Some (Z.land x y)
    | Opaque _ id => Some (other id)
    end.

(** The variables that occur in an expression, bound ones included *)
Fixpoint vars (e : PrimExpr) : list nat :=
  match e with
  | IntImm _ _ | Opaque _ _ => []
  | EVar v => [v_id v]
  | Bin _ a b | Cmp _ a b | And a b | Or a b | ShiftRight a b | BitwiseAnd a b => vars a ++ vars b
  | Not a | Cast _ a => vars a
  | Select c t f => vars c ++ vars t ++ vars f
  | Let var value body => v_id var :: vars value ++ vars body
  end.

(** No [Let] binds a variable that is known already, as in programs in single-assignment form. *)
Fixpoint scoped (known : list nat) (e : PrimExpr) : bool :=
  match e with
  | IntImm _ _ | Opaque _ _ | EVar _ => true
  | Bin _ a b | Cmp _ a b | And a b | Or a b | ShiftRight a b | BitwiseAnd a b => scoped known a && scoped known b
  | Not a | Cast _ a => scoped known a
  | Select c t f => scoped known c && scoped known t && scoped known f
  | Let var value body =>
      bool_decide (v_id var ∉ known) && scoped known value && scoped (v_id var :: known) body
  end.

(** ** Lemmas *)

Lemma guard_Some dt o v : guard dt o = Some v → o = Some v ∧ fits dt v = true.
Proof. unfold guard. intros (x & -> & H)%bind_Some. by destruct (fits dt x) eqn:E; simplify_eq. Qed.

Lemma eval_guard other env e v : eval other env e = Some v → fits (dtype_of e) v = true.
Proof. destruct e; cbn [eval]; by intros [_ H]%guard_Some. Qed.

Lemma fits_range dt v : fits dt v = true → kNegInf < v < kPosInf.
Proof. unfold fits. intros [[?%Z.ltb_lt ?%Z.ltb_lt]%andb_prop _]%andb_prop. done. Qed.

Lemma eval_range other env e v : eval other env e = Some v → kNegInf < v < kPosInf.
Proof. by intros ?%eval_guard%fits_range. Qed.

(** The value depends on the variables that occur only. *)
Lemma eval_agree other e : ∀ env env', (∀ i, i ∈ vars e → env i = env' i) → eval other env e = eval other env' e.
Proof.
  induction e as [| |? ? IH1 ? IH2|? ? IH1 ? IH2|? IH1 ? IH2|? IH1 ? IH2|? IH|? IH1 ? IH2 ? IH3|? ? IH|? ? IH1 ? IH2
    |? IH1 ? IH2|? IH1 ? IH2|]; intros env env' H; cbn [eval vars] in *; f_equal;
    try (rewrite (IH1 env env'), (IH2 env env') by set_solver; done);
    try (rewrite (IH env env') by set_solver; done); try done.
  - by rewrite (H (v_id v)) by set_solver.
  - by rewrite (IH1 env env'), (IH2 env env'), (IH3 env env') by set_solver.
  - rewrite (IH1 env env') by set_solver. destruct (eval other env' e1) as [x|]; [|done]. cbn.
    destruct (_ && _); [|done]. apply IH2. intros i Hi. case_decide; [done|]. set_solver.
Qed.
