(* ===== verification/ConstIntBound.v ===== *)
(** * Constant bounds of expressions ([src/arith/const_int_bound.cc])

    [ConstIntBoundAnalyzer]: an interval of [int64_t] for every expression, from the bounds of its
    variables and from constraints in force. A failing check of the code is an [AssertionError].
    Vector expressions and the table of remembered bounds are left out. *)

From S2P Require Import Prelude Int64 TIR.

Record Entry := { min_value : Z; max_value : Z }.
#[export] Instance Entry_eq_dec : EqDecision Entry.
Proof. solve_decision. Defined.

Definition is_const (e : Entry) (value : Z) : bool := (min_value e =? max_value e) && (min_value e =? value).

(** ** Helper functions *)

Definition MakeBound (min_value max_value : Z) : Entry :=
  {| min_value := if min_value =? kPosInf then min_value - 1 else min_value;
     max_value := if max_value =? kNegInf then max_value + 1 else max_value |}.

Definition Union (a b : Entry) : Entry :=
  {| min_value := Z.min (min_value a) (min_value b); max_value := Z.max (max_value a) (max_value b) |}.

Definition Intersect (a b : Entry) : Entry :=
  {| min_value := Z.max (min_value a) (min_value b); max_value := Z.min (max_value a) (max_value b) |}.

Definition Everything (dtype : DataType) : Entry :=
  if negb (is_int dtype) && negb (is_uint dtype) then MakeBound kNegInf kPosInf
  else
    let vbits := dt_bits dtype - (if is_int dtype then 1 else 0) in
    {| min_value := if is_uint dtype then 0 else if 63 <=? vbits then kNegInf else - Z.shiftl 1 vbits;
       max_value := if 63 <=? vbits then kPosInf else Z.shiftl 1 vbits - 1 |}.

Definition InfAwareAdd (x y : Z) : result Z :=
  if x =? kPosInf then _ ← py_assert (negb (y =? kNegInf)); Ok kPosInf
  else if x =? kNegInf then _ ← py_assert (negb (y =? kPosInf)); Ok kNegInf
  else if (y =? kPosInf) || (y =? kNegInf) then Ok y
  else
    o ← WillOverflow_Add x y kNegInf kPosInf;
    if o : bool then Ok (if 0 <? x then kPosInf else kNegInf) else add64 x y.

Definition InfAwareMul (x y : Z) : result Z :=
  o ← WillOverflow_Mul x y kNegInf kPosInf;
  if negb o then mul64 x y
  else if ((0 <? x) && (0 <? y)) || ((x <? 0) && (y <? 0)) then Ok kPosInf
  else Ok kNegInf.

Definition InfAwareDiv (x y : Z) : result Z :=
  _ ← py_assert (negb (y =? 0));
  if (x =? kPosInf) || (x =? kNegInf) then if 0 <? y then Ok x else neg64 x
  else div64 x y.

Definition InfAwareFloorDiv (x y : Z) : result Z :=
  _ ← py_assert (negb (y =? 0));
  if (x =? kPosInf) || (x =? kNegInf) then if 0 <? y then Ok x else neg64 x
  else floordiv x y.

Definition InfAwareRightShift (x y : Z) : result Z :=
  if (x =? kPosInf) || (x =? kNegInf) then Ok x else shr64 x y.

Definition BinaryOpBoundary (a b : Entry) (op : Z → Z → result Z) : result Entry :=
  v1 ← op (min_value a) (min_value b);
  v2 ← op (max_value a) (max_value b);
  v3 ← op (min_value a) (max_value b);
  v4 ← op (max_value a) (min_value b);
  Ok {| min_value := Z.min (Z.min (Z.min v1 v2) v3) v4; max_value := Z.max (Z.max (Z.max v1 v2) v3) v4 |}.

Definition HandleDivision (a b : Entry) (dt : DataType) (op : Z → Z → result Z) : result Entry :=
  if (min_value b <=? 0) && (0 <=? max_value b) then
    let b_neg := if min_value b <? 0 then MakeBound (min_value b) (-1) else Everything dt in
    let b_pos := if 0 <? max_value b then MakeBound 1 (max_value b) else Everything dt in
    e_neg ← BinaryOpBoundary a b_neg op;
    e_pos ← BinaryOpBoundary a b_pos op;
    Ok (MakeBound (Z.min (min_value e_neg) (min_value e_pos)) (Z.max (max_value e_neg) (max_value e_pos)))
  else BinaryOpBoundary a b op.

(** ** The operators *)

Definition bound_mod (dt : DataType) (a b : Entry) : result Entry :=
  if 0 <? min_value b then
    b_max_cap ← InfAwareAdd (max_value b) (-1);
    if 0 <=? min_value a then
      if max_value a <? min_value b then Ok a
      else Ok (MakeBound 0 (Z.min (max_value a) b_max_cap))
    else
      n ← neg64 b_max_cap;
      Ok (MakeBound (Z.max (min_value a) n) (Z.min (Z.max (max_value a) 0) b_max_cap))
  else
    _ ← py_assert (negb (is_const b 0));
    Ok (Everything dt).

Definition bound_floormod (dt : DataType) (a b : Entry) : result Entry :=
  if 0 <? min_value b then
    b_max_cap ← InfAwareAdd (max_value b) (-1);
    if 0 <=? min_value a then
      if max_value a <? min_value b then Ok a
      else Ok (MakeBound 0 (Z.min (max_value a) b_max_cap))
    else Ok (MakeBound 0 b_max_cap)
  else
    _ ← py_assert (negb (is_const b 0));
    b_min_cap ← InfAwareAdd (min_value b) 1;
    b_max_cap ← InfAwareAdd (max_value b) (-1);
    Ok (Intersect (MakeBound (Z.min 0 b_min_cap) (Z.max 0 b_max_cap)) (Everything dt)).

Definition bound_bin (op : binop) (dt : DataType) (a b : Entry) : result Entry :=
  match op with
  | Add => lo ← InfAwareAdd (min_value a) (min_value b); hi ← InfAwareAdd (max_value a) (max_value b);
           Ok {| min_value := lo; max_value := hi |}
  | Sub => nb ← neg64 (max_value b); lo ← InfAwareAdd (min_value a) nb;
           nb ← neg64 (min_value b); hi ← InfAwareAdd (max_value a) nb;
           Ok {| min_value := lo; max_value := hi |}
  | Mul => BinaryOpBoundary a b InfAwareMul
  | Div => _ ← py_assert (negb (is_const b 0)); HandleDivision a b dt InfAwareDiv
  | Mod => bound_mod dt a b
  | FloorDiv => _ ← py_assert (negb (is_const b 0)); HandleDivision a b dt InfAwareFloorDiv
  | FloorMod => bound_floormod dt a b
  | Min => Ok {| min_value := Z.min (min_value a) (min_value b); max_value := Z.min (max_value a) (max_value b) |}
  | Max => Ok {| min_value := Z.max (min_value a) (min_value b); max_value := Z.max (max_value a) (max_value b) |}
  end.

Definition bound_and (dt : DataType) (a b : Entry) : Entry :=
  if (0 <=? min_value a) && (0 <=? min_value b) then MakeBound 0 (Z.min (max_value a) (max_value b))
  else if 0 <=? min_value b then MakeBound 0 (max_value b)
  else if 0 <=? min_value a then MakeBound 0 (max_value a)
  else Everything dt.

(** ** The visitor *)

Abbreviation var_map := (gmap nat Entry).
(** [additional_info_] *)
Definition infos := list (PrimExpr * Entry).

(** The loop over the additional information, at the end of [VisitExpr] *)
Definition add_infos (infos : infos) (expr : PrimExpr) (res : Entry) : Entry :=
  foldl (λ res info, if decide (expr = info.1) then Intersect res info.2 else res) res infos.

(** [VisitExpr]; the map is changed by a [Let] for the time of its body only. *)
Fixpoint VisitExpr (infos : infos) (m : var_map) (e : PrimExpr) : result Entry :=
  res ← match e with
        | IntImm _ value => Ok (MakeBound value value)
        | EVar v => match m !! v_id v with
                    | Some e => Ok e
                    | None => Ok (if v_size v then MakeBound 0 kPosInf else Everything (v_dtype v))
                    end
        | Bin op a b =>
            x ← VisitExpr infos m a; y ← VisitExpr infos m b; bound_bin op (dtype_of e) x y
        | Select _ t f => x ← VisitExpr infos m t; y ← VisitExpr infos m f; Ok (Union x y)
        | Cast dt value => x ← VisitExpr infos m value; Ok (Intersect x (Everything dt))
        | Let var value body =>
            match m !! v_id var with
            | None => x ← VisitExpr infos m value; VisitExpr infos (<[v_id var := x]> m) body
            | Some _ => VisitExpr infos m body
            end
        | ShiftRight a b => x ← VisitExpr infos m a; y ← VisitExpr infos m b; BinaryOpBoundary x y InfAwareRightShift
        | BitwiseAnd a b => x ← VisitExpr infos m a; y ← VisitExpr infos m b; Ok (bound_and (dtype_of e) x y)
        | Cmp _ _ _ | And _ _ | Or _ _ | Not _ | Opaque _ _ => Ok (Everything (dtype_of e))
        end;
  Ok (add_infos infos e res).

(** ** The analyzer *)

Record ConstIntBoundAnalyzer := { cb_map : var_map; cb_infos : infos }.

Definition const_int_bound (s : ConstIntBoundAnalyzer) (e : PrimExpr) : result Entry :=
  VisitExpr (cb_infos s) (cb_map s) e.

(** [Update] with an entry *)
Definition update_entry (var : Var) (info : Entry) (allow_override : bool) : M ConstIntBoundAnalyzer unit :=
  s ← get_st;
  _ ← lift (match cb_map s !! v_id var with
            | Some old => py_assert (allow_override || bool_decide (old = info))
            | None => Ok tt
            end);
  put_st {| cb_map := <[v_id var := info]> (cb_map s); cb_infos := cb_infos s |}.

Definition Update (var : Var) (lo hi : Z) (allow_override : bool) : M ConstIntBoundAnalyzer unit :=
  update_entry var (MakeBound lo hi) allow_override.

(** [Bind] to a range of a minimum and an extent *)
Definition Bind (var : Var) (min extent : PrimExpr) (allow_override : bool) : M ConstIntBoundAnalyzer unit :=
  s ← get_st;
  a ← lift (const_int_bound s min);
  b ← lift (const_int_bound s extent);
  n ← lift (InfAwareAdd (max_value b) (-1));
  hi ← lift (InfAwareAdd (max_value a) n);
  update_entry var {| min_value := min_value a; max_value := hi |} allow_override.

Fixpoint DetectBoundInfo (cond : PrimExpr) : result infos :=
  match cond with
  | Cmp LE (IntImm _ c) x => Ok [(x, MakeBound c kPosInf)]
  | Cmp LT (IntImm _ c) x => c' ← add64 c 1; Ok [(x, MakeBound c' kPosInf)]
  | Cmp LE x (IntImm _ c) => Ok [(x, MakeBound kNegInf c)]
  | Cmp LT x (IntImm _ c) => c' ← sub64 c 1; Ok [(x, MakeBound kNegInf c')]
  | And x y => r1 ← DetectBoundInfo x; r2 ← DetectBoundInfo y; Ok (r1 ++ r2)
  | _ => Ok []
  end.

(** [EnterConstraint]; the result tells how many entries the recovery function removes. *)
Definition EnterConstraint (constraint : PrimExpr) : M ConstIntBoundAnalyzer nat :=
  info ← lift (DetectBoundInfo constraint);
  s ← get_st;
  _ ← put_st {| cb_map := cb_map s; cb_infos := cb_infos s ++ info |};
  mret (length info).

(** The recovery function [frecover], made when [old_size] entries were there *)
Definition frecover (old_size new_size : nat) : M ConstIntBoundAnalyzer unit :=
  s ← get_st;
  _ ← lift (py_assert (length (cb_infos s) =? new_size)%nat);
  put_st {| cb_map := cb_map s; cb_infos := take old_size (cb_infos s) |}.
