(* ===== verification/ConstIntBoundSound.v ===== *)
(** * Soundness of the constant bounds

    The interval computed for an expression contains its value. Every operator of the analyzer is
    shown to be sound by itself; the divisions and the shift are monotone in the same way, and
    share their proof. *)

From S2P Require Import Prelude Int64 TIR ConstIntBound.

(** The fields of an entry are 64-bit integers around the value. *)
Definition member (e : Entry) (v : Z) : Prop :=
  int64_min ≤ min_value e ≤ v ∧ v ≤ max_value e ≤ int64_max.

(** A value an expression can have *)
#[local] Abbreviation valid v := (kNegInf < v < kPosInf).

Lemma kNegInf_opp : kNegInf = - kPosInf.
Proof. done. Qed.
Lemma kPosInf_pos : 1 < kPosInf.
Proof. done. Qed.
Lemma int64_bounds : int64_max = kPosInf ∧ int64_min = - kPosInf - 1.
Proof. done. Qed.

(** Linear arithmetic with the infinities *)
Ltac infs := pose proof kPosInf_pos; destruct int64_bounds; rewrite ?kNegInf_opp in *; lia.

Lemma MakeBound_member lo hi v : valid v → int64_min ≤ lo ≤ v → v ≤ hi ≤ int64_max → member (MakeBound lo hi) v.
Proof.
  unfold member, MakeBound. cbn. intros Hv Hlo Hhi.
  destruct (Z.eqb_spec lo kPosInf), (Z.eqb_spec hi kNegInf); infs.
Qed.

Lemma Union_member a b u w : member a u → member b w → member (Union a b) u ∧ member (Union a b) w.
Proof. unfold member, Union. cbn. lia. Qed.

Lemma Intersect_member a b v : member a v → member b v → member (Intersect a b) v.
Proof. unfold member, Intersect. cbn. lia. Qed.

Lemma Everything_member dt v : fits dt v = true → member (Everything dt) v.
Proof.
  intros Hf. pose proof (fits_range _ _ Hf) as Hr. unfold fits in Hf. apply andb_prop in Hf as [_ Hf].
  assert (∀ n, 0 ≤ n < 63 → 0 < 2 ^ n ≤ 2 ^ 62) as Hpow.
  { intros n Hn. split; [apply Z.pow_pos_nonneg; lia|apply Z.pow_le_mono_r; lia]. }
  unfold member, Everything, is_int, is_uint. destruct (dt_code dt); cbn [negb andb bool_decide]; [| |done].
  - rewrite bool_decide_eq_true_2, bool_decide_eq_false_2 by done. cbn [negb andb min_value max_value].
    apply andb_prop in Hf as [[?%Z.leb_le ?%Z.ltb_lt]%andb_prop ?%Z.ltb_lt].
    destruct (Z.leb_spec 63 (dt_bits dt - 1)); [infs|]. rewrite Z.shiftl_1_l.
    pose proof (Hpow (dt_bits dt - 1)). unfold int64_max, int64_min. lia.
  - rewrite bool_decide_eq_false_2, bool_decide_eq_true_2 by done. cbn [negb andb min_value max_value].
    apply andb_prop in Hf as [[?%Z.leb_le ?%Z.ltb_lt]%andb_prop ?%Z.leb_le]. rewrite Z.sub_0_r.
    destruct (Z.leb_spec 63 (dt_bits dt)); [infs|]. rewrite Z.shiftl_1_l.
    pose proof (Hpow (dt_bits dt)). unfold int64_max, int64_min. lia.
Qed.

(** ** Saturating arithmetic *)

Lemma InfAwareAdd_lower x y r u w : InfAwareAdd x y = Ok r → int64_min ≤ x ≤ u → int64_min ≤ y ≤ w → valid u → valid w →
  - kPosInf ≤ u + w ≤ kPosInf → int64_min ≤ r ≤ u + w.
Proof.
  unfold InfAwareAdd. intros H Hx Hy Hu Hw Huw. rewrite kNegInf_opp in *.
  destruct (Z.eqb_spec x kPosInf); [lia|]. destruct (Z.eqb_spec x (- kPosInf)); [inv64; simplify_eq; infs|].
  destruct (Z.eqb_spec y kPosInf); [lia|]. destruct (Z.eqb_spec y (- kPosInf)); cbn [orb] in H; [simplify_eq; infs|].
  apply result_bind_ok in H as (o & Ho & H). apply WillOverflow_Add_inv in Ho; [|pose proof kPosInf_pos; lia].
  destruct Ho as [[-> Ho]|[-> Ho]]; [|inv64; infs]. injection H as <-. destruct (Z.ltb_spec 0 x); infs.
Qed.

Lemma InfAwareAdd_upper x y r u w : InfAwareAdd x y = Ok r → u ≤ x ≤ int64_max → w ≤ y ≤ int64_max → valid u → valid w →
  - kPosInf ≤ u + w → Z.min (u + w) kPosInf ≤ r ≤ int64_max.
Proof.
  unfold InfAwareAdd. intros H Hx Hy Hu Hw Huw. rewrite kNegInf_opp in *.
  destruct (Z.eqb_spec x kPosInf); [inv64; simplify_eq; infs|]. destruct (Z.eqb_spec x (- kPosInf)); [lia|].
  destruct (Z.eqb_spec y kPosInf); cbn [orb] in H; [simplify_eq; infs|]. destruct (Z.eqb_spec y (- kPosInf)); [lia|].
  apply result_bind_ok in H as (o & Ho & H). apply WillOverflow_Add_inv in Ho; [|pose proof kPosInf_pos; lia].
  destruct Ho as [[-> Ho]|[-> Ho]]; [|inv64; infs]. injection H as <-. destruct (Z.ltb_spec 0 x); infs.
Qed.

Lemma InfAwareMul_inv x y r : InfAwareMul x y = Ok r →
  int64_min ≤ r ≤ int64_max ∧ (r = x * y ∨ r = kPosInf ∧ kPosInf < x * y ∨ r = kNegInf ∧ x * y < kNegInf).
Proof.
  unfold InfAwareMul. intros H. apply result_bind_ok in H as (o & Ho & H).
  apply (WillOverflow_Mul_inv x y kPosInf) in Ho; [|by split; vm_compute].
  destruct Ho as [[-> Ho]|[-> Ho]]; cbn [negb] in H; [|inv64; by split; [|left]].
  rewrite kNegInf_opp in *.
  destruct (Z.ltb_spec 0 x), (Z.ltb_spec 0 y), (Z.ltb_spec x 0), (Z.ltb_spec y 0); cbn [andb orb] in H; simplify_eq; infs.
Qed.

(** ** Boundaries *)

(** An interval whose corners bound a value from both sides contains it. *)
Lemma BinaryOpBoundary_member a b op e v : BinaryOpBoundary a b op = Ok e →
  (∀ x y r, op x y = Ok r → int64_min ≤ x ≤ int64_max → int64_min ≤ r ≤ int64_max) →
  int64_min ≤ min_value a ≤ int64_max → int64_min ≤ max_value a ≤ int64_max →
  (∃ x y, (x = min_value a ∨ x = max_value a) ∧ (y = min_value b ∨ y = max_value b) ∧ ∀ r, op x y = Ok r → r ≤ v) →
  (∃ x y, (x = min_value a ∨ x = max_value a) ∧ (y = min_value b ∨ y = max_value b) ∧ ∀ r, op x y = Ok r → v ≤ r) →
  member e v.
Proof.
  unfold BinaryOpBoundary. intros H Hop Hmin Hmax (x1 & y1 & Hx1 & Hy1 & H1) (x2 & y2 & Hx2 & Hy2 & H2).
  apply result_bind_ok in H as (v1 & E1 & H). apply result_bind_ok in H as (v2 & E2 & H).
  apply result_bind_ok in H as (v3 & E3 & H). apply result_bind_ok in H as (v4 & E4 & H). injection H as <-.
  pose proof (Hop _ _ _ E1 Hmin). pose proof (Hop _ _ _ E2 Hmax). pose proof (Hop _ _ _ E3 Hmin). pose proof (Hop _ _ _ E4 Hmax).
  clear Hop Hmin Hmax. unfold member. cbn.
  destruct Hx1 as [-> | ->], Hy1 as [-> | ->]; specialize (H1 _ ltac:(eassumption));
    destruct Hx2 as [-> | ->], Hy2 as [-> | ->]; specialize (H2 _ ltac:(eassumption)); lia.
Qed.

Lemma mul_corners a1 a2 b1 b2 u w : a1 ≤ u ≤ a2 → b1 ≤ w ≤ b2 →
  (∃ x y, (x = a1 ∨ x = a2) ∧ (y = b1 ∨ y = b2) ∧ x * y ≤ u * w) ∧
  (∃ x y, (x = a1 ∨ x = a2) ∧ (y = b1 ∨ y = b2) ∧ u * w ≤ x * y).
Proof.
  intros Ha Hb. assert (∀ x, ∃ y, (y = b1 ∨ y = b2) ∧ x * y ≤ x * w) as Hlo.
  { intros x. destruct (Z.le_gt_cases 0 x); [exists b1|exists b2]; (split; [tauto|nia]). }
  assert (∀ x, ∃ y, (y = b1 ∨ y = b2) ∧ x * w ≤ x * y) as Hhi.
  { intros x. destruct (Z.le_gt_cases 0 x); [exists b2|exists b1]; (split; [tauto|nia]). }
  split; destruct (Z.le_gt_cases 0 w).
  - destruct (Hlo a1) as (y & Hy & ?). exists a1, y. split; [tauto|]. split; [done|nia].
  - destruct (Hlo a2) as (y & Hy & ?). exists a2, y. split; [tauto|]. split; [done|nia].
  - destruct (Hhi a2) as (y & Hy & ?). exists a2, y. split; [tauto|]. split; [done|nia].
  - destruct (Hhi a1) as (y & Hy & ?). exists a1, y. split; [tauto|]. split; [done|nia].
Qed.

Lemma mul_member a b e u w : BinaryOpBoundary a b InfAwareMul = Ok e →
  member a u → member b w → valid (u * w) → member e (u * w).
Proof.
  intros H Ha Hb Hv.
  destruct (mul_corners (min_value a) (max_value a) (min_value b) (max_value b) u w)
    as [(x1 & y1 & Hx1 & Hy1 & H1) (x2 & y2 & Hx2 & Hy2 & H2)]; [unfold member in *; lia..|].
  apply (BinaryOpBoundary_member _ _ _ _ _ H); [|unfold member in *; lia..| |].
  - by intros x y r [Hr _]%InfAwareMul_inv.
  - exists x1, y1. split_and!; [done|done|]. intros r Hr%InfAwareMul_inv. infs.
  - exists x2, y2. split_and!; [done|done|]. intros r Hr%InfAwareMul_inv. infs.
Qed.

(** ** Divisions *)

Section division.
(** A division, and the operation of the analyzer for it *)
Variable f : Z → Z → Z.
Variable op : Z → Z → result Z.
Hypothesis f_mono : ∀ u u' w, u ≤ u' → 0 < w → f u w ≤ f u' w.
Hypothesis f_anti_pos : ∀ u w w', 0 ≤ u → 0 < w ≤ w' → f u w' ≤ f u w.
Hypothesis f_mono_neg : ∀ u w w', u ≤ 0 → 0 < w ≤ w' → f u w ≤ f u w'.
Hypothesis f_opp : ∀ u w, w ≠ 0 → f (- u) (- w) = f u w.
Hypothesis op_inv : ∀ x y r, op x y = Ok r →
  int64_min ≤ r ≤ int64_max ∧ y ≠ 0 ∧
  (if decide (x = kPosInf ∨ x = kNegInf) then r = if 0 <? y then x else - x else r = f x y).

Lemma op_lower x y r v : op x y = Ok r → valid v →
  (0 < y → x < kPosInf) → (y < 0 → kNegInf < x) → f x y ≤ v → r ≤ v.
Proof.
  intros (_ & Hy & H)%op_inv Hv Hp Hn Hf. case_decide as Hx; [|lia].
  destruct (Z.ltb_spec 0 y); subst r; destruct Hx as [-> | ->]; infs.
Qed.

Lemma op_upper x y r v : op x y = Ok r → valid v →
  (0 < y → kNegInf < x) → (y < 0 → x < kPosInf) → v ≤ f x y → v ≤ r.
Proof.
  intros (_ & Hy & H)%op_inv Hv Hp Hn Hf. case_decide as Hx; [|lia].
  destruct (Z.ltb_spec 0 y); subst r; destruct Hx as [-> | ->]; infs.
Qed.

Lemma division_member a b e u w : BinaryOpBoundary a b op = Ok e → member a u → member b w →
  0 < min_value b ∨ max_value b < 0 → valid u → valid (f u w) → member e (f u w).
Proof.
  intros H [Ha1 Ha2] [Hb1 Hb2] Hb Hu Hv. apply (BinaryOpBoundary_member _ _ _ _ _ H); [|infs..| |].
  { intros x y r (Hr & _)%op_inv _. done. }
  - destruct Hb as [Hb|Hb].
    + exists (min_value a), (if decide (0 ≤ min_value a) then max_value b else min_value b).
      split; [tauto|]. split; [case_decide; tauto|]. intros r Hr. eapply op_lower; [exact Hr|done|infs|case_decide; infs|].
      etrans; [|apply (f_mono (min_value a)); lia]. case_decide; [apply f_anti_pos|apply f_mono_neg]; lia.
    + exists (max_value a), (if decide (max_value a ≤ 0) then min_value b else max_value b).
      split; [tauto|]. split; [case_decide; tauto|]. intros r Hr. eapply op_lower; [exact Hr|done|case_decide; infs|infs|].
      rewrite <-(f_opp u w), <-f_opp by (case_decide; lia).
      etrans; [|apply (f_mono (- max_value a)); lia]. case_decide; [apply f_anti_pos|apply f_mono_neg]; lia.
  - destruct Hb as [Hb|Hb].
    + exists (max_value a), (if decide (0 ≤ max_value a) then min_value b else max_value b).
      split; [tauto|]. split; [case_decide; tauto|]. intros r Hr. eapply op_upper; [exact Hr|done|infs|case_decide; infs|].
      etrans; [apply (f_mono _ (max_value a)); lia|]. case_decide; [apply f_anti_pos|apply f_mono_neg]; lia.
    + exists (min_value a), (if decide (min_value a ≤ 0) then max_value b else min_value b).
      split; [tauto|]. split; [case_decide; tauto|]. intros r Hr. eapply op_upper; [exact Hr|done|case_decide; infs|infs|].
      rewrite <-(f_opp u w), <-(f_opp (min_value a)) by (case_decide; lia).
      etrans; [apply (f_mono _ (- min_value a)); lia|]. case_decide; [apply f_anti_pos|apply f_mono_neg]; lia.
Qed.

(** The endpoints of any boundary are 64-bit integers. *)
Lemma boundary_in64 a b e : BinaryOpBoundary a b op = Ok e →
  int64_min ≤ min_value e ≤ int64_max ∧ int64_min ≤ max_value e ≤ int64_max.
Proof.
  unfold BinaryOpBoundary. intros H. inv64. injection H as <-. cbn.
  repeat match goal with Hr : op _ _ = Ok _ |- _ => apply op_inv in Hr as (? & _) end. lia.
Qed.

Lemma HandleDivision_member a b dt e u w : HandleDivision a b dt op = Ok e → member a u → member b w →
  w ≠ 0 → valid u → valid w → valid (f u w) → member e (f u w).
Proof.
  unfold HandleDivision. intros H Ha Hb Hw Hu Hwv Hv. pose proof Hb as [Hb1 Hb2].
  destruct (Z.leb_spec (min_value b) 0), (Z.leb_spec 0 (max_value b)); cbn [andb] in H;
    try (by eapply division_member; [done..|lia|done|done]).
  apply result_bind_ok in H as (en & Hn & H). apply result_bind_ok in H as (ep & Hp & [= <-]).
  pose proof (boundary_in64 _ _ _ Hn) as [Rn1 Rn2]. pose proof (boundary_in64 _ _ _ Hp) as [Rp1 Rp2].
  assert (member en (f u w) ∨ member ep (f u w)) as Hm.
  { destruct (Z.lt_gt_cases w 0) as [[Hs|Hs] _]; [done|left|right].
    - rewrite (proj2 (Z.ltb_lt (min_value b) 0)) in Hn by lia.
      eapply division_member; [exact Hn|done|apply MakeBound_member; infs| |done|done].
      right. change (-1 < 0). lia.
    - rewrite (proj2 (Z.ltb_lt 0 (max_value b))) in Hp by lia.
      eapply division_member; [exact Hp|done|apply MakeBound_member; infs| |done|done].
      left. change (0 < 1). lia. }
  apply MakeBound_member; unfold member in *; [done|lia|lia].
Qed.
End division.

Lemma InfAwareDiv_inv x y r : InfAwareDiv x y = Ok r →
  int64_min ≤ r ≤ int64_max ∧ y ≠ 0 ∧
  (if decide (x = kPosInf ∨ x = kNegInf) then r = if 0 <? y then x else - x else r = Z.quot x y).
Proof.
  unfold InfAwareDiv. intros H. apply result_bind_ok in H as (? & Hy%py_assert_ok & H).
  apply negb_true_iff in Hy as Hy0. apply negb_true_iff, Z.eqb_neq in Hy.
  split; [|split; [done|]].
  - destruct (Z.eqb_spec x kPosInf), (Z.eqb_spec x kNegInf); cbn [orb] in H; try destruct (0 <? y);
      unfold div64 in H; rewrite ?Hy0 in H; inv64; simplify_eq; infs.
  - case_decide as Hx.
    + destruct (Z.eqb_spec x kPosInf), (Z.eqb_spec x kNegInf); cbn [orb] in H; try destruct (0 <? y); inv64; simplify_eq; tauto.
    + rewrite (proj2 (Z.eqb_neq x kPosInf)), (proj2 (Z.eqb_neq x kNegInf)) in H by tauto. cbn [orb] in H.
      unfold div64 in H. rewrite Hy0 in H. by inv64.
Qed.

Lemma floordiv_in64 x y r : floordiv x y = Ok r → int64_min ≤ r ≤ int64_max.
Proof.
  unfold floordiv, div64, rem64. destruct (y =? 0); [done|]. intros H. inv64.
  destruct (_ || _); [simplify_eq; done|]. by inv64.
Qed.

Lemma InfAwareFloorDiv_inv x y r : InfAwareFloorDiv x y = Ok r →
  int64_min ≤ r ≤ int64_max ∧ y ≠ 0 ∧
  (if decide (x = kPosInf ∨ x = kNegInf) then r = if 0 <? y then x else - x else r = x / y).
Proof.
  unfold InfAwareFloorDiv. intros H. apply result_bind_ok in H as (? & Hy%py_assert_ok & H).
  apply negb_true_iff, Z.eqb_neq in Hy.
  split; [|split; [done|]].
  - destruct (Z.eqb_spec x kPosInf), (Z.eqb_spec x kNegInf); cbn [orb] in H; try destruct (0 <? y);
      inv64; simplify_eq; infs || by eapply floordiv_in64.
  - case_decide as Hx.
    + destruct (Z.eqb_spec x kPosInf), (Z.eqb_spec x kNegInf); cbn [orb] in H; try destruct (0 <? y); inv64; simplify_eq; tauto.
    + rewrite (proj2 (Z.eqb_neq x kPosInf)), (proj2 (Z.eqb_neq x kNegInf)) in H by tauto. cbn [orb] in H.
      by apply floordiv_inv in H as [_ ->].
Qed.

Lemma floor_mono_neg u w w' : u ≤ 0 → 0 < w ≤ w' → u / w ≤ u / w'.
Proof.
  intros Hu Hw. apply Z.div_le_lower_bound; [lia|]. pose proof (Z.mul_div_le u w ltac:(lia)).
  assert (u / w ≤ 0) by (apply Z.div_le_upper_bound; lia). nia.
Qed.

Lemma quot_mono_neg u w w' : u ≤ 0 → 0 < w ≤ w' → Z.quot u w ≤ Z.quot u w'.
Proof.
  intros Hu Hw. pose proof (Z.quot_le_compat_l (- u) w w' ltac:(lia) Hw). rewrite !Z.quot_opp_l in H by lia. lia.
Qed.

Lemma quotient_member a b dt e u w : HandleDivision a b dt InfAwareDiv = Ok e → member a u → member b w →
  w ≠ 0 → valid u → valid w → valid (Z.quot u w) → member e (Z.quot u w).
Proof.
  apply (HandleDivision_member Z.quot InfAwareDiv); [| |exact quot_mono_neg| |exact InfAwareDiv_inv]; intros.
  - apply Z.quot_le_mono; lia.
  - apply Z.quot_le_compat_l; lia.
  - by apply Z.quot_opp_opp.
Qed.

Lemma floor_member a b dt e u w : HandleDivision a b dt InfAwareFloorDiv = Ok e → member a u → member b w →
  w ≠ 0 → valid u → valid w → valid (u / w) → member e (u / w).
Proof.
  apply (HandleDivision_member Z.div InfAwareFloorDiv); [| |exact floor_mono_neg| |exact InfAwareFloorDiv_inv]; intros.
  - apply Z.div_le_mono; lia.
  - apply Z.div_le_compat_l; lia.
  - by apply Z.div_opp_opp.
Qed.

(** ** Remainders *)

Lemma cap_upper b w r : InfAwareAdd (max_value b) (-1) = Ok r → member b w → valid w → w - 1 ≤ r ≤ int64_max.
Proof. intros H [Hb1 Hb2] Hw. apply (InfAwareAdd_upper _ _ _ w (-1)) in H; infs. Qed.

Lemma cap_lower b w r : InfAwareAdd (min_value b) 1 = Ok r → member b w → valid w → int64_min ≤ r ≤ w + 1.
Proof. intros H [Hb1 Hb2] Hw. apply (InfAwareAdd_lower _ _ _ w 1) in H; infs. Qed.

Lemma rem_member dt a b e u w : bound_mod dt a b = Ok e → member a u → member b w → w ≠ 0 → valid u → valid w →
  fits dt (Z.rem u w) = true → member e (Z.rem u w).
Proof.
  unfold bound_mod. intros H Ha Hb Hw Hu Hwv Hf. pose proof (fits_range _ _ Hf) as Hv.
  pose proof Ha as [Ha1 Ha2]. pose proof Hb as [Hb1 Hb2].
  destruct (Z.ltb_spec 0 (min_value b)); [|inv64; simplify_eq; by apply Everything_member].
  apply result_bind_ok in H as (cap & Hcap & H). apply (cap_upper b w) in Hcap; [|done..].
  destruct (Z.leb_spec 0 (min_value a)).
  - pose proof (Z.rem_bound_pos u w ltac:(lia) ltac:(lia)).
    assert (Z.rem u w ≤ u) by (rewrite Z.rem_mod_nonneg by lia; apply Z.mod_le; lia).
    destruct (Z.ltb_spec (max_value a) (min_value b)); injection H as <-; [by rewrite Z.rem_small by lia|].
    apply MakeBound_member; infs.
  - inv64. simplify_eq. pose proof (Z.quot_rem u w Hw). pose proof (Z.rem_bound_abs u w Hw).
    assert (0 ≤ u → 0 ≤ Z.rem u w ≤ u) by (intros; split; [apply Z.rem_nonneg; lia|rewrite Z.rem_mod_nonneg by lia; apply Z.mod_le; lia]).
    assert (u ≤ 0 → u ≤ Z.rem u w ≤ 0).
    { intros Hu0. pose proof (Z.rem_opp_l u w Hw). assert (0 ≤ Z.rem (- u) w ≤ - u); [|lia].
      split; [apply Z.rem_nonneg; lia|rewrite Z.rem_mod_nonneg by lia; apply Z.mod_le; lia]. }
    apply MakeBound_member; infs.
Qed.

Lemma floormod_member dt a b e u w : bound_floormod dt a b = Ok e → member a u → member b w → w ≠ 0 → valid u → valid w →
  fits dt (u mod w) = true → member e (u mod w).
Proof.
  unfold bound_floormod. intros H Ha Hb Hw Hu Hwv Hf. pose proof (fits_range _ _ Hf) as Hv.
  pose proof Ha as [Ha1 Ha2]. pose proof Hb as [Hb1 Hb2].
  assert (0 < w → 0 ≤ u mod w < w) by (intros; by apply Z.mod_pos_bound).
  assert (w < 0 → w < u mod w ≤ 0) by (intros; by apply Z.mod_neg_bound).
  destruct (Z.ltb_spec 0 (min_value b)).
  - apply result_bind_ok in H as (cap & Hcap & H). apply (cap_upper b w) in Hcap; [|done..].
    destruct (Z.leb_spec 0 (min_value a)); [|injection H as <-; apply MakeBound_member; infs].
    assert (u mod w ≤ u) by (apply Z.mod_le; lia).
    destruct (Z.ltb_spec (max_value a) (min_value b)); injection H as <-; [by rewrite Z.mod_small by lia|].
    apply MakeBound_member; infs.
  - apply result_bind_ok in H as (? & _ & H). apply result_bind_ok in H as (c1 & Hc1 & H).
    apply result_bind_ok in H as (c2 & Hc2 & [= <-]).
    apply (cap_upper b w) in Hc2; [|done..]. apply (cap_lower b w) in Hc1; [|done..].
    apply Intersect_member; [|by apply Everything_member]. apply MakeBound_member; [done|infs|infs].
Qed.

(** ** Shifts and masks *)

Lemma InfAwareRightShift_inv x y r : InfAwareRightShift x y = Ok r →
  (x = kPosInf ∨ x = kNegInf) ∧ r = x ∨ 0 ≤ y ∧ r = x / 2 ^ y ∧ int64_min ≤ r ≤ int64_max.
Proof.
  unfold InfAwareRightShift, shr64. destruct (Z.eqb_spec x kPosInf), (Z.eqb_spec x kNegInf); cbn [orb];
    try (intros [= ->]; tauto). destruct (Z.leb_spec 0 y); [|done]. destruct (y <? 64); [|done]. cbn [andb].
  intros [-> Hr]%i64_inv. right. by rewrite Z.shiftr_div_pow2 in * by done.
Qed.

Lemma shift_member a b e u w : BinaryOpBoundary a b InfAwareRightShift = Ok e → member a u → member b w →
  0 ≤ w → valid u → valid (u / 2 ^ w) → member e (u / 2 ^ w).
Proof.
  intros H [Ha1 Ha2] [Hb1 Hb2] Hw Hu Hv.
  assert (∀ n m, 0 ≤ n ≤ m → 0 < 2 ^ n ≤ 2 ^ m) as Hpow
    by (intros; split; [apply Z.pow_pos_nonneg; lia|apply Z.pow_le_mono_r; lia]).
  assert (0 < 2 ^ w) by (apply (Hpow w w); lia).
  apply (BinaryOpBoundary_member _ _ _ _ _ H); [|infs..| |].
  - intros x y r [[Hx ->]|(_ & _ & Hr)]%InfAwareRightShift_inv Hxr; done.
  - exists (min_value a), (if decide (0 ≤ min_value a) then max_value b else min_value b).
    split; [tauto|]. split; [case_decide; tauto|]. intros r [[Hx ->]|(Hy & -> & _)]%InfAwareRightShift_inv; [infs|].
    etrans; [|apply (Z.div_le_mono (min_value a)); lia].
    case_decide; [apply Z.div_le_compat_l|apply floor_mono_neg]; try lia; apply Hpow; lia.
  - exists (max_value a), (if decide (0 ≤ max_value a) then min_value b else max_value b).
    split; [tauto|]. split; [case_decide; tauto|]. intros r [[Hx ->]|(Hy & -> & _)]%InfAwareRightShift_inv; [infs|].
    etrans; [apply (Z.div_le_mono _ (max_value a)); lia|].
    case_decide; [apply Z.div_le_compat_l|apply floor_mono_neg]; try lia; apply Hpow; lia.
Qed.

Lemma land_le x y : 0 ≤ y → 0 ≤ Z.land x y ≤ y.
Proof.
  intros Hy. split; [apply Z.land_nonneg; by right|].
  assert (y - Z.land x y = Z.ldiff y (Z.land x y)) as He.
  { apply Z.sub_nocarry_ldiff. apply Z.bits_inj'. intros n Hn. rewrite Z.ldiff_spec, Z.land_spec, Z.bits_0.
    by destruct (Z.testbit x n), (Z.testbit y n). }
  assert (0 ≤ Z.ldiff y (Z.land x y)) by (apply Z.ldiff_nonneg; by left). lia.
Qed.

Lemma and_member dt a b u w : member a u → member b w → valid (Z.land u w) → fits dt (Z.land u w) = true →
  member (bound_and dt a b) (Z.land u w).
Proof.
  intros [Ha1 Ha2] [Hb1 Hb2] Hv Hf. unfold bound_and.
  pose proof (land_le u w) as H1. pose proof (land_le w u) as H2. rewrite (Z.land_comm w u) in H2.
  destruct (Z.leb_spec 0 (min_value a)), (Z.leb_spec 0 (min_value b)); cbn [andb];
    [apply MakeBound_member; infs|apply MakeBound_member; infs|apply MakeBound_member; infs|by apply Everything_member].
Qed.

(** ** The operators together *)

Lemma bound_bin_member op dt a b e u w v : bound_bin op dt a b = Ok e → member a u → member b w →
  valid u → valid w → eval_bin op u w = Some v → fits dt v = true → member e v.
Proof.
  intros H Ha Hb Hu Hw Hv Hf. pose proof (fits_range _ _ Hf) as Hr. pose proof Ha as [Ha1 Ha2]. pose proof Hb as [Hb1 Hb2].
  destruct op; cbn [bound_bin eval_bin] in *; try (destruct (Z.eqb_spec w 0); [done|]); injection Hv as <-.
  - apply result_bind_ok in H as (lo & Hlo & H). apply result_bind_ok in H as (hi & Hhi & [= <-]).
    apply (InfAwareAdd_lower _ _ _ u w) in Hlo; [|infs..]. apply (InfAwareAdd_upper _ _ _ u w) in Hhi; [|infs..].
    unfold member. cbn. infs.
  - apply result_bind_ok in H as (n1 & Hn1 & H). apply result_bind_ok in H as (lo & Hlo & H).
    apply result_bind_ok in H as (n2 & Hn2 & H). apply result_bind_ok in H as (hi & Hhi & [= <-]). inv64.
    apply (InfAwareAdd_lower _ _ _ u (- w)) in Hlo; [|infs..]. apply (InfAwareAdd_upper _ _ _ u (- w)) in Hhi; [|infs..].
    unfold member. cbn. infs.
  - by eapply mul_member.
  - apply result_bind_ok in H as (? & _ & H). by eapply quotient_member.
  - by eapply rem_member.
  - apply result_bind_ok in H as (? & _ & H). by eapply floor_member.
  - by eapply floormod_member.
  - injection H as <-. unfold member. cbn. lia.
  - injection H as <-. unfold member. cbn. lia.
Qed.

(** ** Expressions *)

(** The analyzer knows only true things about the variables [known]. *)
Definition consistent (other env : nat → Z) (known : list nat) (infos : infos) (m : var_map) : Prop :=
  (∀ i en, m !! i = Some en → i ∈ known ∧ member en (env i)) ∧
  (∀ e en, (e, en) ∈ infos → (∀ i, i ∈ vars e → i ∈ known) ∧ ∀ v, eval other env e = Some v → member en v).

Lemma add_infos_member other env known infos m e r v : consistent other env known infos m →
  eval other env e = Some v → member r v → member (add_infos infos e r) v.
Proof.
  intros [_ Hi] Hv. unfold add_infos. revert r. induction infos as [|[e' en] infos IH]; intros r Hr; [done|]. cbn [foldl].
  apply IH; [intros ? ? ?; apply Hi; by right|]. cbn [fst snd]. case_decide as He; [|done]. subst e'.
  apply Intersect_member; [done|]. apply (Hi e en); [by left|done].
Qed.

Lemma consistent_let other env known infos m i en x : consistent other env known infos m → i ∉ known → member en x →
  consistent other (λ j, if decide (j = i) then x else env j) (i :: known) infos (<[i := en]> m).
Proof.
  intros [Hm Hi] Hk Hen. split.
  - intros j ej. destruct (decide (j = i)) as [->|Hj].
    + rewrite lookup_insert_eq. intros [= <-]. split; [by left|]. cbn beta. by destruct (decide (i = i)).
    + rewrite lookup_insert_ne by done. intros [Hjk Hej]%Hm. split; [by right|]. cbn beta. by destruct (decide (j = i)).
  - intros e ee He. destruct (Hi e ee He) as [Hv Hev]. split; [intros j Hj; right; by apply Hv|].
    intros v Hv'. apply Hev. rewrite <-Hv'. apply eval_agree. intros j Hj. cbn beta.
    destruct (decide (j = i)) as [->|]; [by destruct Hk; apply Hv|done].
Qed.

Lemma VisitExpr_member other infos e : ∀ env known m en v, consistent other env known infos m → scoped known e = true →
  VisitExpr infos m e = Ok en → eval other env e = Some v → member en v.
Proof.
  induction e as [|v0|op a IH1 b IH2|? a IH1 b IH2|a IH1 b IH2|a IH1 b IH2|a IH|c IH1 t IH2 f IH3|dt a IH|var x IH1 body IH2
    |a IH1 b IH2|a IH1 b IH2|]; intros env known m en v Hc Hs H Hv; cbn [VisitExpr scoped] in *;
    apply result_bind_ok in H as (r & H & [= <-]); (eapply add_infos_member; [exact Hc|exact Hv|]);
    pose proof (eval_guard _ _ _ _ Hv) as Hf; pose proof (fits_range _ _ Hf) as Hr;
    cbn [eval] in Hv; apply guard_Some in Hv as [Hv _]; try (injection H as <-; by apply Everything_member).
  - injection H as <-. injection Hv as <-. apply MakeBound_member; infs.
  - destruct (m !! v_id v0) as [e|] eqn:E.
    + injection H as <-. destruct (_ && _); [done|]. injection Hv as <-. by apply Hc.
    + destruct (v_size v0); cbn [andb] in Hv; injection H as <-; [|by apply Everything_member].
      destruct (Z.ltb_spec (env (v_id v0)) 0); [done|]. injection Hv as <-. apply MakeBound_member; infs.
  - apply andb_prop in Hs as [Hs1 Hs2]. apply result_bind_ok in H as (ea & Ea & H). apply result_bind_ok in H as (eb & Eb & H).
    apply bind_Some in Hv as (u & Hu & Hv). apply bind_Some in Hv as (w & Hw & Hv).
    eapply bound_bin_member; eauto using eval_range.
  - apply andb_prop in Hs as [[_ Hs1]%andb_prop Hs2].
    apply result_bind_ok in H as (et & Et & H). apply result_bind_ok in H as (ef & Ef & [= <-]).
    apply bind_Some in Hv as (x & _ & Hv). apply bind_Some in Hv as (y & Hy & Hv). apply bind_Some in Hv as (z & Hz & [= <-]).
    destruct (Union_member et ef y z) as [H1 H2]; [by eapply IH2|by eapply IH3|]. by destruct (x =? 0).
  - apply result_bind_ok in H as (ea & Ea & [= <-]). apply Intersect_member; [by eapply IH|by apply Everything_member].
  - apply andb_prop in Hs as [[Hk%bool_decide_eq_true Hs1]%andb_prop Hs2].
    destruct (m !! v_id var) as [|] eqn:E; [by apply Hc in E as [? _]|].
    apply result_bind_ok in H as (ex & Ex & H). apply bind_Some in Hv as (y & Hy & Hv). destruct (_ && _); [|done].
    eapply IH2; [|exact Hs2|exact H|exact Hv]. apply consistent_let; [done|done|by eapply IH1].
  - apply andb_prop in Hs as [Hs1 Hs2]. apply result_bind_ok in H as (ea & Ea & H). apply result_bind_ok in H as (eb & Eb & H).
    apply bind_Some in Hv as (u & Hu & Hv). apply bind_Some in Hv as (w & Hw & Hv).
    destruct (Z.leb_spec 0 w); [|done]. destruct (w <? 64); [|done]. injection Hv as <-.
    rewrite Z.shiftr_div_pow2 in * by done. eapply shift_member; eauto using eval_range.
  - apply andb_prop in Hs as [Hs1 Hs2]. apply result_bind_ok in H as (ea & Ea & H). apply result_bind_ok in H as (eb & Eb & [= <-]).
    apply bind_Some in Hv as (u & Hu & Hv). apply bind_Some in Hv as (w & Hw & [= <-]). apply and_member; eauto.
Qed.

(** ** The analyzer *)

Lemma DetectBoundInfo_member other env c : ∀ infos x, DetectBoundInfo c = Ok infos → eval other env c = Some x → x ≠ 0 →
  ∀ e en, (e, en) ∈ infos → (∀ i, i ∈ vars e → i ∈ vars c) ∧ ∀ v, eval other env e = Some v → member en v.
Proof.
  assert (∀ b, truth b ≠ 0 → b = true) as Htruth by by intros [].
  induction c as [| |op a _ b _|op a _ b _|a IH1 b IH2|a IH1 b IH2|a IH|c IH1 t IH2 f IH3|dt a IH|var y IH1 body IH2
    |a IH1 b IH2|a IH1 b IH2|]; intros infos x H Hx Hx0 e en He;
    try (cbn in H; injection H as <-; by apply not_elem_of_nil in He).
  - cbn [eval] in Hx. apply guard_Some in Hx as [Hx _]. apply bind_Some in Hx as (u & Hu & Hx).
    apply bind_Some in Hx as (w & Hw & [= <-]). apply Htruth in Hx0.
    assert (∀ dt z v, eval other env (IntImm dt z) = Some v → v = z) as Himm
      by (intros dt z v Hz; cbn [eval] in Hz; by apply guard_Some in Hz as [[= ->] _]).
    pose proof (eval_range _ _ _ _ Hu) as Ru. pose proof (eval_range _ _ _ _ Hw) as Rw.
    assert (∀ en', infos = [(b, en')] → member en' w → (∀ i, i ∈ vars e → i ∈ vars (Cmp op a b)) ∧ ∀ v, eval other env e = Some v → member en v) as Hb.
    { intros en' -> Hm. apply list_elem_of_singleton in He as [= -> ->]. split; [cbn; set_solver|]. intros v Hv. by simplify_eq. }
    assert (∀ en', infos = [(a, en')] → member en' u → (∀ i, i ∈ vars e → i ∈ vars (Cmp op a b)) ∧ ∀ v, eval other env e = Some v → member en v) as Ha.
    { intros en' -> Hm. apply list_elem_of_singleton in He as [= -> ->]. split; [cbn; set_solver|]. intros v Hv. by simplify_eq. }
    assert (infos ≠ []) as Hne by (intros ->; by apply not_elem_of_nil in He).
    clear He. unfold DetectBoundInfo in H.
    repeat case_match; simplify_eq; try (injection H as <-); inv64; simplify_eq;
      try (apply Himm in Hu as ->); try (apply Himm in Hw as ->); cbn [eval_cmp] in Hx0;
      try apply Z.leb_le in Hx0; try apply Z.ltb_lt in Hx0;
      first [done|eapply Hb; [reflexivity|apply MakeBound_member; infs]|eapply Ha; [reflexivity|apply MakeBound_member; infs]].
  - cbn [DetectBoundInfo] in H. apply result_bind_ok in H as (r1 & H1 & H). apply result_bind_ok in H as (r2 & H2 & [= <-]).
    cbn [eval] in Hx. apply guard_Some in Hx as [Hx _]. apply bind_Some in Hx as (u & Hu & Hx).
    apply bind_Some in Hx as (w & Hw & [= <-]). apply Htruth, andb_prop in Hx0 as [Hu0%negb_true_iff%Z.eqb_neq Hw0%negb_true_iff%Z.eqb_neq].
    apply elem_of_app in He as [He|He]; [destruct (IH1 _ _ H1 Hu Hu0 e en He)|destruct (IH2 _ _ H2 Hw Hw0 e en He)];
      (split; [cbn; set_solver|done]).
Qed.

(** States of the analyzer that was told only what holds in an environment: bounds that hold, ranges
    the variable is in, and constraints that are true, entered and left in any order. *)
Inductive learned (other env : nat → Z) (known : list nat) : ConstIntBoundAnalyzer → Prop :=
| learned_new : learned other env known {| cb_map := ∅; cb_infos := [] |}
| learned_update s s' var lo hi allow : learned other env known s → v_id var ∈ known →
    int64_min ≤ lo ≤ env (v_id var) → env (v_id var) ≤ hi ≤ int64_max → valid (env (v_id var)) →
    Update var lo hi allow s = (Ok tt, s') → learned other env known s'
| learned_bind s s' var min extent allow a n : learned other env known s → v_id var ∈ known →
    scoped known min = true → scoped known extent = true →
    eval other env min = Some a → eval other env extent = Some n →
    a ≤ env (v_id var) < a + n → valid (env (v_id var)) →
    Bind var min extent allow s = (Ok tt, s') → learned other env known s'
| learned_enter s s' c x n : learned other env known s → (∀ i, i ∈ vars c → i ∈ known) →
    eval other env c = Some x → x ≠ 0 → EnterConstraint c s = (Ok n, s') → learned other env known s'
| learned_exit s s' old_size new_size : learned other env known s →
    frecover old_size new_size s = (Ok tt, s') → learned other env known s'.

Lemma update_entry_inv var info allow s s' : update_entry var info allow s = (Ok tt, s') →
  s' = {| cb_map := <[v_id var := info]> (cb_map s); cb_infos := cb_infos s |}.
Proof.
  unfold update_entry. intros H. apply M_bind_inv in H as (s0 & s1 & [= <- <-] & H).
  apply M_bind_inv in H as (? & s2 & [_ ->]%lift_inv & H). by injection H as <-.
Qed.

Lemma consistent_update other env known infos m i en : consistent other env known infos m → i ∈ known →
  member en (env i) → consistent other env known infos (<[i := en]> m).
Proof.
  intros [Hm Hi] Hk Hen. split; [|done]. intros j ej. destruct (decide (j = i)) as [->|Hj].
  - rewrite lookup_insert_eq. by intros [= <-].
  - rewrite lookup_insert_ne by done. apply Hm.
Qed.

Lemma learned_consistent other env known s : learned other env known s →
  consistent other env known (cb_infos s) (cb_map s).
Proof.
  induction 1 as [|s s' var lo hi allow _ IH Hk Hlo Hhi Hv H|s s' var min extent allow a n _ IH Hk Hs1 Hs2 Ha Hn Hr Hv H
    |s s' c x n _ IH Hk Hx Hx0 H|s s' o n _ IH H].
  - split; [intros ? ? [=]|intros ? ? []%not_elem_of_nil].
  - apply update_entry_inv in H as ->. apply consistent_update; [done|done|]. by apply MakeBound_member.
  - unfold Bind in H. apply M_bind_inv in H as (s0 & s1 & [= <- <-] & H).
    apply M_bind_inv in H as (ea & s1 & [Ea ->]%lift_inv & H). apply M_bind_inv in H as (eb & s1 & [Eb ->]%lift_inv & H).
    apply M_bind_inv in H as (m & s1 & [Em ->]%lift_inv & H). apply M_bind_inv in H as (hi & s1 & [Eh ->]%lift_inv & H).
    apply update_entry_inv in H as ->. apply consistent_update; [done|done|].
    pose proof (VisitExpr_member _ _ _ _ _ _ _ _ IH Hs1 Ea Ha) as [Ha1 Ha2].
    pose proof (VisitExpr_member _ _ _ _ _ _ _ _ IH Hs2 Eb Hn) as Hb.
    pose proof (eval_range _ _ _ _ Ha). pose proof (eval_range _ _ _ _ Hn).
    apply (cap_upper eb n) in Em; [|done..]. apply (InfAwareAdd_upper _ _ _ a (n - 1)) in Eh; [|infs..].
    split; cbn; infs.
  - unfold EnterConstraint in H. apply M_bind_inv in H as (info & s1 & [Ei ->]%lift_inv & H).
    apply M_bind_inv in H as (s0 & s1 & [= <- <-] & H). injection H as _ <-. cbn. destruct IH as [Hm Hi].
    split; [done|]. intros e en [He|He]%elem_of_app; [by apply Hi|].
    destruct (DetectBoundInfo_member other env c info x Ei Hx Hx0 e en He) as [H1 H2]. split; [|done]. intros i Hi'. by apply Hk, H1.
  - unfold frecover in H. apply M_bind_inv in H as (s0 & s1 & [= <- <-] & H).
    apply M_bind_inv in H as (? & s1 & [_ ->]%lift_inv & H). injection H as <-. cbn. destruct IH as [Hm Hi].
    split; [done|]. intros e en He. apply Hi. by apply elem_of_take in He as (j & Hj & _); apply list_elem_of_lookup_2 in Hj.
Qed.


(** *** Samples *)

Definition int32_var (i : nat) : Var := {| v_id := i; v_dtype := Int 32; v_size := false |}.
Definition imm (z : Z) : PrimExpr := IntImm (Int 32) z.

(** [floordiv(x * 4 + 3, 2)] for [x] in [0, 8) *)
Definition sample_expr : PrimExpr := Bin FloorDiv (Bin Add (Bin Mul (EVar (int32_var 0)) (imm 4)) (imm 3)) (imm 2).

(** The analyzer that knows the range *)
Definition bound_x : ConstIntBoundAnalyzer :=
  {| cb_map := {[0%nat := {| min_value := 0; max_value := 7 |}]}; cb_infos := [] |}.


(** The bounds of a sum may be the extreme values themselves, which the next operation takes for
    infinities: the bounds of [x + y - 10] exclude its value. *)
Example extreme_sum_unsound :
  let x := {| v_id := 0; v_dtype := Int 64; v_size := false |} in
  let y := {| v_id := 1; v_dtype := Int 64; v_size := false |} in
  let s := {| cb_map := {[0%nat := MakeBound (2 ^ 62) (2 ^ 62); 1%nat := MakeBound (2 ^ 62 - 1) (2 ^ 62 - 1)]}; cb_infos := [] |} in
  const_int_bound s (Bin Sub (Bin Add (EVar x) (EVar y)) (IntImm (Int 64) 10))
  = Ok {| min_value := kPosInf; max_value := kPosInf |} ∧ 2 ^ 62 + (2 ^ 62 - 1) - 10 < kPosInf.
Proof. by split; vm_compute. Qed.

(** The division of unsigned integers fails a check of the analyzer if the divisor may be zero. *)
Example unsigned_division_fails :
  let x := {| v_id := 0; v_dtype := UInt 32; v_size := false |} in
  let y := {| v_id := 1; v_dtype := UInt 32; v_size := false |} in
  const_int_bound {| cb_map := ∅; cb_infos := [] |} (Bin FloorDiv (EVar x) (EVar y)) = Raise AssertionError.
Proof. by vm_compute. Qed.

(** A cast that loses bits has an empty interval. *)
Example narrowing_cast_empty :
  const_int_bound {| cb_map := ∅; cb_infos := [] |} (Cast (Int 8) (imm 300)) = Ok {| min_value := 300; max_value := 127 |}.
Proof. by vm_compute. Qed.

(** A shift by an unknown amount shifts by amounts that are out of range. *)
Example unknown_shift_overflow :
  const_int_bound {| cb_map := {[0%nat := MakeBound 0 100]}; cb_infos := [] |} (ShiftRight (EVar (int32_var 0)) (EVar (int32_var 1)))
  = Raise OverflowError.
Proof. by vm_compute. Qed.
