(* ===== verification/ModularSet.v ===== *)
(** * Modular sets of expressions ([src/arith/modular_set.cc])

    [ModularSetAnalyzer]: for every expression a coefficient and a base, so that its values are the
    base plus multiples of the coefficient. A truncating division asks the analyzer it belongs to
    whether its dividend is non-negative ([CanProveGreaterEqual] of [src/arith/analyzer.cc]), which
    asks the constant bounds of the simplified dividend; the answer is a parameter of the analyzer. *)

From S2P Require Import Prelude Int64 TIR ConstIntBound ConstIntBoundSound.

Module MS.

Record Entry := { coeff : Z; base : Z }.
#[export] Instance Entry_eq_dec : EqDecision Entry.
Proof. solve_decision. Defined.

(** The constructor [Entry(coeff, base)] *)
Definition MakeEntry (coeff base : Z) : result Entry :=
  _ ← py_assert (0 <=? coeff);
  if coeff =? 0 then Ok {| coeff := coeff; base := base |}
  else
    b ← rem64 base coeff;
    b ← (if b <? 0 then add64 b coeff else Ok b);
    Ok {| coeff := coeff; base := b |}.

Definition is_const (e : Entry) : bool := coeff e =? 0.
Definition Everything : Entry := {| coeff := 1; base := 0 |}.
Definition Nothing : Entry := {| coeff := 0; base := 1 |}.

Definition Union (a b : Entry) : result Entry :=
  c ← ZeroAwareGCD (coeff a) (coeff b);
  if c =? 0 then Ok (if base a =? base b then a else Everything)
  else
    base0 ← rem64 (base a) c;
    base1 ← rem64 (base b) c;
    if base0 =? base1 then MakeEntry c base0
    else g ← ZeroAwareGCD base0 base1; c' ← ZeroAwareGCD g c; MakeEntry c' base0.

Definition Intersect (a b : Entry) : result Entry :=
  '(gcd, x, y) ← ExtendedEuclidean (coeff a) (coeff b);
  v ← sub64 (base b) (base a);
  m ← rem64 v gcd;
  if m =? 0 then
    q ← div64 v gcd;
    x ← mul64 q x;
    ny ← neg64 y;
    y ← mul64 q ny;
    c ← div64 (coeff a) gcd;
    c ← mul64 c (coeff b);
    b ← mul64 x (coeff a);
    b ← add64 b (base a);
    MakeEntry c b
  else Ok Nothing.

(** ** Operators *)

Definition modular_add (a b : Entry) : result Entry :=
  c ← ZeroAwareGCD (coeff a) (coeff b); s ← add64 (base a) (base b); MakeEntry c s.

Definition modular_sub (a b : Entry) : result Entry :=
  c ← ZeroAwareGCD (coeff a) (coeff b); s ← sub64 (base a) (base b); MakeEntry c s.

Definition modular_mul (a b : Entry) : result Entry :=
  pq ← mul64 (coeff a) (coeff b);
  pm ← mul64 (coeff a) (base b);
  qn ← mul64 (base a) (coeff b);
  g ← ZeroAwareGCD pm qn;
  c ← ZeroAwareGCD pq g;
  s ← mul64 (base a) (base b);
  MakeEntry c s.

(** [DivByConst] for the entry [a] of the dividend; [round_down] is extended by what the parent can
    prove of the dividend. *)
Definition DivByConst (a : Entry) (val : Z) (round_down : bool) (nonneg : unit → result bool) : result Entry :=
  _ ← py_assert (negb (val =? 0));
  m ← rem64 (coeff a) val;
  if m =? 0 then
    if base a =? 0 then
      q ← div64 (coeff a) val;
      q ← (if q <? 0 then neg64 q else Ok q);
      MakeEntry q 0
    else if (0 <? base a) && (0 <? val) then
      r ← (if round_down then Ok true else nonneg tt);
      if r : bool then q ← div64 (coeff a) val; b ← div64 (base a) val; MakeEntry q b
      else Ok Everything
    else Ok Everything
  else Ok Everything.

(** ** The visitor *)

(** [Analyzer::CanProveGreaterEqual], for the bounds and the simplifier of an analyzer *)
Definition CanProveGreaterEqual (const_int_bound : PrimExpr → result ConstIntBound.Entry) (rewrite_simplify : PrimExpr → result PrimExpr)
    (expr : PrimExpr) (lower_bound : Z) : result bool :=
  match expr with
  | IntImm _ value => Ok (lower_bound <=? value)
  | _ => e ← rewrite_simplify expr; bd ← const_int_bound e; Ok (lower_bound <=? min_value bd)
  end.

Section visitor.
(** [parent_->CanProveGreaterEqual] *)
Variable can_prove : PrimExpr → Z → result bool.

Fixpoint VisitExpr (m : gmap nat Entry) (e : PrimExpr) : result Entry :=
  match e with
  | IntImm _ value => MakeEntry 0 value
  | EVar v => Ok (default Everything (m !! v_id v))
  | Cast _ value => VisitExpr m value
  | Let var value body =>
      match m !! v_id var with
      | None => x ← VisitExpr m value; VisitExpr (<[v_id var := x]> m) body
      | Some _ => VisitExpr m body
      end
  | Bin Add a b => x ← VisitExpr m a; y ← VisitExpr m b; modular_add x y
  | Bin Sub a b => x ← VisitExpr m a; y ← VisitExpr m b; modular_sub x y
  | Bin Mul a b => x ← VisitExpr m a; y ← VisitExpr m b; modular_mul x y
  | Bin Div a b =>
      y ← VisitExpr m b;
      if is_const y then
        x ← VisitExpr m a; DivByConst x (base y) false (λ _, can_prove a 0)
      else Ok Everything
  | Bin FloorDiv a b =>
      y ← VisitExpr m b;
      if is_const y then
        x ← VisitExpr m a; DivByConst x (base y) true (λ _, can_prove a 0)
      else Ok Everything
  | Bin Min a b | Bin Max a b => x ← VisitExpr m a; y ← VisitExpr m b; Union x y
  | Select _ t f => x ← VisitExpr m t; y ← VisitExpr m f; Union x y
  | ShiftRight a b =>
      y ← VisitExpr m b;
      if is_const y then
        c ← shl64 1 (base y);
        x ← VisitExpr m a; DivByConst x c true (λ _, can_prove a 0)
      else Ok Everything
  | Bin Mod _ _ | Bin FloorMod _ _ | Cmp _ _ _ | And _ _ | Or _ _ | Not _ | BitwiseAnd _ _ | Opaque _ _ => Ok Everything
  end.
End visitor.

(** ** The analyzer *)

Definition Update (var : Var) (info : Entry) (allow_override : bool) : M (gmap nat Entry) unit :=
  m ← get_st;
  _ ← lift (match m !! v_id var with
            | Some old => py_assert (allow_override || bool_decide (old = info))
            | None => Ok tt
            end);
  e ← lift (MakeEntry (coeff info) (base info));
  put_st (<[v_id var := e]> m).

(** [UpdateByIntersect]; the result is the entry the recovery function restores. *)
Definition UpdateByIntersect (var : Var) (entry : Entry) : M (gmap nat Entry) Entry :=
  m ← get_st;
  let old := default Everything (m !! v_id var) in
  e ← lift (Intersect old entry);
  _ ← put_st (<[v_id var := e]> m);
  mret old.

(** [EnterConstraint] for constraints on a remainder of a variable *)
Definition EnterConstraint (constraint : PrimExpr) : M (gmap nat Entry) (option (Var * Entry)) :=
  match constraint with
  | Cmp EQ (Bin Mod (EVar var) (IntImm _ c)) (IntImm _ b)
  | Cmp EQ (Bin FloorMod (EVar var) (IntImm _ c)) (IntImm _ b) =>
      entry ← lift (MakeEntry c b);
      old ← UpdateByIntersect var entry;
      mret (Some (var, old))
  | _ => mret None
  end.

(** The recovery function of [UpdateByIntersect] *)
Definition recover (var : Var) (old : Entry) : M (gmap nat Entry) unit :=
  modify (λ m, <[v_id var := old]> m).

End MS.
