(* ===== verification/ModularSetSound.v ===== *)
(** * Soundness of the modular sets

    The value of an expression is the base of its modular set plus a multiple of the coefficient. *)

From S2P Require Import Prelude Int64 TIR ConstIntBound ConstIntBoundSound ModularSet.
Import MS.

Definition wf (e : Entry) : Prop := 0 ≤ coeff e ≤ int64_max ∧ int64_min ≤ base e ≤ int64_max.
Definition in_set (e : Entry) (v : Z) : Prop := (coeff e | v - base e).
Definition holds (e : Entry) (v : Z) : Prop := wf e ∧ in_set e v.

Lemma gcd_in64 a b : 0 ≤ a ≤ int64_max → 0 ≤ b ≤ int64_max → 0 ≤ Z.gcd a b ≤ int64_max.
Proof.
  intros Ha Hb. split; [apply Z.gcd_nonneg|].
  destruct (decide (b = 0)) as [->|]; [rewrite Z.gcd_0_r; lia|].
  transitivity b; [|lia]. apply Z.divide_pos_le; [lia|apply Z.gcd_divide_r].
Qed.

Lemma ZeroAwareGCD_inv a b g : int64_min ≤ a ≤ int64_max → int64_min ≤ b ≤ int64_max →
  ZeroAwareGCD a b = Ok g → g = Z.gcd a b ∧ 0 ≤ g ≤ int64_max.
Proof.
  intros Ha Hb H. assert (∀ z r, z = int64_min → (if z <? 0 then neg64 z else Ok z) = Ok r → False) as Hmin
    by (intros z r -> Hz; by vm_compute in Hz).
  assert (int64_min < a) by (destruct (decide (a = int64_min)); [|lia]; unfold ZeroAwareGCD in H; inv64; exfalso; eauto).
  assert (int64_min < b) by (destruct (decide (b = int64_min)); [|lia]; unfold ZeroAwareGCD in H; inv64; exfalso; eauto).
  rewrite ZeroAwareGCD_ok in H by lia. injection H as <-. split; [done|].
  rewrite <-Z.gcd_abs_l, <-Z.gcd_abs_r. apply gcd_in64; unfold int64_min, int64_max in *; lia.
Qed.

Lemma rem64_divides x y r : rem64 x y = Ok r → y ≠ 0 ∧ r = Z.rem x y ∧ (y | x - r) ∧ int64_min ≤ r ≤ int64_max.
Proof.
  unfold rem64. destruct (Z.eqb_spec y 0) as [->|Hy]; [done|]. intros H. inv64. split; [done|]. split; [done|].
  split; [|done]. exists (Z.quot x y). pose proof (Z.quot_rem x y Hy). lia.
Qed.

Lemma MakeEntry_holds c b e v : MakeEntry c b = Ok e → c ≤ int64_max → int64_min ≤ b ≤ int64_max →
  (c | v - b) → holds e v.
Proof.
  unfold MakeEntry. intros H Hc Hb Hd. apply result_bind_ok in H as (? & H0%py_assert_ok%Z.leb_le & H).
  destruct (Z.eqb_spec c 0) as [->|Hc0]; [injection H as <-; split; [split; cbn; lia|done]|].
  apply result_bind_ok in H as (r & (_ & _ & Hr & Hr64)%rem64_divides & H).
  apply result_bind_ok in H as (r' & Hr' & [= <-]).
  assert ((c | b - r') ∧ int64_min ≤ r' ≤ int64_max) as [Hbr Hr64'].
  { destruct (r <? 0); [|by simplify_eq]. inv64. split; [|done].
    replace (b - (r + c)) with ((b - r) - c) by lia. apply Z.divide_sub_r; [done|apply Z.divide_refl]. }
  split; [split; cbn; lia|]. unfold in_set. cbn. replace (v - r') with ((v - b) + (b - r')) by lia. by apply Z.divide_add_r.
Qed.

Lemma Everything_holds v : holds Everything v.
Proof. split; [by split; vm_compute|]. apply Z.divide_1_l. Qed.

(** ** Operators *)

Lemma add_holds a b e u w : modular_add a b = Ok e → holds a u → holds b w → holds e (u + w).
Proof.
  unfold modular_add. intros H [[Ha1 Ha2] Ha] [[Hb1 Hb2] Hb]. apply result_bind_ok in H as (g & Hg & H).
  apply ZeroAwareGCD_inv in Hg as [-> Hg]; [|infs..]. apply result_bind_ok in H as (s & Hs & H). inv64.
  eapply MakeEntry_holds; [exact H|apply Hg|done|].
  replace (u + w - (base a + base b)) with ((u - base a) + (w - base b)) by lia.
  apply Z.divide_add_r; (etrans; [|eassumption]); [apply Z.gcd_divide_l|apply Z.gcd_divide_r].
Qed.

Lemma sub_holds a b e u w : modular_sub a b = Ok e → holds a u → holds b w → holds e (u - w).
Proof.
  unfold modular_sub. intros H [[Ha1 Ha2] Ha] [[Hb1 Hb2] Hb]. apply result_bind_ok in H as (g & Hg & H).
  apply ZeroAwareGCD_inv in Hg as [-> Hg]; [|infs..]. apply result_bind_ok in H as (s & Hs & H). inv64.
  eapply MakeEntry_holds; [exact H|apply Hg|done|].
  replace (u - w - (base a - base b)) with ((u - base a) - (w - base b)) by lia.
  apply Z.divide_sub_r; (etrans; [|eassumption]); [apply Z.gcd_divide_l|apply Z.gcd_divide_r].
Qed.

Lemma mul_holds a b e u w : modular_mul a b = Ok e → holds a u → holds b w → holds e (u * w).
Proof.
  unfold modular_mul. intros H [[Ha1 Ha2] [k Hk]] [[Hb1 Hb2] [l Hl]].
  apply result_bind_ok in H as (pq & Hpq & H). apply result_bind_ok in H as (pm & Hpm & H).
  apply result_bind_ok in H as (qn & Hqn & H). apply result_bind_ok in H as (g & Hg & H).
  apply result_bind_ok in H as (c & Hc & H). apply result_bind_ok in H as (s & Hs & H). inv64.
  apply ZeroAwareGCD_inv in Hg as [-> Hg]; [|done..]. apply ZeroAwareGCD_inv in Hc as [-> Hc]; [|infs..].
  eapply MakeEntry_holds; [exact H|apply Hc|done|].
  replace (u * w - base a * base b) with (coeff a * coeff b * (k * l) + (coeff a * base b * k + base a * coeff b * l)).
  2: { replace u with (k * coeff a + base a) by lia. replace w with (l * coeff b + base b) by lia. ring. }
  set (g := Z.gcd (coeff a * base b) (base a * coeff b)).
  assert ((Z.gcd (coeff a * coeff b) g | g)) as Hgg by apply Z.gcd_divide_r.
  repeat apply Z.divide_add_r; apply Z.divide_mul_l; [apply Z.gcd_divide_l|etrans; [exact Hgg|apply Z.gcd_divide_l]
    |etrans; [exact Hgg|apply Z.gcd_divide_r]].
Qed.

Lemma union_holds a b e u w : Union a b = Ok e → holds a u → holds b w → holds e u ∧ holds e w.
Proof.
  unfold Union. intros H Hau Hbw. pose proof Hau as [[Ha1 Ha2] Ha]. pose proof Hbw as [[Hb1 Hb2] Hb].
  apply result_bind_ok in H as (c & Hc & H). apply ZeroAwareGCD_inv in Hc as [Ec Hc]; [|infs..].
  assert ((c | u - base a)) as Hcu by (etrans; [|exact Ha]; rewrite Ec; apply Z.gcd_divide_l).
  assert ((c | w - base b)) as Hcw by (etrans; [|exact Hb]; rewrite Ec; apply Z.gcd_divide_r).
  destruct (Z.eqb_spec c 0) as [->|Hc0].
  { injection H as <-. destruct (Z.eqb_spec (base a) (base b)) as [E|]; [|split; apply Everything_holds].
    split; [done|]. apply Z.divide_0_l in Hcu, Hcw. replace w with u by lia. done. }
  apply result_bind_ok in H as (b0 & (_ & _ & Hb0 & R0)%rem64_divides & H).
  apply result_bind_ok in H as (b1 & (_ & _ & Hb1' & R1)%rem64_divides & H).
  assert ((c | u - b0)) as Hu by (replace (u - b0) with ((u - base a) + (base a - b0)) by lia; by apply Z.divide_add_r).
  assert ((c | w - b1)) as Hw by (replace (w - b1) with ((w - base b) + (base b - b1)) by lia; by apply Z.divide_add_r).
  destruct (Z.eqb_spec b0 b1) as [->|_].
  - split; (eapply MakeEntry_holds; [exact H|apply Hc|done|done]).
  - apply result_bind_ok in H as (g & Hg & H). apply ZeroAwareGCD_inv in Hg as [Eg Hg]; [|done..].
    apply result_bind_ok in H as (c' & Hc' & H). apply ZeroAwareGCD_inv in Hc' as [Ec' Hc']; [|infs..].
    assert ((c' | g) ∧ (c' | c)) as [Hcg Hcc] by (rewrite Ec'; split; [apply Z.gcd_divide_l|apply Z.gcd_divide_r]).
    assert ((g | b0) ∧ (g | b1)) as [Hg0 Hg1] by (rewrite Eg; split; [apply Z.gcd_divide_l|apply Z.gcd_divide_r]).
    split; (eapply MakeEntry_holds; [exact H|apply Hc'|done|]); [by etrans|].
    replace (w - b0) with ((w - b1) + (b1 - b0)) by lia. apply Z.divide_add_r; [by etrans|].
    apply Z.divide_sub_r; (etrans; [exact Hcg|done]).
Qed.

(** A divisor of the coefficient divides multiples exactly. *)
Lemma exact_div c val k : val ≠ 0 → (val | c) → c * k / val = c / val * k ∧ Z.quot (c * k) val = Z.quot c val * k.
Proof.
  intros Hv [d ->]. rewrite (Z.mul_comm d val), <-Z.mul_assoc.
  rewrite !(Z.mul_comm val), !Z.div_mul, !Z.quot_mul by done. done.
Qed.

Lemma div_holds a val rd nonneg e u : DivByConst a val rd nonneg = Ok e → holds a u →
  (rd = true → holds e (u / val)) ∧ ((nonneg tt = Ok true → 0 ≤ u) → rd = false → holds e (Z.quot u val)).
Proof.
  unfold DivByConst. intros H [[Ha1 Ha2] [k Hk]].
  apply result_bind_ok in H as (? & Hv%py_assert_ok%negb_true_iff%Z.eqb_neq & H).
  apply result_bind_ok in H as (m & (_ & _ & Hm & _)%rem64_divides & H).
  destruct (Z.eqb_spec m 0) as [->|]; [|injection H as <-; split; intros; apply Everything_holds].
  rewrite Z.sub_0_r in Hm. destruct (Z.eqb_spec (base a) 0) as [Hb|Hb].
  - apply result_bind_ok in H as (q & Hq & H). unfold div64 in Hq. rewrite (proj2 (Z.eqb_neq val 0)) in Hq by done.
    apply i64_inv in Hq as [-> Hq].
    apply result_bind_ok in H as (q & Hq' & H).
    assert (u = coeff a * k) as -> by lia. destruct (exact_div (coeff a) val k Hv Hm) as [E1 E2].
    assert (coeff a / val = Z.quot (coeff a) val) as Edq.
    { pose proof (exact_div (coeff a) val 1 Hv Hm). destruct Hm as [d Hd]. rewrite Hd, Z.div_mul, Z.quot_mul by done. done. }
    assert (0 ≤ q ≤ int64_max ∧ (q | Z.quot (coeff a) val)) as [Hq0 Hqd].
    { destruct (Z.ltb_spec (Z.quot (coeff a) val) 0); [apply i64_inv in Hq' as [-> Hq']|injection Hq' as <-];
        (split; [lia|]); [apply Z.divide_opp_l|]; apply Z.divide_refl. }
    split; intros; (eapply MakeEntry_holds; [exact H|apply Hq0|by split; vm_compute|]); rewrite Z.sub_0_r.
    + rewrite E1, Edq. by apply Z.divide_mul_l.
    + rewrite E2. by apply Z.divide_mul_l.
  - destruct (Z.ltb_spec 0 (base a)), (Z.ltb_spec 0 val); cbn [andb] in H;
      try (injection H as <-; split; intros; apply Everything_holds).
    apply result_bind_ok in H as (r & Hr & H). destruct r; [|injection H as <-; split; intros; apply Everything_holds].
    unfold div64 in H. rewrite (proj2 (Z.eqb_neq val 0)) in H by done.
    apply result_bind_ok in H as (q & [-> Hq]%i64_inv & H). apply result_bind_ok in H as (b & [-> Hb']%i64_inv & H).
    rewrite !Z.quot_div_nonneg in * by lia.
    assert (holds e (u / val)) as He.
    { eapply MakeEntry_holds; [exact H|lia|lia|]. replace u with (coeff a * k + base a) by lia.
      destruct Hm as [d Hd]. rewrite Hd, Z.div_mul by done. replace (d * val * k + base a) with (d * k * val + base a) by ring.
      rewrite Z.div_add_l by done. exists k. ring. }
    split; [done|]. intros Hn ->. rewrite Z.quot_div_nonneg by (auto; lia). done.
Qed.

Lemma intersect_holds a b e v : Intersect a b = Ok e → holds a v → holds b v → holds e v.
Proof.
  unfold Intersect. intros H [[Ha1 Ha2] Ha] [[Hb1 Hb2] Hb]. unfold in_set in *.
  apply result_bind_ok in H as ([[g x] y] & Hg & H). apply ExtendedEuclidean_inv in Hg as [Eg Hxy]; [|done..].
  apply result_bind_ok in H as (d & [-> Hd]%i64_inv & H).
  apply result_bind_ok in H as (m & (Hg0 & Em & Hm & _)%rem64_divides & H).
  assert ((g | coeff a) ∧ (g | coeff b)) as [Hga Hgb] by (rewrite Eg; split; [apply Z.gcd_divide_l|apply Z.gcd_divide_r]).
  assert (0 < g) by (pose proof (Z.gcd_nonneg (coeff a) (coeff b)); lia).
  destruct (Z.eqb_spec m 0) as [->|Hm0].
  - rewrite Z.sub_0_r in Hm. destruct Hm as [q Hq]. unfold div64 in H. rewrite (proj2 (Z.eqb_neq g 0)) in H by done.
    rewrite Hq, Z.quot_mul, Z.quot_div_nonneg in H by lia.
    apply result_bind_ok in H as (q' & [-> _]%i64_inv & H). apply result_bind_ok in H as (x' & [-> _]%i64_inv & H).
    apply result_bind_ok in H as (ny & _ & H). apply result_bind_ok in H as (y' & _ & H).
    apply result_bind_ok in H as (c & [-> _]%i64_inv & H). apply result_bind_ok in H as (c' & [-> Hc]%i64_inv & H).
    apply result_bind_ok in H as (b1 & [-> _]%i64_inv & H). apply result_bind_ok in H as (b2 & [-> Hb']%i64_inv & H).
    eapply MakeEntry_holds; [exact H|apply Hc|done|].
    replace (coeff a / g * coeff b) with (Z.lcm (coeff a) (coeff b)).
    2: { unfold Z.lcm. rewrite <-Eg. destruct Hga as [a' Ha']. destruct Hgb as [b' Hb'']. rewrite Ha', Hb'', !Z.div_mul by done.
         rewrite Z.abs_eq; [ring|]. nia. }
    apply Z.lcm_least.
    + replace (v - (q * x * coeff a + base a)) with ((v - base a) - q * x * coeff a) by ring.
      apply Z.divide_sub_r; [done|apply Z.divide_factor_r].
    + replace (v - (q * x * coeff a + base a)) with ((v - base b) + q * y * coeff b).
      2: { replace (q * y * coeff b) with (q * (coeff b * y)) by ring. replace (coeff b * y) with (g - coeff a * x) by lia. lia. }
      apply Z.divide_add_r; [done|apply Z.divide_factor_r].
  - destruct Hm0. assert ((g | base b - base a)) as [q Hq].
    { replace (base b - base a) with ((v - base a) - (v - base b)) by lia.
      apply Z.divide_sub_r; [etrans; [exact Hga|done]|etrans; [exact Hgb|done]]. }
    by rewrite Em, Hq, Z.rem_mul.
Qed.

(** ** Expressions *)

(** The dividends of the truncating divisions, which the analyzer asks the simplifier about *)
Fixpoint dividends (e : PrimExpr) : list PrimExpr :=
  match e with
  | IntImm _ _ | Opaque _ _ | EVar _ => []
  | Bin op a b => (if op is Div then [a] else []) ++ dividends a ++ dividends b
  | Cmp _ a b | And a b | Or a b | ShiftRight a b | BitwiseAnd a b | Let _ a b => dividends a ++ dividends b
  | Not a | Cast _ a => dividends a
  | Select c t f => dividends c ++ dividends t ++ dividends f
  end.

(** What the analyzer can prove of the dividend is right, whatever the variables it does not know are. *)
Definition proves (can_prove : PrimExpr → Z → result bool) (other env : nat → Z) (known : list nat) (a : PrimExpr) : Prop :=
  ∀ env' u, (∀ i, i ∈ known → env' i = env i) → eval other env' a = Some u → can_prove a 0 = Ok true → 0 ≤ u.

Definition sound_map (env : nat → Z) (known : list nat) (m : gmap nat Entry) : Prop :=
  ∀ i en, m !! i = Some en → i ∈ known ∧ holds en (env i).

Lemma sound_map_let env known m i en x : sound_map env known m → i ∉ known → holds en x →
  sound_map (λ j, if decide (j = i) then x else env j) (i :: known) (<[i := en]> m).
Proof.
  intros Hm Hk Hen j ej. destruct (decide (j = i)) as [->|Hj].
  - rewrite lookup_insert_eq. intros [= <-]. split; [by left|done].
  - rewrite lookup_insert_ne by done. intros [Hjk Hej]%Hm. split; [by right|done].
Qed.

Lemma div_case can_prove other env known a u x c rd e w : (rd = false → proves can_prove other env known a) →
  eval other env a = Some u → holds x u → DivByConst x c rd (λ _, can_prove a 0) = Ok e →
  w = (if rd then u / c else Z.quot u c) → holds e w.
Proof.
  intros Hd Hu Hx He ->. destruct (div_holds _ _ _ _ _ _ He Hx) as [H1 H2].
  destruct rd; [by apply H1|]. apply H2; [|done]. by apply (Hd eq_refl env).
Qed.

Lemma proves_extend can_prove other env known a i x : i ∉ known → proves can_prove other env known a →
  proves can_prove other (λ j, if decide (j = i) then x else env j) (i :: known) a.
Proof.
  intros Hk H env' u He. apply H. intros j Hj. rewrite He by (by right). by rewrite decide_False by (by intros ->).
Qed.

Lemma const_value e w : is_const e = true → holds e w → w = base e.
Proof. unfold is_const, holds, in_set. intros ->%Z.eqb_eq [_ H%Z.divide_0_l]. lia. Qed.

Lemma VisitExpr_holds can_prove other e : ∀ env known m en v, sound_map env known m →
  Forall (proves can_prove other env known) (dividends e) → scoped known e = true →
  VisitExpr can_prove m e = Ok en → eval other env e = Some v → holds en v.
Proof.
  induction e as [|v0|op a IH1 b IH2|? a IH1 b IH2|a IH1 b IH2|a IH1 b IH2|a IH|c IH1 t IH2 f IH3|dt a IH|var x IH1 body IH2
    |a IH1 b IH2|a IH1 b IH2|]; intros env known m en v Hm Hd Hs H Hv; cbn [VisitExpr scoped dividends] in *;
    pose proof (eval_range _ _ _ _ Hv) as Hr; cbn [eval] in Hv; apply guard_Some in Hv as [Hv _];
    try (injection H as <-; apply Everything_holds).
  - injection Hv as <-. eapply MakeEntry_holds; [exact H|done|infs|]. rewrite Z.sub_diag. apply Z.divide_refl.
  - injection H as <-. destruct (_ && _); [done|]. injection Hv as <-.
    destruct (m !! v_id v0) as [e|] eqn:E; [by apply Hm in E as [_ ?]|apply Everything_holds].
  - apply andb_prop in Hs as [Hs1 Hs2]. apply bind_Some in Hv as (u & Hu & Hv). apply bind_Some in Hv as (w & Hw & Hv).
    apply Forall_app in Hd as [Hd0 [Hd1 Hd2]%Forall_app]. destruct op; cbn [eval_bin] in Hv; try (injection H as <-; apply Everything_holds);
      try (apply result_bind_ok in H as (ea & Ea & H); apply result_bind_ok in H as (eb & Eb & H); injection Hv as <-;
           pose proof (IH1 _ _ _ _ _ Hm Hd1 Hs1 Ea Hu) as Ha; pose proof (IH2 _ _ _ _ _ Hm Hd2 Hs2 Eb Hw) as Hb).
    + by eapply add_holds.
    + by eapply sub_holds.
    + by eapply mul_holds.
    + destruct (Z.eqb_spec w 0); [done|]. injection Hv as <-. apply result_bind_ok in H as (ey & Ey & H).
      destruct (is_const ey) eqn:Ec; [|injection H as <-; apply Everything_holds].
      apply result_bind_ok in H as (ex & Ex & H). eapply (div_case can_prove other env known); [|exact Hu|by eapply IH1|exact H|].
      { intros _. by apply (Forall_inv Hd0). }
      by rewrite (const_value ey w) by (done || by eapply IH2).
    + destruct (Z.eqb_spec w 0); [done|]. injection Hv as <-. apply result_bind_ok in H as (ey & Ey & H).
      destruct (is_const ey) eqn:Ec; [|injection H as <-; apply Everything_holds].
      apply result_bind_ok in H as (ex & Ex & H). eapply (div_case can_prove other env known); [|exact Hu|by eapply IH1|exact H|]; [done|].
      by rewrite (const_value ey w) by (done || by eapply IH2).
    + destruct (union_holds _ _ _ _ _ H Ha Hb). destruct (Z.min_spec u w) as [[_ ->]|[_ ->]]; done.
    + destruct (union_holds _ _ _ _ _ H Ha Hb). destruct (Z.max_spec u w) as [[_ ->]|[_ ->]]; done.
  - apply Forall_app in Hd as [_ [Hd1 Hd2]%Forall_app]. apply andb_prop in Hs as [[_ Hs1]%andb_prop Hs2].
    apply result_bind_ok in H as (et & Et & H). apply result_bind_ok in H as (ef & Ef & H).
    apply bind_Some in Hv as (x & _ & Hv). apply bind_Some in Hv as (y & Hy & Hv). apply bind_Some in Hv as (z & Hz & [= <-]).
    destruct (union_holds et ef en y z) as [H1 H2]; [done|by eapply IH2|by eapply IH3|]. by destruct (x =? 0).
  - by eapply IH.
  - apply Forall_app in Hd as [Hd1 Hd2]. apply andb_prop in Hs as [[Hk%bool_decide_eq_true Hs1]%andb_prop Hs2].
    destruct (m !! v_id var) as [|] eqn:E; [by apply Hm in E as [? _]|].
    apply result_bind_ok in H as (ex & Ex & H). apply bind_Some in Hv as (y & Hy & Hv). destruct (_ && _); [|done].
    eapply IH2; [by apply sound_map_let; [| |eapply IH1]| |exact Hs2|exact H|exact Hv].
    eapply Forall_impl; [exact Hd2|]. intros. by apply proves_extend.
  - apply Forall_app in Hd as [Hd1 Hd2]. apply andb_prop in Hs as [Hs1 Hs2].
    apply bind_Some in Hv as (u & Hu & Hv). apply bind_Some in Hv as (w & Hw & Hv).
    destruct (Z.leb_spec 0 w); [|done]. destruct (w <? 64); [|done]. injection Hv as <-. rewrite Z.shiftr_div_pow2 by done.
    apply result_bind_ok in H as (ey & Ey & H). destruct (is_const ey) eqn:Ec; [|injection H as <-; apply Everything_holds].
    apply result_bind_ok in H as (c & Hcs & H). apply result_bind_ok in H as (ex & Ex & H).
    eapply (div_case can_prove other env known); [|exact Hu|by eapply IH1|exact H|]; [done|]. f_equal.
    rewrite <-(const_value ey w) in Hcs by (done || by eapply IH2).
    unfold shl64 in Hcs. destruct (_ && _); [|done]. apply i64_inv in Hcs as [-> _]. by rewrite Z.shiftl_1_l.
Qed.

(** ** The analyzer *)

(** Maps of the analyzer that was told only what holds in an environment: sets the variable is in,
    and true constraints, entered and left in any order *)
Inductive told (other env : nat → Z) (known : list nat) : gmap nat Entry → Prop :=
| told_new : told other env known ∅
| told_update m m' var info allow : told other env known m → v_id var ∈ known →
    holds info (env (v_id var)) → Update var info allow m = (Ok tt, m') → told other env known m'
| told_enter m m' c x r : told other env known m → (∀ i, i ∈ vars c → i ∈ known) →
    eval other env c = Some x → x ≠ 0 → EnterConstraint c m = (Ok r, m') → told other env known m'
| told_exit m0 m1 m m' c var old : told other env known m0 → (∀ i, i ∈ vars c → i ∈ known) →
    EnterConstraint c m0 = (Ok (Some (var, old)), m1) →
    told other env known m → recover var old m = (Ok tt, m') → told other env known m'.

Lemma sound_map_insert env known m i en : sound_map env known m → i ∈ known → holds en (env i) →
  sound_map env known (<[i := en]> m).
Proof.
  intros Hm Hk Hen j ej. destruct (decide (j = i)) as [->|Hj].
  - rewrite lookup_insert_eq. by intros [= <-].
  - rewrite lookup_insert_ne by done. apply Hm.
Qed.

(** A true constraint on a remainder puts the variable into the set of the constraint. *)
Lemma constraint_holds u c b e : c ≠ 0 → (Z.rem u c = b ∨ u mod c = b) → int64_min ≤ b ≤ int64_max → c ≤ int64_max →
  MakeEntry c b = Ok e → holds e u.
Proof.
  intros Hc Hu Hb Hcm He. eapply MakeEntry_holds; [exact He|done|done|]. destruct Hu as [<-|<-].
  - exists (Z.quot u c). pose proof (Z.quot_rem u c Hc). lia.
  - exists (u / c). pose proof (Z.div_mod u c Hc). lia.
Qed.

Lemma UpdateByIntersect_inv var entry m m' old : UpdateByIntersect var entry m = (Ok old, m') →
  old = default Everything (m !! v_id var) ∧ ∃ e, Intersect old entry = Ok e ∧ m' = <[v_id var := e]> m.
Proof.
  unfold UpdateByIntersect. intros H. apply M_bind_inv in H as (m0 & s1 & [= <- <-] & H).
  apply M_bind_inv in H as (e & s1 & [He ->]%lift_inv & H). apply M_bind_inv in H as (? & s1 & [= _ <-] & [= <- <-]). eauto.
Qed.

(** A constraint that is entered is an equation of a remainder of a variable. *)
Inductive remainder_constraint : PrimExpr → Var → Z → Z → Prop :=
| trunc_remainder var t1 t2 c b : remainder_constraint (Cmp EQ (Bin Mod (EVar var) (IntImm t1 c)) (IntImm t2 b)) var c b
| floor_remainder var t1 t2 c b : remainder_constraint (Cmp EQ (Bin FloorMod (EVar var) (IntImm t1 c)) (IntImm t2 b)) var c b.

Lemma EnterConstraint_inv c m m' r : EnterConstraint c m = (Ok r, m') →
  (r = None ∧ m' = m) ∨
  ∃ var k b entry old, r = Some (var, old) ∧ remainder_constraint c var k b ∧ MakeEntry k b = Ok entry ∧
    UpdateByIntersect var entry m = (Ok old, m').
Proof.
  intros H. destruct c as [| | |[] a b| | | | | | | | |]; try (injection H as <- <-; by left).
  destruct a as [| |[] a1 a2| | | | | | | | | |]; try (injection H as <- <-; by left);
  destruct a1; try (injection H as <- <-; by left); destruct a2; try (injection H as <- <-; by left);
  destruct b; try (injection H as <- <-; by left); right; cbn in H;
  apply M_bind_inv in H as (en & s1 & [He ->]%lift_inv & H); apply M_bind_inv in H as (old & s1 & Hu & [= <- <-]);
  do 5 eexists; (split; [reflexivity|]); (split; [constructor|]); (split; [exact He|]); exact Hu.
Qed.

Lemma remainder_holds other env c var k b x entry : remainder_constraint c var k b → eval other env c = Some x → x ≠ 0 →
  MakeEntry k b = Ok entry → holds entry (env (v_id var)).
Proof.
  intros Hr Hx Hx0 He. destruct Hr; cbn [eval] in Hx; apply guard_Some in Hx as [Hx _];
    apply bind_Some in Hx as (r & Hr & Hx); apply bind_Some in Hx as (y & Hy & [= Hx]);
    pose proof (eval_range other env (IntImm t2 b) y Hy) as Hyr; apply guard_Some in Hy as [[= <-] _];
    apply guard_Some in Hr as [Hr _]; apply bind_Some in Hr as (u & Hu & Hr); apply bind_Some in Hr as (w & Hw & Hr);
    pose proof (eval_range other env (IntImm t1 c) w Hw) as Hwr; apply guard_Some in Hw as [[= <-] _];
    apply guard_Some in Hu as [Hu _]; destruct (_ && _) in Hu; simplify_eq;
    cbn [eval_bin eval_cmp] in *; destruct (Z.eqb_spec c 0); try done; simplify_eq.
  - destruct (Z.eqb_spec (Z.rem (env (v_id var)) c) b) as [E|]; [|by destruct Hx0].
    eapply constraint_holds; [done|by left|infs|infs|exact He].
  - destruct (Z.eqb_spec (env (v_id var) mod c) b) as [E|]; [|by destruct Hx0].
    eapply constraint_holds; [done|by right|infs|infs|exact He].
Qed.

Lemma remainder_vars c var k b : remainder_constraint c var k b → v_id var ∈ vars c.
Proof. destruct 1; cbn; left. Qed.

Lemma default_holds env known m i : sound_map env known m → holds (default Everything (m !! i)) (env i).
Proof. intros Hm. destruct (m !! i) as [e|] eqn:E; [by apply Hm in E as [_ ?]|apply Everything_holds]. Qed.

Lemma told_sound other env known m : told other env known m → sound_map env known m.
Proof.
  induction 1 as [|m m' var info allow _ IH Hk Hi H|m m' c x r _ IH Hk Hx Hx0 H|m0 m1 m m' c var old _ IH0 Hk H0 _ IH H].
  - by intros ? ? [=].
  - unfold Update in H. apply M_bind_inv in H as (m0 & s1 & [= <- <-] & H).
    apply M_bind_inv in H as (? & s1 & [_ ->]%lift_inv & H). apply M_bind_inv in H as (e & s1 & [He ->]%lift_inv & [= <-]).
    apply sound_map_insert; [done|done|]. destruct Hi as [[Hi1 Hi2] Hi]. by eapply MakeEntry_holds; [exact He|apply Hi1| |].
  - apply EnterConstraint_inv in H as [[_ ->]|(var & k & b & entry & old & _ & Hr & He & Hu)]; [done|].
    apply UpdateByIntersect_inv in Hu as [-> (e & Hu & ->)].
    apply sound_map_insert; [done|by apply Hk; eapply remainder_vars|].
    eapply intersect_holds; [exact Hu|by eapply default_holds|by eapply remainder_holds].
  - apply EnterConstraint_inv in H0 as [[? _]|(var' & k & b & entry & old' & [= -> ->] & Hr & He & Hu)]; [done|].
    apply UpdateByIntersect_inv in Hu as [-> _]. injection H as <-.
    apply sound_map_insert; [done|by apply Hk; eapply remainder_vars|by eapply default_holds].
Qed.

(** *** Samples *)

(** A multiple of 4 *)
Definition multiple_of_4 : PrimExpr := Cmp EQ (Bin FloorMod (EVar (int32_var 0)) (imm 4)) (imm 0).
Definition modular_x : gmap nat Entry := {[0%nat := {| coeff := 4; base := 0 |}]}.
