(* ===== verification/ConstFold.v ===== *)
(** * Building expressions ([src/tir/op/op.cc], [src/arith/const_fold.h], [src/ir/expr.cc])

    The overloaded operators that build scalar integer expressions: they bring the operands to a
    common type and fold constants. A constant that does not fit a signed 64-bit integer is not
    represented ([LargeUIntImm]); operands that are not integers are left out. *)

From S2P Require Import Prelude Int64 TIR.

(** ** Constants and casts *)

(** The constructor [IntImm], of an [int64_t] *)
Definition MakeIntImm (dtype : DataType) (value : Z) : result PrimExpr :=
  value ← i64 value;
  _ ← py_assert (is_int dtype || is_uint dtype);
  _ ← py_assert (negb (is_uint dtype) || (0 <=? value));
  Ok (IntImm dtype value).

Definition MakeConstScalar (t : DataType) (value : Z) : result PrimExpr :=
  if is_int t then MakeIntImm t value
  else if is_uint t then if 0 <=? value then MakeIntImm t value else Raise NotImplementedError
  else Raise NotImplementedError.

Definition cast (t : DataType) (value : PrimExpr) : result PrimExpr :=
  if decide (dtype_of value = t) then Ok value
  else match value with
       | IntImm _ v => MakeConstScalar t v
       | _ => Ok (Cast t value)
       end.

Definition SimpleCast (t : DataType) (value : PrimExpr) : PrimExpr :=
  if decide (dtype_of value = t) then value else Cast t value.

Definition BinaryOpMatchTypes (lhs rhs : PrimExpr) : result (PrimExpr * PrimExpr) :=
  let ltype := dtype_of lhs in
  let rtype := dtype_of rhs in
  if decide (ltype = rtype) then Ok (lhs, rhs)
  else if (is_int ltype && is_int rtype) || (is_uint ltype && is_uint rtype) then
    if dt_bits ltype <? dt_bits rtype then lhs ← cast rtype lhs; Ok (lhs, rhs)
    else rhs ← cast ltype rhs; Ok (lhs, rhs)
  else if (is_int ltype && is_uint rtype) || (is_uint ltype && is_int rtype) then
    let bits := Z.max (dt_bits ltype) (dt_bits rtype) in
    Ok (SimpleCast (Int bits) lhs, SimpleCast (Int bits) rhs)
  else Raise NotImplementedError.

(** ** Constant folding *)

(** [a.as<IntImmNode>()] *)
Definition as_imm (e : PrimExpr) : option Z :=
  match e with IntImm _ v => Some v | _ => None end.

Definition IsIndexType (t : DataType) : bool := is_int t && ((dt_bits t =? 32) || (dt_bits t =? 64)).

Definition TryConstFold_Add (a b : PrimExpr) : result (option PrimExpr) :=
  match as_imm a, as_imm b with
  | Some va, Some vb => v ← add64 va vb; Some <$> MakeIntImm (dtype_of a) v
  | pa, pb =>
      Ok (if decide (pa = Some 0) then Some b
          else if decide (pb = Some 0) then Some a
          else None)
  end.

Definition TryConstFold_Sub (a b : PrimExpr) : result (option PrimExpr) :=
  match as_imm a, as_imm b with
  | Some va, Some vb => v ← sub64 va vb; Some <$> MakeIntImm (dtype_of a) v
  | _, pb => Ok (if decide (pb = Some 0) then Some a else None)
  end.

Definition TryConstFold_Mul (a b : PrimExpr) : result (option PrimExpr) :=
  match as_imm a, as_imm b with
  | Some va, Some vb => v ← mul64 va vb; Some <$> MakeIntImm (dtype_of a) v
  | pa, pb =>
      Ok (if decide (pa = Some 1) then Some b
          else if decide (pa = Some 0) then Some a
          else if decide (pb = Some 1) then Some a
          else if decide (pb = Some 0) then Some b
          else None)
  end.

(** The common shape of the divisions: [op] on two constants, the result for a divisor 1 *)
Definition fold_division (op : Z → Z → result Z) (by_one : result PrimExpr) (a b : PrimExpr) : result (option PrimExpr) :=
  match as_imm a, as_imm b with
  | Some va, Some vb =>
      _ ← py_assert (negb (vb =? 0)); v ← op va vb; Some <$> MakeIntImm (dtype_of a) v
  | pa, pb =>
      if decide (pa = Some 0) then Ok (Some a)
      else if decide (pb = Some 1) then Some <$> by_one
      else _ ← py_assert (bool_decide (pb ≠ Some 0)); Ok None
  end.

Definition TryConstFold_Div (a b : PrimExpr) : result (option PrimExpr) := fold_division div64 (Ok a) a b.

Definition TryConstFold_Mod (a b : PrimExpr) : result (option PrimExpr) :=
  if IsIndexType (dtype_of a) && IsIndexType (dtype_of b)
  then fold_division rem64 (MakeConstScalar (dtype_of a) 0) a b else Ok None.

Definition TryConstFold_FloorDiv (a b : PrimExpr) : result (option PrimExpr) := fold_division Int64.floordiv (Ok a) a b.

Definition TryConstFold_FloorMod (a b : PrimExpr) : result (option PrimExpr) :=
  if IsIndexType (dtype_of a) && IsIndexType (dtype_of b)
  then fold_division Int64.floormod (MakeConstScalar (dtype_of a) 0) a b else Ok None.

(** [TryConstFold] of the comparisons *)
Definition TryConstFold_Cmp (op : cmpop) (a b : PrimExpr) : option PrimExpr :=
  match as_imm a, as_imm b with
  | Some va, Some vb => Some (IntImm Bool (truth (eval_cmp op va vb)))
  | _, _ => None
  end.

Definition TryConstFold_And (a b : PrimExpr) : option PrimExpr :=
  match as_imm a with
  | Some va => Some (if va =? 0 then a else b)
  | None => match as_imm b with
            | Some vb => Some (if vb =? 0 then b else a)
            | None => None
            end
  end.

Definition TryConstFold_Or (a b : PrimExpr) : option PrimExpr :=
  match as_imm a with
  | Some va => Some (if va =? 0 then b else a)
  | None => match as_imm b with
            | Some vb => Some (if vb =? 0 then a else b)
            | None => None
            end
  end.

Definition TryConstFold_Not (a : PrimExpr) : option PrimExpr :=
  match as_imm a with Some va => Some (IntImm Bool (truth (va =? 0))) | None => None end.

(** ** Operators *)

(** [BinaryOpMatchTypes], folding, and the node if that fails *)
Definition match_and_fold (fold : PrimExpr → PrimExpr → result (option PrimExpr)) (op : binop) (a b : PrimExpr) : result PrimExpr :=
  '(a, b) ← BinaryOpMatchTypes a b;
  ret ← fold a b;
  Ok (default (Bin op a b) ret).

Definition integers (a b : PrimExpr) : result unit :=
  _ ← py_assert (is_int (dtype_of a) || is_uint (dtype_of a));
  py_assert (is_int (dtype_of b) || is_uint (dtype_of b)).

Definition add : PrimExpr → PrimExpr → result PrimExpr := match_and_fold TryConstFold_Add Add.
Definition sub : PrimExpr → PrimExpr → result PrimExpr := match_and_fold TryConstFold_Sub Sub.
Definition mul : PrimExpr → PrimExpr → result PrimExpr := match_and_fold TryConstFold_Mul Mul.
Definition div : PrimExpr → PrimExpr → result PrimExpr := match_and_fold TryConstFold_Div Div.
Definition truncdiv (a b : PrimExpr) : result PrimExpr := _ ← integers a b; div a b.
Definition truncmod : PrimExpr → PrimExpr → result PrimExpr := match_and_fold TryConstFold_Mod Mod.
Definition floordiv (a b : PrimExpr) : result PrimExpr :=
  _ ← integers a b; match_and_fold TryConstFold_FloorDiv FloorDiv a b.
Definition floormod (a b : PrimExpr) : result PrimExpr :=
  _ ← integers a b; match_and_fold TryConstFold_FloorMod FloorMod a b.
Definition indexdiv : PrimExpr → PrimExpr → result PrimExpr := floordiv.
Definition indexmod : PrimExpr → PrimExpr → result PrimExpr := floormod.

(** [greater], [greater_equal], [less], [less_equal], [equal] and [not_equal] *)
Definition compare (op : cmpop) (a b : PrimExpr) : result PrimExpr :=
  '(a, b) ← BinaryOpMatchTypes a b;
  Ok (default (Cmp op a b) (TryConstFold_Cmp op a b)).

Definition logical_and (a b : PrimExpr) : result PrimExpr :=
  _ ← py_assert (bool_decide (dtype_of a = Bool));
  _ ← py_assert (bool_decide (dtype_of b = Bool));
  Ok (default (And a b) (TryConstFold_And a b)).

Definition logical_or (a b : PrimExpr) : result PrimExpr :=
  _ ← py_assert (bool_decide (dtype_of a = Bool));
  _ ← py_assert (bool_decide (dtype_of b = Bool));
  Ok (default (Or a b) (TryConstFold_Or a b)).

Definition logical_not (a : PrimExpr) : result PrimExpr :=
  _ ← py_assert (bool_decide (dtype_of a = Bool));
  Ok (default (Not a) (TryConstFold_Not a)).

(** ** Values *)

Lemma MakeIntImm_inv dt v e : MakeIntImm dt v = Ok e → e = IntImm dt v.
Proof.
  unfold MakeIntImm. by intros (w & [-> _]%i64_inv & (? & _ & (? & _ & [= <-])%result_bind_ok)%result_bind_ok)%result_bind_ok.
Qed.
Lemma MakeIntImm_in64 dt v e : MakeIntImm dt v = Ok e → in64 v = true.
Proof. unfold MakeIntImm. intros (w & Hw & _)%result_bind_ok. unfold i64 in Hw. by destruct (in64 v). Qed.

Lemma as_imm_inv e v : as_imm e = Some v → e = IntImm (dtype_of e) v.
Proof. destruct e; by intros [= <-]. Qed.

Lemma eval_imm other env dt v : fits dt v = true → eval other env (IntImm dt v) = Some v.
Proof. intros H. cbn. unfold guard. cbn. by rewrite H. Qed.

Lemma eval_bin_node other env op a b x y v : eval other env a = Some x → eval other env b = Some y →
  eval_bin op x y = Some v → fits (dtype_of a) v = true → eval other env (Bin op a b) = Some v.
Proof. intros Ha Hb Hv Hf. cbn. rewrite Ha, Hb. cbn. rewrite Hv. cbn. by rewrite Hf. Qed.

Lemma floormod_inv x y z : Int64.floormod x y = Ok z → y ≠ 0 ∧ z = x mod y.
Proof.
  unfold Int64.floormod, rem64. destruct (Z.eqb_spec y 0) as [->|Hy]; [done|]. intros H.
  apply result_bind_ok in H as (r & Hr & H). inv64. split; [done|]. rewrite Z.mod_eq, (rem_div_floor x y) by done.
  pose proof (Z.quot_rem x y Hy). destruct (_ || _); [injection H as <-; lia|]. inv64. lia.
Qed.

Section values.
Variables (other env : nat → Z).

(** A constant that occurs as an operand has its value. *)
Lemma imm_value e v x : eval other env e = Some x → as_imm e = Some v → x = v ∧ eval other env (IntImm (dtype_of e) v) = Some v.
Proof. intros He Hv%as_imm_inv. rewrite Hv in He. pose proof He as H. cbn [eval] in H. apply guard_Some in H as [[= <-] _]. done. Qed.

(** Folding keeps the value the node would have, and its type. *)
Definition folds (fold : PrimExpr → PrimExpr → result (option PrimExpr)) (op : binop) : Prop :=
  ∀ a b r x y v, dtype_of a = dtype_of b → fold a b = Ok r → eval other env a = Some x → eval other env b = Some y →
    eval_bin op x y = Some v → fits (dtype_of a) v = true →
    eval other env (default (Bin op a b) r) = Some v ∧ dtype_of (default (Bin op a b) r) = dtype_of a.

Lemma folds_none a b op x y v : eval other env a = Some x → eval other env b = Some y →
  eval_bin op x y = Some v → fits (dtype_of a) v = true →
  eval other env (Bin op a b) = Some v ∧ dtype_of (Bin op a b) = dtype_of a.
Proof. intros. split; [by eapply eval_bin_node|done]. Qed.

Lemma folds_imm dt w v r (e : PrimExpr) : w = v → fits dt v = true → Some <$> MakeIntImm dt w = Ok r →
  eval other env (default e r) = Some v ∧ dtype_of (default e r) = dt.
Proof.
  intros -> Hf H. destruct (MakeIntImm dt v) as [e'|] eqn:E; [|done]. apply MakeIntImm_inv in E as ->.
  injection H as <-. cbn [default from_option]. split; [by apply eval_imm|done].
Qed.

(** Cases on which operands are constants *)
Ltac operands H Ha Hb :=
  match type of H with context [as_imm ?a] => destruct (as_imm a) as [va|] eqn:Ea; [pose proof (imm_value _ _ _ Ha Ea) as [-> _]|] end;
  match type of H with context [as_imm ?b] => destruct (as_imm b) as [vb|] eqn:Eb; [pose proof (imm_value _ _ _ Hb Eb) as [-> _]|] end.
Ltac cases := repeat case_decide; simplify_eq; cbn [default from_option];
  try (by eapply folds_none); try (split; [|done]); try (done || congruence || (rewrite ?Z.add_0_r, ?Z.sub_0_r, ?Z.mul_1_r, ?Z.mul_0_r, ?Z.mul_1_l; done)).

Lemma folds_add : folds TryConstFold_Add Add.
Proof.
  intros a b r x y v Ht H Ha Hb Hv Hf. unfold TryConstFold_Add in H. injection Hv as <-. operands H Ha Hb.
  - apply result_bind_ok in H as (w & [-> _]%i64_inv & H). by eapply folds_imm.
  - injection H as <-. cases.
  - injection H as <-. cases.
  - injection H as <-. cases.
Qed.

Lemma folds_sub : folds TryConstFold_Sub Sub.
Proof.
  intros a b r x y v Ht H Ha Hb Hv Hf. unfold TryConstFold_Sub in H. injection Hv as <-. operands H Ha Hb.
  - apply result_bind_ok in H as (w & [-> _]%i64_inv & H). by eapply folds_imm.
  - injection H as <-. cases.
  - injection H as <-. cases.
  - injection H as <-. cases.
Qed.

Lemma folds_mul : folds TryConstFold_Mul Mul.
Proof.
  intros a b r x y v Ht H Ha Hb Hv Hf. unfold TryConstFold_Mul in H. injection Hv as <-. operands H Ha Hb.
  - apply result_bind_ok in H as (w & [-> _]%i64_inv & H). by eapply folds_imm.
  - injection H as <-. cases.
  - injection H as <-. cases.
  - injection H as <-. cases.
Qed.

Lemma folds_division op fop by_one : (∀ x y z, fop x y = Ok z → eval_bin op x y = Some z) →
  (∀ y v, eval_bin op 0 y = Some v → v = 0) →
  (∀ a x v e, eval other env a = Some x → eval_bin op x 1 = Some v → fits (dtype_of a) v = true → by_one a = Ok e →
     eval other env e = Some v ∧ dtype_of e = dtype_of a) →
  folds (λ a b, fold_division fop (by_one a) a b) op.
Proof.
  intros Hop H0 H1 a b r x y v Ht H Ha Hb Hv Hf. unfold fold_division in H. operands H Ha Hb.
  - apply result_bind_ok in H as (? & _ & H). apply result_bind_ok in H as (w & Hw%Hop & H).
    eapply folds_imm; [|exact Hf|exact H]. congruence.
  - case_decide; simplify_eq; cbn [default from_option].
    + by rewrite (H0 _ _ Hv).
    + rewrite decide_False in H by done. cbn in H. simplify_eq. by eapply folds_none.
  - rewrite decide_False in H by done. case_decide; simplify_eq.
    + destruct (by_one a) as [e|] eqn:E; [|done]. injection H as <-. cbn [default from_option]. by eapply H1.
    + apply result_bind_ok in H as (? & _ & [= <-]). by eapply folds_none.
  - rewrite !decide_False in H by done. apply result_bind_ok in H as (? & _ & [= <-]). by eapply folds_none.
Qed.

(** The divisions by one *)
Lemma by_one_id op a x v e : (∀ z, eval_bin op z 1 = Some z) → eval other env a = Some x → eval_bin op x 1 = Some v →
  Ok a = Ok e → eval other env e = Some v ∧ dtype_of e = dtype_of a.
Proof. intros Hop Ha Hv [= <-]. rewrite Hop in Hv. by simplify_eq. Qed.

Lemma by_one_zero op a x v e : (∀ z, eval_bin op z 1 = Some 0) → eval_bin op x 1 = Some v → fits (dtype_of a) v = true →
  MakeConstScalar (dtype_of a) 0 = Ok e → eval other env e = Some v ∧ dtype_of e = dtype_of a.
Proof.
  intros Hop Hv Hf He. rewrite Hop in Hv. injection Hv as <-. unfold MakeConstScalar in He.
  destruct (is_int _); [|destruct (is_uint _); [|done]]; apply MakeIntImm_inv in He as ->; (split; [by apply eval_imm|done]).
Qed.

Lemma folds_index fop : ∀ op, folds (λ a b, fold_division fop (MakeConstScalar (dtype_of a) 0) a b) op →
  folds (λ a b, if IsIndexType (dtype_of a) && IsIndexType (dtype_of b)
                then fold_division fop (MakeConstScalar (dtype_of a) 0) a b else Ok None) op.
Proof.
  intros op H a b r x y v Ht Hr Ha Hb Hv Hf. destruct (_ && _); [by apply (H a b r x y v)|].
  injection Hr as <-. by eapply folds_none.
Qed.

Lemma division_zero op : op ∈ [Div; Mod; FloorDiv; FloorMod] → ∀ y v, eval_bin op 0 y = Some v → v = 0.
Proof.
  intros Hop y v. assert (op = Div ∨ op = Mod ∨ op = FloorDiv ∨ op = FloorMod) as [->|[->|[->| ->]]] by set_solver;
    cbn [eval_bin]; destruct (Z.eqb_spec y 0); intros [= <-];
    [by apply Z.quot_0_l|by apply Z.rem_0_l|by apply Z.div_0_l|by apply Z.mod_0_l].
Qed.

Lemma folds_div : folds TryConstFold_Div Div.
Proof.
  apply (folds_division Div div64 (λ a, Ok a)); [|apply division_zero; set_solver|].
  - intros x y z. unfold div64. cbn. destruct (Z.eqb_spec y 0); [done|]. by intros [-> _]%i64_inv.
  - intros a x v e Ha Hv _. apply by_one_id with (op := Div) (x := x); [|done..]. intros z. cbn. by rewrite Z.quot_1_r.
Qed.

Lemma folds_mod : folds TryConstFold_Mod Mod.
Proof.
  apply folds_index, folds_division; [|apply division_zero; set_solver|].
  - intros x y z. unfold rem64. cbn. destruct (Z.eqb_spec y 0); [done|]. by intros (? & _ & [-> _]%i64_inv)%result_bind_ok.
  - intros a x v e _. apply by_one_zero. intros z. cbn. by rewrite Z.rem_1_r.
Qed.

Lemma folds_floordiv : folds TryConstFold_FloorDiv FloorDiv.
Proof.
  apply (folds_division FloorDiv Int64.floordiv (λ a, Ok a)); [|apply division_zero; set_solver|].
  - intros x y z [Hy ->]%floordiv_inv. cbn. by rewrite (proj2 (Z.eqb_neq y 0)).
  - intros a x v e Ha Hv _. apply by_one_id with (op := FloorDiv) (x := x); [|done..]. intros z. cbn. by rewrite Z.div_1_r.
Qed.

Lemma folds_floormod : folds TryConstFold_FloorMod FloorMod.
Proof.
  apply folds_index, folds_division; [|apply division_zero; set_solver|].
  - intros x y z [Hy ->]%floormod_inv. cbn. by rewrite (proj2 (Z.eqb_neq y 0)).
  - intros a x v e _. apply by_one_zero. intros z. cbn. by rewrite Z.mod_1_r.
Qed.

(** Bringing the operands to a common type keeps values that fit it. *)
Lemma cast_eval t a a' x : cast t a = Ok a' → eval other env a = Some x → fits t x = true →
  eval other env a' = Some x ∧ dtype_of a' = t.
Proof.
  unfold cast. case_decide as Ht; [by intros [= <-]|]. intros H Ha Hf.
  assert (Ok (Cast t a) = Ok a' → eval other env a' = Some x ∧ dtype_of a' = t) as Hcast
    by (intros [= <-]; cbn [eval dtype_of]; rewrite Ha; cbn; by rewrite Hf).
  destruct a; try (by apply Hcast). cbn [eval] in Ha. apply guard_Some in Ha as [[= <-] _]. unfold MakeConstScalar in H.
  destruct (is_int t); [|destruct (is_uint t), (0 <=? value); try done];
    apply MakeIntImm_inv in H as ->; (split; [by apply eval_imm|done]).
Qed.

Lemma SimpleCast_eval t a x : eval other env a = Some x → fits t x = true →
  eval other env (SimpleCast t a) = Some x ∧ dtype_of (SimpleCast t a) = t.
Proof.
  unfold SimpleCast. case_decide as Ht; [done|]. intros Ha Hf. cbn [eval dtype_of]. rewrite Ha. cbn. by rewrite Hf.
Qed.

Lemma match_types_eval a b a' b' x y : BinaryOpMatchTypes a b = Ok (a', b') → eval other env a = Some x →
  eval other env b = Some y → fits (dtype_of a') x = true → fits (dtype_of a') y = true →
  eval other env a' = Some x ∧ eval other env b' = Some y ∧ dtype_of a' = dtype_of b'.
Proof.
  unfold BinaryOpMatchTypes. intros H Ha Hb Hx Hy. case_decide as Ht; [by injection H as <- <-|].
  destruct (_ || _); [|destruct (_ || _); [|done]].
  - destruct (_ <? _).
    + apply result_bind_ok in H as (a1 & H1 & [= <- <-]).
      assert (dtype_of a1 = dtype_of b) as Ea by (unfold cast in H1; case_decide; [by simplify_eq|]; destruct a; simplify_eq; try done;
        unfold MakeConstScalar in H1; repeat case_match; try done; by apply MakeIntImm_inv in H1 as ->).
      destruct (cast_eval _ _ _ _ H1 Ha); [by rewrite <-Ea|]. done.
    + apply result_bind_ok in H as (b1 & H1 & [= <- <-]). by destruct (cast_eval _ _ _ _ H1 Hb Hy).
  - injection H as <- <-. set (t := Int _) in *.
    assert (dtype_of (SimpleCast t a) = t) as Et by (unfold SimpleCast; by case_decide).
    rewrite Et in Hx, Hy. destruct (SimpleCast_eval t a x Ha Hx). destruct (SimpleCast_eval t b y Hb Hy). by rewrite Et.
Qed.
End values.

(** The arithmetic operators and the nodes they stand for *)
Definition operators : list (binop * (PrimExpr → PrimExpr → result PrimExpr)) :=
  [(Add, add); (Sub, sub); (Mul, mul); (Div, truncdiv); (Mod, truncmod); (FloorDiv, floordiv); (FloorMod, floormod)].

Definition folders : list (PrimExpr → PrimExpr → result (option PrimExpr)) :=
  [TryConstFold_Add; TryConstFold_Sub; TryConstFold_Mul; TryConstFold_Div; TryConstFold_Mod; TryConstFold_FloorDiv; TryConstFold_FloorMod].

Lemma MakeIntImm_dtype dt v r (e : PrimExpr) : Some <$> MakeIntImm dt v = Ok r → dtype_of (default e r) = dt.
Proof. destruct (MakeIntImm dt v) as [e'|] eqn:E; [|done]. apply MakeIntImm_inv in E as ->. by intros [= <-]. Qed.

Lemma fold_division_dtype fop by_one op a b r : (∀ e, by_one = Ok e → dtype_of e = dtype_of a) →
  fold_division fop by_one a b = Ok r → dtype_of (default (Bin op a b) r) = dtype_of a.
Proof.
  intros H1 H. unfold fold_division in H. destruct (as_imm a), (as_imm b).
  1: by apply result_bind_ok in H as (? & _ & (? & _ & H)%result_bind_ok); eapply MakeIntImm_dtype.
  all: repeat case_decide; simplify_eq; try done.
  all: try (destruct by_one as [e|] eqn:E; [|done]; injection H as <-; by apply H1).
  all: by apply result_bind_ok in H as (? & _ & [= <-]).
Qed.

Lemma zero_dtype dt e : MakeConstScalar dt 0 = Ok e → dtype_of e = dt.
Proof. unfold MakeConstScalar. repeat case_match; try done; by intros ->%MakeIntImm_inv. Qed.

Lemma folders_dtype fold op a b r : fold ∈ folders → dtype_of a = dtype_of b → fold a b = Ok r →
  dtype_of (default (Bin op a b) r) = dtype_of a.
Proof.
  intros Hf Ht H.
  repeat (apply elem_of_cons in Hf as [->|Hf]; [|]); [..|by apply elem_of_nil in Hf].
  1-3: unfold TryConstFold_Add, TryConstFold_Sub, TryConstFold_Mul in H; destruct (as_imm a), (as_imm b);
    [apply result_bind_ok in H as (? & _ & H); by eapply MakeIntImm_dtype|injection H as <-; by repeat case_decide..].
  1, 3: eapply fold_division_dtype; [|exact H]; by intros ? [= <-].
  all: unfold TryConstFold_Mod, TryConstFold_FloorMod in H; destruct (_ && _); [|by injection H as <-];
    eapply fold_division_dtype; [|exact H]; by intros ? ?%zero_dtype.
Qed.

Lemma match_types_dtype a b a' b' : BinaryOpMatchTypes a b = Ok (a', b') → dtype_of a' = dtype_of b'.
Proof.
  assert (∀ t e e', cast t e = Ok e' → dtype_of e' = t) as Hc.
  { intros t e e'. unfold cast. case_decide; [by intros [= <-]|].
    destruct e; intros H1; simplify_eq; try done. unfold MakeConstScalar in H1. repeat case_match; try done; by apply MakeIntImm_inv in H1 as ->. }
  unfold BinaryOpMatchTypes. case_decide; [by intros [= <- <-]|]. repeat case_match; try done.
  - by intros (? & ?%Hc & [= <- <-])%result_bind_ok.
  - by intros (? & ?%Hc & [= <- <-])%result_bind_ok.
  - intros [= <- <-]. unfold SimpleCast. repeat case_decide; cbn [dtype_of]; congruence.
Qed.

Lemma operators_fold op f : (op, f) ∈ operators → ∃ fold, fold ∈ folders ∧ (∀ other env, folds other env fold op) ∧
  ∀ a b e, f a b = Ok e → match_and_fold fold op a b = Ok e.
Proof.
  intros H. assert (∀ a b e (r : result PrimExpr), (_ ← integers a b; r) = Ok e → r = Ok e) as Hi
    by (by intros a b e r (? & _ & ?)%result_bind_ok).
  repeat (apply elem_of_cons in H as [[= -> ->]|H]; [eexists; split; [|split]|]); [..|by apply elem_of_nil in H];
    try (intros; apply folds_add || apply folds_sub || apply folds_mul || apply folds_div || apply folds_mod
         || apply folds_floordiv || apply folds_floormod);
    try (unfold folders; set_solver); try (intros a b e He; first [exact He|by apply (Hi a b)]).
Qed.

(** C18: the operators that build expressions keep values. If the operands have values of the type of
    the result and the operation on them has one as well, so has the expression that is built, with
    types matched and constants folded. *)
Theorem operators_keep_values other env op f a b e x y v :
  (op, f) ∈ operators → f a b = Ok e → eval other env a = Some x → eval other env b = Some y →
  eval_bin op x y = Some v → fits (dtype_of e) x = true → fits (dtype_of e) y = true → fits (dtype_of e) v = true →
  eval other env e = Some v.
Proof.
  intros (fold & Hin & Hfold & Hf)%operators_fold He Ha Hb Hv Hx Hy Hfv.
  apply Hf in He. apply result_bind_ok in He as ([a' b'] & Hm & He). apply result_bind_ok in He as (r & Hr & [= <-]).
  pose proof (match_types_dtype _ _ _ _ Hm) as Ht. rewrite (folders_dtype fold op a' b' r Hin Ht Hr) in Hx, Hy, Hfv.
  destruct (match_types_eval _ _ _ _ _ _ _ _ Hm Ha Hb Hx Hy) as (Ha' & Hb' & _).
  by destruct (Hfold other env a' b' r x y v Ht Hr Ha' Hb' Hv Hfv).
Qed.

(** [(x + 0) // 2] with a 32-bit variable and a 64-bit divisor *)
Lemma operators_keep_values_witness :
  floordiv (EVar {| v_id := 0; v_dtype := Int 32; v_size := false |}) (IntImm (Int 64) 2)
  = Ok (Bin FloorDiv (Cast (Int 64) (EVar {| v_id := 0; v_dtype := Int 32; v_size := false |})) (IntImm (Int 64) 2)) ∧
  eval (λ _, 0) (λ _, -7) (Bin FloorDiv (Cast (Int 64) (EVar {| v_id := 0; v_dtype := Int 32; v_size := false |})) (IntImm (Int 64) 2))
  = Some (-4).
Proof.
  split; [vm_compute; reflexivity|].
  refine (operators_keep_values (λ _, 0) (λ _, -7) FloorDiv floordiv (EVar {| v_id := 0; v_dtype := Int 32; v_size := false |})
    (IntImm (Int 64) 2) _ (-7) 2 (-4) _ _ _ _ _ _ _ _); [|vm_compute; reflexivity..].
  do 5 right. left.
Defined.
