(* ===== verification/PatternMatch.v ===== *)
(** * Patterns of expressions ([src/arith/pattern_match.h], [src/tir/ir/expr.cc])

    The patterns the rewriting rules are made of: matching an expression fills the pattern
    variables, evaluating a pattern builds an expression from them, folding constants on the way.
    Expressions are compared by structure; whether two equal expressions are the same object, which
    folding [Min] and [Max] asks, is a parameter. Vectors are left out.

    The value of an expression is the one in unbounded arithmetic here: rules that move terms
    around keep this value, while an intermediate result of the rewritten expression may be
    outside its type. *)

From S2P Require Import Prelude Int64 TIR ConstFold.

(** ** Values in unbounded arithmetic *)

(** A truth value *)
Definition as_bool (v : Z) : option bool :=
  if v =? 0 then Some false else if v =? 1 then Some true else None.

(** Only the value chosen by a [Select] matters. *)
Fixpoint ival (other env : nat → Z) (e : PrimExpr) : option Z :=
  match e with
  | IntImm _ value => Some value
  | EVar v => Some (env (v_id v))
  | Bin op a b => x ← ival other env a; y ← ival other env b; eval_bin op x y
  | Cmp op a b => x ← ival other env a; y ← ival other env b; Some (truth (eval_cmp op x y))
  | And a b => x ← ival other env a; y ← ival other env b; p ← as_bool x; q ← as_bool y; Some (truth (p && q))
  | Or a b => x ← ival other env a; y ← ival other env b; p ← as_bool x; q ← as_bool y; Some (truth (p || q))
  | Not a => x ← ival other env a; p ← as_bool x; Some (truth (negb p))
  | Select c t f => x ← ival other env c; p ← as_bool x; if p : bool then ival other env t else ival other env f
  | Cast _ a => ival other env a
  | Let var value body =>
      x ← ival other env value; ival other (λ i, if decide (i = v_id var) then x else env i) body
  | ShiftRight a b => x ← ival other env a; y ← ival other env b;
                      if (0 <=? y) && (y <? 64) then Some (Z.shiftr x y) else None
  | BitwiseAnd a b => x ← ival other env a; y ← ival other env b; Some (Z.land x y)
  | Opaque _ id => Some (other id)
  end.

(** The operands of logical operators are of type [bool], as their constructors check. *)
Fixpoint typed (e : PrimExpr) : bool :=
  match e with
  | IntImm _ _ | EVar _ | Opaque _ _ => true
  | Bin _ a b | Cmp _ a b | ShiftRight a b | BitwiseAnd a b | Let _ a b => typed a && typed b
  | And a b | Or a b => typed a && typed b && bool_decide (dtype_of a = Bool) && bool_decide (dtype_of b = Bool)
  | Not a => typed a && bool_decide (dtype_of a = Bool)
  | Select c t f => typed c && typed t && typed f && bool_decide (dtype_of c = Bool)
  | Cast _ a => typed a
  end.

(** ** Constructors and constant folding *)

Definition MakeBin (op : binop) (a b : PrimExpr) : result PrimExpr :=
  _ ← py_assert (bool_decide (dtype_of a = dtype_of b)); Ok (Bin op a b).

Definition MakeCmp (op : cmpop) (a b : PrimExpr) : result PrimExpr :=
  _ ← py_assert (bool_decide (dtype_of a = dtype_of b)); Ok (Cmp op a b).

Definition MakeAnd (a b : PrimExpr) : result PrimExpr :=
  _ ← py_assert (bool_decide (dtype_of a = Bool)); _ ← py_assert (bool_decide (dtype_of b = Bool)); Ok (And a b).

Definition MakeOr (a b : PrimExpr) : result PrimExpr :=
  _ ← py_assert (bool_decide (dtype_of a = Bool)); _ ← py_assert (bool_decide (dtype_of b = Bool)); Ok (Or a b).

Definition MakeNot (a : PrimExpr) : result PrimExpr :=
  _ ← py_assert (bool_decide (dtype_of a = Bool)); Ok (Not a).

Definition MakeSelect (condition true_value false_value : PrimExpr) : result PrimExpr :=
  _ ← py_assert (bool_decide (dtype_of condition = Bool));
  _ ← py_assert (bool_decide (dtype_of false_value = dtype_of true_value));
  Ok (Select condition true_value false_value).

Section same_as.
(** [a.same_as(b)] *)
Variable same_as : PrimExpr → PrimExpr → bool.

Definition TryConstFold_Min (a b : PrimExpr) : result (option PrimExpr) :=
  match as_imm a, as_imm b with
  | Some va, Some vb => Some <$> MakeIntImm (dtype_of a) (Z.min va vb)
  | _, _ => Ok (if same_as a b then Some a else None)
  end.

Definition TryConstFold_Max (a b : PrimExpr) : result (option PrimExpr) :=
  match as_imm a, as_imm b with
  | Some va, Some vb => Some <$> MakeIntImm (dtype_of a) (Z.max va vb)
  | _, _ => Ok (if same_as a b then Some a else None)
  end.

(** [TryConstFold] of an arithmetic operator *)
Definition TryConstFold (op : binop) (a b : PrimExpr) : result (option PrimExpr) :=
  match op with
  | Add => TryConstFold_Add a b
  | Sub => TryConstFold_Sub a b
  | Mul => TryConstFold_Mul a b
  | Div => TryConstFold_Div a b
  | Mod => TryConstFold_Mod a b
  | FloorDiv => TryConstFold_FloorDiv a b
  | FloorMod => TryConstFold_FloorMod a b
  | Min => TryConstFold_Min a b
  | Max => TryConstFold_Max a b
  end.

(** ** Patterns *)

Inductive pat :=
| PX (i : nat)                          (* [PVar<PrimExpr>] *)
| PC (i : nat)                          (* [PVar<IntImm>] *)
| PLike (ref : pat) (value : Z)         (* [PConstWithTypeLike] *)
| PConst (e : PrimExpr)                 (* [PConst<PrimExpr>] *)
| PBin (op : binop) (a b : pat)         (* [PBinaryExpr] *)
| PCmp (op : cmpop) (a b : pat)
| PAnd (a b : pat)
| POr (a b : pat)
| PNot (a : pat)                        (* [PNotExpr] *)
| PSelect (c t f : pat).                (* [PSelectExpr] *)

(** The contents of the pattern variables *)
Record filled := { f_x : gmap nat PrimExpr; f_c : gmap nat (DataType * Z) }.

(** [InitMatch_] *)
Definition InitMatch : filled := {| f_x := ∅; f_c := ∅ |}.

(** [PVar<PrimExpr>::Match_] *)
Definition match_x (i : nat) (value : PrimExpr) (s : filled) : option filled :=
  match f_x s !! i with
  | None => Some {| f_x := <[i := value]> (f_x s); f_c := f_c s |}
  | Some value' => if decide (value' = value) then Some s else None
  end.

(** [PVar<IntImm>::Match_] *)
Definition match_c (i : nat) (value : PrimExpr) (s : filled) : option filled :=
  match value with
  | IntImm dt v =>
      match f_c s !! i with
      | None => Some {| f_x := f_x s; f_c := <[i := (dt, v)]> (f_c s) |}
      | Some (_, v') => if v' =? v then Some s else None
      end
  | _ => None
  end.

Fixpoint Match_ (p : pat) (node : PrimExpr) (s : filled) : option filled :=
  match p, node with
  | PX i, _ => match_x i node s
  | PC i, _ => match_c i node s
  | PLike _ value, IntImm _ v => if v =? value then Some s else None
  | PConst e, _ => if decide (e = node) then Some s else None
  | PBin op a b, Bin op' a' b' => if decide (op = op') then s ← Match_ a a' s; Match_ b b' s else None
  | PCmp op a b, Cmp op' a' b' => if decide (op = op') then s ← Match_ a a' s; Match_ b b' s else None
  | PAnd a b, And a' b' => s ← Match_ a a' s; Match_ b b' s
  | POr a b, Or a' b' => s ← Match_ a a' s; Match_ b b' s
  | PNot a, Not a' => Match_ a a' s
  | PSelect c t f, Select c' t' f' => s ← Match_ c c' s; s ← Match_ t t' s; Match_ f f' s
  | _, _ => None
  end.

Definition Match (p : pat) (node : PrimExpr) : option filled := Match_ p node InitMatch.

(** [Eval] *)
Fixpoint Eval (s : filled) (p : pat) : result PrimExpr :=
  match p with
  | PX i => match f_x s !! i with Some e => Ok e | None => Raise AssertionError end
  | PC i => match f_c s !! i with Some (dt, v) => Ok (IntImm dt v) | None => Raise AssertionError end
  | PLike ref value => e ← Eval s ref; MakeConstScalar (dtype_of e) value
  | PConst e => Ok e
  | PBin op a b =>
      lhs ← Eval s a; rhs ← Eval s b;
      ret ← TryConstFold op lhs rhs;
      match ret with Some e => Ok e | None => MakeBin op lhs rhs end
  | PCmp op a b =>
      lhs ← Eval s a; rhs ← Eval s b;
      match TryConstFold_Cmp op lhs rhs with Some e => Ok e | None => MakeCmp op lhs rhs end
  | PAnd a b =>
      lhs ← Eval s a; rhs ← Eval s b;
      match TryConstFold_And lhs rhs with Some e => Ok e | None => MakeAnd lhs rhs end
  | POr a b =>
      lhs ← Eval s a; rhs ← Eval s b;
      match TryConstFold_Or lhs rhs with Some e => Ok e | None => MakeOr lhs rhs end
  | PNot a => value ← Eval s a; MakeNot value
  | PSelect c t f => c ← Eval s c; t ← Eval s t; f ← Eval s f; MakeSelect c t f
  end.
End same_as.

(** ** Values of patterns *)

(** The value of a pattern, from the values of the pattern variables *)
Fixpoint pval (X : nat → option Z) (C : nat → Z) (p : pat) : option Z :=
  match p with
  | PX i => X i
  | PC i => Some (C i)
  | PLike _ value => Some value
  | PConst e => as_imm e
  | PBin op a b => x ← pval X C a; y ← pval X C b; eval_bin op x y
  | PCmp op a b => x ← pval X C a; y ← pval X C b; Some (truth (eval_cmp op x y))
  | PAnd a b => x ← pval X C a; y ← pval X C b; p ← as_bool x; q ← as_bool y; Some (truth (p && q))
  | POr a b => x ← pval X C a; y ← pval X C b; p ← as_bool x; q ← as_bool y; Some (truth (p || q))
  | PNot a => x ← pval X C a; p ← as_bool x; Some (truth (negb p))
  | PSelect c t f => x ← pval X C c; p ← as_bool x; if p : bool then pval X C t else pval X C f
  end.

(** The pattern has no [PConst] of a composite expression. *)
Fixpoint simple (p : pat) : bool :=
  match p with
  | PX _ | PC _ => true
  | PLike ref _ => simple ref
  | PConst e => match as_imm e with Some v => in64 v | None => false end
  | PBin _ a b | PCmp _ a b | PAnd a b | POr a b => simple a && simple b
  | PNot a => simple a
  | PSelect c t f => simple c && simple t && simple f
  end.

Definition xvals (other env : nat → Z) (s : filled) (i : nat) : option Z := f_x s !! i ≫= ival other env.
Definition cvals (s : filled) (i : nat) : Z := default 0 (snd <$> f_c s !! i).

Lemma as_bool_truth b : as_bool (truth b) = Some b.
Proof. by destruct b. Qed.

Lemma as_bool_inv v b : as_bool v = Some b → v = truth b.
Proof. unfold as_bool. destruct (Z.eqb_spec v 0), (Z.eqb_spec v 1); intros [= <-]; done. Qed.

Lemma as_imm_ival other env e v : as_imm e = Some v → ival other env e = Some v.
Proof. intros ->%as_imm_inv. done. Qed.

Section ideal.
Context (other env : nat → Z).

(** A guarded value is a value in unbounded arithmetic. *)
Lemma eval_ival e : ∀ env v, typed e = true → eval other env e = Some v → ival other env e = Some v.
Proof.
  assert (∀ env a x, eval other env a = Some x → dtype_of a = Bool → as_bool x = Some (negb (x =? 0))) as Hb.
  { intros env' a x H%eval_guard Ha. rewrite Ha in H. unfold fits in H. cbn in H. bool_to_prop.
    unfold as_bool. destruct (Z.eqb_spec x 0), (Z.eqb_spec x 1); try done. lia. }
  induction e as [| |? ? IH1 ? IH2|? ? IH1 ? IH2|? IH1 ? IH2|? IH1 ? IH2|? IH1|? IH1 ? IH2 ? IH3|? ? IH1|? ? IH1 ? IH2
    |? IH1 ? IH2|? IH1 ? IH2|]; intros env' w Ht H; cbn [eval ival typed] in *;
    apply guard_Some in H as [H _]; bool_to_prop.
  all: try (apply bind_Some in H as (x & Hx & H); rewrite (IH1 _ _ ltac:(done) Hx); cbn [mbind option_bind]).
  all: try (apply bind_Some in H as (y & Hy & H); rewrite (IH2 _ _ ltac:(done) Hy); cbn [mbind option_bind]).
  all: try done.
  - by destruct (_ && _).
  - by rewrite (Hb _ _ _ Hx ltac:(done)), (Hb _ _ _ Hy ltac:(done)).
  - by rewrite (Hb _ _ _ Hx ltac:(done)), (Hb _ _ _ Hy ltac:(done)).
  - rewrite (Hb _ _ _ Hx ltac:(done)). cbn [mbind option_bind]. by rewrite negb_involutive.
  - rewrite (Hb _ _ _ Hx ltac:(done)). cbn [mbind option_bind]. apply bind_Some in H as (z & Hz & [= <-]).
    destruct (x =? 0); cbn [negb]; [by apply IH3|done].
  - by apply IH1.
  - destruct (_ && _); [|done]. by apply IH2.
Qed.

(** Folding keeps the value of the node. *)
Lemma MakeConstScalar_inv dt v e : MakeConstScalar dt v = Ok e → e = IntImm dt v.
Proof. unfold MakeConstScalar. destruct (is_int dt), (is_uint dt), (0 <=? v); try done; apply MakeIntImm_inv. Qed.
Lemma MakeConstScalar_in64 dt v e : MakeConstScalar dt v = Ok e → in64 v = true.
Proof. unfold MakeConstScalar. destruct (is_int dt), (is_uint dt), (0 <=? v); try done; apply MakeIntImm_in64. Qed.

Definition ideal_folds (fold : PrimExpr → PrimExpr → result (option PrimExpr)) (op : binop) : Prop :=
  ∀ a b e x y v, fold a b = Ok (Some e) → ival other env a = Some x → ival other env b = Some y →
    eval_bin op x y = Some v → ival other env e = Some v.

(** Cases on which operands are constants *)
Ltac constants H :=
  repeat match type of H with context [as_imm ?a] =>
    let Ea := fresh in destruct (as_imm a) eqn:Ea; [apply (as_imm_ival other env) in Ea; simplify_eq|clear Ea] end.

Lemma imm_folds dt w e : Some <$> MakeIntImm dt w = Ok (Some e) → ival other env e = Some w.
Proof. destruct (MakeIntImm dt w) eqn:E; [|done]. intros [= ->]. by apply MakeIntImm_inv in E as ->. Qed.

Lemma ideal_division op fop by_one : (∀ x y z, fop x y = Ok z → eval_bin op x y = Some z) →
  (∀ y v, eval_bin op 0 y = Some v → v = 0) →
  (∀ a x v e, ival other env a = Some x → eval_bin op x 1 = Some v → by_one a = Ok e → ival other env e = Some v) →
  ideal_folds (λ a b, fold_division fop (by_one a) a b) op.
Proof.
  intros Hop H0 H1 a b e x y v H Ha Hb Hv. unfold fold_division in H. constants H; inv64; repeat case_decide; simplify_eq; inv64.
  - rewrite (imm_folds _ _ _ H). match goal with E : fop _ _ = Ok _ |- _ => apply Hop in E end. congruence.
  - by rewrite (H0 _ _ Hv).
  - destruct (by_one a) eqn:E; [|done]. simplify_eq/=. by eapply H1.
Qed.

Lemma ideal_index fop op : ideal_folds (λ a b, fold_division fop (MakeConstScalar (dtype_of a) 0) a b) op →
  ideal_folds (λ a b, if IsIndexType (dtype_of a) && IsIndexType (dtype_of b)
                      then fold_division fop (MakeConstScalar (dtype_of a) 0) a b else Ok None) op.
Proof. intros H a b e x y v Hr. destruct (_ && _); [by apply (H a b e x y v)|done]. Qed.

Lemma ideal_fold same_as op : (∀ a b, same_as a b = true → a = b) → ideal_folds (TryConstFold same_as op) op.
Proof.
  intros Hs. unfold TryConstFold. destruct op; cbv beta iota.
  - intros a b e x y v H Ha Hb [= <-]. unfold TryConstFold_Add in H. constants H; inv64; repeat case_decide; simplify_eq.
    all: try (by eapply imm_folds). all: rewrite ?Z.add_0_r; done.
  - intros a b e x y v H Ha Hb [= <-]. unfold TryConstFold_Sub in H. constants H; inv64; repeat case_decide; simplify_eq.
    all: try (by eapply imm_folds). all: rewrite ?Z.sub_0_r; done.
  - intros a b e x y v H Ha Hb [= <-]. unfold TryConstFold_Mul in H. constants H; inv64; repeat case_decide; simplify_eq.
    all: try (by eapply imm_folds). all: rewrite ?Z.mul_1_r, ?Z.mul_0_r, ?Z.mul_1_l; done.
  - apply (ideal_division Div div64 (λ a, Ok a)); [|apply division_zero; set_solver|].
    + intros x y z. unfold div64. cbn. destruct (Z.eqb_spec y 0); [done|]. by intros [-> _]%i64_inv.
    + intros a x v e Ha Hv [= <-]. cbn in Hv. by rewrite Z.quot_1_r in Hv; simplify_eq.
  - apply ideal_index, ideal_division; [|apply division_zero; set_solver|].
    + intros x y z. unfold rem64. cbn. destruct (Z.eqb_spec y 0); [done|]. by intros (? & _ & [-> _]%i64_inv)%result_bind_ok.
    + intros a x v e Ha Hv ->%MakeConstScalar_inv. cbn in Hv. by rewrite Z.rem_1_r in Hv.
  - apply (ideal_division FloorDiv Int64.floordiv (λ a, Ok a)); [|apply division_zero; set_solver|].
    + intros x y z [Hy ->]%floordiv_inv. cbn. by rewrite (proj2 (Z.eqb_neq y 0)).
    + intros a x v e Ha Hv [= <-]. cbn in Hv. by rewrite Z.div_1_r in Hv; simplify_eq.
  - apply ideal_index, ideal_division; [|apply division_zero; set_solver|].
    + intros x y z [Hy ->]%floormod_inv. cbn. by rewrite (proj2 (Z.eqb_neq y 0)).
    + intros a x v e Ha Hv ->%MakeConstScalar_inv. cbn in Hv. by rewrite Z.mod_1_r in Hv.
  - intros a b e x y v H Ha Hb [= <-]. unfold TryConstFold_Min in H. constants H; try by eapply imm_folds.
    all: destruct (same_as a b) eqn:E; simplify_eq; apply Hs in E as <-; simplify_eq; by rewrite Z.min_id.
  - intros a b e x y v H Ha Hb [= <-]. unfold TryConstFold_Max in H. constants H; try by eapply imm_folds.
    all: destruct (same_as a b) eqn:E; simplify_eq; apply Hs in E as <-; simplify_eq; by rewrite Z.max_id.
Qed.

Lemma ideal_cmp op a b e x y : TryConstFold_Cmp op a b = Some e → ival other env a = Some x → ival other env b = Some y →
  ival other env e = Some (truth (eval_cmp op x y)).
Proof. intros H Ha Hb. unfold TryConstFold_Cmp in H. constants H; by simplify_eq. Qed.

Lemma ideal_and a b e p q : TryConstFold_And a b = Some e → ival other env a = Some (truth p) → ival other env b = Some (truth q) →
  ival other env e = Some (truth (p && q)).
Proof. intros H Ha Hb. unfold TryConstFold_And in H. constants H; simplify_eq; destruct p, q; done. Qed.

Lemma ideal_or a b e p q : TryConstFold_Or a b = Some e → ival other env a = Some (truth p) → ival other env b = Some (truth q) →
  ival other env e = Some (truth (p || q)).
Proof. intros H Ha Hb. unfold TryConstFold_Or in H. constants H; simplify_eq; destruct p, q; done. Qed.

Lemma ideal_not a e p : TryConstFold_Not a = Some e → ival other env a = Some (truth p) → ival other env e = Some (truth (negb p)).
Proof. intros H Ha. unfold TryConstFold_Not in H. constants H; simplify_eq; destruct p; done. Qed.

(** *** Matching and evaluation *)

Definition extends (s t : filled) : Prop := f_x s ⊆ f_x t ∧ f_c s ⊆ f_c t.
#[export] Instance extends_preorder : PreOrder extends.
Proof. split; [by intros s|intros s t u [] []; split; by etrans]. Qed.

Lemma match_x_spec i e s s' : match_x i e s = Some s' → extends s s' ∧ f_x s' !! i = Some e.
Proof.
  unfold match_x. destruct (f_x s !! i) eqn:E; [case_decide; intros; by simplify_eq|intros [= <-]].
  split; [split; [by apply insert_subseteq|done]|apply lookup_insert_eq].
Qed.

Lemma match_c_spec i e s s' : match_c i e s = Some s' → extends s s' ∧ ∃ dt dt' v, f_c s' !! i = Some (dt, v) ∧ e = IntImm dt' v.
Proof.
  unfold match_c. destruct e as [dt v| | | | | | | | | | | |]; try done.
  destruct (f_c s !! i) as [[dt' v']|] eqn:E.
  - destruct (Z.eqb_spec v' v) as [->|]; intros [= <-]. split; [done|]. by exists dt', dt, v.
  - intros [= <-]. split; [split; [done|by apply insert_subseteq]|]. exists dt, dt, v. split; [apply lookup_insert_eq|done].
Qed.

Lemma Match_extends p : ∀ e s s', Match_ p e s = Some s' → extends s s'.
Proof.
  induction p; intros e0 s0 s1 H; destruct e0; cbn [Match_] in H; try case_decide; simplify_eq; try done.
  all: try (by apply match_x_spec in H as [? _]). all: try (by apply match_c_spec in H as [? _]).
  all: try (destruct (_ =? _); by simplify_eq).
  all: try (apply bind_Some in H as (? & ? & H); etrans; [by eauto|]).
  all: try (apply bind_Some in H as (? & ? & H); etrans; [by eauto|]).
  all: by eauto.
Qed.

(** A matched expression has the value of the pattern. *)
Lemma Match_ideal p : simple p = true → ∀ e s s' t, Match_ p e s = Some s' → extends s' t →
  pval (xvals other env t) (cvals t) p = ival other env e.
Proof.
  assert (∀ q r a b s s' t, (s ← Match_ q a s; Match_ r b s) = Some s' → extends s' t →
    ∃ s1, Match_ q a s = Some s1 ∧ extends s1 t ∧ Match_ r b s1 = Some s' ∧ extends s' t) as Hsplit.
  { intros q r a b s s' t H Ht. apply bind_Some in H as (s1 & H1 & H2). exists s1. split_and!; try done.
    etrans; [by eapply Match_extends|done]. }
  induction p as [i|i|p IH z|c|op p1 IH1 p2 IH2|op p1 IH1 p2 IH2|p1 IH1 p2 IH2|p1 IH1 p2 IH2|p IH|p1 IH1 p2 IH2 p3 IH3];
    intros Hp e s s' t H Ht; cbn [simple] in Hp; bool_to_prop.
  - apply match_x_spec in H as [_ H]. cbn. unfold xvals. by rewrite (lookup_weaken _ _ _ _ H (proj1 Ht)).
  - apply match_c_spec in H as (_ & dt & dt' & v & H & ->). cbn. unfold cvals. by rewrite (lookup_weaken _ _ _ _ H (proj2 Ht)).
  - destruct e; cbn in H; try done. destruct (Z.eqb_spec value z) as [->|]; by simplify_eq.
  - cbn [Match_] in H. destruct (as_imm c) as [v|] eqn:Hv; [|done]. assert (c = e) as <- by (destruct e; by case_decide). cbn. rewrite Hv. symmetry. by apply as_imm_ival.
  - destruct e; cbn [Match_] in H; try done. case_decide; [subst|done]. destruct (Hsplit _ _ _ _ _ _ _ H Ht) as (s1 & Hm1 & Ht1 & Hm2 & Ht2).
    cbn. by rewrite (IH1 ltac:(done) _ _ _ _ Hm1 Ht1), (IH2 ltac:(done) _ _ _ _ Hm2 Ht2).
  - destruct e; cbn [Match_] in H; try done. case_decide; [subst|done]. destruct (Hsplit _ _ _ _ _ _ _ H Ht) as (s1 & Hm1 & Ht1 & Hm2 & Ht2).
    cbn. by rewrite (IH1 ltac:(done) _ _ _ _ Hm1 Ht1), (IH2 ltac:(done) _ _ _ _ Hm2 Ht2).
  - destruct e; cbn [Match_] in H; try done. destruct (Hsplit _ _ _ _ _ _ _ H Ht) as (s1 & Hm1 & Ht1 & Hm2 & Ht2).
    cbn. by rewrite (IH1 ltac:(done) _ _ _ _ Hm1 Ht1), (IH2 ltac:(done) _ _ _ _ Hm2 Ht2).
  - destruct e; cbn [Match_] in H; try done. destruct (Hsplit _ _ _ _ _ _ _ H Ht) as (s1 & Hm1 & Ht1 & Hm2 & Ht2).
    cbn. by rewrite (IH1 ltac:(done) _ _ _ _ Hm1 Ht1), (IH2 ltac:(done) _ _ _ _ Hm2 Ht2).
  - destruct e; cbn [Match_] in H; try done. cbn. by rewrite (IH ltac:(done) _ _ _ _ H Ht).
  - destruct e; cbn [Match_] in H; try done. apply bind_Some in H as (s1 & Hm1 & H).
    destruct (Hsplit _ _ _ _ _ _ _ H Ht) as (s2 & Hm2 & Ht2 & Hm3 & Ht3). pose proof (Match_extends _ _ _ _ Hm2).
    cbn. rewrite (IH1 ltac:(done) _ _ _ _ Hm1 ltac:(by etrans)), (IH2 ltac:(done) _ _ _ _ Hm2 Ht2), (IH3 ltac:(done) _ _ _ _ Hm3 Ht3). done.
Qed.

(** An evaluated pattern has the value of the pattern. *)
Lemma Eval_ideal same_as : (∀ a b, same_as a b = true → a = b) → ∀ p s e v, simple p = true → Eval same_as s p = Ok e →
  pval (xvals other env s) (cvals s) p = Some v → ival other env e = Some v.
Proof.
  intros Hs p. induction p as [i|i|p IH z|c|op p1 IH1 p2 IH2|op p1 IH1 p2 IH2|p1 IH1 p2 IH2|p1 IH1 p2 IH2|p IH|p1 IH1 p2 IH2 p3 IH3];
    intros s e v Hp H Hv; cbn [simple Eval pval] in *; bool_to_prop.
  all: try (apply result_bind_ok in H as (a & Ha & H)); try (apply bind_Some in Hv as (x & Hx & Hv)).
  all: try (apply result_bind_ok in H as (b & Hb & H)); try (apply bind_Some in Hv as (y & Hy & Hv)).
  all: try (specialize (IH1 _ _ _ ltac:(done) Ha Hx); specialize (IH2 _ _ _ ltac:(done) Hb Hy)).
  - unfold xvals in Hv. by destruct (f_x s !! i); simplify_eq/=.
  - unfold cvals in Hv. by destruct (f_c s !! i) as [[]|]; simplify_eq/=.
  - apply MakeConstScalar_inv in H as ->. done.
  - simplify_eq. by apply as_imm_ival.
  - apply result_bind_ok in H as ([r|] & Hr & H).
    + simplify_eq. by eapply (ideal_fold same_as).
    + apply result_bind_ok in H as (? & _ & [= <-]). cbn. by rewrite IH1, IH2.
  - destruct (TryConstFold_Cmp op a b) eqn:E; simplify_eq.
    + by eapply ideal_cmp.
    + apply result_bind_ok in H as (? & _ & [= <-]). cbn. by rewrite IH1, IH2.
  - apply bind_Some in Hv as (p & Hp1 & Hv). apply bind_Some in Hv as (q & Hq & [= <-]).
    apply as_bool_inv in Hp1 as ->, Hq as ->. destruct (TryConstFold_And a b) eqn:E; simplify_eq.
    + by eapply ideal_and.
    + apply result_bind_ok in H as (? & _ & H). apply result_bind_ok in H as (? & _ & [= <-]). cbn. rewrite IH1, IH2. cbn. by rewrite !as_bool_truth.
  - apply bind_Some in Hv as (p & Hp1 & Hv). apply bind_Some in Hv as (q & Hq & [= <-]).
    apply as_bool_inv in Hp1 as ->, Hq as ->. destruct (TryConstFold_Or a b) eqn:E; simplify_eq.
    + by eapply ideal_or.
    + apply result_bind_ok in H as (? & _ & H). apply result_bind_ok in H as (? & _ & [= <-]). cbn. rewrite IH1, IH2. cbn. by rewrite !as_bool_truth.
  - simplify_eq. cbn. rewrite (IH _ _ _ ltac:(done) Ha Hx). cbn. by rewrite Hy.
  - apply result_bind_ok in H as (c & Hc & H). apply result_bind_ok in H as (? & _ & H).
    apply result_bind_ok in H as (? & _ & [= <-]). cbn. rewrite (IH1 _ _ _ ltac:(done) Ha Hx). cbn. rewrite Hy. cbn.
    destruct y; eauto.
Qed.
End ideal.
