(* ===== verification/RewriteRules.v ===== *)
(** * Rewriting rules ([src/arith/rewrite_simplify.cc])

    The rules of the rewriting simplifier for scalar expressions, one table for each group of rules
    of a visitor function, in the order they are tried. A rule has the number of its line in the
    source, the pattern to match, the pattern to build, and a condition on the constants and on
    what can be proved of the matched expressions. A branch on the matched constants is a rule with
    the condition of the branch. The rules for vectors are left out. *)

From S2P Require Import Prelude Int64 TIR ConstFold PatternMatch.

(** ** Conditions *)

(** Arithmetic of [int64_t] on the matched constants *)
Inductive cexp :=
| CVar (i : nat)                (* [ci.Eval()->value] *)
| CNum (v : Z)
| CAdd (a b : cexp)
| CMul (a b : cexp)
| CRem (a b : cexp)
| CNeg (a : cexp).
Coercion CNum : Z >-> cexp.

Fixpoint ceval (C : nat → Z) (e : cexp) : result Z :=
  match e with
  | CVar i => Ok (C i)
  | CNum v => Ok v
  | CAdd a b => x ← ceval C a; y ← ceval C b; add64 x y
  | CMul a b => x ← ceval C a; y ← ceval C b; mul64 x y
  | CRem a b => x ← ceval C a; y ← ceval C b; rem64 x y
  | CNeg a => x ← ceval C a; neg64 x
  end.

Inductive cond :=
| CTrue
| CCmp (op : cmpop) (a b : cexp)
| CanProveGreaterEqual (x : pat) (val : cexp)
| CanProveEqual (x : pat) (val : Z)
| CAnd (a b : cond).

(** ** Rules *)

Record rule := {
  r_line : Z;
  r_src : pat;
  r_res : DataType → (nat → Z) → result pat;  (* the type of the expression and the constants are given *)
  r_cond : cond;
  r_recursive : bool
}.

Definition REWRITE_TO (line : Z) (SrcExpr : pat) (res : DataType → (nat → Z) → result pat) (CondExpr : cond) : rule :=
  {| r_line := line; r_src := SrcExpr; r_res := res; r_cond := CondExpr; r_recursive := false |}.
Definition RECURSIVE_REWRITE_TO (line : Z) (SrcExpr : pat) (res : DataType → (nat → Z) → result pat) (CondExpr : cond) : rule :=
  {| r_line := line; r_src := SrcExpr; r_res := res; r_cond := CondExpr; r_recursive := true |}.

Definition TVM_TRY_REWRITE (line : Z) (SrcExpr ResExpr : pat) : rule :=
  REWRITE_TO line SrcExpr (λ _ _, Ok ResExpr) CTrue.
Definition TVM_TRY_RECURSIVE_REWRITE (line : Z) (SrcExpr ResExpr : pat) : rule :=
  RECURSIVE_REWRITE_TO line SrcExpr (λ _ _, Ok ResExpr) CTrue.
Definition TVM_TRY_REWRITE_IF (line : Z) (SrcExpr ResExpr : pat) (CondExpr : cond) : rule :=
  REWRITE_TO line SrcExpr (λ _ _, Ok ResExpr) CondExpr.
Definition TVM_TRY_RECURSIVE_REWRITE_IF (line : Z) (SrcExpr ResExpr : pat) (CondExpr : cond) : rule :=
  RECURSIVE_REWRITE_TO line SrcExpr (λ _ _, Ok ResExpr) CondExpr.

(** ** Notations of the tables *)

Declare Scope pat_scope.
Delimit Scope pat_scope with pat.
Bind Scope pat_scope with pat.
Declare Scope cond_scope.
Delimit Scope cond_scope with cond.
Bind Scope cond_scope with cond cexp.

Notation "a + b" := (PBin Add a b) : pat_scope.
Notation "a - b" := (PBin Sub a b) : pat_scope.
Notation "a * b" := (PBin Mul a b) : pat_scope.
Notation "a == b" := (PCmp EQ a b) (at level 70, no associativity) : pat_scope.
Notation "a != b" := (PCmp NE a b) (at level 70, no associativity) : pat_scope.
Notation "a < b" := (PCmp LT a b) : pat_scope.
Notation "a <= b" := (PCmp LE a b) : pat_scope.
Notation "a > b" := (PCmp GT a b) : pat_scope.
Notation "a >= b" := (PCmp GE a b) : pat_scope.
Notation "a && b" := (PAnd a b) : pat_scope.
Notation "a || b" := (POr a b) : pat_scope.
Notation "! a" := (PNot a) (at level 35, right associativity) : pat_scope.

Notation "a + b" := (CAdd a b) : cond_scope.
Notation "a * b" := (CMul a b) : cond_scope.
Notation "a %% b" := (CRem a b) (at level 40, left associativity) : cond_scope.
Notation "- a" := (CNeg a) : cond_scope.
Notation "a == b" := (CCmp EQ a b) (at level 70, no associativity) : cond_scope.
Notation "a != b" := (CCmp NE a b) (at level 70, no associativity) : cond_scope.
Notation "a < b" := (CCmp LT a b) : cond_scope.
Notation "a <= b" := (CCmp LE a b) : cond_scope.
Notation "a > b" := (CCmp GT a b) : cond_scope.
Notation "a >= b" := (CCmp GE a b) : cond_scope.
Notation "a && b" := (CAnd a b) : cond_scope.

(** The pattern variables, and the values of the constants in conditions *)
Local Abbreviation x := (PX 0%nat).
Local Abbreviation y := (PX 1%nat).
Local Abbreviation z := (PX 2%nat).
Local Abbreviation b1 := (PX 3%nat).
Local Abbreviation b2 := (PX 4%nat).
Local Abbreviation s1 := (PX 5%nat).
Local Abbreviation s2 := (PX 6%nat).
Local Abbreviation c1 := (PC 1%nat).
Local Abbreviation c2 := (PC 2%nat).
Local Abbreviation c3 := (PC 3%nat).
Local Abbreviation k1 := (CVar 1%nat).
Local Abbreviation k2 := (CVar 2%nat).
Local Abbreviation k3 := (CVar 3%nat).

Local Abbreviation min := (PBin Min).
Local Abbreviation max := (PBin Max).
Local Abbreviation truncdiv := (PBin Div).
Local Abbreviation truncmod := (PBin Mod).
Local Abbreviation floordiv := (PBin FloorDiv).
Local Abbreviation floormod := (PBin FloorMod).
Local Abbreviation select := PSelect.
(** A constant of the type of a pattern *)
Local Abbreviation lit v p := (PLike p v).
Local Abbreviation cfalse := (PConst (IntImm Bool 0)).
Local Abbreviation ctrue := (PConst (IntImm Bool 1)).

(** ** Tables *)

(** [VisitExpr_(const AddNode* op)], the index rules *)
Definition add_rules : list rule :=
  [ TVM_TRY_REWRITE 145 (x - y + y) x
  ; TVM_TRY_REWRITE 146 (x + (y - x)) y
  ; TVM_TRY_REWRITE 148 (x - y + (y - z)) (x - z)
  ; TVM_TRY_REWRITE 149 (x - y + (z - x)) (z - y)
  ; TVM_TRY_REWRITE 151 (min x (y - z) + z) (min (x + z) y)
  ; TVM_TRY_REWRITE 152 (min (x - z) y + z) (min x (y + z))
  ; TVM_TRY_REWRITE 153 (max x (y - z) + z) (max (x + z) y)
  ; TVM_TRY_REWRITE 154 (max (x - z) y + z) (max x (y + z))
  ; TVM_TRY_REWRITE_IF 156 (min x (y + z * c1) + z * c2) (min (x + z * c2) y) (k1 == (- k2))
  ; TVM_TRY_REWRITE_IF 158 (max x (y + z * c1) + z * c2) (max (x + z * c2) y) (k1 == (- k2))
  ; TVM_TRY_REWRITE_IF 160 (min (y + z * c1) x + z * c2) (min (x + z * c2) y) (k1 == (- k2))
  ; TVM_TRY_REWRITE_IF 162 (max (y + z * c1) x + z * c2) (max (x + z * c2) y) (k1 == (- k2))
  ; TVM_TRY_REWRITE 165 (max x y + min x y) (x + y)
  ; TVM_TRY_REWRITE 166 (min x y + max x y) (x + y)
  ; TVM_TRY_REWRITE 167 (max x y + min y x) (x + y)
  ; TVM_TRY_REWRITE 168 (min x y + max y x) (x + y)
  ; TVM_TRY_REWRITE_IF 170 (min x (y + c1) + c2) (min (x + c2) y) (k1 == (- k2))
  ; TVM_TRY_REWRITE_IF 171 (min (x + c1) y + c2) (min x (y + c2)) (k1 == (- k2))
  ; TVM_TRY_REWRITE_IF 172 (max x (y + c1) + c2) (max (x + c2) y) (k1 == (- k2))
  ; TVM_TRY_REWRITE_IF 173 (max (x + c1) y + c2) (max x (y + c2)) (k1 == (- k2))
  ; TVM_TRY_REWRITE 177 (x + c1 + c2) (x + (c1 + c2))
  ; TVM_TRY_REWRITE 180 (x + x) (x * lit 2 x)
  ; TVM_TRY_REWRITE 181 (x * y + x) (x * (y + lit 1 y))
  ; TVM_TRY_REWRITE 182 (y * x + x) (x * (y + lit 1 y))
  ; TVM_TRY_REWRITE 183 (x + y * x) (x * (lit 1 y + y))
  ; TVM_TRY_REWRITE 184 (x + x * y) (x * (lit 1 y + y))
  ; TVM_TRY_REWRITE 185 (x * y + x * z) (x * (y + z))
  ; TVM_TRY_REWRITE 186 (y * x + x * z) (x * (y + z))
  ; TVM_TRY_REWRITE 187 (x * y + z * x) (x * (y + z))
  ; TVM_TRY_REWRITE 188 (y * x + z * x) (x * (y + z))
  ; TVM_TRY_REWRITE 192 (truncdiv x c1 * c1 + truncmod x c1) x
  ; TVM_TRY_REWRITE 194 (floordiv x c1 * c1 + floormod x c1) x
  ; TVM_TRY_RECURSIVE_REWRITE 198 (x + (c1 - y)) (x - y + c1)
  ; TVM_TRY_RECURSIVE_REWRITE 199 (c1 - y + x) (x - y + c1)
  ; TVM_TRY_RECURSIVE_REWRITE 200 (x + c1 + y) (x + y + c1)
  ; TVM_TRY_RECURSIVE_REWRITE 201 (x + (c1 + y)) (x + y + c1)
  ; TVM_TRY_RECURSIVE_REWRITE 202 (x + max y z) (max y z + x)
  ; TVM_TRY_RECURSIVE_REWRITE 203 (x + min y z) (min y z + x)
  ; TVM_TRY_RECURSIVE_REWRITE 207 (truncmod y c1 + x * c1) (x * c1 + truncmod y c1)
  ; TVM_TRY_RECURSIVE_REWRITE 209 (floormod y c1 + x * c1) (x * c1 + floormod y c1) ].

(** the condition rules *)
Definition add_condition_rules : list rule :=
  [ TVM_TRY_REWRITE 213 (select x b1 b2 + select x s1 s2) (select x (b1 + s1) (b2 + s2)) ].

(** [VisitExpr_(const SubNode* op)], the index rules without division *)
Definition sub_rules : list rule :=
  [ TVM_TRY_REWRITE 253 (x + y - y) x
  ; TVM_TRY_REWRITE 254 (x + y - x) y
  ; TVM_TRY_REWRITE 255 (x - (y + x)) (lit 0 y - y)
  ; TVM_TRY_REWRITE 256 (x - (x + y)) (lit 0 y - y)
  ; TVM_TRY_REWRITE 258 (min x y - x) (min (lit 0 (y - x)) (y - x))
  ; TVM_TRY_REWRITE 259 (min x y - y) (min (x - y) (lit 0 (x - y)))
  ; TVM_TRY_REWRITE 260 (max x y - x) (max (lit 0 (y - x)) (y - x))
  ; TVM_TRY_REWRITE 261 (max x y - y) (max (x - y) (lit 0 (x - y)))
  ; TVM_TRY_REWRITE 263 (x - max x y) (min (lit 0 (x - y)) (x - y))
  ; TVM_TRY_REWRITE 264 (y - max x y) (min (y - x) (lit 0 (y - x)))
  ; TVM_TRY_REWRITE 265 (x - min x y) (max (lit 0 (x - y)) (x - y))
  ; TVM_TRY_REWRITE 266 (y - min x y) (max (y - x) (lit 0 (y - x)))
  ; TVM_TRY_REWRITE 269 (x - x) (lit 0 x)
  ; TVM_TRY_REWRITE 270 (x * y - x) (x * (y - lit 1 y))
  ; TVM_TRY_REWRITE 271 (y * x - x) (x * (y - lit 1 y))
  ; TVM_TRY_REWRITE 272 (x - y * x) (x * (lit 1 y - y))
  ; TVM_TRY_REWRITE 273 (x - x * y) (x * (lit 1 y - y))
  ; TVM_TRY_REWRITE 274 (x * y - x * z) (x * (y - z))
  ; TVM_TRY_REWRITE 275 (y * x - x * z) (x * (y - z))
  ; TVM_TRY_REWRITE 276 (x * y - z * x) (x * (y - z))
  ; TVM_TRY_REWRITE 277 (y * x - z * x) (x * (y - z))
  ; TVM_TRY_REWRITE 280 (x + c1 - c2) (x + (c1 - c2))
  ; TVM_TRY_REWRITE 281 (c1 - x - (c2 - y)) (y - x + (c1 - c2))
  ; TVM_TRY_REWRITE 284 (x + y - (x + z)) (y - z)
  ; TVM_TRY_REWRITE 285 (x + y - (z + x)) (y - z)
  ; TVM_TRY_REWRITE 286 (y + x - (z + x)) (y - z)
  ; TVM_TRY_REWRITE 287 (y + x - (x + z)) (y - z)
  ; TVM_TRY_REWRITE 289 (min (x + y) z - x) (min y (z - x))
  ; TVM_TRY_REWRITE 290 (min (y + x) z - x) (min y (z - x))
  ; TVM_TRY_REWRITE 291 (min z (x + y) - x) (min (z - x) y)
  ; TVM_TRY_REWRITE 292 (min z (y + x) - x) (min (z - x) y)
  ; TVM_TRY_REWRITE 294 (max (x + y) z - x) (max y (z - x))
  ; TVM_TRY_REWRITE 295 (max (y + x) z - x) (max y (z - x))
  ; TVM_TRY_REWRITE 296 (max z (x + y) - x) (max (z - x) y)
  ; TVM_TRY_REWRITE 297 (max z (y + x) - x) (max (z - x) y)
  ; TVM_TRY_REWRITE 299 (x - min (x + y) z) (max (lit 0 y - y) (x - z))
  ; TVM_TRY_REWRITE 300 (x - min (y + x) z) (max (lit 0 y - y) (x - z))
  ; TVM_TRY_REWRITE 301 (x - min z (x + y)) (max (x - z) (lit 0 y - y))
  ; TVM_TRY_REWRITE 302 (x - min z (y + x)) (max (x - z) (lit 0 y - y))
  ; TVM_TRY_REWRITE 304 (min x y - min y x) (lit 0 x)
  ; TVM_TRY_REWRITE 305 (max x y - max y x) (lit 0 x)
  ; TVM_TRY_REWRITE_IF 307 (min b1 b2 - min s1 s2) (b1 - s1) (CanProveEqual (b1 - s1 - (b2 - s2)) 0)
  ; TVM_TRY_REWRITE_IF 310 (min b1 b2 - min s1 s2) (b1 - s2) (CanProveEqual (b1 - s2 - (b2 - s1)) 0)
  ; TVM_TRY_REWRITE_IF 312 (max b1 b2 - max s1 s2) (b1 - s1) (CanProveEqual (b1 - s1 - (b2 - s2)) 0)
  ; TVM_TRY_REWRITE_IF 314 (max b1 b2 - max s1 s2) (b1 - s2) (CanProveEqual (b1 - s2 - (b2 - s1)) 0) ].

(** the index rules with division *)
Definition sub_division_rules : list rule :=
  [ TVM_TRY_REWRITE_IF 320 (x - truncdiv x c1 * c1) (truncmod x c1) (k1 != 0)
  ; TVM_TRY_REWRITE_IF 321 (truncdiv x c1 * c1 - x) (lit 0 (truncmod x c1) - truncmod x c1) (k1 != 0)
  ; TVM_TRY_REWRITE_IF 322 (x - truncdiv (x + y) c1 * c1) (truncmod (x + y) c1 - y) (k1 != 0)
  ; TVM_TRY_REWRITE_IF 324 (truncdiv (x + y) c1 * c1 - x) (y - truncmod (x + y) c1) (k1 != 0)
  ; TVM_TRY_REWRITE_IF 326 (x - truncdiv (x - y) c1 * c1) (truncmod (x - y) c1 + y) (k1 != 0)
  ; TVM_TRY_REWRITE_IF 328 (truncdiv (x - y) c1 * c1 - x) (lit 0 (truncmod (x - y) c1) - truncmod (x - y) c1 - y)
      (k1 != 0)
  ; TVM_TRY_REWRITE_IF 331 (x * c2 - truncdiv x c1 * c3) (truncmod x c1 * c2) ((k1 != 0) && (k3 == k1 * k2))
  ; TVM_TRY_REWRITE_IF 334 (truncdiv x c1 * c3 - x * c2) (lit 0 (truncmod x c1 * c2) - truncmod x c1 * c2)
      ((k1 != 0) && (k3 == k1 * k2))
  ; TVM_TRY_REWRITE_IF 337 (x * c2 - truncdiv (x + y) c1 * c3) ((truncmod (x + y) c1 - y) * c2)
      ((k1 != 0) && (k3 == k1 * k2))
  ; TVM_TRY_REWRITE_IF 340 (truncdiv (x + y) c1 * c3 - x * c2) ((y - truncmod (x + y) c1) * c2)
      ((k1 != 0) && (k3 == k1 * k2))
  ; TVM_TRY_REWRITE_IF 343 (x * c2 - truncdiv (x - y) c1 * c3) ((truncmod (x - y) c1 + y) * c2)
      ((k1 != 0) && (k3 == k1 * k2))
  ; TVM_TRY_REWRITE_IF 346 (truncdiv (x - y) c1 * c3 - x * c2) ((lit 0 (truncmod (x - y) c1) - truncmod (x - y) c1 - y) * c2)
      ((k1 != 0) && (k3 == k1 * k2))
  ; TVM_TRY_REWRITE_IF 354 (truncdiv (x + c1) c3 - truncdiv (x + c2) c3) (truncdiv (truncmod (x + floormod c2 c3) c3 + (c1 - c2)) c3)
      (CanProveGreaterEqual x (- k2) && (k1 >= k2) && (k3 > 0))
  ; TVM_TRY_REWRITE_IF 358 (truncdiv (x + c1) c3 - truncdiv x c3) (truncdiv (truncmod x c3 + c1) c3)
      (CanProveGreaterEqual x 0 && (k1 >= 0) && (k3 > 0))
  ; TVM_TRY_REWRITE_IF 363 (x - floordiv x c1 * c1) (floormod x c1) (k1 != 0)
  ; TVM_TRY_REWRITE_IF 364 (floordiv x c1 * c1 - x) (lit 0 (floormod x c1) - floormod x c1) (k1 != 0)
  ; TVM_TRY_REWRITE_IF 365 (x - floordiv (x + y) c1 * c1) (floormod (x + y) c1 - y) (k1 != 0)
  ; TVM_TRY_REWRITE_IF 367 (floordiv (x + y) c1 * c1 - x) (y - floormod (x + y) c1) (k1 != 0)
  ; TVM_TRY_REWRITE_IF 369 (x - floordiv (x - y) c1 * c1) (floormod (x - y) c1 + y) (k1 != 0)
  ; TVM_TRY_REWRITE_IF 371 (floordiv (x - y) c1 * c1 - x) (lit 0 (floormod (x - y) c1) - floormod (x - y) c1 - y)
      (k1 != 0)
  ; TVM_TRY_REWRITE_IF 374 (x * c2 - floordiv x c1 * c3) (floormod x c1 * c2) ((k1 != 0) && (k3 == k1 * k2))
  ; TVM_TRY_REWRITE_IF 377 (floordiv x c1 * c3 - x * c2) (lit 0 (floormod x c1 * c2) - floormod x c1 * c2)
      ((k1 != 0) && (k3 == k1 * k2))
  ; TVM_TRY_REWRITE_IF 380 (x * c2 - floordiv (x + y) c1 * c3) ((floormod (x + y) c1 - y) * c2)
      ((k1 != 0) && (k3 == k1 * k2))
  ; TVM_TRY_REWRITE_IF 383 (floordiv (x + y) c1 * c3 - x * c2) ((y - floormod (x + y) c1) * c2)
      ((k1 != 0) && (k3 == k1 * k2))
  ; TVM_TRY_REWRITE_IF 386 (x * c2 - floordiv (x - y) c1 * c3) ((floormod (x - y) c1 + y) * c2)
      ((k1 != 0) && (k3 == k1 * k2))
  ; TVM_TRY_REWRITE_IF 389 (floordiv (x - y) c1 * c3 - x * c2) ((lit 0 (floormod (x - y) c1) - floormod (x - y) c1 - y) * c2)
      ((k1 != 0) && (k3 == k1 * k2))
  ; TVM_TRY_REWRITE_IF 393 (floordiv (x + c1) c3 - floordiv (x + c2) c3) (floordiv (floormod (x + floormod c2 c3) c3 + (c1 - c2)) c3)
      (k3 > 0)
  ; TVM_TRY_REWRITE_IF 396 (floordiv (x + c1) c3 - floordiv x c3) (floordiv (floormod x c3 + c1) c3) (k3 > 0) ].

(** the canonicalization rules *)
Definition sub_canonical_rules : list rule :=
  [ TVM_TRY_REWRITE 401 (x - c1) (x + (lit 0 c1 - c1))
  ; TVM_TRY_RECURSIVE_REWRITE 402 (x + c1 - y) (x - y + c1)
  ; TVM_TRY_RECURSIVE_REWRITE 403 (x - (y - z)) (x + z - y)
  ; TVM_TRY_RECURSIVE_REWRITE 404 (x - y * c1) (x + y * (lit 0 c1 - c1)) ].

(** the condition rules *)
Definition sub_condition_rules : list rule :=
  [ TVM_TRY_REWRITE 408 (select x b1 b2 - select x s1 s2) (select x (b1 - s1) (b2 - s2))
  ; TVM_TRY_REWRITE 409 (select x y z - z) (select x (y - z) (lit 0 z))
  ; TVM_TRY_REWRITE 410 (select x y z - y) (select x (lit 0 y) (z - y)) ].

(** [VisitExpr_(const MulNode* op)] *)
Definition mul_rules : list rule :=
  [ TVM_TRY_REWRITE 437 ((x + c1) * c2) (x * c2 + c1 * c2)
  ; TVM_TRY_REWRITE 438 (x * c1 * c2) (x * (c1 * c2))
  ; TVM_TRY_REWRITE 439 (min x y * max x y) (x * y)
  ; TVM_TRY_REWRITE 440 (max x y * min x y) (x * y)
  ; TVM_TRY_RECURSIVE_REWRITE 443 (x * (c1 * y)) (x * y * c1)
  ; TVM_TRY_RECURSIVE_REWRITE 444 (c1 * x) (x * c1)
  ; TVM_TRY_RECURSIVE_REWRITE_IF 445 ((x - y) * c1) ((y - x) * (lit 0 c1 - c1)) (k1 < 0) ].

(** [VisitExpr_(const DivNode* op)] *)
Definition div_rules : list rule :=
  [ REWRITE_TO 501 (truncdiv c1 c2) (λ dt C, v ← Int64.truncdiv (C 1%nat) (C 2%nat); PConst <$> MakeConstScalar dt v) CTrue
  ; TVM_TRY_REWRITE_IF 509 (truncdiv (truncdiv x c1) c2) (truncdiv x (c1 * c2)) ((k1 > 0) && (k2 > 0))
  ; TVM_TRY_REWRITE_IF 512 (truncdiv (truncdiv x c1 + c2) c3) (truncdiv (x + c1 * c2) (c1 * c3))
      ((k1 > 0) && (k2 >= 0) && (k3 > 0) && CanProveGreaterEqual x 0)
  ; TVM_TRY_REWRITE_IF 520 (truncdiv (x * c1) c2) (x * truncdiv c1 c2) ((k1 > 0) && (k2 > 0) && (k1 %% k2 == 0))
  ; TVM_TRY_REWRITE_IF 521 (truncdiv (x * c1) c2) (truncdiv x (truncdiv c2 c1)) ((k1 > 0) && (k2 > 0) && (k2 %% k1 == 0))
  ; TVM_TRY_REWRITE 525 (truncdiv x x) (lit 1 x)
  ; TVM_TRY_REWRITE 526 (truncdiv (x * c1) x) c1
  ; TVM_TRY_REWRITE 527 (truncdiv (c1 * x) x) c1
  ; TVM_TRY_REWRITE_IF 530 (truncdiv (x * c1 + y) c2) (x * truncdiv c1 c2 + truncdiv y c2)
      ((k1 >= 0) && (k2 > 0) && (k1 %% k2 == 0) && CanProveGreaterEqual x 0 && CanProveGreaterEqual y 0)
  ; TVM_TRY_REWRITE_IF 535 (truncdiv (min (x * c1) y) c2) (min (x * truncdiv c1 c2) (truncdiv y c2))
      ((k1 >= 0) && (k2 > 0) && (k1 %% k2 == 0) && CanProveGreaterEqual x 0 && CanProveGreaterEqual y 0)
  ; TVM_TRY_REWRITE_IF 540 (truncdiv (max (x * c1) y) c2) (max (x * truncdiv c1 c2) (truncdiv y c2))
      ((k1 >= 0) && (k2 > 0) && (k1 %% k2 == 0) && CanProveGreaterEqual x 0 && CanProveGreaterEqual y 0)
  ; TVM_TRY_REWRITE_IF 545 (truncdiv (y + x * c1) c2) (truncdiv y c2 + x * truncdiv c1 c2)
      ((k1 >= 0) && (k2 > 0) && (k1 %% k2 == 0) && CanProveGreaterEqual x 0 && CanProveGreaterEqual y 0)
  ; TVM_TRY_REWRITE_IF 550 (truncdiv (min y (x * c1)) c2) (min (truncdiv y c2) (x * truncdiv c1 c2))
      ((k1 >= 0) && (k2 > 0) && (k1 %% k2 == 0) && CanProveGreaterEqual x 0 && CanProveGreaterEqual y 0)
  ; TVM_TRY_REWRITE_IF 555 (truncdiv (max y (x * c1)) c2) (max (truncdiv y c2) (x * truncdiv c1 c2))
      ((k1 >= 0) && (k2 > 0) && (k1 %% k2 == 0) && CanProveGreaterEqual x 0 && CanProveGreaterEqual y 0)
  ; TVM_TRY_REWRITE_IF 561 (truncdiv (x * c1 + y + z) c2) (x * truncdiv c1 c2 + truncdiv (y + z) c2)
      ((k1 >= 0) && (k2 > 0) && (k1 %% k2 == 0) && CanProveGreaterEqual x 0 && CanProveGreaterEqual (y + z) 0)
  ; TVM_TRY_REWRITE_IF 566 (truncdiv (x * c1 - y + z) c2) (x * truncdiv c1 c2 + truncdiv (z - y) c2)
      ((k1 >= 0) && (k2 > 0) && (k1 %% k2 == 0) && CanProveGreaterEqual x 0 && CanProveGreaterEqual (z - y) 0)
  ; TVM_TRY_REWRITE_IF 571 (truncdiv (x * c1 + y - z) c2) (x * truncdiv c1 c2 + truncdiv (y - z) c2)
      ((k1 >= 0) && (k2 > 0) && (k1 %% k2 == 0) && CanProveGreaterEqual x 0 && CanProveGreaterEqual (y - z) 0)
  ; TVM_TRY_REWRITE_IF 576 (truncdiv (y + x * c1 + z) c2) (x * truncdiv c1 c2 + truncdiv (y + z) c2)
      ((k1 > 0) && (k2 > 0) && (k1 %% k2 == 0) && CanProveGreaterEqual x 0 && CanProveGreaterEqual (y + z) 0)
  ; TVM_TRY_REWRITE_IF 581 (truncdiv (x + c1) c2) (truncdiv x c2 + truncdiv c1 c2)
      ((k1 > 0) && (k2 > 0) && (k1 %% k2 == 0) && CanProveGreaterEqual x 0)
  ; TVM_TRY_REWRITE_IF 586 (truncdiv (x + y) x) (truncdiv y x + lit 1 (truncdiv y x))
      (CanProveGreaterEqual x 0 && CanProveGreaterEqual y 0)
  ; TVM_TRY_REWRITE_IF 588 (truncdiv (y + x) x) (truncdiv y x + lit 1 (truncdiv y x))
      (CanProveGreaterEqual x 0 && CanProveGreaterEqual y 0)
  ; TVM_TRY_REWRITE_IF 591 (truncdiv (x + y + z) x) (truncdiv (y + z) x + lit 1 (truncdiv (y + z) x))
      (CanProveGreaterEqual x 0 && CanProveGreaterEqual (y + z) 0)
  ; TVM_TRY_REWRITE_IF 594 (truncdiv (y + x + z) x) (truncdiv (y + z) x + lit 1 (truncdiv (y + z) x))
      (CanProveGreaterEqual x 0 && CanProveGreaterEqual (y + z) 0)
  ; TVM_TRY_REWRITE_IF 597 (truncdiv (y + (z + x)) x) (truncdiv (y + z) x + lit 1 (truncdiv (y + z) x))
      (CanProveGreaterEqual x 0 && CanProveGreaterEqual (y + z) 0)
  ; TVM_TRY_REWRITE_IF 600 (truncdiv (y + (x + z)) x) (truncdiv (y + z) x + lit 1 (truncdiv (y + z) x))
      (CanProveGreaterEqual x 0 && CanProveGreaterEqual (y + z) 0)
  ; TVM_TRY_REWRITE_IF 604 (truncdiv (x * y) y) x (CanProveGreaterEqual x 0 && CanProveGreaterEqual y 0)
  ; TVM_TRY_REWRITE_IF 606 (truncdiv (y * x) y) x (CanProveGreaterEqual x 0 && CanProveGreaterEqual y 0)
  ; TVM_TRY_REWRITE_IF 609 (truncdiv (x * z + y) z) (x + truncdiv y z)
      (CanProveGreaterEqual x 0 && CanProveGreaterEqual y 0 && CanProveGreaterEqual z 0)
  ; TVM_TRY_REWRITE_IF 612 (truncdiv (z * x + y) z) (x + truncdiv y z)
      (CanProveGreaterEqual x 0 && CanProveGreaterEqual y 0 && CanProveGreaterEqual z 0)
  ; TVM_TRY_REWRITE_IF 615 (truncdiv (y + x * z) z) (truncdiv y z + x)
      (CanProveGreaterEqual x 0 && CanProveGreaterEqual y 0 && CanProveGreaterEqual z 0)
  ; TVM_TRY_REWRITE_IF 618 (truncdiv (y + z * x) z) (truncdiv y z + x)
      (CanProveGreaterEqual x 0 && CanProveGreaterEqual y 0 && CanProveGreaterEqual z 0) ].

(** [VisitExpr_(const ModNode* op)] *)
Definition mod_rules : list rule :=
  [ TVM_TRY_REWRITE_IF 670 (truncmod (x * c1) c2) (lit 0 x) ((k2 != 0) && (k1 %% k2 == 0))
  ; TVM_TRY_REWRITE_IF 673 (truncmod (x * c1 + y) c2) (truncmod y c2)
      ((k2 > 0) && (k1 %% k2 == 0) && CanProveGreaterEqual (x * c1) 0 && CanProveGreaterEqual y 0)
  ; TVM_TRY_REWRITE_IF 678 (truncmod (x + c1) c2) (truncmod x c2)
      ((k2 > 0) && (k1 >= 0) && (k1 %% k2 == 0) && CanProveGreaterEqual x 0)
  ; TVM_TRY_REWRITE_IF 683 (truncmod (x + y * c1) c2) (truncmod x c2)
      ((k2 > 0) && (k1 %% k2 == 0) && CanProveGreaterEqual x 0 && CanProveGreaterEqual (y * c1) 0)
  ; RECURSIVE_REWRITE_TO 690 (truncmod x c1)
      (λ dt C, v ← neg64 (C 1%nat); e ← MakeConstScalar dt v; Ok (truncmod x (PConst e))) (k1 < 0) ].

(** [VisitExpr_(const FloorDivNode* op)] *)
Definition floordiv_rules : list rule :=
  [ TVM_TRY_REWRITE_IF 748 (floordiv (floordiv x c1) c2) (floordiv x (c1 * c2)) ((k1 > 0) && (k2 > 0))
  ; TVM_TRY_REWRITE_IF 751 (floordiv (floordiv x c1 + c2) c3) (floordiv (x + c1 * c2) (c1 * c3)) ((k1 > 0) && (k3 > 0))
  ; TVM_TRY_REWRITE_IF 758 (floordiv (x * c1) c2) (x * floordiv c1 c2) ((k1 > 0) && (k2 > 0) && (k1 %% k2 == 0))
  ; TVM_TRY_REWRITE_IF 759 (floordiv (x * c1) c2) (floordiv x (floordiv c2 c1)) ((k1 > 0) && (k2 > 0) && (k2 %% k1 == 0))
  ; TVM_TRY_REWRITE 763 (floordiv x x) (lit 1 x)
  ; TVM_TRY_REWRITE 764 (floordiv (x * c1) x) c1
  ; TVM_TRY_REWRITE 765 (floordiv (c1 * x) x) c1
  ; TVM_TRY_REWRITE_IF 768 (floordiv (x * c1 + y) c2) (x * floordiv c1 c2 + floordiv y c2) ((k2 > 0) && (k1 %% k2 == 0))
  ; TVM_TRY_REWRITE_IF 771 (floordiv (min (x * c1) y) c2) (min (x * floordiv c1 c2) (floordiv y c2))
      ((k2 > 0) && (k1 %% k2 == 0))
  ; TVM_TRY_REWRITE_IF 774 (floordiv (max (x * c1) y) c2) (max (x * floordiv c1 c2) (floordiv y c2))
      ((k2 > 0) && (k1 %% k2 == 0))
  ; TVM_TRY_REWRITE_IF 777 (floordiv (y + x * c1) c2) (floordiv y c2 + x * floordiv c1 c2) ((k2 > 0) && (k1 %% k2 == 0))
  ; TVM_TRY_REWRITE_IF 780 (floordiv (min y (x * c1)) c2) (min (floordiv y c2) (x * floordiv c1 c2))
      ((k2 > 0) && (k1 %% k2 == 0))
  ; TVM_TRY_REWRITE_IF 783 (floordiv (max y (x * c1)) c2) (max (floordiv y c2) (x * floordiv c1 c2))
      ((k2 > 0) && (k1 %% k2 == 0))
  ; TVM_TRY_REWRITE_IF 787 (floordiv (x * c1 + y + z) c2) (x * floordiv c1 c2 + floordiv (y + z) c2)
      ((k2 > 0) && (k1 %% k2 == 0))
  ; TVM_TRY_REWRITE_IF 790 (floordiv (x * c1 - y + z) c2) (x * floordiv c1 c2 + floordiv (z - y) c2)
      ((k2 > 0) && (k1 %% k2 == 0))
  ; TVM_TRY_REWRITE_IF 793 (floordiv (x * c1 + y - z) c2) (x * floordiv c1 c2 + floordiv (y - z) c2)
      ((k2 > 0) && (k1 %% k2 == 0))
  ; TVM_TRY_REWRITE_IF 796 (floordiv (y + x * c1 + z) c2) (x * floordiv c1 c2 + floordiv (y + z) c2)
      ((k2 > 0) && (k1 %% k2 == 0))
  ; TVM_TRY_REWRITE_IF 799 (floordiv (x + c1) c2) (floordiv x c2 + floordiv c1 c2) ((k2 > 0) && (k1 %% k2 == 0))
  ; TVM_TRY_REWRITE_IF 802 (floordiv (x + y) x) (floordiv y x + lit 1 (floordiv y x)) (CanProveGreaterEqual x 0)
  ; TVM_TRY_REWRITE_IF 804 (floordiv (y + x) x) (floordiv y x + lit 1 (floordiv y x)) (CanProveGreaterEqual x 0)
  ; TVM_TRY_REWRITE_IF 806 (floordiv (x + y + z) x) (floordiv (y + z) x + lit 1 (floordiv (y + z) x))
      (CanProveGreaterEqual x 0)
  ; TVM_TRY_REWRITE_IF 808 (floordiv (y + x + z) x) (floordiv (y + z) x + lit 1 (floordiv (y + z) x))
      (CanProveGreaterEqual x 0)
  ; TVM_TRY_REWRITE_IF 810 (floordiv (y + (z + x)) x) (floordiv (y + z) x + lit 1 (floordiv (y + z) x))
      (CanProveGreaterEqual x 0)
  ; TVM_TRY_REWRITE_IF 812 (floordiv (y + (x + z)) x) (floordiv (y + z) x + lit 1 (floordiv (y + z) x))
      (CanProveGreaterEqual x 0)
  ; TVM_TRY_REWRITE_IF 815 (floordiv (x * y) y) x (CanProveGreaterEqual y 0)
  ; TVM_TRY_REWRITE_IF 816 (floordiv (y * x) y) x (CanProveGreaterEqual y 0)
  ; TVM_TRY_REWRITE_IF 818 (floordiv (x * z + y) z) (x + floordiv y z) (CanProveGreaterEqual z 0)
  ; TVM_TRY_REWRITE_IF 820 (floordiv (z * x + y) z) (x + floordiv y z) (CanProveGreaterEqual z 0)
  ; TVM_TRY_REWRITE_IF 822 (floordiv (y + x * z) z) (floordiv y z + x) (CanProveGreaterEqual z 0)
  ; TVM_TRY_REWRITE_IF 824 (floordiv (y + z * x) z) (floordiv y z + x) (CanProveGreaterEqual z 0) ].

(** [VisitExpr_(const FloorModNode* op)] *)
Definition floormod_rules : list rule :=
  [ TVM_TRY_REWRITE_IF 873 (floormod (x * c1) c2) (lit 0 x) ((k2 != 0) && (k1 %% k2 == 0))
  ; TVM_TRY_REWRITE_IF 876 (floormod (x * c1 + y) c2) (floormod y c2) ((k2 > 0) && (k1 %% k2 == 0))
  ; TVM_TRY_REWRITE_IF 879 (floormod (x + c1) c2) (floormod x c2) ((k2 > 0) && (k1 %% k2 == 0))
  ; TVM_TRY_REWRITE_IF 882 (floormod (x + y * c1) c2) (floormod x c2) ((k2 > 0) && (k1 %% k2 == 0))
  ; TVM_TRY_REWRITE 885 (floormod (x * y) y) (lit 0 x)
  ; TVM_TRY_REWRITE 886 (floormod (y * x) y) (lit 0 y) ].

(** [VisitExpr_(const MinNode* op)], the rule before the bounds are compared *)
Definition min_same_rules : list rule :=
  [ TVM_TRY_REWRITE 919 (min x x) x ].

(** the index rules after that *)
Definition min_rules : list rule :=
  [ TVM_TRY_REWRITE_IF 934 (min (x + c1) (x + c2)) (x + c1) (k1 < k2)
  ; TVM_TRY_REWRITE_IF 936 (min (x + c1) (x + c2)) (x + c2) (k1 >= k2)
  ; TVM_TRY_REWRITE_IF 941 (min (x + c1) x) (x + c1) (k1 < 0)
  ; TVM_TRY_REWRITE_IF 943 (min (x + c1) x) x (k1 >= 0)
  ; TVM_TRY_REWRITE_IF 941 (min x (x + c1)) (x + c1) (k1 < 0)
  ; TVM_TRY_REWRITE_IF 943 (min x (x + c1)) x (k1 >= 0)
  ; TVM_TRY_REWRITE_IF 948 (min (c1 - x) (c2 - x)) (c1 - x) (k1 < k2)
  ; TVM_TRY_REWRITE_IF 950 (min (c1 - x) (c2 - x)) (c2 - x) (k1 >= k2)
  ; TVM_TRY_REWRITE_IF 957 (min (truncdiv (x + c1) c2 * c2) x) x ((k2 > 0) && (k1 + 1 == k2))
  ; TVM_TRY_REWRITE_IF 959 (min (truncdiv (x + c1) c2 * c2) (max x c2)) (max x c2)
      ((k2 > 0) && (k1 + 1 == k2) && CanProveGreaterEqual x 0)
  ; TVM_TRY_REWRITE_IF 963 (min x (truncdiv (x + c1) c2 * c2)) x ((k2 > 0) && (k1 + 1 == k2))
  ; TVM_TRY_REWRITE_IF 965 (min (max x c2) (truncdiv (x + c1) c2 * c2)) (max x c2)
      ((k2 > 0) && (k1 + 1 == k2) && CanProveGreaterEqual x 0)
  ; TVM_TRY_REWRITE_IF 970 (min (floordiv (x + c1) c2 * c2) x) x ((k2 > 0) && (k1 + 1 == k2))
  ; TVM_TRY_REWRITE_IF 972 (min (floordiv (x + c1) c2 * c2) (max x c2)) (max x c2) ((k2 > 0) && (k1 + 1 == k2))
  ; TVM_TRY_REWRITE_IF 975 (min x (floordiv (x + c1) c2 * c2)) x ((k2 > 0) && (k1 + 1 == k2))
  ; TVM_TRY_REWRITE_IF 977 (min (max x c2) (floordiv (x + c1) c2 * c2)) (max x c2) ((k2 > 0) && (k1 + 1 == k2))
  ; TVM_TRY_REWRITE_IF 980 (min x (floordiv x c2 * c2)) (floordiv x c2 * c2) (k2 > 0)
  ; TVM_TRY_REWRITE_IF 981 (min (floordiv x c2 * c2) x) (floordiv x c2 * c2) (k2 > 0)
  ; TVM_TRY_REWRITE 983 (min (max x y) (min x y)) (min x y)
  ; TVM_TRY_REWRITE 984 (min (max x y) (min y x)) (min x y)
  ; TVM_TRY_REWRITE 985 (min (min x y) (max x y)) (min x y)
  ; TVM_TRY_REWRITE 986 (min (min x y) (max y x)) (min x y)
  ; TVM_TRY_REWRITE 988 (min (max x y) x) x
  ; TVM_TRY_REWRITE 989 (min (max x y) y) y
  ; TVM_TRY_REWRITE 990 (min (min x y) x) (min x y)
  ; TVM_TRY_REWRITE 991 (min (min x y) y) (min x y)
  ; TVM_TRY_REWRITE 993 (min x (max x y)) x
  ; TVM_TRY_REWRITE 994 (min y (max x y)) y
  ; TVM_TRY_REWRITE 995 (min x (min x y)) (min x y)
  ; TVM_TRY_REWRITE 996 (min y (min x y)) (min x y)
  ; TVM_TRY_REWRITE 998 (min (min (min x y) z) y) (min (min x y) z)
  ; TVM_TRY_REWRITE 999 (min (min (min (min x y) z) s1) y) (min (min (min x y) z) s1)
  ; TVM_TRY_REWRITE 1000 (min (min (min (min (min x y) z) s1) s2) y) (min (min (min (min x y) z) s1) s2)
  ; TVM_TRY_REWRITE 1003 (min (max x y) (max x z)) (max (min y z) x)
  ; TVM_TRY_REWRITE 1004 (min (max x y) (max z x)) (max (min y z) x)
  ; TVM_TRY_REWRITE 1005 (min (max y x) (max x z)) (max (min y z) x)
  ; TVM_TRY_REWRITE 1006 (min (max y x) (max z x)) (max (min y z) x)
  ; TVM_TRY_REWRITE 1008 (min (min x y) (min x z)) (min (min y z) x)
  ; TVM_TRY_REWRITE 1009 (min (min x y) (min z x)) (min (min y z) x)
  ; TVM_TRY_REWRITE 1010 (min (min y x) (min x z)) (min (min y z) x)
  ; TVM_TRY_REWRITE 1011 (min (min y x) (min z x)) (min (min y z) x)
  ; TVM_TRY_REWRITE 1013 (min (y + x) (z + x)) (min y z + x)
  ; TVM_TRY_REWRITE 1014 (min (y + x) (x + z)) (min y z + x)
  ; TVM_TRY_REWRITE 1015 (min (x + y) (x + z)) (min y z + x)
  ; TVM_TRY_REWRITE 1016 (min (x + y) (z + x)) (min y z + x)
  ; TVM_TRY_REWRITE 1019 (min (y - x) (z - x)) (min y z - x)
  ; TVM_TRY_REWRITE 1020 (min (x - y) (x - z)) (x - max y z)
  ; TVM_TRY_REWRITE 1023 (min (min x c1) c2) (min x (min c1 c2))
  ; TVM_TRY_REWRITE_IF 1028 (min (truncdiv x c1) (truncdiv y c1)) (truncdiv (min x y) c1) (k1 > 0)
  ; TVM_TRY_REWRITE_IF 1030 (min (truncdiv x c1) (truncdiv y c1)) (truncdiv (max x y) c1) (k1 <= 0)
  ; TVM_TRY_REWRITE_IF 1035 (min (floordiv x c1) (floordiv y c1)) (floordiv (min x y) c1) (k1 > 0)
  ; TVM_TRY_REWRITE_IF 1037 (min (floordiv x c1) (floordiv y c1)) (floordiv (max x y) c1) (k1 <= 0)
  ; TVM_TRY_REWRITE_IF 1042 (min (x * c1) (y * c1)) (min x y * c1) (k1 > 0)
  ; TVM_TRY_REWRITE_IF 1044 (min (x * c1) (y * c1)) (max x y * c1) (k1 <= 0)
  ; TVM_TRY_REWRITE_IF 1051 (min (x * c1) c2) c2 ((k1 == 0) && (k2 < 0))
  ; TVM_TRY_REWRITE_IF 1051 (min (x * c1) c2) c1 ((k1 == 0) && (k2 >= 0))
  ; REWRITE_TO 1055 (min (x * c1) c2)
      (λ _ C, q ← div64 (C 2%nat) (C 1%nat); Ok (min x (lit q x) * lit (C 1%nat) (min x (lit q x)))%pat)
      ((k1 != 0) && (k2 %% k1 == 0) && (k1 > 0))
  ; REWRITE_TO 1057 (min (x * c1) c2)
      (λ _ C, q ← div64 (C 2%nat) (C 1%nat); Ok (max x (lit q x) * lit (C 1%nat) (max x (lit q x)))%pat)
      ((k1 != 0) && (k2 %% k1 == 0) && (k1 <= 0))
  ; TVM_TRY_RECURSIVE_REWRITE 1063 (min (min x c1) y) (min (min x y) c1)
  ; TVM_TRY_RECURSIVE_REWRITE_IF 1064 (min (c1 - x) c2) (c1 - max x (c1 - c2)) (k2 != 0) ].

(** the condition rules *)
Definition min_condition_rules : list rule :=
  [ TVM_TRY_REWRITE 1068 (min (select x y z) (select x s1 s2)) (select x (min y s1) (min z s2)) ].

(** [VisitExpr_(const MaxNode* op)], the rule before the bounds are compared *)
Definition max_same_rules : list rule :=
  [ TVM_TRY_REWRITE 1091 (max x x) x ].

(** the index rules after that *)
Definition max_rules : list rule :=
  [ TVM_TRY_REWRITE_IF 1106 (max (x + c1) (x + c2)) (x + c1) (k1 > k2)
  ; TVM_TRY_REWRITE_IF 1108 (max (x + c1) (x + c2)) (x + c2) (k1 <= k2)
  ; TVM_TRY_REWRITE_IF 1113 (max (x + c1) x) (x + c1) (k1 > 0)
  ; TVM_TRY_REWRITE_IF 1115 (max (x + c1) x) x (k1 <= 0)
  ; TVM_TRY_REWRITE_IF 1113 (max x (x + c1)) (x + c1) (k1 > 0)
  ; TVM_TRY_REWRITE_IF 1115 (max x (x + c1)) x (k1 <= 0)
  ; TVM_TRY_REWRITE_IF 1120 (max (c1 - x) (c2 - x)) (c1 - x) (k1 > k2)
  ; TVM_TRY_REWRITE_IF 1122 (max (c1 - x) (c2 - x)) (c2 - x) (k1 <= k2)
  ; TVM_TRY_REWRITE_IF 1129 (max (truncdiv (x + c1) c2 * c2) x) (truncdiv (x + c1) c2 * c2) ((k2 > 0) && (k1 + 1 == k2))
  ; TVM_TRY_REWRITE_IF 1131 (max x (truncdiv (x + c1) c2 * c2)) (truncdiv (x + c1) c2 * c2) ((k2 > 0) && (k1 + 1 == k2))
  ; TVM_TRY_REWRITE_IF 1135 (max (floordiv (x + c1) c2 * c2) x) (floordiv (x + c1) c2 * c2) ((k2 > 0) && (k1 + 1 == k2))
  ; TVM_TRY_REWRITE_IF 1137 (max x (floordiv (x + c1) c2 * c2)) (floordiv (x + c1) c2 * c2) ((k2 > 0) && (k1 + 1 == k2))
  ; TVM_TRY_REWRITE_IF 1140 (max (floordiv x c2 * c2) x) x (k2 > 0)
  ; TVM_TRY_REWRITE_IF 1141 (max x (floordiv x c2 * c2)) x (k2 > 0)
  ; TVM_TRY_REWRITE 1143 (max (min x y) (max x y)) (max x y)
  ; TVM_TRY_REWRITE 1144 (max (min x y) (max y x)) (max x y)
  ; TVM_TRY_REWRITE 1145 (max (max x y) (min x y)) (max x y)
  ; TVM_TRY_REWRITE 1146 (max (max x y) (min y x)) (max x y)
  ; TVM_TRY_REWRITE 1148 (max (min x y) x) x
  ; TVM_TRY_REWRITE 1149 (max (min x y) y) y
  ; TVM_TRY_REWRITE 1150 (max (max x y) x) (max x y)
  ; TVM_TRY_REWRITE 1151 (max (max x y) y) (max x y)
  ; TVM_TRY_REWRITE 1153 (max x (min x y)) x
  ; TVM_TRY_REWRITE 1154 (max y (min x y)) y
  ; TVM_TRY_REWRITE 1155 (max x (max x y)) (max x y)
  ; TVM_TRY_REWRITE 1156 (max y (max x y)) (max x y)
  ; TVM_TRY_REWRITE 1158 (max (max (max x y) z) y) (max (max x y) z)
  ; TVM_TRY_REWRITE 1159 (max (max (max (max x y) z) s1) y) (max (max (max x y) z) s1)
  ; TVM_TRY_REWRITE 1160 (max (max (max (max (max x y) z) s1) s2) y) (max (max (max (max x y) z) s1) s2)
  ; TVM_TRY_REWRITE 1164 (max (max x y) (max x z)) (max (max y z) x)
  ; TVM_TRY_REWRITE 1165 (max (max x y) (max z x)) (max (max y z) x)
  ; TVM_TRY_REWRITE 1166 (max (max y x) (max x z)) (max (max y z) x)
  ; TVM_TRY_REWRITE 1167 (max (max y x) (max z x)) (max (max y z) x)
  ; TVM_TRY_REWRITE 1170 (max (min x y) (min x z)) (min (max y z) x)
  ; TVM_TRY_REWRITE 1171 (max (min x y) (min z x)) (min (max y z) x)
  ; TVM_TRY_REWRITE 1172 (max (min y x) (min x z)) (min (max y z) x)
  ; TVM_TRY_REWRITE 1173 (max (min y x) (min z x)) (min (max y z) x)
  ; TVM_TRY_REWRITE 1176 (max (y + x) (z + x)) (max y z + x)
  ; TVM_TRY_REWRITE 1177 (max (y + x) (x + z)) (max y z + x)
  ; TVM_TRY_REWRITE 1178 (max (x + y) (x + z)) (max y z + x)
  ; TVM_TRY_REWRITE 1179 (max (x + y) (z + x)) (max y z + x)
  ; TVM_TRY_REWRITE 1182 (max (y - x) (z - x)) (max y z - x)
  ; TVM_TRY_REWRITE 1183 (max (x - y) (x - z)) (x - min y z)
  ; TVM_TRY_REWRITE 1186 (max (max x c1) c2) (max x (max c1 c2))
  ; TVM_TRY_REWRITE_IF 1191 (max (truncdiv x c1) (truncdiv y c1)) (truncdiv (max x y) c1) (k1 > 0)
  ; TVM_TRY_REWRITE_IF 1193 (max (truncdiv x c1) (truncdiv y c1)) (truncdiv (min x y) c1) (k1 <= 0)
  ; TVM_TRY_REWRITE_IF 1198 (max (floordiv x c1) (floordiv y c1)) (floordiv (max x y) c1) (k1 > 0)
  ; TVM_TRY_REWRITE_IF 1200 (max (floordiv x c1) (floordiv y c1)) (floordiv (min x y) c1) (k1 <= 0)
  ; TVM_TRY_REWRITE_IF 1205 (max (x * c1) (y * c1)) (max x y * c1) (k1 > 0)
  ; TVM_TRY_REWRITE_IF 1207 (max (x * c1) (y * c1)) (min x y * c1) (k1 <= 0)
  ; TVM_TRY_REWRITE_IF 1214 (max (x * c1) c2) c2 ((k1 == 0) && (k2 > 0))
  ; TVM_TRY_REWRITE_IF 1214 (max (x * c1) c2) c1 ((k1 == 0) && (k2 <= 0))
  ; REWRITE_TO 1218 (max (x * c1) c2)
      (λ _ C, q ← div64 (C 2%nat) (C 1%nat); Ok (max x (lit q x) * lit (C 1%nat) (max x (lit q x)))%pat)
      ((k1 != 0) && (k2 %% k1 == 0) && (k1 > 0))
  ; REWRITE_TO 1220 (max (x * c1) c2)
      (λ _ C, q ← div64 (C 2%nat) (C 1%nat); Ok (min x (lit q x) * lit (C 1%nat) (min x (lit q x)))%pat)
      ((k1 != 0) && (k2 %% k1 == 0) && (k1 <= 0))
  ; TVM_TRY_RECURSIVE_REWRITE 1226 (max (max x c1) y) (max (max x y) c1)
  ; TVM_TRY_RECURSIVE_REWRITE_IF 1227 (max (c1 - x) c2) (c1 - min x (c1 - c2)) (k2 != 0) ].

(** the condition rules *)
Definition max_condition_rules : list rule :=
  [ TVM_TRY_REWRITE 1231 (max (select x y z) (select x s1 s2)) (select x (max y s1) (max z s2)) ].

(** [VisitExpr_(const EQNode* op)] *)
Definition eq_rules : list rule :=
  [ TVM_TRY_REWRITE 1259 (x - c1 == lit 0 (x - c1)) (x == c1)
  ; TVM_TRY_REWRITE 1260 (c1 - x == lit 0 (c1 - x)) (x == c1)
  ; TVM_TRY_REWRITE 1261 (x + c1 == lit 0 (x + c1)) (x == lit 0 c1 - c1)
  ; TVM_TRY_REWRITE 1262 (x * y == lit 0 (x * y)) ((x == lit 0 x) || (y == lit 0 y)) ].

(** [VisitExpr_(const LTNode* op)] *)
Definition lt_rules : list rule :=
  [ TVM_TRY_REWRITE 1311 (x + y < x + z) (y < z)
  ; TVM_TRY_REWRITE 1312 (x + y < z + x) (y < z)
  ; TVM_TRY_REWRITE 1313 (y + x < x + z) (y < z)
  ; TVM_TRY_REWRITE 1314 (y + x < z + x) (y < z)
  ; TVM_TRY_REWRITE 1315 (y - x < z - x) (y < z)
  ; TVM_TRY_REWRITE 1316 (x - y < x - z) (z < y)
  ; TVM_TRY_REWRITE 1318 (x < x + z) (lit 0 z < z)
  ; TVM_TRY_REWRITE 1319 (x < z + x) (lit 0 z < z)
  ; TVM_TRY_REWRITE 1320 (x < x - z) (z < lit 0 z)
  ; TVM_TRY_REWRITE 1321 (c1 < x + c2) (c1 - c2 < x)
  ; TVM_TRY_REWRITE 1322 (c1 < c2 - x) (x < c2 - c1)
  ; TVM_TRY_REWRITE_IF 1324 (x * c1 < y * c1) (x < y) (k1 > 0)
  ; TVM_TRY_REWRITE_IF 1325 (x * c1 < y * c1) (y < x) (k1 < 0)
  ; TVM_TRY_REWRITE_IF 1329 (x * c2 < c1) (x < truncdiv (c1 - lit 1 c1) c2 + lit 1 (truncdiv (c1 - lit 1 c1) c2))
      ((k1 > 0) && (k2 > 0))
  ; TVM_TRY_REWRITE_IF 1332 (x * c2 < c1) (x < truncdiv c1 c2) ((k1 <= 0) && (k2 > 0))
  ; TVM_TRY_REWRITE_IF 1335 (x * c2 < c1) (truncdiv (c1 - lit 1 c1) c2 - lit 1 (truncdiv (c1 - lit 1 c1) c2) < x)
      ((k1 > 0) && (k2 < 0))
  ; TVM_TRY_REWRITE_IF 1338 (x * c2 < c1) (truncdiv c1 c2 < x) ((k1 <= 0) && (k2 < 0))
  ; TVM_TRY_REWRITE_IF 1341 (c1 < x * c2) (truncdiv (c1 + lit 1 c1) c2 - lit 1 (truncdiv (c1 + lit 1 c1) c2) < x)
      ((k1 < 0) && (k2 > 0))
  ; TVM_TRY_REWRITE_IF 1343 (c1 < x * c2) (truncdiv c1 c2 < x) ((k1 >= 0) && (k2 > 0))
  ; TVM_TRY_REWRITE_IF 1346 (c1 < x * c2) (x < truncdiv (c1 + lit 1 c1) c2 + lit 1 (truncdiv (c1 + lit 1 c1) c2))
      ((k1 < 0) && (k2 < 0))
  ; TVM_TRY_REWRITE_IF 1349 (c1 < x * c2) (x < truncdiv c1 c2) ((k1 >= 0) && (k2 < 0))
  ; TVM_TRY_REWRITE_IF 1353 (truncdiv x c1 < c2) (x < c1 * c2) ((k1 > 0) && (k2 > 0))
  ; TVM_TRY_REWRITE_IF 1356 (truncdiv x c1 < c2) (x < c1 * (c2 - lit 1 c2) + lit 1 (c1 * (c2 - lit 1 c2)))
      ((k1 > 0) && (k2 <= 0))
  ; TVM_TRY_REWRITE_IF 1359 (c1 < truncdiv x c2) ((c1 + lit 1 c1) * c2 - lit 1 ((c1 + lit 1 c1) * c2) < x)
      ((k1 >= 0) && (k2 > 0))
  ; TVM_TRY_REWRITE_IF 1362 (c1 < truncdiv x c2) (c1 * c2 < x) ((k1 < 0) && (k2 > 0))
  ; TVM_TRY_REWRITE_IF 1366 (truncdiv x c1 * c1 < x) (lit 0 (truncmod x c1) < truncmod x c1) (k1 > 0)
  ; TVM_TRY_REWRITE_IF 1367 (truncdiv x c1 * c1 < x + y) (lit 0 (truncmod x c1 + y) < truncmod x c1 + y) (k1 > 0)
  ; TVM_TRY_REWRITE_IF 1369 (truncdiv x c1 * c1 < x - y) (y < truncmod x c1) (k1 > 0)
  ; TVM_TRY_REWRITE_IF 1372 (truncdiv (x + c2) c1 * c1 < x) (c2 < truncmod (x + c2) c1) (k1 > 0)
  ; TVM_TRY_REWRITE_IF 1374 (truncdiv (x + c2) c1 * c1 < x + y) (c2 < truncmod (x + c2) c1 + y) (k1 > 0)
  ; TVM_TRY_REWRITE_IF 1376 (truncdiv (x + c2) c1 * c1 < x - y) (y < truncmod (x + c2) c1 + (lit 0 c2 - c2)) (k1 > 0)
  ; TVM_TRY_REWRITE_IF 1380 (floordiv x c1 < c2) (x < c1 * c2) (k1 > 0)
  ; TVM_TRY_REWRITE_IF 1381 (c1 < floordiv x c2) ((c1 + lit 1 c1) * c2 - lit 1 ((c1 + lit 1 c1) * c2) < x) (k2 > 0)
  ; TVM_TRY_REWRITE_IF 1383 (floordiv x c1 * c1 < x) (lit 0 (floormod x c1) < floormod x c1) (k1 > 0)
  ; TVM_TRY_REWRITE_IF 1384 (floordiv x c1 * c1 < x + y) (lit 0 (floormod x c1 + y) < floormod x c1 + y) (k1 > 0)
  ; TVM_TRY_REWRITE_IF 1386 (floordiv x c1 * c1 < x - y) (y < floormod x c1) (k1 > 0)
  ; TVM_TRY_REWRITE_IF 1388 (floordiv (x + c2) c1 * c1 < x) (c2 < floormod (x + c2) c1) (k1 > 0)
  ; TVM_TRY_REWRITE_IF 1390 (floordiv (x + c2) c1 * c1 < x + y) (c2 < floormod (x + c2) c1 + y) (k1 > 0)
  ; TVM_TRY_REWRITE_IF 1392 (floordiv (x + c2) c1 * c1 < x - y) (y < floormod (x + c2) c1 + (lit 0 c2 - c2)) (k1 > 0)
  ; TVM_TRY_RECURSIVE_REWRITE 1396 (min x y < z) ((x < z) || (y < z))
  ; TVM_TRY_RECURSIVE_REWRITE 1397 (max x y < z) ((x < z) && (y < z))
  ; TVM_TRY_RECURSIVE_REWRITE 1398 (z < min x y) ((z < x) && (z < y))
  ; TVM_TRY_RECURSIVE_REWRITE 1399 (z < max x y) ((z < x) || (z < y))
  ; TVM_TRY_RECURSIVE_REWRITE 1401 (x < c1 - y) (x + y < c1)
  ; TVM_TRY_RECURSIVE_REWRITE 1402 (x < c1 + y) (x - y < c1)
  ; TVM_TRY_RECURSIVE_REWRITE 1403 (c1 - y < x) (c1 < x + y)
  ; TVM_TRY_RECURSIVE_REWRITE 1404 (c1 + y < x) (c1 < x - y)
  ; TVM_TRY_RECURSIVE_REWRITE 1406 (x + c1 < c2) (x < c2 - c1)
  ; TVM_TRY_RECURSIVE_REWRITE 1407 (x - c1 < c2) (x < c2 + c1)
  ; TVM_TRY_REWRITE 1408 (x - c1 < lit 0 (x - c1)) (x < c1) ].

(** [VisitExpr_(const NotNode* op)] *)
Definition not_rules : list rule :=
  [ TVM_TRY_REWRITE 1426 (! (! x)) x
  ; TVM_TRY_REWRITE 1427 (! (x <= y)) (y < x)
  ; TVM_TRY_REWRITE 1428 (! (x >= y)) (x < y)
  ; TVM_TRY_REWRITE 1429 (! (x < y)) (y <= x)
  ; TVM_TRY_REWRITE 1430 (! (x > y)) (x <= y)
  ; TVM_TRY_REWRITE 1431 (! (x == y)) (x != y)
  ; TVM_TRY_REWRITE 1432 (! (x != y)) (x == y)
  ; TVM_TRY_RECURSIVE_REWRITE 1433 (! (x || y)) ((! x) && (! y))
  ; TVM_TRY_RECURSIVE_REWRITE 1434 (! (x && y)) ((! x) || (! y)) ].

(** [VisitExpr_(const AndNode* op)] *)
Definition and_rules : list rule :=
  [ TVM_TRY_REWRITE 1455 ((x == y) && (x != y)) cfalse
  ; TVM_TRY_REWRITE 1456 ((x != y) && (x == y)) cfalse
  ; TVM_TRY_REWRITE 1457 (x && (! x)) cfalse
  ; TVM_TRY_REWRITE 1458 ((x <= y) && (y < x)) cfalse
  ; TVM_TRY_REWRITE 1459 ((y < x) && (x <= y)) cfalse
  ; TVM_TRY_REWRITE_IF 1461 ((x < c1) && (c2 < x)) cfalse (k2 + 1 >= k1)
  ; TVM_TRY_REWRITE_IF 1462 ((c2 < x) && (x < c1)) cfalse (k2 + 1 >= k1)
  ; TVM_TRY_REWRITE_IF 1464 ((x < c1) && (c2 <= x)) cfalse (k2 >= k1)
  ; TVM_TRY_REWRITE_IF 1465 ((c2 <= x) && (x < c1)) cfalse (k2 >= k1)
  ; TVM_TRY_REWRITE_IF 1466 ((x <= c1) && (c2 < x)) cfalse (k2 >= k1)
  ; TVM_TRY_REWRITE_IF 1467 ((c2 < x) && (x <= c1)) cfalse (k2 >= k1)
  ; TVM_TRY_REWRITE_IF 1469 ((x <= c1) && (c2 <= x)) cfalse (k2 > k1)
  ; TVM_TRY_REWRITE_IF 1470 ((c2 <= x) && (x <= c1)) cfalse (k2 > k1)
  ; TVM_TRY_REWRITE 1472 ((x == c1) && (x != c2)) ((x == c1) && (c1 != c2))
  ; TVM_TRY_REWRITE 1473 ((x != c2) && (x == c1)) ((x == c1) && (c1 != c2)) ].

(** [VisitExpr_(const OrNode* op)] *)
Definition or_rules : list rule :=
  [ TVM_TRY_REWRITE 1495 ((x == y) || (x != y)) ctrue
  ; TVM_TRY_REWRITE 1496 ((x != y) || (x == y)) ctrue
  ; TVM_TRY_REWRITE 1497 (x || (! x)) ctrue
  ; TVM_TRY_REWRITE 1498 ((x <= y) || (y < x)) ctrue
  ; TVM_TRY_REWRITE 1499 ((y < x) || (x <= y)) ctrue
  ; TVM_TRY_REWRITE_IF 1501 ((x < c1) || (c2 < x)) ctrue (k2 < k1)
  ; TVM_TRY_REWRITE_IF 1502 ((c2 < x) || (x < c1)) ctrue (k2 < k1)
  ; TVM_TRY_REWRITE_IF 1504 ((x <= c1) || (c2 < x)) ctrue (k2 <= k1)
  ; TVM_TRY_REWRITE_IF 1505 ((c2 < x) || (x <= c1)) ctrue (k2 <= k1)
  ; TVM_TRY_REWRITE_IF 1506 ((x < c1) || (c2 <= x)) ctrue (k2 <= k1)
  ; TVM_TRY_REWRITE_IF 1507 ((c2 <= x) || (x < c1)) ctrue (k2 <= k1)
  ; TVM_TRY_REWRITE_IF 1509 ((x <= c1) || (c2 <= x)) ctrue (k2 <= k1 + 1)
  ; TVM_TRY_REWRITE_IF 1510 ((c2 <= x) || (x <= c1)) ctrue (k2 <= k1 + 1)
  ; TVM_TRY_REWRITE 1512 ((x != c1) || (x == c2)) ((x != c1) || (c1 == c2))
  ; TVM_TRY_REWRITE 1513 ((x == c2) || (x != c1)) ((x != c1) || (c1 == c2)) ].

(** [VisitExpr_(const SelectNode* op)] *)
Definition select_rules : list rule :=
  [ TVM_TRY_REWRITE 1523 (select x y y) y ].


Definition all_rules : list rule :=
  add_rules ++ add_condition_rules ++ sub_rules ++ sub_division_rules ++ sub_canonical_rules ++ sub_condition_rules ++
  mul_rules ++ div_rules ++ mod_rules ++ floordiv_rules ++ floormod_rules ++
  min_same_rules ++ min_rules ++ min_condition_rules ++ max_same_rules ++ max_rules ++ max_condition_rules ++
  eq_rules ++ lt_rules ++ not_rules ++ and_rules ++ or_rules ++ select_rules.
