(* ===== verification/RewriteRulesSound.v ===== *)
(** * Soundness of the rewriting rules ([src/arith/rewrite_simplify.cc]) *)

From S2P Require Import Prelude Int64 TIR ConstFold PatternMatch RewriteRules.

(** What a condition says of the values *)
Fixpoint csem (X : nat → option Z) (C : nat → Z) (c : cond) : Prop :=
  match c with
  | CTrue => True
  | CCmp op a b => ∃ u v, ceval C a = Ok u ∧ ceval C b = Ok v ∧ eval_cmp op u v = true
  | CanProveGreaterEqual p val => ∃ n, ceval C val = Ok n ∧ ∀ u, pval X C p = Some u → n ≤ u
  | CanProveEqual p val => ∀ u, pval X C p = Some u → u = val
  | CAnd a b => csem X C a ∧ csem X C b
  end.

Fixpoint cond_simple (c : cond) : bool :=
  match c with
  | CTrue | CCmp _ _ _ => true
  | CanProveGreaterEqual p _ | CanProveEqual p _ => simple p
  | CAnd a b => cond_simple a && cond_simple b
  end.

(** The expression a rule builds has the value of the one it matches, if that has one. *)
Definition rule_sound (r : rule) : Prop :=
  simple (r_src r) && cond_simple (r_cond r) = true ∧
  ∀ X C dt p, r_res r dt C = Ok p → simple p = true ∧
    ∀ v, csem X C (r_cond r) → pval X C (r_src r) = Some v → pval X C p = Some v.

(** ** Arithmetic *)

Lemma rem64_inv a b r : rem64 a b = Ok r → b ≠ 0 ∧ r = Z.rem a b.
Proof. unfold rem64. destruct (Z.eqb_spec b 0); [done|]. by intros (? & _ & [-> _]%i64_inv)%result_bind_ok. Qed.

Lemma div64_inv a b q : div64 a b = Ok q → b ≠ 0 ∧ q = Z.quot a b.
Proof. unfold div64. destruct (Z.eqb_spec b 0); [done|]. by intros [-> _]%i64_inv. Qed.

Lemma rem_exact a b : b ≠ 0 → Z.rem a b = 0 → ∃ q, a = q * b.
Proof. intros Hb H. exists (Z.quot a b). pose proof (Z.quot_rem' a b). lia. Qed.

(** A multiple of the divisor may be taken out of a quotient. *)
Lemma floor_shift c n t a : c ≠ 0 → n = t + (a - t / c) * c → a = n / c.
Proof. intros Hc ->. rewrite Z.div_add by done. lia. Qed.

Lemma floor_exact c n a : c ≠ 0 → n = a * c → a = n / c.
Proof. intros Hc ->. by rewrite Z.div_mul. Qed.

Lemma trunc_shift c n t a : 0 < c → 0 ≤ t → 0 ≤ n → n = t + (a - Z.quot t c) * c → a = Z.quot n c.
Proof. intros Hc Ht Hn. rewrite !Z.quot_div_nonneg by lia. apply floor_shift. lia. Qed.

Lemma trunc_exact c n a : c ≠ 0 → n = a * c → a = Z.quot n c.
Proof. intros Hc ->. by rewrite Z.quot_mul. Qed.

Lemma floor_min c a b : 0 < c → Z.min a b / c = Z.min (a / c) (b / c).
Proof. intros Hc. destruct (Z.le_ge_cases a b) as [H|H]; pose proof (Z.div_le_mono _ _ c Hc H); [by rewrite !Z.min_l|by rewrite !Z.min_r]. Qed.
Lemma floor_max c a b : 0 < c → Z.max a b / c = Z.max (a / c) (b / c).
Proof. intros Hc. destruct (Z.le_ge_cases a b) as [H|H]; pose proof (Z.div_le_mono _ _ c Hc H); [by rewrite !Z.max_r|by rewrite !Z.max_l]. Qed.
Lemma trunc_min c a b : 0 < c → Z.quot (Z.min a b) c = Z.min (Z.quot a c) (Z.quot b c).
Proof. intros Hc. destruct (Z.le_ge_cases a b) as [H|H]; pose proof (Z.quot_le_mono _ _ c Hc H); [by rewrite !Z.min_l|by rewrite !Z.min_r]. Qed.
Lemma trunc_max c a b : 0 < c → Z.quot (Z.max a b) c = Z.max (Z.quot a c) (Z.quot b c).
Proof. intros Hc. destruct (Z.le_ge_cases a b) as [H|H]; pose proof (Z.quot_le_mono _ _ c Hc H); [by rewrite !Z.max_r|by rewrite !Z.max_l]. Qed.

(** The remainder of a truncating division has the sign of the dividend. *)
Lemma trunc_spec a b : b ≠ 0 → a = b * Z.quot a b + Z.rem a b ∧
  (0 ≤ a ∧ 0 ≤ Z.rem a b < Z.abs b ∨ a < 0 ∧ - Z.abs b < Z.rem a b ≤ 0).
Proof.
  intros Hb. split; [apply Z.quot_rem'|]. destruct (Z.le_gt_cases 0 a).
  - left. split; [done|]. by apply Z.rem_bound_pos_pos || (pose proof (Z.rem_nonneg a b Hb ltac:(lia)); pose proof (Z.rem_bound_abs a b Hb); lia).
  - right. split; [lia|]. pose proof (Z.rem_nonpos a b Hb ltac:(lia)). pose proof (Z.rem_bound_abs a b Hb). lia.
Qed.

Lemma floor_spec a b : 0 < b → a = b * (a / b) + a mod b ∧ 0 ≤ a mod b < b.
Proof. intros Hb. split; [by apply Z.div_mod; lia|by apply Z.mod_pos_bound]. Qed.

(** *** Negative divisors *)
Lemma floor_opp c a : c ≠ 0 → a / c = (- a) / (- c).
Proof. intros. by rewrite Z.div_opp_opp. Qed.
Lemma trunc_opp c a : c ≠ 0 → Z.quot a c = Z.quot (- a) (- c).
Proof. intros. by rewrite Z.quot_opp_opp. Qed.

Lemma floor_min_neg c a b : c < 0 → Z.max a b / c = Z.min (a / c) (b / c).
Proof. intros. rewrite !(floor_opp c) by lia. rewrite <- floor_min by lia. f_equal. lia. Qed.
Lemma floor_max_neg c a b : c < 0 → Z.min a b / c = Z.max (a / c) (b / c).
Proof. intros. rewrite !(floor_opp c) by lia. rewrite <- floor_max by lia. f_equal. lia. Qed.
Lemma trunc_min_neg c a b : c < 0 → Z.quot (Z.max a b) c = Z.min (Z.quot a c) (Z.quot b c).
Proof. intros. rewrite !(trunc_opp c) by lia. rewrite <- trunc_min by lia. f_equal. lia. Qed.
Lemma trunc_max_neg c a b : c < 0 → Z.quot (Z.min a b) c = Z.max (Z.quot a c) (Z.quot b c).
Proof. intros. rewrite !(trunc_opp c) by lia. rewrite <- trunc_max by lia. f_equal. lia. Qed.

(** *** Reducing a rule to a statement on integers *)

(** The values and conditions of a rule, with its variables replaced by options and integers *)
Ltac generalize_values X C :=
  cbn [r_cond r_src TVM_TRY_REWRITE TVM_TRY_REWRITE_IF TVM_TRY_RECURSIVE_REWRITE TVM_TRY_RECURSIVE_REWRITE_IF
    REWRITE_TO RECURSIVE_REWRITE_TO csem pval eval_bin eval_cmp ceval mbind result_bind as_imm];
  generalize (C 1%nat) (C 2%nat) (C 3%nat) (X 0%nat) (X 1%nat) (X 2%nat) (X 3%nat) (X 4%nat) (X 5%nat) (X 6%nat);
  clear X C; intros c1 c2 c3 x y z b1 b2 s1 s2 v Hc Hv;
  repeat match goal with o : option Z |- _ => clear o | o : Z |- _ => clear o end.

Ltac rule_values :=
  let X := fresh "X" in let C := fresh "C" in let Hr := fresh "Hr" in
  split; [reflexivity|]; intros X C ? ? Hr; cbn in Hr; injection Hr as <-; split; [reflexivity|]; generalize_values X C.

(** The cases in which the matched expression has a value *)
Ltac split_values :=
  repeat match goal with
  | o : option Z |- _ => destruct o as [o|]; [|try discriminate]
  end; cbn [mbind option_bind] in *; try discriminate.

Ltac split_tests :=
  repeat match goal with
  | H : context [as_bool (truth _)] |- _ => rewrite as_bool_truth in H
  | H : context [if ?b =? 0 then _ else _] |- _ => destruct (Z.eqb_spec b 0); [discriminate H|]
  | H : context [as_bool ?b] |- _ =>
      let p := fresh "p" in let E := fresh in
      destruct (as_bool b) as [p|] eqn:E; [apply as_bool_inv in E; try subst b; destruct p|discriminate H]
  end; cbn [mbind option_bind] in *; try discriminate.

Ltac conditions :=
  repeat match goal with
  | H : _ ∧ _ |- _ => destruct H
  | H : ∃ _, _ |- _ => destruct H
  | H : True |- _ => clear H
  | H : Ok ?a = Ok ?b |- _ => is_var b; injection H as H; subst b
  | H : rem64 _ _ = Ok _ |- _ => apply rem64_inv in H as [? ->]
  | H : ∀ u, Some _ = Some u → _ |- _ => specialize (H _ eq_refl)
  end; inv64; bool_to_prop;
  repeat match goal with
  | H : Z.rem ?a ?b = 0 |- _ => apply rem_exact in H as [? ->]; [|lia]
  end.

(** Quotients and remainders by their equation *)
Ltac divisions :=
  repeat match goal with
  | |- context [Z.quot ?a ?b] => pose proof (Z.quot_rem' a b); generalize dependent (Z.quot a b); intros
  | |- context [?a / ?b] => pose proof (Z.div_mod a b ltac:(lia)); generalize dependent (a / b); intros
  end.

(** Quotients and remainders with the bounds of the remainder *)
Ltac bounds :=
  repeat match goal with
  | |- context [Z.quot ?a ?b] => destruct (trunc_spec a b ltac:(lia)) as [? [[? ?]|[? ?]]]; rewrite ?(Z.abs_eq b), ?(Z.abs_neq b) in * by lia; generalize dependent (Z.quot a b); generalize dependent (Z.rem a b); intros
  | |- context [?a / ?b] => destruct (floor_spec a b ltac:(lia)); generalize dependent (a / b); generalize dependent (a mod b); intros
  end.

(** Comparisons *)
Ltac truths :=
  repeat (rewrite as_bool_truth; cbn [mbind option_bind]);
  lazymatch goal with
  | |- Some 0 = Some ?t => change (Some (truth false) = Some t)
  | |- Some 1 = Some ?t => change (Some (truth true) = Some t)
  | |- _ => idtac
  end;
  f_equal; f_equal; apply eq_true_iff_eq;
  rewrite ?orb_true_iff, ?andb_true_iff, ?negb_true_iff, ?Z.ltb_lt, ?Z.leb_le, ?Z.eqb_eq, ?Z.ltb_ge, ?Z.leb_gt, ?Z.eqb_neq.
Ltac nonzero := repeat match goal with |- context [if ?b =? 0 then _ else _] => destruct (Z.eqb_spec b 0); [nia|] end; cbn [mbind option_bind].

Ltac shift :=
  match goal with
  | |- Z.min _ _ = Z.min _ _ => f_equal; shift
  | |- Z.max _ _ = Z.max _ _ => f_equal; shift
  | |- ?a = ?a => reflexivity
  | |- ?a = ?n / ?c => match a with context [?t / c] => apply (floor_shift c n t); [lia|ring] end
  | |- ?a = ?n / ?c => apply (floor_exact c n a); [lia|ring]
  | |- ?a = Z.quot ?n ?c => match a with context [Z.quot ?t c] => apply (trunc_shift c n t); [lia|lia|nia|ring] end
  | |- ?a = Z.quot ?n ?c => apply (trunc_exact c n a); [lia|ring]
  end.

Ltac rule_cases :=
  rule_values; split_values; split_tests; conditions; cbn [negb] in *; split_tests; simplify_eq; cbn [mbind option_bind] in *;
  try reflexivity; try (f_equal; lia).
Ltac rule_auto :=
  rule_cases; try (f_equal; divisions; nia); try (f_equal; rewrite ?Z.div_mul, ?Z.quot_mul, ?Z.mod_mul by lia;
    rewrite ?floor_min, ?floor_max, ?trunc_min, ?trunc_max by lia; shift);
  nonzero; try (truths; divisions; nia); try (truths; bounds; nia); try (f_equal; bounds; nia).

(** ** The tables *)

(** The lines of the rules that are wrong *)
Definition faulty : list Z := [354; 959; 965; 972; 977].
Definition good_line (line : Z) : bool := negb (existsb (Z.eqb line) faulty).

Lemma good_line_spec line : good_line line = true ↔ line ∉ faulty.
Proof.
  unfold good_line. rewrite negb_true_iff, <- not_true_iff_false, existsb_exists. split; intros H Hin; apply H.
  - exists line. split; [by apply list_elem_of_In|apply Z.eqb_refl].
  - destruct Hin as (l & Hl & ->%Z.eqb_eq). by apply list_elem_of_In.
Qed.

Definition table_sound (table : list rule) : Prop := Forall (λ r, good_line (r_line r) = true → rule_sound r) table.

Ltac each_rule tables :=
  unfold table_sound, tables; repeat apply Forall_cons_2; [..|apply Forall_nil_2];
  let H := fresh in intros H; first [discriminate H|clear H].

Lemma add_sound : table_sound add_rules.
Proof. each_rule add_rules. all: rule_auto. Qed.

Lemma add_condition_sound : table_sound add_condition_rules.
Proof. each_rule add_condition_rules. all: rule_auto. Qed.

Lemma sub_sound : table_sound sub_rules.
Proof. each_rule sub_rules. all: rule_auto. Qed.

Lemma floor_difference c x k : c ≠ 0 → (x mod c + k) / c = (x + k) / c - x / c.
Proof.
  intros. rewrite Z.mod_eq by done. replace (x - c * (x / c) + k) with (x + k + (- (x / c)) * c) by ring.
  rewrite Z.div_add by done. lia.
Qed.

Lemma sub_division_sound : table_sound sub_division_rules.
Proof.
  each_rule sub_division_rules. all: rule_auto.
  f_equal. replace ((x + c2 mod c3) mod c3) with ((x + c2) mod c3) by (by rewrite Zplus_mod_idemp_r).
  rewrite floor_difference by done. f_equal. f_equal. lia.
Qed.

Lemma sub_canonical_sound : table_sound sub_canonical_rules.
Proof. each_rule sub_canonical_rules. all: rule_auto. Qed.

Lemma sub_condition_sound : table_sound sub_condition_rules.
Proof. each_rule sub_condition_rules. all: rule_auto. Qed.

Lemma mul_sound : table_sound mul_rules.
Proof. each_rule mul_rules. all: rule_auto. Qed.

Lemma div_sound : table_sound div_rules.
Proof.
  each_rule div_rules.
  { split; [reflexivity|]. intros X C dt p Hr. cbn in Hr. apply result_bind_ok in Hr as (w & [Hz ->]%div64_inv & Hr).
    destruct (MakeConstScalar dt _) eqn:E; [|done]. injection Hr as <-. pose proof (MakeConstScalar_in64 _ _ _ E).
    apply MakeConstScalar_inv in E as ->. split; [done|]. intros v _. cbn. by rewrite (proj2 (Z.eqb_neq _ _) Hz). }
  all: rule_auto.
  - f_equal. by rewrite Z.quot_quot by lia.
  - f_equal. pose proof (Z.div_pos x c1 ltac:(lia) ltac:(lia)).
    rewrite (Z.quot_div_nonneg x c1), !Z.quot_div_nonneg, <- Z.div_div, (Z.mul_comm c1 c2), Z.div_add by nia. done.
  - rewrite Z.quot_mul by lia. nonzero. f_equal. by rewrite Z.quot_mul_cancel_r by lia.
Qed.

Lemma rem_shift c x k : 0 < c → 0 ≤ x → 0 ≤ x + k * c → Z.rem x c = Z.rem (x + k * c) c.
Proof. intros. by rewrite !Z.rem_mod_nonneg, Z.mod_add by lia. Qed.

Lemma mod_sound : table_sound mod_rules.
Proof.
  each_rule mod_rules.
  all: try rule_auto.
  - f_equal. replace (x * (x0 * c2)) with (x * x0 * c2) by ring. by rewrite Z.rem_mul.
  - f_equal. replace (x * (x0 * c2) + y) with (y + x * x0 * c2) by ring. apply rem_shift; nia.
  - f_equal. apply rem_shift; nia.
  - f_equal. replace (y * (x0 * c2)) with (y * x0 * c2) by ring. apply rem_shift; nia.
  - split; [reflexivity|]. intros X C dt p Hr. cbn in Hr. apply result_bind_ok in Hr as (w & [-> _]%i64_inv & Hr).
    apply result_bind_ok in Hr as (e & He & [= <-]). pose proof (MakeConstScalar_in64 _ _ _ He) as H64.
    apply MakeConstScalar_inv in He as ->. split; [exact H64|]. clear H64. generalize_values X C.
    split_values. conditions. split_tests. nonzero. by rewrite Z.rem_opp_r.
Qed.

Lemma floordiv_sound : table_sound floordiv_rules.
Proof.
  each_rule floordiv_rules. all: rule_auto.
  - f_equal. by rewrite Z.div_div by lia.
  - f_equal. rewrite <- Z.div_div, (Z.mul_comm c1 c2), Z.div_add by lia. done.
  - rewrite Z.div_mul by lia. nonzero. f_equal. by rewrite Z.div_mul_cancel_r by lia.
Qed.

Lemma floormod_sound : table_sound floormod_rules.
Proof.
  each_rule floormod_rules. all: rule_auto.
  all: f_equal.
  - replace (x * (x0 * c2)) with (x * x0 * c2) by ring. by rewrite Z.mod_mul.
  - replace (x * (x0 * c2) + y) with (y + x * x0 * c2) by ring. by rewrite Z.mod_add.
  - by rewrite Z.mod_add.
  - replace (y * (x0 * c2)) with (y * x0 * c2) by ring. by rewrite Z.mod_add.
  - by rewrite Z.mul_comm, Z.mod_mul.
Qed.

Lemma min_same_sound : table_sound min_same_rules.
Proof. each_rule min_same_rules. all: rule_auto. Qed.

(** A rule that builds constants from an exact quotient *)
Ltac rule_quotient :=
  let X := fresh "X" in let C := fresh "C" in let Hr := fresh "Hr" in
  split; [reflexivity|]; intros X C dt p Hr; cbn in Hr; apply result_bind_ok in Hr as (? & [_ ->]%div64_inv & [= <-]);
  split; [reflexivity|]; generalize_values X C; split_values; conditions; simplify_eq; rewrite Z.quot_mul by lia; f_equal; nia.

Lemma min_sound : table_sound min_rules.
Proof.
  each_rule min_rules. all: try rule_auto. 3, 4: rule_quotient.
  - f_equal. apply trunc_min_neg. lia.
  - f_equal. apply floor_min_neg. lia.
Qed.

Lemma min_condition_sound : table_sound min_condition_rules.
Proof. each_rule min_condition_rules. all: rule_auto. Qed.

Lemma max_same_sound : table_sound max_same_rules.
Proof. each_rule max_same_rules. all: rule_auto. Qed.

Lemma max_sound : table_sound max_rules.
Proof.
  each_rule max_rules. all: try rule_auto. 3, 4: rule_quotient.
  - f_equal. apply trunc_max_neg. lia.
  - f_equal. apply floor_max_neg. lia.
Qed.

Lemma max_condition_sound : table_sound max_condition_rules.
Proof. each_rule max_condition_rules. all: rule_auto. Qed.

Lemma eq_sound : table_sound eq_rules.
Proof. each_rule eq_rules. all: rule_auto. Qed.

(** Quotients of a dividend that is not positive, by floor division *)
Lemma trunc_neg_pos a b : a ≤ 0 → 0 < b → Z.quot a b = - ((- a) / b).
Proof. intros. rewrite <- Z.quot_div_nonneg, Z.quot_opp_l by lia. lia. Qed.
Lemma trunc_neg_neg a b : a ≤ 0 → b < 0 → Z.quot a b = (- a) / (- b).
Proof. intros. by rewrite <- Z.quot_div_nonneg, Z.quot_opp_opp by lia. Qed.

Lemma lt_sound : table_sound lt_rules.
Proof.
  each_rule lt_rules. all: rule_auto. all: truths.
  - rewrite trunc_neg_pos by lia. bounds. nia.
  - rewrite trunc_neg_neg by lia. bounds. nia.
  - rewrite trunc_neg_pos by lia. bounds. nia.
  - rewrite trunc_neg_neg by lia. bounds. nia.
Qed.

Lemma not_sound : table_sound not_rules.
Proof. each_rule not_rules. all: rule_auto. Qed.

Lemma and_sound : table_sound and_rules.
Proof. each_rule and_rules. all: rule_auto. Qed.

Lemma or_sound : table_sound or_rules.
Proof. each_rule or_rules. all: rule_auto. Qed.

Lemma select_sound : table_sound select_rules.
Proof. each_rule select_rules. all: rule_auto. Qed.

Lemma all_rules_sound : table_sound all_rules.
Proof.
  unfold table_sound, all_rules. rewrite !Forall_app. split_and!.
  all: first [exact add_sound|exact add_condition_sound|exact sub_sound|exact sub_division_sound|exact sub_canonical_sound
    |exact sub_condition_sound|exact mul_sound|exact div_sound|exact mod_sound|exact floordiv_sound|exact floormod_sound
    |exact min_same_sound|exact min_sound|exact min_condition_sound|exact max_same_sound|exact max_sound
    |exact max_condition_sound|exact eq_sound|exact lt_sound|exact not_sound|exact and_sound|exact or_sound|exact select_sound].
Qed.

(** *** The wrong rules *)

(** [x] and the constants of an instance of a rule *)
Definition value_of (x : Z) : nat → option Z := λ _, Some x.
Definition constants_of (c1 c2 c3 : Z) : nat → Z := λ i, match i with 1%nat => c1 | 2%nat => c2 | _ => c3 end.

Lemma not_sound_at r X C p v : r_res r (Int 32) C = Ok p → csem X C (r_cond r) → pval X C (r_src r) = Some v →
  pval X C p ≠ Some v → ¬ rule_sound r.
Proof. intros Hp Hc Hv Hne [_ H]. destruct (H X C (Int 32) p Hp) as [_ H']. by apply Hne, H'. Qed.

Ltac holds_at := cbn; split_and?;
  repeat match goal with |- ∃ _, _ => eexists | |- _ ∧ _ => split end; try reflexivity; try (intros u [= <-]; lia).

Lemma faulty_unsound : Forall (λ r, good_line (r_line r) = false → ¬ rule_sound r) all_rules.
Proof.
  unfold all_rules, add_rules, add_condition_rules, sub_rules, sub_division_rules, sub_canonical_rules, sub_condition_rules,
    mul_rules, div_rules, mod_rules, floordiv_rules, floormod_rules, min_same_rules, min_rules, min_condition_rules,
    max_same_rules, max_rules, max_condition_rules, eq_rules, lt_rules, not_rules, and_rules, or_rules, select_rules.
  cbn [app]. repeat apply Forall_cons_2; [..|apply Forall_nil_2].
  all: let H := fresh in intros H; first [discriminate H|clear H].
  1: eapply (not_sound_at _ (value_of (-3)) (constants_of 7 4 4)); [reflexivity|holds_at|reflexivity|done].
  all: eapply (not_sound_at _ (value_of 0) (constants_of 3 4 0)); [reflexivity|holds_at|reflexivity|done].
Qed.

(** C2: A rewriting rule of the simplifier keeps the value of every expression it matches (in
    unbounded arithmetic, when its condition holds) exactly if it is not one of five rules of the
    tables: the difference of two truncating divisions, and the four rules that take
    [min(ceil(x / c) * c, max(x, c))] for [max(x, c)]. *)
Theorem rules_sound_iff r : r ∈ all_rules → rule_sound r ↔ r_line r ∉ faulty.
Proof.
  intros Hr. pose proof (proj1 (Forall_forall _ _) all_rules_sound r Hr) as Hgood.
  pose proof (proj1 (Forall_forall _ _) faulty_unsound r Hr) as Hbad. cbv beta in Hgood, Hbad.
  pose proof (good_line_spec (r_line r)) as Hl. destruct (good_line (r_line r)); naive_solver.
Qed.

(** [(x - y) + y] becomes [x]. *)
Lemma rules_sound_iff_witness : rule_sound (TVM_TRY_REWRITE 145 (PX 0 - PX 1 + PX 1) (PX 0)) ↔ 145 ∉ faulty.
Proof. apply (rules_sound_iff (TVM_TRY_REWRITE 145 (PX 0 - PX 1 + PX 1) (PX 0))). apply list_elem_of_here. Defined.
