(* ===== verification/RewriteSimplify.v ===== *)
(** * The rewriting simplifier ([src/arith/rewrite_simplify.cc], [src/arith/ir_mutator_with_analyzer.cc])

    The visitor that simplifies scalar expressions with the rules of [RewriteRules], and the
    analyzer it belongs to: the constant bounds, the modular sets and the simplifier itself answer
    the questions of the rules, so the three call each other. The constraints of a [Select] are
    known while its values are visited; that leaving their scope restores the state is not repeated
    here, the state is an argument of the visitor.

    What the bounds and the sets answer is a parameter, and so is what happens when a rule applies,
    so that the visitor can be run with analyzers and rules that are watched; [analyzer_simplify]
    and [modular_set] at the end are those of the program. [Let] goes through
    another simplifier and is left out, as are calls other than shifts and bitwise conjunctions. *)

From S2P Require Import Prelude Int64 TIR ConstIntBound ModularSet ConstFold PatternMatch RewriteRules.

(** The parts of [Analyzer] *)
Record State := {
  s_bound : ConstIntBoundAnalyzer;
  s_modular : gmap nat MS.Entry;
  s_var_map : gmap nat PrimExpr;          (* [var_map_] of the simplifier *)
  s_literals : list PrimExpr              (* [literal_constraints_] *)
}.

Inductive CompareResult := kUnknown | kEQ | kGT | kGE | kLT | kLE | kNE.
#[export] Instance CompareResult_eq_dec : EqDecision CompareResult.
Proof. solve_decision. Defined.

Definition kMaxRecurDepth : nat := 5.

(** [right_shift] of [src/tir/op/op.cc] *)
Definition right_shift (a b : PrimExpr) : result PrimExpr :=
  _ ← integers a b;
  '(a, b) ← BinaryOpMatchTypes a b;
  if IsIndexType (dtype_of a) && IsIndexType (dtype_of b) then
    match as_imm a, as_imm b with
    | pa, Some vb =>
        _ ← py_assert ((0 <=? vb) && (vb <? dt_bits (dtype_of a)));
        match pa with
        | Some va => v ← shr64 va vb; MakeIntImm (dtype_of a) v
        | None => if vb =? 0 then Ok a else Ok (ShiftRight a b)
        end
    | _, None => Ok (ShiftRight a b)
    end
  else Ok (ShiftRight a b).

Section visitor.
Variable same_as : PrimExpr → PrimExpr → bool.
(** Told the line of a rule that applies; the program does nothing here, a watched run may stop *)
Variable fires : Z → result unit.
(** [analyzer_->const_int_bound], and [analyzer_->modular_set] for what the analyzer can prove *)
Variable bound : State → PrimExpr → result Entry.
Variable modular : (PrimExpr → Z → result bool) → State → PrimExpr → result MS.Entry.

(** The visitor called on other expressions, with [recur_depth_] and the state *)
Variable visit : nat → State → PrimExpr → result PrimExpr.

(** ** The analyzer *)

(** [RewriteSimplifier::operator()] *)
Definition rewrite_simplify (depth : nat) (s : State) (expr : PrimExpr) : result PrimExpr :=
  new_expr ← visit depth s expr;
  if same_as new_expr expr then Ok expr
  else
    new_expr' ← visit depth s new_expr;
    Ok (if same_as new_expr' new_expr then new_expr else new_expr').

Definition can_prove_ge (depth : nat) (s : State) : PrimExpr → Z → result bool :=
  MS.CanProveGreaterEqual (bound s) (rewrite_simplify depth s).

Definition TryCompare (depth : nat) (s : State) (x : PrimExpr) (val : Z) : result CompareResult :=
  diff ← visit depth s x;
  match as_imm diff with
  | Some v => Ok (if v =? val then kEQ else if val <? v then kGT else kLT)
  | None =>
      dbound ← bound s diff;
      if val <? min_value dbound then Ok kGT
      else if max_value dbound <? val then Ok kLT
      else if val <=? min_value dbound then Ok kGE
      else if max_value dbound <=? val then Ok kLE
      else if val =? 0 then
        dmod ← modular (can_prove_ge depth s) s diff;
        Ok (if MS.base dmod =? 0 then kUnknown else kNE)
      else Ok kUnknown
  end.

(** [ConstraintContext::EnterWithScope]: the state in the scope of a constraint *)
Definition enter (depth : nat) (s : State) (constraint : PrimExpr) : result State :=
  match EnterConstraint constraint (s_bound s), MS.EnterConstraint constraint (s_modular s) with
  | (Ok _, b), (Ok _, m) =>
      let s1 := {| s_bound := b; s_modular := m; s_var_map := s_var_map s; s_literals := s_literals s |} in
      literal ← visit depth s1 constraint;
      Ok {| s_bound := b; s_modular := m; s_var_map := s_var_map s; s_literals := s_literals s ++ [literal] |}
  | (Raise e, _), _ => Raise e
  | _, (Raise e, _) => Raise e
  end.

(** ** Trying rules *)

(** The condition of a rule, for the matched expressions *)
Fixpoint check (depth : nat) (s : State) (f : filled) (c : cond) : result bool :=
  match c with
  | CTrue => Ok true
  | CCmp op a b => x ← ceval (cvals f) a; y ← ceval (cvals f) b; Ok (eval_cmp op x y)
  | CanProveGreaterEqual p val => x ← Eval same_as f p; v ← ceval (cvals f) val; can_prove_ge depth s x v
  | CanProveEqual p val => x ← Eval same_as f p; r ← TryCompare depth s x val; Ok (bool_decide (r = kEQ))
  | CAnd a b => r ← check depth s f a; if r : bool then check depth s f b else Ok false
  end.

Definition RecursiveRewrite (depth : nat) (s : State) (x : PrimExpr) : result PrimExpr :=
  if (kMaxRecurDepth <=? depth)%nat then Ok x else visit (S depth) s x.

(** The first rule that matches and whose condition holds, if any *)
Fixpoint try_rules (depth : nat) (s : State) (rules : list rule) (ret : PrimExpr) : result (option PrimExpr) :=
  match rules with
  | [] => Ok None
  | r :: rules =>
      match Match (r_src r) ret with
      | Some f =>
          c ← check depth s f (r_cond r);
          if c : bool then
            _ ← fires (r_line r);
            p ← r_res r (dtype_of ret) (cvals f);
            e ← Eval same_as f p;
            Some <$> (if r_recursive r then RecursiveRewrite depth s e else Ok e)
          else try_rules depth s rules ret
      | None => try_rules depth s rules ret
      end
  end.

(** What follows if no rule applied *)
Definition or_else (r : result (option PrimExpr)) (next : result PrimExpr) : result PrimExpr :=
  o ← r; match o with Some e => Ok e | None => next end.

Definition index_rules (depth : nat) (s : State) (rules : list rule) (t : DataType) (ret : PrimExpr) : result (option PrimExpr) :=
  if IsIndexType t then try_rules depth s rules ret else Ok None.

(** ** The visitor functions *)

(** [truncmod(x, c1)] and [floormod(x, c1)] by modular analysis; [nonneg] is the last condition *)
Definition modular_rule (op : binop) (nonneg : PrimExpr → result bool) (depth : nat) (s : State) (ret : PrimExpr) : result (option PrimExpr) :=
  match Match (PBin op (PX 0) (PC 1)) ret with
  | Some f =>
      x ← Eval same_as f (PX 0);
      mod_ ← modular (can_prove_ge depth s) s x;
      let c1val := cvals f 1 in
      r ← rem64 (MS.coeff mod_) c1val;
      if (r =? 0) && (0 <? c1val) then
        ok ← nonneg x;
        if ok : bool then Some <$> Eval same_as f (PBin op (PLike (PC 1) (MS.base mod_)) (PC 1)) else Ok None
      else Ok None
  | None => Ok None
  end.

(** The rules of an arithmetic operator, for [ret] with the operands [a] and [b] *)
Definition rewrite_bin (depth : nat) (s : State) (op : binop) (a b ret : PrimExpr) : result PrimExpr :=
  let t := dtype_of ret in
  match op with
  | Add =>
      or_else (index_rules depth s add_rules t ret)
        (or_else (try_rules depth s add_condition_rules ret) (Ok ret))
  | Sub =>
      or_else (index_rules depth s (sub_rules ++ sub_division_rules ++ sub_canonical_rules) t ret)
        (or_else (try_rules depth s sub_condition_rules ret) (Ok ret))
  | Mul => or_else (index_rules depth s mul_rules t ret) (Ok ret)
  | Div => or_else (index_rules depth s div_rules t ret) (Ok ret)
  | Mod =>
      if IsIndexType t then
        or_else (try_rules depth s mod_rules ret)
          (or_else (modular_rule Mod (λ x, can_prove_ge depth s x 0) depth s ret) (Ok ret))
      else Ok ret
  | FloorDiv => or_else (index_rules depth s floordiv_rules t ret) (Ok ret)
  | FloorMod =>
      if IsIndexType t then
        or_else (try_rules depth s floormod_rules ret)
          (or_else (modular_rule FloorMod (λ _, Ok true) depth s ret) (Ok ret))
      else Ok ret
  | Min =>
      or_else
        (if IsIndexType t then
           same ← try_rules depth s min_same_rules ret;
           match same with
           | Some e => Ok (Some e)
           | None =>
               a_bound ← bound s a; b_bound ← bound s b;
               if max_value a_bound <=? min_value b_bound then Ok (Some a)
               else if max_value b_bound <=? min_value a_bound then Ok (Some b)
               else try_rules depth s min_rules ret
           end
         else Ok None)
        (or_else (try_rules depth s min_condition_rules ret) (Ok ret))
  | Max =>
      or_else
        (if IsIndexType t then
           same ← try_rules depth s max_same_rules ret;
           match same with
           | Some e => Ok (Some e)
           | None =>
               a_bound ← bound s a; b_bound ← bound s b;
               if max_value b_bound <=? min_value a_bound then Ok (Some a)
               else if max_value a_bound <=? min_value b_bound then Ok (Some b)
               else try_rules depth s max_rules ret
           end
         else Ok None)
        (or_else (try_rules depth s max_condition_rules ret) (Ok ret))
  end.

Definition visit_bin (depth : nat) (s : State) (op : binop) (a b : PrimExpr) : result PrimExpr :=
  a ← visit depth s a; b ← visit depth s b;
  ret ← MakeBin op a b;
  const_res ← TryConstFold same_as op a b;
  match const_res with Some e => Ok e | None => rewrite_bin depth s op a b ret end.

(** [VisitExpr_(const EQNode* op)] and [VisitExpr_(const LTNode* op)]; what the comparison of the
    operands gives, if it decides *)
Definition decide_eq (r : CompareResult) : option bool :=
  match r with kEQ => Some true | kNE | kGT | kLT => Some false | _ => None end.
Definition decide_lt (r : CompareResult) : option bool :=
  match r with kLT => Some true | kEQ | kGT | kGE => Some false | _ => None end.

Definition visit_compare (depth : nat) (s : State) (op : cmpop) (decided : CompareResult → option bool) (rules : list rule)
    (a b : PrimExpr) : result PrimExpr :=
  a ← visit depth s a; b ← visit depth s b;
  ret ← MakeCmp op a b;
  match TryConstFold_Cmp op a b with
  | Some e => Ok e
  | None =>
      if IsIndexType (dtype_of a) then
        d ← sub a b;
        r ← TryCompare depth s d 0;
        match decided r with
        | Some v => MakeConstScalar Bool (truth v)
        | None => or_else (try_rules depth s rules ret) (Ok ret)
        end
      else Ok ret
  end.

Definition visit_cmp (depth : nat) (s : State) (op : cmpop) (a b : PrimExpr) : result PrimExpr :=
  match op with
  | EQ => visit_compare depth s EQ decide_eq eq_rules a b
  | LT => visit_compare depth s LT decide_lt lt_rules a b
  | NE => e ← compare EQ a b; n ← MakeNot e; visit depth s n
  | LE => e ← compare LT b a; n ← MakeNot e; visit depth s n
  | GT => e ← compare LT b a; visit depth s e
  | GE => e ← compare LT a b; n ← MakeNot e; visit depth s n
  end.

Definition visit_and (depth : nat) (s : State) (a b : PrimExpr) : result PrimExpr :=
  a ← visit depth s a; b ← visit depth s b;
  ret ← MakeAnd a b;
  match TryConstFold_And a b with
  | Some e => Ok e
  | None => or_else (try_rules depth s and_rules ret) (Ok ret)
  end.

Definition visit_or (depth : nat) (s : State) (a b : PrimExpr) : result PrimExpr :=
  a ← visit depth s a; b ← visit depth s b;
  ret ← MakeOr a b;
  match TryConstFold_Or a b with
  | Some e => Ok e
  | None => or_else (try_rules depth s or_rules ret) (Ok ret)
  end.

Definition visit_not (depth : nat) (s : State) (a : PrimExpr) : result PrimExpr :=
  a ← visit depth s a;
  ret ← MakeNot a;
  match TryConstFold_Not a with
  | Some e => Ok e
  | None => or_else (try_rules depth s not_rules ret) (Ok ret)
  end.

(** [IRMutatorWithAnalyzer::VisitExpr_(const SelectNode* op)] *)
Definition mutate_select (depth : nat) (s : State) (c t f : PrimExpr) : result PrimExpr :=
  cond ← visit depth s c;
  s1 ← enter depth s cond;
  true_value ← visit depth s1 t;
  n ← MakeNot cond;
  ncond ← rewrite_simplify depth s n;
  s2 ← enter depth s ncond;
  false_value ← visit depth s2 f;
  if bool_decide (as_imm cond = Some 0) then Ok false_value
  else if bool_decide (as_imm cond = Some 1) then Ok true_value
  else MakeSelect cond true_value false_value.

Definition visit_select (depth : nat) (s : State) (c t f : PrimExpr) : result PrimExpr :=
  ret ← mutate_select depth s c t f;
  match ret with
  | Select _ _ _ => or_else (try_rules depth s select_rules ret) (Ok ret)
  | _ => Ok ret
  end.

(** [VisitExpr_(const CallNode* op)] for a shift *)
Definition visit_shift (depth : nat) (s : State) (a b : PrimExpr) : result PrimExpr :=
  a ← visit depth s a; b ← visit depth s b;
  match as_imm a, as_imm b with
  | Some _, Some _ => right_shift a b
  | _, _ => Ok (ShiftRight a b)
  end.

Definition visit_node (depth : nat) (s : State) (e : PrimExpr) : result PrimExpr :=
  match e with
  | IntImm _ _ | Opaque _ _ => Ok e
  | EVar v => Ok (default e (s_var_map s !! v_id v))
  | Bin op a b => visit_bin depth s op a b
  | Cmp op a b => visit_cmp depth s op a b
  | And a b => visit_and depth s a b
  | Or a b => visit_or depth s a b
  | Not a => visit_not depth s a
  | Select c t f => visit_select depth s c t f
  | Cast dt value => value ← visit depth s value; cast dt value
  | ShiftRight a b => visit_shift depth s a b
  | BitwiseAnd a b => a ← visit depth s a; b ← visit depth s b; Ok (BitwiseAnd a b)
  | Let _ _ _ => Raise NotImplementedError
  end.
End visitor.

(** ** The simplifier *)

Section simplifier.
Variable same_as : PrimExpr → PrimExpr → bool.
Variable fires : Z → result unit.
Variable bound : State → PrimExpr → result Entry.
Variable modular : (PrimExpr → Z → result bool) → State → PrimExpr → result MS.Entry.

(** [VisitExpr], with a bound on the depth of the calls *)
Fixpoint Visit (fuel : nat) : nat → State → PrimExpr → result PrimExpr :=
  match fuel with
  | O => λ _ _ _, Raise OutOfFuel
  | S fuel => visit_node same_as fires bound modular (Visit fuel)
  end.

(** Simplifying an expression, outside of any other visit *)
Definition Simplify (fuel : nat) (s : State) (expr : PrimExpr) : result PrimExpr :=
  rewrite_simplify same_as (Visit fuel) 0 s expr.

(** The modular set of an expression, which asks the simplifier *)
Definition SimplifyModular (fuel : nat) (s : State) (expr : PrimExpr) : result MS.Entry :=
  modular (can_prove_ge same_as bound (Visit fuel) 0 s) s expr.
End simplifier.

(** The analyzers of the program *)
Definition analyzer_bound (s : State) (e : PrimExpr) : result Entry := const_int_bound (s_bound s) e.
Definition analyzer_modular (can_prove : PrimExpr → Z → result bool) (s : State) (e : PrimExpr) : result MS.Entry :=
  MS.VisitExpr can_prove (s_modular s) e.
Definition unwatched (line : Z) : result unit := Ok tt.

(** [analyzer->rewrite_simplify(expr)] and [analyzer->modular_set(expr)] of the program *)
Definition analyzer_simplify (same_as : PrimExpr → PrimExpr → bool) (fuel : nat) (s : State) (expr : PrimExpr) : result PrimExpr :=
  Simplify same_as unwatched analyzer_bound analyzer_modular fuel s expr.
Definition modular_set (same_as : PrimExpr → PrimExpr → bool) (fuel : nat) (s : State) (expr : PrimExpr) : result MS.Entry :=
  SimplifyModular same_as unwatched analyzer_bound analyzer_modular fuel s expr.

(** [RewriteSimplifier::Update] *)
Definition rewrite_update (var : Var) (info : PrimExpr) (allow_override : bool) : M State unit :=
  s ← get_st;
  _ ← lift (match s_var_map s !! v_id var with
            | Some old => py_assert (allow_override || bool_decide (old = info))
            | None => Ok tt
            end);
  put_st {| s_bound := s_bound s; s_modular := s_modular s;
            s_var_map := <[v_id var := info]> (s_var_map s); s_literals := s_literals s |}.

(** Expressions are compared by structure in the samples. *)
Definition same (a b : PrimExpr) : bool := bool_decide (a = b).
Definition new_analyzer : State :=
  {| s_bound := {| cb_map := ∅; cb_infos := [] |}; s_modular := ∅; s_var_map := ∅; s_literals := [] |}.
Definition simplify_sample (e : PrimExpr) : result PrimExpr :=
  analyzer_simplify same 60 new_analyzer e.
