(* ===== verification/RewriteSimplifySound.v ===== *)
(** * Soundness of the rewriting simplifier

    The simplified expression has the value of the expression, in unbounded arithmetic. The proof is
    against an interface of the analyzers: what they say of an expression holds for its value. *)

From S2P Require Import Prelude Int64 TIR ConstIntBound ModularSet ConstFold PatternMatch RewriteRules RewriteRulesSound RewriteSimplify.

(** ** Well-formed expressions *)

(** No [Let], known variables only, constants that are an [int64_t], and operands of logical
    operators of type [bool] *)
Fixpoint well_formed (known : list nat) (e : PrimExpr) : bool :=
  match e with
  | IntImm _ value => in64 value
  | Opaque _ _ => true
  | EVar v => bool_decide (v_id v ∈ known)
  | Bin _ a b | Cmp _ a b | ShiftRight a b | BitwiseAnd a b => well_formed known a && well_formed known b
  | And a b | Or a b =>
      well_formed known a && well_formed known b && bool_decide (dtype_of a = Bool) && bool_decide (dtype_of b = Bool)
  | Not a => well_formed known a && bool_decide (dtype_of a = Bool)
  | Select c t f => well_formed known c && well_formed known t && well_formed known f && bool_decide (dtype_of c = Bool)
  | Cast _ a => well_formed known a
  | Let _ _ _ => false
  end.

Section well_formed.
Context (known : list nat).
Abbreviation wf := (well_formed known).

Definition filled_wf (f : filled) : Prop :=
  (∀ i e, f_x f !! i = Some e → wf e = true) ∧ ∀ i dt v, f_c f !! i = Some (dt, v) → in64 v = true.

Lemma MakeIntImm_wf dt v e : MakeIntImm dt v = Ok e → wf e = true.
Proof. intros H. pose proof (MakeIntImm_in64 _ _ _ H). by apply MakeIntImm_inv in H as ->. Qed.
Lemma MakeConstScalar_wf dt v e : MakeConstScalar dt v = Ok e → wf e = true.
Proof. intros H. pose proof (MakeConstScalar_in64 _ _ _ H). by apply MakeConstScalar_inv in H as ->. Qed.
Lemma imm_fmap_wf dt v e : Some <$> MakeIntImm dt v = Ok (Some e) → wf e = true.
Proof. destruct (MakeIntImm dt v) eqn:E; [|done]. intros [= ->]. by eapply MakeIntImm_wf. Qed.

Lemma fold_division_wf op by_one a b e : (∀ e, by_one = Ok e → wf e = true) → wf a = true →
  fold_division op by_one a b = Ok (Some e) → wf e = true.
Proof.
  intros H1 Ha H. unfold fold_division in H. destruct (as_imm a), (as_imm b); inv64; repeat case_decide; simplify_eq; inv64;
    try done; try (by eapply imm_fmap_wf).
  all: destruct by_one eqn:E; simplify_eq/=; by apply H1.
Qed.

Lemma TryConstFold_wf same_as op a b e : wf a = true → wf b = true → TryConstFold same_as op a b = Ok (Some e) → wf e = true.
Proof.
  intros Ha Hb H. destruct op; cbn [TryConstFold] in H.
  1-3: unfold TryConstFold_Add, TryConstFold_Sub, TryConstFold_Mul in H; destruct (as_imm a), (as_imm b); inv64;
    repeat case_decide; simplify_eq; try done; by eapply imm_fmap_wf.
  5-6: unfold TryConstFold_Min, TryConstFold_Max in H; destruct (as_imm a), (as_imm b), (same_as a b); simplify_eq; try done; by eapply imm_fmap_wf.
  - eapply fold_division_wf; [|exact Ha|exact H]. by intros ? [= <-].
  - unfold TryConstFold_Mod in H. destruct (_ && _); [|done]. eapply fold_division_wf; [|exact Ha|exact H]. apply MakeConstScalar_wf.
  - eapply fold_division_wf; [|exact Ha|exact H]. by intros ? [= <-].
  - unfold TryConstFold_FloorMod in H. destruct (_ && _); [|done]. eapply fold_division_wf; [|exact Ha|exact H]. apply MakeConstScalar_wf.
Qed.

Lemma MakeBin_wf op a b e : wf a = true → wf b = true → MakeBin op a b = Ok e → wf e = true.
Proof. intros Ha Hb (? & _ & [= <-])%result_bind_ok. cbn. by rewrite Ha, Hb. Qed.
Lemma MakeCmp_wf op a b e : wf a = true → wf b = true → MakeCmp op a b = Ok e → wf e = true.
Proof. intros Ha Hb (? & _ & [= <-])%result_bind_ok. cbn. by rewrite Ha, Hb. Qed.
Lemma MakeAnd_wf a b e : wf a = true → wf b = true → MakeAnd a b = Ok e → wf e = true.
Proof. intros Ha Hb (? & H1%py_assert_ok & (? & H2%py_assert_ok & [= <-])%result_bind_ok)%result_bind_ok. cbn. by rewrite Ha, Hb, H1, H2. Qed.
Lemma MakeOr_wf a b e : wf a = true → wf b = true → MakeOr a b = Ok e → wf e = true.
Proof. intros Ha Hb (? & H1%py_assert_ok & (? & H2%py_assert_ok & [= <-])%result_bind_ok)%result_bind_ok. cbn. by rewrite Ha, Hb, H1, H2. Qed.
Lemma MakeNot_wf a e : wf a = true → MakeNot a = Ok e → wf e = true.
Proof. intros Ha (? & H1%py_assert_ok & [= <-])%result_bind_ok. cbn. by rewrite Ha, H1. Qed.
Lemma MakeSelect_wf c t f e : wf c = true → wf t = true → wf f = true → MakeSelect c t f = Ok e → wf e = true.
Proof. intros Hc Ht Hf (? & H1%py_assert_ok & (? & _ & [= <-])%result_bind_ok)%result_bind_ok. cbn. by rewrite Hc, Ht, Hf, H1. Qed.

Lemma truth_in64 b : in64 (truth b) = true.
Proof. by destruct b. Qed.
Lemma cmp_fold_wf op a b e : TryConstFold_Cmp op a b = Some e → wf e = true.
Proof. unfold TryConstFold_Cmp. destruct (as_imm a), (as_imm b); intros [= <-]. apply truth_in64. Qed.
Lemma and_fold_wf a b e : wf a = true → wf b = true → TryConstFold_And a b = Some e → wf e = true.
Proof. intros Ha Hb. unfold TryConstFold_And. destruct (as_imm a), (as_imm b); intros; simplify_eq; by destruct (_ =? _). Qed.
Lemma or_fold_wf a b e : wf a = true → wf b = true → TryConstFold_Or a b = Some e → wf e = true.
Proof. intros Ha Hb. unfold TryConstFold_Or. destruct (as_imm a), (as_imm b); intros; simplify_eq; by destruct (_ =? _). Qed.
Lemma not_fold_wf a e : TryConstFold_Not a = Some e → wf e = true.
Proof. unfold TryConstFold_Not. destruct (as_imm a); intros [= <-]. apply truth_in64. Qed.
End well_formed.

Section patterns.
Context (known : list nat).
Abbreviation wf := (well_formed known).

Lemma InitMatch_wf : filled_wf known InitMatch.
Proof. split; [by intros i e [=]|by intros i dt v [=]]. Qed.

Lemma match_x_wf i e s s' : match_x i e s = Some s' → wf e = true → filled_wf known s → filled_wf known s'.
Proof.
  unfold match_x. intros H He Hs. destruct (f_x s !! i); [case_decide; by simplify_eq|]. injection H as <-.
  split; [|apply Hs]. intros j ej. cbn. destruct (decide (j = i)) as [->|]; [rewrite lookup_insert_eq; by intros [= <-]|].
  rewrite lookup_insert_ne by done. apply Hs.
Qed.

Lemma match_c_wf i e s s' : match_c i e s = Some s' → wf e = true → filled_wf known s → filled_wf known s'.
Proof.
  unfold match_c. intros H He Hs. destruct e as [dt v| | | | | | | | | | | |]; try done.
  destruct (f_c s !! i) as [[]|]; [destruct (_ =? _); by simplify_eq|]. injection H as <-.
  split; [apply Hs|]. intros j dt' w. cbn. destruct (decide (j = i)) as [->|]; [rewrite lookup_insert_eq; by intros [= <- <-]|].
  rewrite lookup_insert_ne by done. apply Hs.
Qed.

Lemma Match_wf p : ∀ e s s', Match_ p e s = Some s' → wf e = true → filled_wf known s → filled_wf known s'.
Proof.
  induction p as [i|i|p IH z|c|op p1 IH1 p2 IH2|op p1 IH1 p2 IH2|p1 IH1 p2 IH2|p1 IH1 p2 IH2|p IH|p1 IH1 p2 IH2 p3 IH3];
    intros e s s' H He Hs.
  - by apply match_x_wf in H.
  - by apply match_c_wf in H.
  - destruct e; try done. cbn in H. destruct (_ =? _); by simplify_eq.
  - assert (s' = s) as -> by (destruct e; cbn [Match_] in H; case_decide; by simplify_eq). done.
  - destruct e; try done. cbn [Match_ well_formed] in *. bool_to_prop. case_decide; [|done]. apply bind_Some in H as (? & ? & H). eauto.
  - destruct e; try done. cbn [Match_ well_formed] in *. bool_to_prop. case_decide; [|done]. apply bind_Some in H as (? & ? & H). eauto.
  - destruct e; try done. cbn [Match_ well_formed] in *. bool_to_prop. apply bind_Some in H as (? & ? & H). eauto.
  - destruct e; try done. cbn [Match_ well_formed] in *. bool_to_prop. apply bind_Some in H as (? & ? & H). eauto.
  - destruct e; try done. cbn [Match_ well_formed] in *. bool_to_prop. eauto.
  - destruct e; try done. cbn [Match_ well_formed] in *. bool_to_prop. apply bind_Some in H as (? & ? & H). apply bind_Some in H as (? & ? & H). eauto.
Qed.

Lemma Eval_wf same_as f p : ∀ e, simple p = true → filled_wf known f → Eval same_as f p = Ok e → wf e = true.
Proof.
  induction p as [i|i|p IH z|c|op p1 IH1 p2 IH2|op p1 IH1 p2 IH2|p1 IH1 p2 IH2|p1 IH1 p2 IH2|p IH|p1 IH1 p2 IH2 p3 IH3];
    intros e' Hs Hf H; cbn [Eval simple] in *; bool_to_prop.
  all: try (apply result_bind_ok in H as (a & Ha & H)); try (apply result_bind_ok in H as (b & Hb & H)).
  all: try specialize (IH _ ltac:(done) Hf Ha).
  all: try specialize (IH1 _ ltac:(done) Hf Ha); try specialize (IH2 _ ltac:(done) Hf Hb).
  - destruct (f_x f !! i) eqn:E; [|done]. injection H as <-. by eapply Hf.
  - destruct (f_c f !! i) as [[]|] eqn:E; [|done]. injection H as <-. by eapply Hf.
  - by eapply MakeConstScalar_wf.
  - injection H as <-. by destruct c.
  - apply result_bind_ok in H as ([r|] & Hr & H); [|by apply (MakeBin_wf known op a b)]. injection H as <-. by apply (TryConstFold_wf known same_as op a b).
  - destruct (TryConstFold_Cmp op a b) eqn:E; [|by apply (MakeCmp_wf known op a b)]. injection H as <-. by eapply cmp_fold_wf.
  - destruct (TryConstFold_And a b) eqn:E; [|by apply (MakeAnd_wf known a b)]. injection H as <-. by apply (and_fold_wf known a b).
  - destruct (TryConstFold_Or a b) eqn:E; [|by apply (MakeOr_wf known a b)]. injection H as <-. by apply (or_fold_wf known a b).
  - injection H as <-. apply py_assert_ok in Hb. cbn. by rewrite IH, Hb.
  - apply result_bind_ok in H as (z & Hz & H). eapply (MakeSelect_wf known a b z); [done|done|by apply IH3|done].
Qed.
End patterns.

(** ** Operators *)

Section operators.
Context (known : list nat) (other env : nat → Z).
Abbreviation wf := (well_formed known).
Abbreviation value := (ival other env).

(** The expression is well formed, and has the value of the other. *)
Definition keeps (e e' : PrimExpr) : Prop := wf e' = true ∧ ∀ v, value e = Some v → value e' = Some v.

Lemma keeps_refl e : wf e = true → keeps e e.
Proof. by split. Qed.

Lemma cast_keeps t a a' : wf a = true → cast t a = Ok a' → keeps a a'.
Proof.
  intros Ha H. unfold cast in H. case_decide; [injection H as <-; by apply keeps_refl|].
  destruct a; try (injection H as <-; by split). split; [by eapply MakeConstScalar_wf|]. by apply MakeConstScalar_inv in H as ->.
Qed.

Lemma match_types_keeps a b a' b' : wf a = true → wf b = true → BinaryOpMatchTypes a b = Ok (a', b') → keeps a a' ∧ keeps b b'.
Proof.
  intros Ha Hb H. unfold BinaryOpMatchTypes in H. case_decide; [injection H as <- <-; split; by apply keeps_refl|].
  destruct (_ || _); [|destruct (_ || _); [|done]].
  - destruct (_ <? _); apply result_bind_ok in H as (c & Hc & [= <- <-]);
      (split; [first [by eapply cast_keeps|by apply keeps_refl]|first [by eapply cast_keeps|by apply keeps_refl]]).
  - unfold SimpleCast in H. injection H as <- <-. repeat case_decide; split; by split.
Qed.

Lemma sub_ok a b e : wf a = true → wf b = true → sub a b = Ok e →
  wf e = true ∧ ∀ x y, value a = Some x → value b = Some y → value e = Some (x - y).
Proof.
  intros Ha Hb H. unfold sub, match_and_fold in H. apply result_bind_ok in H as ([a' b'] & Hm & H).
  destruct (match_types_keeps _ _ _ _ Ha Hb Hm) as [[Ha' Hva] [Hb' Hvb]].
  apply result_bind_ok in H as (r & Hr & [= <-]). destruct r as [e|]; cbn [default from_option].
  - split; [by apply (TryConstFold_wf known (λ _ _, false) Sub a' b')|]. intros x y Hx%Hva Hy%Hvb.
    by eapply (ideal_fold other env (λ _ _, false) Sub).
  - split; [cbn; by rewrite Ha', Hb'|]. intros x y Hx%Hva Hy%Hvb. cbn. by rewrite Hx, Hy.
Qed.

Lemma compare_ok op a b e : wf a = true → wf b = true → compare op a b = Ok e →
  wf e = true ∧ ∀ x y, value a = Some x → value b = Some y → value e = Some (truth (eval_cmp op x y)).
Proof.
  intros Ha Hb H. unfold compare in H. apply result_bind_ok in H as ([a' b'] & Hm & [= <-]).
  destruct (match_types_keeps _ _ _ _ Ha Hb Hm) as [[Ha' Hva] [Hb' Hvb]].
  destruct (TryConstFold_Cmp op a' b') eqn:E; cbn [default from_option].
  - split; [by eapply cmp_fold_wf|]. intros x y Hx%Hva Hy%Hvb. by eapply ideal_cmp.
  - split; [cbn; by rewrite Ha', Hb'|]. intros x y Hx%Hva Hy%Hvb. cbn. by rewrite Hx, Hy.
Qed.

Lemma right_shift_keeps a b e : wf a = true → wf b = true → right_shift a b = Ok e → keeps (ShiftRight a b) e.
Proof.
  intros Ha Hb H. unfold right_shift in H. apply result_bind_ok in H as (u & _ & H). apply result_bind_ok in H as ([a' b'] & Hm & H).
  destruct (match_types_keeps _ _ _ _ Ha Hb Hm) as [[Ha' Hva] [Hb' Hvb]].
  assert (keeps (ShiftRight a b) (ShiftRight a' b')) as Hn.
  { split; [cbn; by rewrite Ha', Hb'|]. intros v Hv. cbn in *. apply bind_Some in Hv as (x & Hx & Hv).
    apply bind_Some in Hv as (y & Hy & Hv). by rewrite (Hva _ Hx), (Hvb _ Hy). }
  destruct (_ && _); [|by injection H as <-]. destruct (as_imm b') as [vb|] eqn:Eb; [|destruct (as_imm a'); by injection H as <-].
  apply (as_imm_ival other env) in Eb. destruct (as_imm a') as [va|] eqn:Ea; apply result_bind_ok in H as (? & Hr & H).
  - apply (as_imm_ival other env) in Ea. apply result_bind_ok in H as (v & Hv & H).
    split; [by eapply MakeIntImm_wf|]. apply MakeIntImm_inv in H as ->.
    intros w Hw%(proj2 Hn). cbn in Hw. rewrite Ea, Eb in Hw. cbn in Hw. unfold shr64 in Hv.
    destruct ((0 <=? vb) && (vb <? 64)); [|done]. apply i64_inv in Hv as [-> _]. done.
  - destruct (Z.eqb_spec vb 0) as [->|]; injection H as <-; [|done]. split; [done|].
    intros w Hw%(proj2 Hn). cbn in Hw. rewrite Eb in Hw. destruct (value a'); [|done]. cbn in Hw. by rewrite Z.shiftr_0_r in Hw.
Qed.
End operators.

(** ** The interface of the analyzers *)

(** What the analyzers answer holds for the values of expressions, in the states that are [good];
    a state stays so in the scope of a constraint that is true. *)
Class SoundAnalyzers (known : list nat) (other env : nat → Z) (good : State → Prop)
    (bound : State → PrimExpr → result Entry)
    (modular : (PrimExpr → Z → result bool) → State → PrimExpr → result MS.Entry) : Prop := {
  bound_sound s e en v : good s → well_formed known e = true → bound s e = Ok en → ival other env e = Some v →
    min_value en ≤ v ≤ max_value en;
  modular_sound s can_prove e en v : good s →
    (∀ a n u, well_formed known a = true → can_prove a n = Ok true → ival other env a = Some u → n ≤ u) →
    well_formed known e = true → modular can_prove s e = Ok en → ival other env e = Some v →
    (MS.coeff en | v - MS.base en) ∧ (MS.coeff en = 0 ∨ 0 ≤ MS.base en < MS.coeff en);
  enter_sound s c n b r m literals : good s → well_formed known c = true → ival other env c = Some 1 →
    EnterConstraint c (s_bound s) = (Ok n, b) → MS.EnterConstraint c (s_modular s) = (Ok r, m) →
    good {| s_bound := b; s_modular := m; s_var_map := s_var_map s; s_literals := literals |};
  var_map_sound s i e : good s → s_var_map s !! i = Some e → ival other env e = Some (env i)
}.

Definition vars_wf (known : list nat) (s : State) : Prop := ∀ i e, s_var_map s !! i = Some e → well_formed known e = true.

Section visitor.
Context (known : list nat) (other env : nat → Z) (good : State → Prop).
Context (same_as : PrimExpr → PrimExpr → bool) (Hsame : ∀ a b, same_as a b = true → a = b).
Context (fires : Z → result unit) (Hfires : ∀ line, fires line = Ok tt → good_line line = true).
Context (bound : State → PrimExpr → result Entry) (modular : (PrimExpr → Z → result bool) → State → PrimExpr → result MS.Entry).
Context `{Hsound : !SoundAnalyzers known other env good bound modular}.
Abbreviation wf := (well_formed known).
Abbreviation value := (ival other env).

(** A step from an expression to a well-formed one, which has its value if the state is good *)
Definition step (s : State) (e e' : PrimExpr) : Prop :=
  wf e' = true ∧ (good s → ∀ v, value e = Some v → value e' = Some v).

Lemma step_refl s e : wf e = true → step s e e.
Proof. by split. Qed.
Lemma step_trans s e1 e2 e3 : step s e1 e2 → step s e2 e3 → step s e1 e3.
Proof. intros [_ H1] [H2 H3]. split; [done|]. intros Hg v Hv. by apply H3, H1. Qed.
Lemma step_keeps s e e' : keeps known other env e e' → step s e e'.
Proof. intros [H1 H2]. by split. Qed.

Definition visit_ok (visit : nat → State → PrimExpr → result PrimExpr) : Prop :=
  ∀ depth s e e', vars_wf known s → wf e = true → visit depth s e = Ok e' → step s e e'.

Context (visit : nat → State → PrimExpr → result PrimExpr) (Hvisit : visit_ok visit).

Lemma rewrite_simplify_ok depth s e e' : vars_wf known s → wf e = true →
  rewrite_simplify same_as visit depth s e = Ok e' → step s e e'.
Proof.
  intros Hs He H. unfold rewrite_simplify in H. apply result_bind_ok in H as (e1 & H1%Hvisit & H); [|done..].
  destruct (same_as e1 e); [injection H as <-; by apply step_refl|].
  apply result_bind_ok in H as (e2 & H2%Hvisit & [= <-]); [|done|apply H1]. destruct (same_as e2 e1); [done|]. by eapply step_trans.
Qed.

Lemma can_prove_ok depth s a n u : vars_wf known s → good s → wf a = true →
  can_prove_ge same_as bound visit depth s a n = Ok true → value a = Some u → n ≤ u.
Proof.
  intros Hs Hg Ha H Hu. unfold can_prove_ge in H.
  assert (∀ e bd, rewrite_simplify same_as visit depth s a = Ok e → bound s e = Ok bd → n <=? min_value bd = true → n ≤ u) as Hb.
  { intros e bd He%rewrite_simplify_ok Hbd Hn%Z.leb_le; [|done..]. destruct He as [He Hv].
    pose proof (bound_sound s e bd u Hg He Hbd (Hv Hg _ Hu)). lia. }
  destruct a; cbn [MS.CanProveGreaterEqual] in H;
    try (apply result_bind_ok in H as (e & He & H); apply result_bind_ok in H as (bd & Hbd & [= Hn]); by eapply Hb).
  injection H as H%Z.leb_le. cbn in Hu. by simplify_eq.
Qed.

(** What a comparison says of the value *)
Definition compared (r : CompareResult) (v val : Z) : Prop :=
  match r with
  | kUnknown => True | kEQ => v = val | kGT => val < v | kGE => val ≤ v | kLT => v < val | kLE => v ≤ val | kNE => v ≠ val
  end.

Lemma residue_zero c b : (c | 0 - b) → c = 0 ∨ 0 ≤ b < c → b = 0.
Proof.
  intros H [->|Hb]; [apply Z.divide_0_l in H; lia|]. 
  destruct (decide (b = 0)) as [|Hn]; [done|]. rewrite Z.sub_0_l in H. apply (proj1 (Z.divide_opp_r _ _)) in H.
  apply Z.divide_pos_le in H; lia.
Qed.

Lemma TryCompare_ok depth s x val r v : vars_wf known s → good s → wf x = true →
  TryCompare same_as bound modular visit depth s x val = Ok r → value x = Some v → compared r v val.
Proof.
  intros Hs Hg Hx H Hv. unfold TryCompare in H. apply result_bind_ok in H as (d & [Hd Hdv]%Hvisit & H); [|done..].
  specialize (Hdv Hg _ Hv). destruct (as_imm d) as [w|] eqn:Ed.
  - apply (as_imm_ival other env) in Ed. injection H as <-. simplify_eq.
    destruct (Z.eqb_spec v val); [done|]. destruct (Z.ltb_spec val v); cbn; lia.
  - apply result_bind_ok in H as (bd & Hbd & H). pose proof (bound_sound s d bd v Hg Hd Hbd Hdv) as Hb.
    repeat match type of H with
    | (if ?c then _ else _) = _ => destruct c eqn:?; [try (injection H as <-; bool_to_prop; cbn; lia)|]
    end; [|injection H as <-; done].
    bool_to_prop. subst val. apply result_bind_ok in H as (m & Hm & [= <-]).
    destruct (modular_sound s _ d m v Hg ltac:(intros; by eapply can_prove_ok) Hd Hm Hdv) as [Hdiv Hred].
    destruct (Z.eqb_spec (MS.base m) 0) as [|Hne]; [done|]. cbn. intros ->. by apply Hne, (residue_zero (MS.coeff m)).
Qed.

(** *** Rules *)

Lemma check_ok depth s f c : vars_wf known s → good s → filled_wf known f → cond_simple c = true →
  check same_as bound modular visit depth s f c = Ok true → csem (xvals other env f) (cvals f) c.
Proof.
  intros Hs Hg Hf. induction c as [|op a b|p val|p val|a IHa b IHb]; intros Hc H; cbn [check csem cond_simple] in *; bool_to_prop.
  - done.
  - apply result_bind_ok in H as (u & Hu & H). apply result_bind_ok in H as (w & Hw & [= H]). eauto.
  - apply result_bind_ok in H as (e & He & H). apply result_bind_ok in H as (n & Hn & H). exists n. split; [done|].
    intros u Hu. eapply can_prove_ok; [done|done|by eapply Eval_wf|exact H|by eapply Eval_ideal].
  - apply result_bind_ok in H as (e & He & H). apply result_bind_ok in H as (r & Hr & [= ->%bool_decide_eq_true]).
    intros u Hu. apply (TryCompare_ok depth s e val kEQ u); [done|done|by eapply Eval_wf|exact Hr|by eapply Eval_ideal].
  - apply result_bind_ok in H as ([|] & Ha & Hb); [|done]. auto.
Qed.

Lemma RecursiveRewrite_ok depth s e e' : vars_wf known s → wf e = true → RecursiveRewrite visit depth s e = Ok e' → step s e e'.
Proof. intros Hs He H. unfold RecursiveRewrite in H. destruct (_ <=? _)%nat; [injection H as <-; by apply step_refl|by eapply Hvisit]. Qed.

Lemma rule_ok depth s r ret f p e : vars_wf known s → wf ret = true → rule_sound r → Match (r_src r) ret = Some f →
  check same_as bound modular visit depth s f (r_cond r) = Ok true → r_res r (dtype_of ret) (cvals f) = Ok p →
  Eval same_as f p = Ok e → step s ret e.
Proof.
  intros Hs Hret [[Hsrc Hcond]%andb_prop Hr] Hm Hc Hp He.
  destruct (Hr (xvals other env f) (cvals f) _ _ Hp) as [Hsimple Hval].
  assert (filled_wf known f) as Hf by (eapply Match_wf; [exact Hm|done|apply InitMatch_wf]).
  split; [by eapply Eval_wf|]. intros Hg v Hv. eapply Eval_ideal; [done|exact Hsimple|exact He|].
  apply Hval; [by eapply check_ok|]. rewrite <- Hv. by eapply Match_ideal.
Qed.

(** The result of trying rules, if there is one *)
Definition step_option (s : State) (e : PrimExpr) (o : option PrimExpr) : Prop :=
  match o with Some e' => step s e e' | None => True end.

Lemma try_rules_ok depth s rules ret o : vars_wf known s → wf ret = true → table_sound rules →
  try_rules same_as fires bound modular visit depth s rules ret = Ok o → step_option s ret o.
Proof.
  intros Hs Hret Ht H. induction Ht as [|r rules Hr Ht IH]; [by injection H as <-|]. cbn [try_rules] in H.
  destruct (Match (r_src r) ret) as [f|] eqn:Em; [|by apply IH].
  apply result_bind_ok in H as ([|] & Hc & H); [|by apply IH]. apply result_bind_ok in H as ([] & Hl & H).
  apply result_bind_ok in H as (p & Hp & H). apply result_bind_ok in H as (e & He & H).
  assert (step s ret e) as Hstep by (eapply rule_ok; [done|done|by apply Hr, Hfires|done..]).
  destruct (r_recursive r).
  - destruct (RecursiveRewrite visit depth s e) as [e'|] eqn:E; [|done]. injection H as <-.
    eapply step_trans; [exact Hstep|]. eapply RecursiveRewrite_ok; [done|apply Hstep|done].
  - by injection H as <-.
Qed.

Lemma index_rules_ok depth s rules t ret o : vars_wf known s → wf ret = true → table_sound rules →
  index_rules same_as fires bound modular visit depth s rules t ret = Ok o → step_option s ret o.
Proof. unfold index_rules. intros. destruct (IsIndexType t); [by eapply try_rules_ok|by simplify_eq]. Qed.

Lemma or_else_ok s e r next e' : (∀ o, r = Ok o → step_option s e o) → (next = Ok e' → step s e e') →
  or_else r next = Ok e' → step s e e'.
Proof. intros Hr Hn H. apply result_bind_ok in H as ([e1|] & H1%Hr & H); [|auto]. by injection H as <-. Qed.

(** *** Tables *)

Lemma sub_tables_sound : table_sound (sub_rules ++ sub_division_rules ++ sub_canonical_rules).
Proof. unfold table_sound. rewrite !Forall_app. split_and!; [apply sub_sound|apply sub_division_sound|apply sub_canonical_sound]. Qed.

Create HintDb tables discriminated.
#[local] Hint Resolve add_sound add_condition_sound sub_tables_sound sub_condition_sound mul_sound div_sound mod_sound floordiv_sound
  floormod_sound min_same_sound min_sound min_condition_sound max_same_sound max_sound max_condition_sound eq_sound lt_sound
  not_sound and_sound or_sound select_sound : tables.

(** *** Arithmetic *)

Lemma modular_rule_ok depth s op nonneg ret o : op = Mod ∨ op = FloorMod → vars_wf known s → wf ret = true →
  (∀ x u, op = Mod → good s → wf x = true → nonneg x = Ok true → value x = Some u → 0 ≤ u) →
  modular_rule same_as bound modular visit op nonneg depth s ret = Ok o → step_option s ret o.
Proof.
  intros Hop Hs Hret Hn H. unfold modular_rule in H. destruct (Match _ ret) as [f|] eqn:Em; [|by injection H as <-].
  apply result_bind_ok in H as (x & Hx & H). apply result_bind_ok in H as (m & Hm & H).
  apply result_bind_ok in H as (r & [Hc ->]%rem64_inv & H). destruct (_ && _) eqn:Et; [|by injection H as <-]. bool_to_prop.
  apply result_bind_ok in H as ([|] & Hok & H); [|by injection H as <-].
  destruct (Eval same_as f (PBin op (PLike (PC 1) (MS.base m)) (PC 1))) as [e|] eqn:He; [|done]. injection H as <-.
  assert (filled_wf known f) as Hf by (eapply Match_wf; [exact Em|done|apply InitMatch_wf]).
  assert (wf x = true) as Hxw by (by eapply (Eval_wf known same_as f (PX 0))).
  split; [by apply (Eval_wf known same_as f (PBin op (PLike (PC 1) (MS.base m)) (PC 1)))|].
  intros Hg v Hv. apply (Eval_ideal other env same_as Hsame (PBin op (PLike (PC 1) (MS.base m)) (PC 1)) f e v eq_refl He).
  rewrite <- (Match_ideal other env (PBin op (PX 0) (PC 1)) eq_refl _ _ _ f Em (reflexivity f)) in Hv. cbn [pval] in Hv |- *.
  apply bind_Some in Hv as (u & Hu & Hv). cbn [mbind option_bind] in *.
  assert (value x = Some u) as Hxu by (by eapply (Eval_ideal other env same_as Hsame (PX 0))).
  destruct (modular_sound s _ x m u Hg ltac:(intros; by eapply can_prove_ok) Hxw Hm Hxu) as [[q Hq] Hred].
  match goal with E : Z.rem (MS.coeff m) _ = 0 |- _ => apply rem_exact in E as [k Hk]; [|done] end. rewrite <- Hv.
  destruct Hop as [-> | ->]; cbn [eval_bin] in *; rewrite (proj2 (Z.eqb_neq _ _) Hc) in *; f_equal.
  - specialize (Hn x u eq_refl Hg Hxw Hok Hxu). assert (0 ≤ MS.base m) by (destruct Hred as [E|]; [rewrite E in Hq|]; lia).
    rewrite !Z.rem_mod_nonneg by lia. replace u with (MS.base m + (q * k) * cvals f 1) by (rewrite Hk in Hq; lia). by rewrite Z.mod_add.
  - replace u with (MS.base m + (q * k) * cvals f 1) by (rewrite Hk in Hq; lia). by rewrite Z.mod_add.
Qed.

(** The operand with the smaller or larger bounds is the value of a [Min] or [Max]. *)
Lemma bounded_ok depth s op a b ret pick_a pick_b rules o : vars_wf known s → wf ret = true → wf a = true → wf b = true →
  table_sound rules → (ret = Bin op a b) →
  (∀ x y v ea eb, min_value ea ≤ x ≤ max_value ea → min_value eb ≤ y ≤ max_value eb → eval_bin op x y = Some v →
     (pick_a ea eb = true → v = x) ∧ (pick_b ea eb = true → v = y)) →
  (ea ← bound s a; eb ← bound s b;
   if pick_a ea eb : bool then Ok (Some a) else if pick_b ea eb : bool then Ok (Some b)
   else try_rules same_as fires bound modular visit depth s rules ret) = Ok o →
  step_option s ret o.
Proof.
  intros Hs Hret Ha Hb Ht -> Hpick H. apply result_bind_ok in H as (ea & Ea & H). apply result_bind_ok in H as (eb & Eb & H).
  assert (good s → ∀ v, value (Bin op a b) = Some v →
    (pick_a ea eb = true → value a = Some v) ∧ (pick_b ea eb = true → value b = Some v)) as Hv.
  { intros Hg v Hv. cbn in Hv. apply bind_Some in Hv as (x & Hx & Hv). apply bind_Some in Hv as (y & Hy & Hv).
    destruct (Hpick x y v ea eb (bound_sound s a ea x Hg Ha Ea Hx) (bound_sound s b eb y Hg Hb Eb Hy) Hv) as [H1 H2].
    split; intros Hp; [by rewrite (H1 Hp)|by rewrite (H2 Hp)]. }
  destruct (pick_a ea eb) eqn:Pa; [injection H as <-; split; [done|]; intros Hg v Hw; by apply (Hv Hg v Hw)|].
  destruct (pick_b ea eb) eqn:Pb; [injection H as <-; split; [done|]; intros Hg v Hw; by apply (Hv Hg v Hw)|].
  by eapply try_rules_ok.
Qed.

Lemma same_first_ok depth s rules ret next o : vars_wf known s → wf ret = true → table_sound rules →
  (next = Ok o → step_option s ret o) →
  (same ← try_rules same_as fires bound modular visit depth s rules ret;
   match same with Some e => Ok (Some e) | None => next end) = Ok o → step_option s ret o.
Proof.
  intros Hs Hret Ht Hn H. apply result_bind_ok in H as ([e|] & He & H); [|by apply Hn]. injection H as <-.
  exact (try_rules_ok depth s rules ret (Some e) Hs Hret Ht He).
Qed.

(** The last step of a visitor function returns the node. *)
Lemma rules_or_node depth s rules ret e : vars_wf known s → wf ret = true → table_sound rules →
  or_else (try_rules same_as fires bound modular visit depth s rules ret) (Ok ret) = Ok e → step s ret e.
Proof.
  intros Hs Hret Ht. apply or_else_ok; [intros o; by apply try_rules_ok|]. intros [= <-]. by apply step_refl.
Qed.

Lemma index_rules_or depth s rules t ret next e : vars_wf known s → wf ret = true → table_sound rules →
  (next = Ok e → step s ret e) →
  or_else (index_rules same_as fires bound modular visit depth s rules t ret) next = Ok e → step s ret e.
Proof. intros Hs Hret Ht Hn. apply or_else_ok; [intros o; by apply index_rules_ok|done]. Qed.

Lemma rewrite_bin_ok depth s op a b ret e : vars_wf known s → wf ret = true → wf a = true → wf b = true → ret = Bin op a b →
  rewrite_bin same_as fires bound modular visit depth s op a b ret = Ok e → step s ret e.
Proof.
  intros Hs Hret Ha Hb Er H. assert (Ok ret = Ok e → step s ret e) as Hnode by (intros [= <-]; by apply step_refl).
  destruct op; cbn [rewrite_bin] in H.
  - revert H. apply index_rules_or; [done|done|auto with tables|]. apply rules_or_node; auto with tables.
  - revert H. apply index_rules_or; [done|done|auto with tables|]. apply rules_or_node; auto with tables.
  - revert H. apply index_rules_or; [done|done|auto with tables|done].
  - revert H. apply index_rules_or; [done|done|auto with tables|done].
  - destruct (IsIndexType _); [|auto]. revert H. apply or_else_ok; [intros o; apply try_rules_ok; auto with tables|].
    apply or_else_ok; [|done]. intros o. apply modular_rule_ok; [by left|done|done|]. intros; by eapply can_prove_ok.
  - revert H. apply index_rules_or; [done|done|auto with tables|done].
  - destruct (IsIndexType _); [|auto]. revert H. apply or_else_ok; [intros o; apply try_rules_ok; auto with tables|].
    apply or_else_ok; [|done]. intros o. apply modular_rule_ok; [by right|done|done|]. done.
  - revert H. apply or_else_ok; [|apply rules_or_node; auto with tables].
    intros o. destruct (IsIndexType _); [|by intros [= <-]]. apply same_first_ok; [done|done|auto with tables|].
    eapply (bounded_ok depth s Min a b ret (λ ea eb, max_value ea <=? min_value eb) (λ ea eb, max_value eb <=? min_value ea));
      [done..|auto with tables|done|]. intros x y v ea eb Hx Hy [= <-]. rewrite !Z.leb_le. lia.
  - revert H. apply or_else_ok; [|apply rules_or_node; auto with tables].
    intros o. destruct (IsIndexType _); [|by intros [= <-]]. apply same_first_ok; [done|done|auto with tables|].
    eapply (bounded_ok depth s Max a b ret (λ ea eb, max_value eb <=? min_value ea) (λ ea eb, max_value ea <=? min_value eb));
      [done..|auto with tables|done|]. intros x y v ea eb Hx Hy [= <-]. rewrite !Z.leb_le. lia.
Qed.

(** A binary node over visited operands *)
Lemma operands_ok depth s a b a' b' : vars_wf known s → wf a = true → wf b = true →
  visit depth s a = Ok a' → visit depth s b = Ok b' → step s a a' ∧ step s b b'.
Proof. intros Hs Ha Hb H1%Hvisit H2%Hvisit; done. Qed.

Lemma visit_bin_ok depth s op a b e : vars_wf known s → wf a = true → wf b = true →
  visit_bin same_as fires bound modular visit depth s op a b = Ok e → step s (Bin op a b) e.
Proof.
  intros Hs Ha Hb H. unfold visit_bin in H. apply result_bind_ok in H as (a' & Ha' & H). apply result_bind_ok in H as (b' & Hb' & H).
  destruct (operands_ok _ _ _ _ _ _ Hs Ha Hb Ha' Hb') as [[Wa Va] [Wb Vb]].
  apply result_bind_ok in H as (ret & Hret & H). pose proof (MakeBin_wf known op a' b' ret Wa Wb Hret) as Wret.
  apply result_bind_ok in Hret as ([] & _ & [= <-]).
  assert (step s (Bin op a b) (Bin op a' b')) as Hstep.
  { split; [done|]. intros Hg v Hv. cbn in *. apply bind_Some in Hv as (x & Hx & Hv). apply bind_Some in Hv as (y & Hy & Hv).
    by rewrite (Va Hg _ Hx), (Vb Hg _ Hy). }
  apply result_bind_ok in H as ([r|] & Hr & H).
  - injection H as <-. eapply step_trans; [exact Hstep|]. split; [by apply (TryConstFold_wf known same_as op a' b')|].
    intros Hg v Hv. cbn in Hv. apply bind_Some in Hv as (x & Hx & Hv). apply bind_Some in Hv as (y & Hy & Hv).
    by eapply (ideal_fold other env same_as op Hsame).
  - eapply step_trans; [exact Hstep|]. eapply rewrite_bin_ok; [done|done|exact Wa|exact Wb|reflexivity|exact H].
Qed.

(** *** Comparisons *)

Lemma visit_compare_ok depth s op decided rules a b e : vars_wf known s → wf a = true → wf b = true → table_sound rules →
  (∀ r x y c, compared r (x - y) 0 → decided r = Some c → eval_cmp op x y = c) →
  visit_compare same_as fires bound modular visit depth s op decided rules a b = Ok e → step s (Cmp op a b) e.
Proof.
  intros Hs Ha Hb Ht Hd H. unfold visit_compare in H. apply result_bind_ok in H as (a' & Ha' & H). apply result_bind_ok in H as (b' & Hb' & H).
  destruct (operands_ok _ _ _ _ _ _ Hs Ha Hb Ha' Hb') as [[Wa Va] [Wb Vb]].
  apply result_bind_ok in H as (ret & Hret & H). pose proof (MakeCmp_wf known op a' b' ret Wa Wb Hret) as Wret.
  apply result_bind_ok in Hret as ([] & _ & [= <-]).
  apply (step_trans s _ (Cmp op a' b')).
  { split; [done|]. intros Hg v Hv. cbn in *. apply bind_Some in Hv as (x & Hx & Hv). apply bind_Some in Hv as (y & Hy & Hv).
    by rewrite (Va Hg _ Hx), (Vb Hg _ Hy). }
  assert (∀ v, value (Cmp op a' b') = Some v → ∃ x y, value a' = Some x ∧ value b' = Some y ∧ v = truth (eval_cmp op x y)) as Hcmp.
  { intros v Hv. cbn in Hv. apply bind_Some in Hv as (x & Hx & Hv). apply bind_Some in Hv as (y & Hy & [= <-]). eauto. }
  destruct (TryConstFold_Cmp op a' b') as [r|] eqn:E.
  { injection H as <-. split; [by eapply cmp_fold_wf|]. intros Hg v (x & y & Hx & Hy & ->)%Hcmp. by eapply ideal_cmp. }
  destruct (IsIndexType _); [|injection H as <-; by apply step_refl].
  apply result_bind_ok in H as (d & [Wd Vd]%(sub_ok known other env) & H); [|done..]. apply result_bind_ok in H as (r & Hr & H).
  destruct (decided r) as [c|] eqn:Ed; [|by eapply rules_or_node; [done|done|exact Ht|exact H]].
  apply MakeConstScalar_inv in H as ->. split; [apply truth_in64|]. intros Hg v (x & y & Hx & Hy & ->)%Hcmp. cbn. f_equal. f_equal. symmetry.
  eapply Hd; [|exact Ed]. by eapply TryCompare_ok; [done|done|exact Wd|exact Hr|apply Vd].
Qed.

(** A comparison that is visited as another expression *)
Lemma visit_as depth s e e1 e' : vars_wf known s → step s e e1 → visit depth s e1 = Ok e' → step s e e'.
Proof. intros Hs H1 H2. eapply step_trans; [exact H1|]. eapply Hvisit; [done|apply H1|exact H2]. Qed.

Lemma compare_step s op op' a b c d neg e : wf c = true → wf d = true → compare op' c d = Ok e →
  (∀ v, value (Cmp op a b) = Some v → ∃ x y, value c = Some x ∧ value d = Some y ∧ v = truth (xorb neg (eval_cmp op' x y))) →
  (neg = false → step s (Cmp op a b) e) ∧ (neg = true → ∀ n, MakeNot e = Ok n → step s (Cmp op a b) n).
Proof.
  intros Wc Wd [We Ve]%(compare_ok known other env) Hv; [|done..]. split; intros ->.
  - split; [done|]. intros _ v (x & y & Hx & Hy & ->)%Hv. rewrite (Ve x y Hx Hy). by destruct (eval_cmp op' x y).
  - intros n Hn. pose proof (MakeNot_wf known e n We Hn) as Wn. apply result_bind_ok in Hn as ([] & _ & [= <-]). split; [done|].
    intros _ v (x & y & Hx & Hy & ->)%Hv. cbn [ival]. rewrite (Ve x y Hx Hy). cbn [mbind option_bind]. by rewrite as_bool_truth.
Qed.

Lemma visit_cmp_ok depth s op a b e : vars_wf known s → wf a = true → wf b = true →
  visit_cmp same_as fires bound modular visit depth s op a b = Ok e → step s (Cmp op a b) e.
Proof.
  intros Hs Ha Hb H.
  assert (∀ v, value (Cmp op a b) = Some v → ∃ x y, value a = Some x ∧ value b = Some y ∧ v = truth (eval_cmp op x y)) as Hcmp.
  { intros v Hv. cbn in Hv. apply bind_Some in Hv as (x & Hx & Hv). apply bind_Some in Hv as (y & Hy & [= <-]). eauto. }
  assert (∀ r x y, compared r (x - y) 0 → match r with kEQ => x = y | kGT => y < x | kGE => y ≤ x | kLT => x < y | kLE => x ≤ y | kNE => x ≠ y | _ => True end) as Hc
    by (intros [] x y; cbn; lia).
  destruct op; cbn [visit_cmp] in H.
  - eapply visit_compare_ok; [done..|exact eq_sound| |exact H].
    intros [] x y c Hr%Hc [= <-]; cbn; first [by apply Z.eqb_eq|apply Z.eqb_neq; lia].
  - apply result_bind_ok in H as (e1 & H1 & H). apply result_bind_ok in H as (n & Hn & H). eapply visit_as; [done| |exact H].
    edestruct (compare_step s NE EQ a b a b true) as [_ Hstep]; [| |exact H1| |by eapply Hstep]; [done..|].
    intros v (x & y & Hx & Hy & ->)%Hcmp. exists x, y. by destruct (x =? y).
  - eapply visit_compare_ok; [done..|exact lt_sound| |exact H].
    intros [] x y c Hr%Hc [= <-]; cbn; first [apply Z.ltb_lt; lia|apply Z.ltb_ge; lia].
  - apply result_bind_ok in H as (e1 & H1 & H). apply result_bind_ok in H as (n & Hn & H). eapply visit_as; [done| |exact H].
    edestruct (compare_step s LE LT a b b a true) as [_ Hstep]; [| |exact H1| |by eapply Hstep]; [done..|].
    intros v (x & y & Hx & Hy & ->)%Hcmp. exists y, x. cbn. by rewrite Z.leb_antisym.
  - apply result_bind_ok in H as (e1 & H1 & H). eapply visit_as; [done| |exact H].
    edestruct (compare_step s GT LT a b b a false) as [Hstep _]; [| |exact H1| |by eapply Hstep]; [done..|].
    intros v (x & y & Hx & Hy & ->)%Hcmp. exists y, x. cbn. by destruct (y <? x).
  - apply result_bind_ok in H as (e1 & H1 & H). apply result_bind_ok in H as (n & Hn & H). eapply visit_as; [done| |exact H].
    edestruct (compare_step s GE LT a b a b true) as [_ Hstep]; [| |exact H1| |by eapply Hstep]; [done..|].
    intros v (x & y & Hx & Hy & ->)%Hcmp. exists x, y. cbn. by rewrite Z.leb_antisym.
Qed.

(** *** Logical operators *)

Lemma bools_inv a b f v :
  (x ← value a; y ← value b; p ← as_bool x; q ← as_bool y; Some (truth (f p q))) = Some v →
  ∃ p q, value a = Some (truth p) ∧ value b = Some (truth q) ∧ v = truth (f p q).
Proof.
  intros (x & Hx & (y & Hy & (p & Hp%as_bool_inv & (q & Hq%as_bool_inv & [= <-])%bind_Some)%bind_Some)%bind_Some)%bind_Some.
  subst. eauto.
Qed.

Lemma visit_and_ok depth s a b e : vars_wf known s → wf a = true → wf b = true →
  visit_and same_as fires bound modular visit depth s a b = Ok e → step s (And a b) e.
Proof.
  intros Hs Ha Hb H. unfold visit_and in H. apply result_bind_ok in H as (a' & Ha' & H). apply result_bind_ok in H as (b' & Hb' & H).
  destruct (operands_ok _ _ _ _ _ _ Hs Ha Hb Ha' Hb') as [[Wa Va] [Wb Vb]].
  apply result_bind_ok in H as (ret & Hret & H). pose proof (MakeAnd_wf known a' b' ret Wa Wb Hret) as Wret.
  apply result_bind_ok in Hret as ([] & _ & Hret). apply result_bind_ok in Hret as ([] & _ & [= <-]).
  apply (step_trans s _ (And a' b')).
  { split; [done|]. intros Hg v (p & q & Hp & Hq & ->)%bools_inv. cbn. rewrite (Va Hg _ Hp), (Vb Hg _ Hq). cbn. by rewrite !as_bool_truth. }
  destruct (TryConstFold_And a' b') as [r|] eqn:E; [|by eapply rules_or_node; [done|done|exact and_sound|exact H]].
  injection H as <-. split; [by apply (and_fold_wf known a' b')|]. intros _ v (p & q & Hp & Hq & ->)%bools_inv. by eapply ideal_and.
Qed.

Lemma visit_or_ok depth s a b e : vars_wf known s → wf a = true → wf b = true →
  visit_or same_as fires bound modular visit depth s a b = Ok e → step s (Or a b) e.
Proof.
  intros Hs Ha Hb H. unfold visit_or in H. apply result_bind_ok in H as (a' & Ha' & H). apply result_bind_ok in H as (b' & Hb' & H).
  destruct (operands_ok _ _ _ _ _ _ Hs Ha Hb Ha' Hb') as [[Wa Va] [Wb Vb]].
  apply result_bind_ok in H as (ret & Hret & H). pose proof (MakeOr_wf known a' b' ret Wa Wb Hret) as Wret.
  apply result_bind_ok in Hret as ([] & _ & Hret). apply result_bind_ok in Hret as ([] & _ & [= <-]).
  apply (step_trans s _ (Or a' b')).
  { split; [done|]. intros Hg v (p & q & Hp & Hq & ->)%bools_inv. cbn. rewrite (Va Hg _ Hp), (Vb Hg _ Hq). cbn. by rewrite !as_bool_truth. }
  destruct (TryConstFold_Or a' b') as [r|] eqn:E; [|by eapply rules_or_node; [done|done|exact or_sound|exact H]].
  injection H as <-. split; [by apply (or_fold_wf known a' b')|]. intros _ v (p & q & Hp & Hq & ->)%bools_inv. by eapply ideal_or.
Qed.

Lemma not_inv a v : value (Not a) = Some v → ∃ p, value a = Some (truth p) ∧ v = truth (negb p).
Proof. intros (x & Hx & (p & Hp%as_bool_inv & [= <-])%bind_Some)%bind_Some. subst. eauto. Qed.

Lemma not_value a p : value a = Some (truth p) → value (Not a) = Some (truth (negb p)).
Proof. intros H. cbn. rewrite H. cbn. by rewrite as_bool_truth. Qed.

Lemma visit_not_ok depth s a e : vars_wf known s → wf a = true →
  visit_not same_as fires bound modular visit depth s a = Ok e → step s (Not a) e.
Proof.
  intros Hs Ha H. unfold visit_not in H. apply result_bind_ok in H as (a' & [Wa Va]%Hvisit & H); [|done..].
  apply result_bind_ok in H as (ret & Hret & H). pose proof (MakeNot_wf known a' ret Wa Hret) as Wret.
  apply result_bind_ok in Hret as ([] & _ & [= <-]). apply (step_trans s _ (Not a')).
  { split; [done|]. intros Hg v (p & Hp & ->)%not_inv. by apply not_value, Va. }
  destruct (TryConstFold_Not a') as [r|] eqn:E; [|by eapply rules_or_node; [done|done|exact not_sound|exact H]].
  injection H as <-. split; [by eapply not_fold_wf|]. intros _ v (p & Hp & ->)%not_inv. by eapply ideal_not.
Qed.

(** *** Selections *)

Lemma enter_ok depth s c s' : vars_wf known s → wf c = true → enter visit depth s c = Ok s' →
  vars_wf known s' ∧ (good s → value c = Some 1 → good s').
Proof.
  intros Hs Hc H. unfold enter in H. destruct (EnterConstraint c (s_bound s)) as [[n|] b] eqn:Eb; [|done].
  destruct (MS.EnterConstraint c (s_modular s)) as [[r|] m] eqn:Em; [|done].
  apply result_bind_ok in H as (l & _ & [= <-]). split; [exact Hs|]. intros Hg Hv. by eapply enter_sound.
Qed.

Lemma mutate_select_ok depth s c t f e : vars_wf known s → wf c = true → wf t = true → wf f = true →
  mutate_select same_as visit depth s c t f = Ok e → step s (Select c t f) e.
Proof.
  intros Hs Hc Ht Hf H. unfold mutate_select in H. apply result_bind_ok in H as (c' & [Wc Vc]%Hvisit & H); [|done..].
  apply result_bind_ok in H as (s1 & [Hs1 Hg1]%enter_ok & H); [|done..]. apply result_bind_ok in H as (t' & [Wt Vt]%Hvisit & H); [|done..].
  apply result_bind_ok in H as (n & Hn & H). pose proof (MakeNot_wf known c' n Wc Hn) as Wn. apply result_bind_ok in Hn as ([] & _ & [= <-]).
  apply result_bind_ok in H as (nc & [Wnc Vnc]%rewrite_simplify_ok & H); [|done..].
  apply result_bind_ok in H as (s2 & [Hs2 Hg2]%enter_ok & H); [|done..]. apply result_bind_ok in H as (f' & [Wf Vf]%Hvisit & H); [|done..].
  assert (good s → ∀ v, value (Select c t f) = Some v → ∃ p, value c' = Some (truth p) ∧ (if p : bool then value t' else value f') = Some v) as Hsel.
  { intros Hg v (x & Hx & (p & Hp%as_bool_inv & Hv)%bind_Some)%bind_Some. subst x. exists p.
    pose proof (Vc Hg _ Hx) as Hc'. split; [done|]. destruct p; [by apply Vt; [apply Hg1|]|].
    apply Vf; [|done]. apply Hg2; [done|]. apply Vnc; [done|]. by apply (not_value c' false). }
  assert (∀ w p, as_imm c' = Some w → value c' = Some (truth p) → w = truth p) as Himm.
  { intros w p Hw%(as_imm_ival other env). congruence. }
  case_bool_decide as E0; [injection H as <-; split; [done|]; intros Hg v (p & Hp & Hv)%Hsel; [|done]; by destruct p; [discriminate (Himm _ _ E0 Hp)|]|].
  case_bool_decide as E1; [injection H as <-; split; [done|]; intros Hg v (p & Hp & Hv)%Hsel; [|done]; by destruct p; [|discriminate (Himm _ _ E1 Hp)]|].
  split; [by eapply (MakeSelect_wf known c' t' f')|]. intros Hg v (p & Hp & Hv)%Hsel; [|done].
  apply result_bind_ok in H as ([] & _ & H). apply result_bind_ok in H as ([] & _ & [= <-]). cbn. rewrite Hp. cbn. by rewrite as_bool_truth.
Qed.

Lemma visit_select_ok depth s c t f e : vars_wf known s → wf c = true → wf t = true → wf f = true →
  visit_select same_as fires bound modular visit depth s c t f = Ok e → step s (Select c t f) e.
Proof.
  intros Hs Hc Ht Hf H. unfold visit_select in H. apply result_bind_ok in H as (ret & Hret%mutate_select_ok & H); [|done..].
  eapply step_trans; [exact Hret|]. destruct Hret as [Wret _].
  destruct ret; try (injection H as <-; by apply step_refl). by eapply rules_or_node; [done|done|exact select_sound|exact H].
Qed.

Lemma visit_shift_ok depth s a b e : vars_wf known s → wf a = true → wf b = true →
  visit_shift visit depth s a b = Ok e → step s (ShiftRight a b) e.
Proof.
  intros Hs Ha Hb H. unfold visit_shift in H. apply result_bind_ok in H as (a' & Ha' & H). apply result_bind_ok in H as (b' & Hb' & H).
  destruct (operands_ok _ _ _ _ _ _ Hs Ha Hb Ha' Hb') as [[Wa Va] [Wb Vb]]. apply (step_trans s _ (ShiftRight a' b')).
  { split; [cbn; by rewrite Wa, Wb|]. intros Hg v (x & Hx & (y & Hy & Hv)%bind_Some)%bind_Some. cbn. by rewrite (Va Hg _ Hx), (Vb Hg _ Hy). }
  destruct (as_imm a'), (as_imm b'); try (injection H as <-; apply step_refl; cbn; by rewrite Wa, Wb).
  apply step_keeps. by apply right_shift_keeps.
Qed.

Lemma visit_node_ok : visit_ok (visit_node same_as fires bound modular visit).
Proof.
  intros depth s e e' Hs He H. destruct e; cbn [visit_node well_formed] in *; bool_to_prop.
  - injection H as <-. by apply step_refl.
  - injection H as <-. destruct (s_var_map s !! v_id v) as [e|] eqn:E; cbn [default from_option].
    + split; [by eapply Hs|]. intros Hg w [= <-]. by eapply var_map_sound.
    + apply step_refl. cbn. by apply bool_decide_eq_true.
  - by apply visit_bin_ok in H.
  - by apply visit_cmp_ok in H.
  - by apply visit_and_ok in H.
  - by apply visit_or_ok in H.
  - by apply visit_not_ok in H.
  - by apply visit_select_ok in H.
  - apply result_bind_ok in H as (a & Ha%Hvisit & H); [|done..]. apply (step_trans s _ (Cast dt a)); [exact Ha|].
    apply step_keeps. destruct (cast_keeps known other env dt a e' (proj1 Ha) H) as [W V]. by split.
  - done.
  - by apply visit_shift_ok in H.
  - apply result_bind_ok in H as (a' & [Wa Va]%Hvisit & H); [|done..]. apply result_bind_ok in H as (b' & [Wb Vb]%Hvisit & [= <-]); [|done..].
    split; [cbn; by rewrite Wa, Wb|]. intros Hg v (x & Hx & (y & Hy & Hv)%bind_Some)%bind_Some. cbn. by rewrite (Va Hg _ Hx), (Vb Hg _ Hy).
  - injection H as <-. by apply step_refl.
Qed.
End visitor.

(** ** The simplifier *)

Lemma Visit_ok known other env good same_as fires bound modular `{!SoundAnalyzers known other env good bound modular} :
  (∀ a b, same_as a b = true → a = b) → (∀ line, fires line = Ok tt → good_line line = true) →
  ∀ fuel, visit_ok known other env good (Visit same_as fires bound modular fuel).
Proof.
  intros Hsame Hen fuel. induction fuel as [|fuel IH]; [intros depth s e e' _ _ [=]|]. cbn [Visit]. by apply visit_node_ok.
Qed.

Lemma Simplify_ok known other env good same_as fires bound modular `{!SoundAnalyzers known other env good bound modular} fuel s e e' :
  (∀ a b, same_as a b = true → a = b) → (∀ line, fires line = Ok tt → good_line line = true) →
  vars_wf known s → well_formed known e = true → Simplify same_as fires bound modular fuel s e = Ok e' →
  step known other env good s e e'.
Proof. intros Hsame Hen Hs He H. eapply rewrite_simplify_ok; [|done|done|exact H]. by apply Visit_ok. Qed.
