(* ===== verification/AnalyzerSound.v ===== *)
(** * Soundness of the analyzer

    The constant bounds, the modular sets and the rewriting simplifier together. The bounds and the
    sets are right for expressions whose operations do not overflow, while the simplifier asks them
    about expressions it made up itself. So the simplifier is run with analyzers that are watched in
    an environment: they fail when they are asked about an expression that overflows there. A run
    that is watched and succeeds is a run of the program, and keeps the value. *)

From S2P Require Import Prelude Int64 TIR ConstIntBound ConstIntBoundSound ModularSet ModularSetSound ConstFold PatternMatch.
From S2P Require Import RewriteRules RewriteRulesSound RewriteSimplify RewriteSimplifySound.

(** ** Runs that agree *)

(** The second run succeeds with the same result if the first one succeeds. *)
Definition refines {A} (r r' : result A) : Prop := ∀ x, r = Ok x → r' = Ok x.

Lemma refines_refl {A} (r : result A) : refines r r.
Proof. by intros x. Qed.

Lemma refines_raise {A} err (r : result A) : refines (Raise err) r.
Proof. by intros x [=]. Qed.

Lemma refines_bind {A B} (r r' : result A) (f f' : A → result B) :
  refines r r' → (∀ x, refines (f x) (f' x)) → refines (r ≫= f) (r' ≫= f').
Proof. intros Hr Hf y (x & Hx & Hy)%result_bind_ok. rewrite (Hr x Hx). by apply Hf. Qed.

Lemma refines_fmap {A B} (r r' : result A) (f : A → B) : refines r r' → refines (f <$> r) (f <$> r').
Proof. intros Hr y Hy. destruct r as [x|] eqn:E; [|done]. by rewrite (Hr x eq_refl). Qed.

Create HintDb refines.
#[export] Hint Resolve refines_raise refines_fmap : refines.
#[export] Hint Extern 0 (refines ?r ?r) => apply refines_refl : refines.

(** Runs of the same shape agree if their calls do. *)
Ltac runs :=
  repeat first
    [ solve [eauto 3 with refines]
    | apply refines_bind; [|intros ?]
    | match goal with |- refines (match ?x with _ => _ end) _ => destruct x end ].

Lemma MS_runs can_prove can_prove' e : (∀ a n, refines (can_prove a n) (can_prove' a n)) →
  ∀ m, refines (MS.VisitExpr can_prove m e) (MS.VisitExpr can_prove' m e).
Proof.
  intros Hp. induction e; intros m; cbn [MS.VisitExpr]; unfold MS.DivByConst; runs.
Qed.

Section runs.
Context (same_as : PrimExpr → PrimExpr → bool) (fires fires' : Z → result unit).
Context (bound bound' : State → PrimExpr → result Entry).
Context (modular modular' : (PrimExpr → Z → result bool) → State → PrimExpr → result MS.Entry).
Context (Hfires : ∀ line, refines (fires line) (fires' line)).
Context (Hbound : ∀ s e, refines (bound s e) (bound' s e)).
Context (Hmodular : ∀ p p' s e, (∀ a n, refines (p a n) (p' a n)) → refines (modular p s e) (modular' p' s e)).

Section visitor.
Context (visit visit' : nat → State → PrimExpr → result PrimExpr).
Context (Hvisit : ∀ depth s e, refines (visit depth s e) (visit' depth s e)).
#[local] Hint Resolve Hfires Hbound Hmodular Hvisit : refines.

Lemma rewrite_simplify_runs depth s e : refines (rewrite_simplify same_as visit depth s e) (rewrite_simplify same_as visit' depth s e).
Proof. unfold rewrite_simplify. runs. Qed.
#[local] Hint Resolve rewrite_simplify_runs : refines.

Lemma can_prove_runs depth s a n : refines (can_prove_ge same_as bound visit depth s a n) (can_prove_ge same_as bound' visit' depth s a n).
Proof. unfold can_prove_ge, MS.CanProveGreaterEqual. runs. Qed.
#[local] Hint Resolve can_prove_runs : refines.

Lemma TryCompare_runs depth s x val :
  refines (TryCompare same_as bound modular visit depth s x val) (TryCompare same_as bound' modular' visit' depth s x val).
Proof. unfold TryCompare. runs. Qed.
#[local] Hint Resolve TryCompare_runs : refines.

Lemma enter_runs depth s c : refines (enter visit depth s c) (enter visit' depth s c).
Proof. unfold enter. runs. Qed.
#[local] Hint Resolve enter_runs : refines.

Lemma check_runs depth s f c :
  refines (check same_as bound modular visit depth s f c) (check same_as bound' modular' visit' depth s f c).
Proof. induction c; cbn [check]; runs. Qed.
#[local] Hint Resolve check_runs : refines.

Lemma RecursiveRewrite_runs depth s x : refines (RecursiveRewrite visit depth s x) (RecursiveRewrite visit' depth s x).
Proof. unfold RecursiveRewrite. runs. Qed.
#[local] Hint Resolve RecursiveRewrite_runs : refines.

Lemma try_rules_runs depth s rules ret :
  refines (try_rules same_as fires bound modular visit depth s rules ret) (try_rules same_as fires' bound' modular' visit' depth s rules ret).
Proof. induction rules; cbn [try_rules]; runs. Qed.
#[local] Hint Resolve try_rules_runs : refines.

Lemma index_rules_runs depth s rules t ret :
  refines (index_rules same_as fires bound modular visit depth s rules t ret) (index_rules same_as fires' bound' modular' visit' depth s rules t ret).
Proof. unfold index_rules. runs. Qed.
#[local] Hint Resolve index_rules_runs : refines.

Lemma or_else_runs r r' next next' : refines r r' → refines next next' → refines (or_else r next) (or_else r' next').
Proof. unfold or_else. intros. runs. Qed.
#[local] Hint Resolve or_else_runs : refines.

Lemma modular_rule_runs op nonneg nonneg' depth s ret : (∀ x, refines (nonneg x) (nonneg' x)) →
  refines (modular_rule same_as bound modular visit op nonneg depth s ret) (modular_rule same_as bound' modular' visit' op nonneg' depth s ret).
Proof. intros. unfold modular_rule. runs. Qed.
#[local] Hint Resolve modular_rule_runs : refines.

Lemma rewrite_bin_runs depth s op a b ret :
  refines (rewrite_bin same_as fires bound modular visit depth s op a b ret) (rewrite_bin same_as fires' bound' modular' visit' depth s op a b ret).
Proof. destruct op; cbn [rewrite_bin]; runs; apply or_else_runs; runs. Qed.
#[local] Hint Resolve rewrite_bin_runs : refines.

Lemma visit_cmp_runs depth s op a b :
  refines (visit_cmp same_as fires bound modular visit depth s op a b) (visit_cmp same_as fires' bound' modular' visit' depth s op a b).
Proof. destruct op; cbn [visit_cmp]; unfold visit_compare; runs. Qed.
#[local] Hint Resolve visit_cmp_runs : refines.

Lemma visit_select_runs depth s c t f :
  refines (visit_select same_as fires bound modular visit depth s c t f) (visit_select same_as fires' bound' modular' visit' depth s c t f).
Proof. unfold visit_select, mutate_select. runs. Qed.
#[local] Hint Resolve visit_select_runs : refines.

Lemma visit_node_runs depth s e :
  refines (visit_node same_as fires bound modular visit depth s e) (visit_node same_as fires' bound' modular' visit' depth s e).
Proof. destruct e; cbn [visit_node]; unfold visit_bin, visit_and, visit_or, visit_not, visit_shift; runs. Qed.
End visitor.

Lemma Visit_runs n m : (n ≤ m)%nat → ∀ depth s e,
  refines (Visit same_as fires bound modular n depth s e) (Visit same_as fires' bound' modular' m depth s e).
Proof.
  revert m. induction n as [|n IH]; intros m Hn; [intros; apply refines_raise|]. destruct m as [|m]; [lia|].
  cbn [Visit]. apply visit_node_runs. apply IH. lia.
Qed.

Lemma Simplify_runs n m s e : (n ≤ m)%nat →
  refines (Simplify same_as fires bound modular n s e) (Simplify same_as fires' bound' modular' m s e).
Proof. intros. unfold Simplify. by apply rewrite_simplify_runs, Visit_runs. Qed.

Lemma SimplifyModular_runs n m s e : (n ≤ m)%nat →
  refines (SimplifyModular same_as fires bound modular n s e) (SimplifyModular same_as fires' bound' modular' m s e).
Proof. intros. unfold SimplifyModular. apply Hmodular. intros a k. by apply can_prove_runs, Visit_runs. Qed.
End runs.

(** ** Modular sets are reduced *)

(** The base is a remainder. *)
Definition reduced (e : MS.Entry) : Prop := MS.coeff e = 0 ∨ 0 ≤ MS.base e < MS.coeff e.
Definition reduced_map (m : gmap nat MS.Entry) : Prop := ∀ i e, m !! i = Some e → reduced e.

Lemma MakeEntry_reduced c b e : MS.MakeEntry c b = Ok e → reduced e.
Proof.
  unfold MS.MakeEntry, reduced. intros (? & H0%py_assert_ok%Z.leb_le & H)%result_bind_ok.
  destruct (Z.eqb_spec c 0); [injection H as <-; by left|]. apply result_bind_ok in H as (r & Hr & H).
  apply rem64_divides in Hr as (_ & -> & _). pose proof (Z.rem_bound_abs b c ltac:(done)).
  apply result_bind_ok in H as (r & Hr & [= <-]). right. cbn. destruct (Z.ltb_spec (Z.rem b c) 0); inv64; simplify_eq; lia.
Qed.

(** The run ends with [MakeEntry]. *)
Ltac to_entry H := repeat first [exact (MakeEntry_reduced _ _ _ H)|apply result_bind_ok in H as (? & _ & H)].

Lemma Everything_reduced : reduced MS.Everything.
Proof. right. cbn. lia. Qed.

Lemma Union_reduced a b e : reduced a → MS.Union a b = Ok e → reduced e.
Proof.
  unfold MS.Union. intros Ha (c & _ & H)%result_bind_ok. destruct (c =? 0).
  { injection H as <-. destruct (_ =? _); [done|apply Everything_reduced]. }
  apply result_bind_ok in H as (? & _ & H). apply result_bind_ok in H as (? & _ & H).
  destruct (_ =? _); [by eapply MakeEntry_reduced|]. apply result_bind_ok in H as (? & _ & H).
  apply result_bind_ok in H as (? & _ & H). by eapply MakeEntry_reduced.
Qed.

Lemma DivByConst_reduced a val rd nonneg e : MS.DivByConst a val rd nonneg = Ok e → reduced e.
Proof.
  unfold MS.DivByConst. intros H. repeat (apply result_bind_ok in H as (? & _ & H)). destruct (_ =? _); [|injection H as <-; apply Everything_reduced].
  destruct (_ =? _); [by to_entry H|].
  destruct (_ && _); [|injection H as <-; apply Everything_reduced]. apply result_bind_ok in H as ([|] & _ & H); [|injection H as <-; apply Everything_reduced].
  by to_entry H.
Qed.

Lemma VisitExpr_reduced can_prove e : ∀ m en, reduced_map m → MS.VisitExpr can_prove m e = Ok en → reduced en.
Proof.
  induction e as [|v|op a IH1 b IH2|? a IH1 b IH2|a IH1 b IH2|a IH1 b IH2|a IH|c IH1 t IH2 f IH3|dt a IH|var x IH1 body IH2
    |a IH1 b IH2|a IH1 b IH2|]; intros m en Hm H; cbn [MS.VisitExpr] in H; try (injection H as <-; apply Everything_reduced).
  - by eapply MakeEntry_reduced.
  - injection H as <-. destruct (m !! v_id v) eqn:E; [by eapply Hm|apply Everything_reduced].
  - destruct op; try (injection H as <-; apply Everything_reduced); apply result_bind_ok in H as (ex & Hex & H);
      try (destruct (MS.is_const ex); [|injection H as <-; apply Everything_reduced]); apply result_bind_ok in H as (ey & Hey & H).
    1-3: unfold MS.modular_add, MS.modular_sub, MS.modular_mul in H; by to_entry H.
    1-2: by eapply DivByConst_reduced.
    all: eapply Union_reduced; [|exact H]; by eapply IH1.
  - apply result_bind_ok in H as (ex & Hex & H). apply result_bind_ok in H as (ey & Hey & H).
    eapply Union_reduced; [|exact H]. by eapply IH2.
  - by eapply IH.
  - destruct (m !! v_id var); [by eapply IH2|]. apply result_bind_ok in H as (ex & Hex & H). eapply IH2; [|exact H].
    intros i en'. destruct (decide (i = v_id var)) as [->|]; [rewrite lookup_insert_eq; intros [= <-]; by eapply IH1|].
    rewrite lookup_insert_ne by done. apply Hm.
  - apply result_bind_ok in H as (ex & Hex & H). destruct (MS.is_const ex); [|injection H as <-; apply Everything_reduced].
    apply result_bind_ok in H as (? & _ & H). apply result_bind_ok in H as (? & _ & H). by eapply DivByConst_reduced.
Qed.

Lemma reduced_insert m i e : reduced_map m → reduced e → reduced_map (<[i := e]> m).
Proof.
  intros Hm He j ej. destruct (decide (j = i)) as [->|]; [rewrite lookup_insert_eq; by intros [= <-]|].
  rewrite lookup_insert_ne by done. apply Hm.
Qed.

Lemma Intersect_reduced a b e : MS.Intersect a b = Ok e → reduced e.
Proof.
  unfold MS.Intersect. intros (([? ?] & ?) & _ & H)%result_bind_ok. do 2 apply result_bind_ok in H as (? & _ & H).
  destruct (_ =? _); [|injection H as <-; by left]. by to_entry H.
Qed.

Lemma enter_reduced c m r m' : reduced_map m → MS.EnterConstraint c m = (Ok r, m') → reduced_map m'.
Proof.
  intros Hm [[_ ->]|(var & k & b & entry & old & _ & _ & _ & Hu)]%EnterConstraint_inv; [done|].
  apply UpdateByIntersect_inv in Hu as [_ (e & He%Intersect_reduced & ->)]. by apply reduced_insert.
Qed.

Lemma told_reduced other env known m : told other env known m → reduced_map m.
Proof.
  induction 1 as [|m m' var info allow _ IH _ _ H|m m' c x r _ IH _ _ _ H|m0 m1 m m' c var old _ IH0 _ H0 _ IH H].
  - by intros i e [=].
  - unfold MS.Update in H. apply M_bind_inv in H as (m0 & s1 & [= <- <-] & H).
    apply M_bind_inv in H as (? & s1 & [_ ->]%lift_inv & H). apply M_bind_inv in H as (e & s1 & [He ->]%lift_inv & [= <-]).
    apply reduced_insert; [done|by eapply MakeEntry_reduced].
  - by eapply enter_reduced.
  - apply EnterConstraint_inv in H0 as [[? _]|(var' & k & b & entry & old' & [= -> ->] & _ & _ & Hu)]; [done|].
    apply UpdateByIntersect_inv in Hu as [-> _]. injection H as <-. apply reduced_insert; [done|].
    destruct (m0 !! _) eqn:E; [by eapply IH0|apply Everything_reduced].
Qed.

(** ** Well-formed expressions *)

Lemma well_formed_typed known e : well_formed known e = true → typed e = true.
Proof. induction e; cbn [well_formed typed]; intros; bool_to_prop; rewrite ?andb_true_iff, ?bool_decide_eq_true; try done; split_and?; auto. Qed.

Lemma well_formed_scoped known e : well_formed known e = true → scoped known e = true.
Proof. induction e; cbn [well_formed scoped]; intros; bool_to_prop; rewrite ?andb_true_iff; try done; split_and?; auto. Qed.

Lemma well_formed_vars known e : well_formed known e = true → ∀ i, i ∈ vars e → i ∈ known.
Proof. induction e; cbn [well_formed vars]; intros; bool_to_prop; set_solver. Qed.

Lemma dividends_wf known e : well_formed known e = true → Forall (λ a, well_formed known a = true) (dividends e).
Proof.
  intros He0. apply Forall_forall. intros a. revert He0. induction e as [| |op| | | | | | | | | |]; cbn [well_formed dividends]; intros He Ha; bool_to_prop; try (by apply not_elem_of_nil in Ha);
    rewrite ?elem_of_app in Ha; try (destruct_or?; by auto); try (by auto).
  destruct Ha as [Ha|[Ha|Ha]]; [|by auto..]. destruct op; try (by apply not_elem_of_nil in Ha). by apply list_elem_of_singleton in Ha as ->.
Qed.

(** ** The watched analyzers *)

Section watched.
Context (other env : nat → Z).

(** Whether the value of the expression, if it has one, is reached without overflow *)
Definition no_overflow (e : PrimExpr) : bool :=
  match ival other env e with Some v => bool_decide (eval other env e = Some v) | None => true end.

Definition watched_bound (s : State) (e : PrimExpr) : result Entry :=
  if no_overflow e then analyzer_bound s e else Raise OverflowError.
Definition watched_modular (can_prove : PrimExpr → Z → result bool) (s : State) (e : PrimExpr) : result MS.Entry :=
  if no_overflow e then analyzer_modular can_prove s e else Raise OverflowError.

Lemma no_overflow_eval e v : no_overflow e = true → ival other env e = Some v → eval other env e = Some v.
Proof. unfold no_overflow. intros H Hv. rewrite Hv in H. by apply bool_decide_eq_true in H. Qed.

Context (known : list nat).

(** What the analyzer knows is true in the environment. *)
Record good (s : State) : Prop := {
  good_bound : consistent other env known (cb_infos (s_bound s)) (cb_map (s_bound s));
  good_modular : sound_map env known (s_modular s);
  good_reduced : reduced_map (s_modular s);
  good_vars : ∀ i e, s_var_map s !! i = Some e → ival other env e = Some (env i)
}.

Lemma in64_bounds z : in64 z = true → int64_min ≤ z ≤ int64_max.
Proof. unfold in64. intros [?%Z.leb_le ?%Z.leb_le]%andb_prop. done. Qed.

Lemma cmp_true op a b : ival other env (Cmp op a b) = Some 1 →
  ∃ x y, ival other env a = Some x ∧ ival other env b = Some y ∧ eval_cmp op x y = true.
Proof. intros (x & Hx & (y & Hy & [= H])%bind_Some)%bind_Some. exists x, y. by destruct (eval_cmp op x y). Qed.

(** A bound detected in a constraint that is true holds. *)
Lemma detected_true c : ∀ infos, well_formed known c = true → DetectBoundInfo c = Ok infos → ival other env c = Some 1 →
  ∀ e en u, (e, en) ∈ infos → well_formed known e = true ∧ (eval other env e = Some u → member en u).
Proof.
  induction c as [| |op a _ b _|op a _ b _|a IH1 b IH2|a IH1 b IH2|a IH|c IH1 t IH2 f IH3|dt a IH|var y IH1 body IH2
    |a IH1 b IH2|a IH1 b IH2|]; intros infos Hc H Hv e en u He; try (cbn in H; injection H as <-; by apply not_elem_of_nil in He).
  - cbn [well_formed] in Hc. bool_to_prop. apply cmp_true in Hv as (x & y & Hx & Hy & Hcmp).
    assert (∀ e' en', infos = [(e', en')] → well_formed known e' = true →
      (∀ w, ival other env e' = Some w → kNegInf < w < kPosInf → member en' w) →
      well_formed known e = true ∧ (eval other env e = Some u → member en u)) as Hone.
    { intros e' en' -> Hw Hm. apply list_elem_of_singleton in He as [= -> ->]. split; [done|]. intros Hev.
      apply Hm; [by apply eval_ival; [by eapply well_formed_typed|]|by eapply eval_range]. }
    assert (infos ≠ []) as Hne by (intros ->; by apply not_elem_of_nil in He).
    clear He. unfold DetectBoundInfo in H. repeat case_match; simplify_eq; try (injection H as <-); inv64; simplify_eq; cbn [eval_cmp well_formed ival] in *;
      repeat match goal with H : in64 _ = true |- _ => apply in64_bounds in H end; simplify_eq;
      try apply Z.leb_le in Hcmp; try apply Z.ltb_lt in Hcmp;
      (eapply Hone; [reflexivity|done|]; intros w Hw Hr; simplify_eq/=; apply MakeBound_member; infs).
  - cbn [DetectBoundInfo well_formed] in *. bool_to_prop. apply result_bind_ok in H as (r1 & Hr1 & H). apply result_bind_ok in H as (r2 & Hr2 & [= <-]).
    cbn [ival] in Hv. apply bind_Some in Hv as (x & Hx & (y & Hy & (p & Hp%as_bool_inv & (q & Hq%as_bool_inv & [= Hpq])%bind_Some)%bind_Some)%bind_Some).
    subst. destruct p, q; try done. apply elem_of_app in He as [He|He]; [by eapply IH1|by eapply IH2].
Qed.

(** So does the remainder of a variable. *)
Lemma remainder_true c var k b entry : remainder_constraint c var k b → well_formed known c = true → ival other env c = Some 1 →
  MS.MakeEntry k b = Ok entry → holds entry (env (v_id var)) ∧ v_id var ∈ known.
Proof.
  intros Hr Hc Hv He. destruct Hr; cbn [well_formed] in Hc; bool_to_prop;
    repeat match goal with H : in64 _ = true |- _ => apply in64_bounds in H end;
    (split; [|done]); apply cmp_true in Hv as (x & y & Hx & [= <-] & E%Z.eqb_eq); cbn in Hx;
    destruct (Z.eqb_spec c 0) as [|Hc0]; simplify_eq; (eapply constraint_holds; [exact Hc0| |done|lia|exact He]); auto.
Qed.

Lemma enter_modular c m r m' : sound_map env known m → well_formed known c = true → ival other env c = Some 1 →
  MS.EnterConstraint c m = (Ok r, m') → sound_map env known m'.
Proof.
  intros Hm Hc Hv [[_ ->]|(var & k & b & entry & old & _ & Hr & He & Hu)]%EnterConstraint_inv; [done|].
  apply UpdateByIntersect_inv in Hu as [-> (e & Hu & ->)]. destruct (remainder_true _ _ _ _ _ Hr Hc Hv He) as [Hen Hk].
  apply sound_map_insert; [done|done|]. by eapply intersect_holds; [exact Hu|eapply default_holds|].
Qed.

Lemma enter_bound c s n s' : consistent other env known (cb_infos s) (cb_map s) → well_formed known c = true → ival other env c = Some 1 →
  EnterConstraint c s = (Ok n, s') → consistent other env known (cb_infos s') (cb_map s').
Proof.
  intros [Hm Hi] Hc Hv H. unfold EnterConstraint in H. apply M_bind_inv in H as (info & s1 & [Ei ->]%lift_inv & H).
  apply M_bind_inv in H as (s0 & s1 & [= <- <-] & H). injection H as _ <-. cbn. split; [done|].
  intros e en [He|He]%elem_of_app; [by apply Hi|]. split; [|intros v; by apply (detected_true c info Hc Ei Hv)].
  apply well_formed_vars. by apply (detected_true c info Hc Ei Hv e en 0).
Qed.

(** What can be proved of the expressions the sets ask about *)
Lemma dividends_proved can_prove e :
  (∀ a n u, well_formed known a = true → can_prove a n = Ok true → ival other env a = Some u → n ≤ u) →
  Forall (λ a, well_formed known a = true) (dividends e) → Forall (proves can_prove other env known) (dividends e).
Proof.
  intros Hp Hd. eapply Forall_impl; [exact Hd|]. intros a Ha env' u Henv Hu Hok. cbv beta in Ha.
  apply (Hp a 0 u Ha Hok). apply eval_ival; [by eapply well_formed_typed|]. rewrite <- Hu. apply eval_agree.
  intros i Hi. symmetry. apply Henv. by eapply well_formed_vars.
Qed.

#[export] Instance watched_sound : SoundAnalyzers known other env good watched_bound watched_modular.
Proof.
  split.
  - intros s e en v Hg He H Hv. unfold watched_bound in H. destruct (no_overflow e) eqn:E; [|done].
    destruct (VisitExpr_member _ _ _ _ _ _ _ _ (good_bound s Hg) (well_formed_scoped _ _ He) H (no_overflow_eval _ _ E Hv)). lia.
  - intros s can_prove e en v Hg Hp He H Hv. unfold watched_modular in H. destruct (no_overflow e) eqn:E; [|done].
    split; [|by eapply VisitExpr_reduced, H; apply good_reduced].
    apply (VisitExpr_holds can_prove other e env known (s_modular s) en v);
      [by apply good_modular|by apply dividends_proved, dividends_wf|by apply well_formed_scoped|done|by apply no_overflow_eval].
  - intros s c n b r m literals [Hb Hm Hr Hvars] Hc Hv Eb Em.
    split; cbn; [by eapply enter_bound|by eapply enter_modular|by eapply enter_reduced|done].
  - intros s i e Hg. by apply good_vars.
Qed.

Lemma watched_bound_runs s e : refines (watched_bound s e) (analyzer_bound s e).
Proof. unfold watched_bound. destruct (no_overflow e); [apply refines_refl|apply refines_raise]. Qed.

Lemma watched_modular_runs p p' s e : (∀ a n, refines (p a n) (p' a n)) → refines (watched_modular p s e) (analyzer_modular p' s e).
Proof. unfold watched_modular. intros. destruct (no_overflow e); [by apply MS_runs|apply refines_raise]. Qed.

(** The faulty rules are watched as well. *)
Definition watched_fires (line : Z) : result unit := if good_line line then Ok tt else Raise AssertionError.

Definition watched_simplify (same_as : PrimExpr → PrimExpr → bool) : nat → State → PrimExpr → result PrimExpr :=
  Simplify same_as watched_fires watched_bound watched_modular.
Definition watched_set (same_as : PrimExpr → PrimExpr → bool) : nat → State → PrimExpr → result MS.Entry :=
  SimplifyModular same_as watched_fires watched_bound watched_modular.

Lemma watched_fires_runs line : refines (watched_fires line) (unwatched line).
Proof. unfold watched_fires. destruct (good_line line); [apply refines_refl|apply refines_raise]. Qed.

Lemma watched_simplify_runs same_as n m s e : (n ≤ m)%nat → refines (watched_simplify same_as n s e) (analyzer_simplify same_as m s e).
Proof.
  intros. unfold watched_simplify, analyzer_simplify.
  apply Simplify_runs; [apply watched_fires_runs|apply watched_bound_runs|apply watched_modular_runs|done].
Qed.

Lemma watched_set_runs same_as n m s e : (n ≤ m)%nat → refines (watched_set same_as n s e) (modular_set same_as m s e).
Proof.
  intros. unfold watched_set, modular_set.
  apply SimplifyModular_runs; [apply watched_fires_runs|apply watched_bound_runs|apply watched_modular_runs|done].
Qed.

Lemma watched_fires_good line : watched_fires line = Ok tt → good_line line = true.
Proof. unfold watched_fires. by destruct (good_line line). Qed.

(** The analyzer was told only what is true in the environment: bounds, sets, constraints, and
    expressions that variables stand for. *)
Record truthful (s : State) : Prop := {
  truthful_bound : learned other env known (s_bound s);
  truthful_modular : told other env known (s_modular s);
  truthful_vars i x : s_var_map s !! i = Some x → well_formed known x = true ∧ ival other env x = Some (env i)
}.

Lemma truthful_good s : truthful s → good s ∧ vars_wf known s.
Proof.
  intros [Hb Hm Hx]. split; [|by intros i x [? _]%Hx].
  split; [by apply learned_consistent|by eapply told_sound|by eapply told_reduced|by intros i x [_ ?]%Hx].
Qed.
End watched.

(** C1: the simplifier of the program, with all its rules in force, keeps the value of an expression.
    The analyzer was told only what is true in the environment. If none of the five faulty rules
    applies in the run, and the bounds and the sets are not asked about an expression that overflows
    in the environment (the watched run, which stops when either happens, ends), the program gives
    the same result, with any larger bound on the depth of its calls, and the result has the value of
    the expression in unbounded arithmetic. *)
Theorem rewrite_simplify_sound other env known same_as fuel fuel' s e e' v :
  (∀ a b, same_as a b = true → a = b) → truthful other env known s →
  well_formed known e = true → ival other env e = Some v → (fuel ≤ fuel')%nat →
  watched_simplify other env same_as fuel s e = Ok e' →
  analyzer_simplify same_as fuel' s e = Ok e' ∧ ival other env e' = Some v.
Proof.
  intros Hsame [Hg Hw]%truthful_good He Hv Hfuel H. split.
  - by eapply watched_simplify_runs.
  - unfold watched_simplify in H. apply (Simplify_ok known other env (good other env known)) in H as [_ H]; [by apply H|apply _|done|apply watched_fires_good|done|done].
Qed.

(** C15: the modular sets are right. If the analyzer was told only what is true in the environment,
    the value of every expression is congruent to the base of its set modulo the coefficient: a set
    with coefficient 0 has the value itself. A truncating division asks the simplifier of the
    program whether its dividend is not negative; no faulty rule applies in these runs, and they
    ask about no expression that overflows. *)
Theorem modular_set_sound other env known same_as fuel fuel' s e en v :
  (∀ a b, same_as a b = true → a = b) → truthful other env known s →
  scoped known e = true → Forall (λ a, well_formed known a = true) (dividends e) →
  eval other env e = Some v → (fuel ≤ fuel')%nat →
  watched_set other env same_as fuel s e = Ok en →
  modular_set same_as fuel' s e = Ok en ∧
  (MS.coeff en | v - MS.base en) ∧ (MS.coeff en = 0 → v = MS.base en) ∧ 0 ≤ MS.coeff en.
Proof.
  intros Hsame [Hg Hw]%truthful_good Hs Hd Hv Hfuel H. split.
  - by eapply watched_set_runs.
  - assert (holds en v) as Hh; [|split; [apply Hh|split; [|apply Hh]; intros Hc; apply const_value; [by apply Z.eqb_eq|done]]].
    unfold watched_set, SimplifyModular in H. apply (watched_modular_runs other env _ _ s e (λ a n, refines_refl _)) in H.
    eapply VisitExpr_holds; [exact (good_modular _ _ _ s Hg)|apply dividends_proved; [|done]|done|exact H|done].
    intros a n u Ha Hok Hu. eapply (can_prove_ok known other env (good other env known)); [| |exact Hw|exact Hg|exact Ha|exact Hok|exact Hu]; [apply _|].
    apply Visit_ok; [apply _|done|apply watched_fires_good].
Qed.

(** *** Samples *)

(** [select(x < 6, min(floordiv(x * 8 + 3, 4), 100) + floormod(x, 2), 0)] for a multiple of 4 [x] in [0, 8) *)
Definition sample_select : PrimExpr :=
  let x := EVar (int32_var 0) in
  Select (Cmp LT x (imm 6))
    (Bin Add (Bin Min (Bin FloorDiv (Bin Add (Bin Mul x (imm 8)) (imm 3)) (imm 4)) (imm 100)) (Bin FloorMod x (imm 2))) (imm 0).
Definition sample_simplified : PrimExpr :=
  Select (Cmp LT (EVar (int32_var 0)) (imm 6)) (Bin Mul (EVar (int32_var 0)) (imm 2)) (imm 0).
Definition sample_state : State := {| s_bound := bound_x; s_modular := modular_x; s_var_map := ∅; s_literals := [] |}.

Lemma sample_truthful : truthful (λ _, 0) (λ _, 4) [0%nat] sample_state.
Proof.
  split; [| |by intros i x [=]].
  - apply (learned_bind (λ _, 0) (λ _, 4) [0%nat] {| cb_map := ∅; cb_infos := [] |} bound_x (int32_var 0) (imm 0) (imm 8) false 0 8);
      [apply learned_new|left|reflexivity|reflexivity|reflexivity|reflexivity|cbn; lia|by split; vm_compute|vm_compute; reflexivity].
  - apply (told_enter (λ _, 0) (λ _, 4) [0%nat] ∅ modular_x multiple_of_4 1 (Some (int32_var 0, MS.Everything)));
      [apply told_new|cbn; set_solver|reflexivity|done|vm_compute; reflexivity].
Qed.

Lemma same_spec a b : same a b = true → a = b.
Proof. by intros H%bool_decide_eq_true. Qed.

Lemma rewrite_simplify_sound_witness :
  analyzer_simplify same 40 sample_state sample_select = Ok sample_simplified ∧
  ival (λ _, 0) (λ _, 4) sample_simplified = Some 8.
Proof.
  refine (rewrite_simplify_sound (λ _, 0) (λ _, 4) [0%nat] same 30 40 sample_state sample_select sample_simplified 8
    same_spec sample_truthful _ _ _ _); [vm_compute; reflexivity|vm_compute; reflexivity|lia|vm_compute; reflexivity].
Defined.

(** [truncdiv(x * 6 + 8, 2)] for the same [x] *)
Definition sample_quotient : PrimExpr := Bin Div (Bin Add (Bin Mul (EVar (int32_var 0)) (imm 6)) (imm 8)) (imm 2).

Lemma modular_set_sound_witness :
  modular_set same 40 sample_state sample_quotient = Ok {| MS.coeff := 12; MS.base := 4 |} ∧
  (12 | 16 - 4) ∧ (12 = 0 → 16 = 4) ∧ 0 ≤ 12.
Proof.
  refine (modular_set_sound (λ _, 0) (λ _, 4) [0%nat] same 30 40 sample_state sample_quotient {| MS.coeff := 12; MS.base := 4 |} 16
    same_spec sample_truthful _ _ _ _ _); [vm_compute; reflexivity|by repeat constructor|vm_compute; reflexivity|lia|vm_compute; reflexivity].
Defined.

(** With the faulty rules the simplifier takes [min(floordiv(x + 3, 4) * 4, max(x, 4))] for
    [max(x, 4)]: 0 becomes 4 for [x] equal to 0. *)
Example faulty_rules_change_value :
  let x := EVar (int32_var 0) in
  let e := Bin Min (Bin Mul (Bin FloorDiv (Bin Add x (imm 3)) (imm 4)) (imm 4)) (Bin Max x (imm 4)) in
  simplify_sample e = Ok (Bin Max x (imm 4)) ∧
  eval (λ _, 0) (λ _, 0) e = Some 0 ∧ eval (λ _, 0) (λ _, 0) (Bin Max x (imm 4)) = Some 4.
Proof. by vm_compute. Qed.

(** So the modular set of [truncdiv(min(floordiv(x + 3, 4) * 4, max(x, 4)) * 4 + 1, 2)] is that of the
    even numbers: the dividend is taken to be positive. It is -7 for [x] equal to -4. *)
Example faulty_rules_wrong_set :
  let x := EVar (int32_var 0) in
  let e := Bin Min (Bin Mul (Bin FloorDiv (Bin Add x (imm 3)) (imm 4)) (imm 4)) (Bin Max x (imm 4)) in
  let q := Bin Div (Bin Add (Bin Mul e (imm 4)) (imm 1)) (imm 2) in
  modular_set same 60 new_analyzer q = Ok {| MS.coeff := 2; MS.base := 0 |} ∧ eval (λ _, 0) (λ _, -4) q = Some (-7).
Proof. by vm_compute. Qed.
