(* ===== verification/LoopState.v ===== *)
(** * Loop states of the auto-scheduler ([src/auto_scheduler/loop_state.cc], [include/tvm/auto_scheduler])

    A state holds the stages of a program with their loops, the steps that led to it and the map of
    the stages that are computed inside loops of others. Iterators are objects: they are compared by
    address, which a number stands for. *)

From stdpp Require Import strings pretty.
From S2P Require Import Prelude PyStr Int64 TIR.

(** ** Arrays *)

(** [array[i]], [array.Set(i, v)] and [array.insert(begin + i, v)]; an index out of range fails. *)
Definition arr_get {A} (l : list A) (i : Z) : result A :=
  if 0 <=? i then of_option IndexError (l !! Z.to_nat i) else Raise IndexError.
Definition arr_set {A} (l : list A) (i : Z) (a : A) : result (list A) :=
  if (0 <=? i) && (i <? Z.of_nat (length l)) then Ok (<[Z.to_nat i := a]> l) else Raise IndexError.
Definition arr_insert {A} (l : list A) (i : Z) (a : A) : result (list A) :=
  if (0 <=? i) && (i <=? Z.of_nat (length l)) then Ok (take (Z.to_nat i) l ++ a :: drop (Z.to_nat i) l) else Raise IndexError.

(** [FindAndDeleteItem] *)
Fixpoint FindAndDeleteItem {A} `{EqDecision A} (array : list A) (to_delete : A) : list A :=
  match array with
  | [] => []
  | x :: array => if decide (x = to_delete) then array else x :: FindAndDeleteItem array to_delete
  end.

Definition StrReplace (base from to : string) : string := str_replace base from to.

Definition CleanName (str prefix : string) : string :=
  let ret := StrReplace str "." "_" in
  let ret := StrReplace ret "@" "_" in
  let ret := StrReplace ret "outer" "o" in
  let ret := StrReplace ret "inner" "i" in
  if decide (prefix = "") then ret else prefix +:+ "_" +:+ ret.

Definition StrStartsWith (a b : string) : bool := startswith b a.

(** [GetIntImm] *)
Definition GetIntImm (expr : PrimExpr) : result Z :=
  match expr with IntImm _ value => Ok value | _ => Raise AssertionError end.

(** ** Iterators *)

Inductive IteratorKind := kSpatial | kReduction | kMixed | kSpecial.
#[export] Instance IteratorKind_eq_dec : EqDecision IteratorKind.
Proof. solve_decision. Defined.

Inductive IteratorAnnotation :=
| kNone | kUnroll | kVectorize | kParallel | kVThread | kBlockX | kThreadX | kBlockY | kThreadY | kBlockZ | kThreadZ | kTensorize.
#[export] Instance IteratorAnnotation_eq_dec : EqDecision IteratorAnnotation.
Proof. solve_decision. Defined.

(** The numbers of the annotations *)
Definition annotation_int (a : IteratorAnnotation) : Z :=
  match a with
  | kNone => 0 | kUnroll => 1 | kVectorize => 2 | kParallel => 3 | kVThread => 4 | kBlockX => 5
  | kThreadX => 6 | kBlockY => 7 | kThreadY => 8 | kBlockZ => 9 | kThreadZ => 10 | kTensorize => 11
  end.
Definition annotation_of_int (z : Z) : option IteratorAnnotation :=
  if z <? 0 then None else
  [kNone; kUnroll; kVectorize; kParallel; kVThread; kBlockX; kThreadX; kBlockY; kThreadY; kBlockZ; kThreadZ; kTensorize]
    !! Z.to_nat z.

Record Range := { r_min : PrimExpr; r_extent : PrimExpr }.

#[warnings="-register-all"]
Inductive Iterator := MakeIterator {
  it_addr : nat;
  it_name : string;
  it_range : option Range;
  it_kind : IteratorKind;
  it_annotation : IteratorAnnotation;
  it_orig_iters : list Iterator }.

(** ** Stages *)

(** The operations of the tensor language, with their axes *)
Inductive Operation :=
| ComputeOp (name : string) (axis reduce_axis : list (string * Range))
| PlaceholderOp (name : string)
| OtherOp (name : string).

Inductive StageKind := kPlaceholder | kCompute.
Inductive ComputeAtKind := kRoot | kInlined | kIter.
#[export] Instance ComputeAtKind_eq_dec : EqDecision ComputeAtKind.
Proof. solve_decision. Defined.

Record StageAttributes := { auto_unroll_max_step : Z; storage_offset : Z }.

Record Stage := {
  st_op : Operation;
  st_op_type : StageKind;
  st_iters : list Iterator;
  st_compute_at : ComputeAtKind;
  st_attrs : StageAttributes }.

(** ** Steps *)

Inductive Step :=
| AnnotationStep (stage_id iter_id : Z) (annotation : IteratorAnnotation)
| FuseStep (stage_id : Z) (fused_ids : list Z)
| PragmaStep (stage_id iter_id : Z) (pragma_type : string)
| ReorderStep (stage_id : Z) (after_ids : list Z)
| SplitStep (stage_id iter_id : Z) (extent : option Z) (lengths : list (option Z)) (inner_to_outer : bool)
| FollowSplitStep (stage_id iter_id src_step_id n_split : Z)
| FollowFusedSplitStep (stage_id iter_id : Z) (src_step_ids : list Z) (level : Z) (factor_or_nparts : bool)
| StorageAlignStep (stage_id iter_id factor offset : Z)
| ComputeAtStep (stage_id target_stage_id target_iter_id : Z)
| ComputeInlineStep (stage_id : Z)
| ComputeRootStep (stage_id : Z)
| CacheReadStep (stage_id : Z) (scope_name : string) (reader_stage_ids : list Z)
| CacheWriteStep (stage_id : Z) (scope_name : string)
| RfactorStep (stage_id iter_id factor_iter_id : Z).

(** [step->stage_id] *)
Definition step_stage_id (s : Step) : Z :=
  match s with
  | AnnotationStep i _ _ | FuseStep i _ | PragmaStep i _ _ | ReorderStep i _ | SplitStep i _ _ _ _ | FollowSplitStep i _ _ _
  | FollowFusedSplitStep i _ _ _ _ | StorageAlignStep i _ _ _ | ComputeAtStep i _ _ | ComputeInlineStep i | ComputeRootStep i
  | CacheReadStep i _ _ | CacheWriteStep i _ | RfactorStep i _ _ => i
  end.

(** ** The attach map *)

Abbreviation IterKey := (Z * Z)%type.

Record AttachMap := {
  stage_to_attach_iter : gmap Z IterKey;
  iter_to_attached_stages : gmap IterKey (list Z) }.

Definition empty_attach_map : AttachMap := {| stage_to_attach_iter := ∅; iter_to_attached_stages := ∅ |}.

(** [DeleteStageEntry] uses the entry of the iterator without looking whether there is one; if there
    is none the behaviour is undefined. *)
Definition DeleteStageEntry (pnode : AttachMap) (stage_id : Z) : result AttachMap :=
  match stage_to_attach_iter pnode !! stage_id with
  | None => Ok pnode
  | Some key =>
      entry2 ← of_option KeyError (iter_to_attached_stages pnode !! key);
      let entry2 := FindAndDeleteItem entry2 stage_id in
      Ok {| stage_to_attach_iter := delete stage_id (stage_to_attach_iter pnode);
            iter_to_attached_stages :=
              if decide (entry2 = []) then delete key (iter_to_attached_stages pnode)
              else <[key := entry2]> (iter_to_attached_stages pnode) |}
  end.

Definition SetComputeAtIter (m : AttachMap) (stage_id target_stage_id target_iter_id : Z) : result AttachMap :=
  pnode ← DeleteStageEntry m stage_id;
  let iter_key := (target_stage_id, target_iter_id) in
  Ok {| stage_to_attach_iter := <[stage_id := iter_key]> (stage_to_attach_iter pnode);
        iter_to_attached_stages :=
          <[iter_key := default [] (iter_to_attached_stages pnode !! iter_key) ++ [stage_id]]> (iter_to_attached_stages pnode) |}.

Definition DeleteStage (m : AttachMap) (stage_id : Z) : result AttachMap := DeleteStageEntry m stage_id.

(** The loop of [UpdateIters] over pairs of an iterator and the one that replaces it *)
Fixpoint update_loop (iters : list (IterKey * IterKey)) (pnode : AttachMap) (new_iters : gmap IterKey (list Z))
    : AttachMap * gmap IterKey (list Z) :=
  match iters with
  | [] => (pnode, new_iters)
  | (original, new) :: iters =>
      match iter_to_attached_stages pnode !! original with
      | None => update_loop iters pnode new_iters
      | Some attached_stages =>
          update_loop iters
            {| stage_to_attach_iter := foldl (λ m s, <[s := new]> m) (stage_to_attach_iter pnode) attached_stages;
               iter_to_attached_stages := delete original (iter_to_attached_stages pnode) |}
            (<[new := attached_stages]> new_iters)
      end
  end.

Definition UpdateIters (m : AttachMap) (original_iters new_iters : list IterKey) : result AttachMap :=
  _ ← py_assert (length original_iters =? length new_iters)%nat;
  let '(pnode, new) := update_loop (zip original_iters new_iters) m ∅ in
  Ok {| stage_to_attach_iter := stage_to_attach_iter pnode;
        iter_to_attached_stages := new ∪ iter_to_attached_stages pnode |}.

(** The new number of a stage *)
Definition offset_id (start_id offset : Z) (id : Z) : Z := if start_id <=? id then id + offset else id.
Definition offset_key (start_id offset : Z) (key : IterKey) : IterKey := (offset_id start_id offset key.1, key.2).

Definition ApplyStageIdOffset (m : AttachMap) (start_id offset : Z) : AttachMap :=
  {| stage_to_attach_iter :=
       list_to_map (prod_map (offset_id start_id offset) (offset_key start_id offset) <$> map_to_list (stage_to_attach_iter m));
     iter_to_attached_stages :=
       list_to_map (prod_map (offset_key start_id offset) (fmap (offset_id start_id offset)) <$> map_to_list (iter_to_attached_stages m)) |}.

(** ** States *)

Record State := {
  stages : list Stage;
  transform_steps : list Step;
  attach_map : AttachMap;
  current_compute_dag : option (list Operation);
  concrete : bool }.

Definition with_stages (s : State) (l : list Stage) : State :=
  {| stages := l; transform_steps := transform_steps s; attach_map := attach_map s;
     current_compute_dag := current_compute_dag s; concrete := concrete s |}.
Definition with_attach_map (s : State) (m : AttachMap) : State :=
  {| stages := stages s; transform_steps := transform_steps s; attach_map := m;
     current_compute_dag := current_compute_dag s; concrete := concrete s |}.
Definition with_dag (s : State) (ops : list Operation) : State :=
  {| stages := stages s; transform_steps := transform_steps s; attach_map := attach_map s;
     current_compute_dag := Some ops; concrete := concrete s |}.
Definition with_concrete (s : State) (b : bool) : State :=
  {| stages := stages s; transform_steps := transform_steps s; attach_map := attach_map s;
     current_compute_dag := current_compute_dag s; concrete := b |}.
Definition with_steps (s : State) (l : list Step) : State :=
  {| stages := stages s; transform_steps := l; attach_map := attach_map s;
     current_compute_dag := current_compute_dag s; concrete := concrete s |}.
Definition with_iters (s : Stage) (l : list Iterator) : Stage :=
  {| st_op := st_op s; st_op_type := st_op_type s; st_iters := l; st_compute_at := st_compute_at s; st_attrs := st_attrs s |}.
Definition with_op (s : Stage) (op : Operation) : Stage :=
  {| st_op := op; st_op_type := st_op_type s; st_iters := st_iters s; st_compute_at := st_compute_at s; st_attrs := st_attrs s |}.
Definition with_compute_at (s : Stage) (k : ComputeAtKind) : Stage :=
  {| st_op := st_op s; st_op_type := st_op_type s; st_iters := st_iters s; st_compute_at := k; st_attrs := st_attrs s |}.
Definition with_attrs (s : Stage) (a : StageAttributes) : Stage :=
  {| st_op := st_op s; st_op_type := st_op_type s; st_iters := st_iters s; st_compute_at := st_compute_at s; st_attrs := a |}.

(** A state and the next free address *)
Record world := { w_next : nat; w_state : State }.

Definition get_state : M world State := λ w, (Ok (w_state w), w).
Definition put_state (s : State) : M world unit := λ w, (Ok tt, {| w_next := w_next w; w_state := s |}).

(** The constructor [Iterator] *)
Definition new_iterator (name : string) (range : option Range) (iter_kind : IteratorKind) (annotation : IteratorAnnotation)
    (orig_iters : list Iterator) : M world Iterator := λ w,
  (Ok {| it_addr := w_next w; it_name := name; it_range := range; it_kind := iter_kind; it_annotation := annotation;
         it_orig_iters := orig_iters |},
   {| w_next := S (w_next w); w_state := w_state w |}).

(** A loop that pushes one result per element *)
Fixpoint mmap {S A B} (f : A → M S B) (l : list A) : M S (list B) :=
  match l with
  | [] => mret []
  | a :: l => b ← f a; bs ← mmap f l; mret (b :: bs)
  end.

(** The constructor [Stage(op)] *)
Definition new_stage (op : Operation) : M world Stage :=
  '(kind, iters) ←
    match op with
    | ComputeOp _ axis reduce_axis =>
        sp ← mmap (λ a, new_iterator (CleanName a.1 "") (Some a.2) kSpatial kNone []) axis;
        re ← mmap (λ a, new_iterator (CleanName a.1 "") (Some a.2) kReduction kNone []) reduce_axis;
        mret (kCompute, sp ++ re)
    | PlaceholderOp _ => mret (kPlaceholder, [])
    | OtherOp _ => raise RuntimeError
    end;
  mret {| st_op := op; st_op_type := kind; st_iters := iters; st_compute_at := kRoot;
          st_attrs := {| auto_unroll_max_step := 0; storage_offset := 0 |} |}.

(** The constructor [State(ops)] *)
Definition new_state (ops : list Operation) : M world unit :=
  l ← mmap new_stage ops;
  put_state {| stages := l; transform_steps := []; attach_map := empty_attach_map; current_compute_dag := None; concrete := true |}.
