(* ===== verification/TransformStep.v ===== *)
(** * Transform steps on states ([src/auto_scheduler/transform_step.cc], [src/auto_scheduler/loop_state.cc])

    What every step does to a state, and the methods of [State], which record a step and apply it.
    Replaying the steps that add stages on a schedule of the tensor language ([ReplayAndGetDAG]) is a
    parameter. *)

From stdpp Require Import strings pretty.
From S2P Require Import Prelude PyStr Int64 TIR ConstFold LoopState.

Definition get_stages : M world (list Stage) := s ← get_state; mret (stages s).
Definition get_attach_map : M world AttachMap := s ← get_state; mret (attach_map s).
Definition get_steps : M world (list Step) := s ← get_state; mret (transform_steps s).
Definition get_dag : M world (option (list Operation)) := s ← get_state; mret (current_compute_dag s).
Definition get_stage (stage_id : Z) : M world Stage :=
  l ← get_stages; lift (arr_get l stage_id).
Definition put_stages (l : list Stage) : M world unit := s ← get_state; put_state (with_stages s l).
(** [pstate->stages.Set(stage_id, stage)] *)
Definition set_stage (stage_id : Z) (stage : Stage) : M world unit :=
  l ← get_stages; l ← lift (arr_set l stage_id stage); put_stages l.
Definition set_attach_map (f : AttachMap → result AttachMap) : M world unit :=
  s ← get_state; m ← lift (f (attach_map s)); put_state (with_attach_map s m).

(** [pstate->concrete &= b] *)
Definition and_concrete (b : bool) : M world unit :=
  s ← get_state; put_state (with_concrete s (concrete s && b)).

Definition int32 (v : Z) : PrimExpr := IntImm (Int 32) v.

(** ** Steps on a single stage *)

Definition AnnotationStep_ApplyToState (stage_id iter_id : Z) (annotation : IteratorAnnotation) : M world Iterator :=
  stage ← get_stage stage_id;
  it ← lift (arr_get (st_iters stage) iter_id);
  _ ← lift (py_assert (bool_decide (it_annotation it = kNone)));
  new_it ← new_iterator (it_name it) (it_range it) (it_kind it) annotation (it_orig_iters it);
  iters ← lift (arr_set (st_iters stage) iter_id new_it);
  _ ← set_stage stage_id (with_iters stage iters);
  mret new_it.

(** What the loop of [FuseStepNode::ApplyToState] collects *)
Record fused := { f_name : string; f_extent : option PrimExpr; f_kind : IteratorKind; f_orig : list Iterator }.

(** The loop; [prev] is the identifier before, if this is not the first one. *)
Fixpoint fuse_loop (stage_id : Z) (stage : Stage) (attached : gmap IterKey (list Z)) (prev : option Z) (ids : list Z) (f : fused)
    : result fused :=
  match ids with
  | [] => Ok f
  | id :: ids =>
      _ ← match prev with Some p => py_assert (id =? p + 1) | None => Ok tt end;
      _ ← (if decide (ids = []) then Ok tt
           else match attached !! (stage_id, id) with Some _ => Raise RuntimeError | None => Ok tt end);
      it ← arr_get (st_iters stage) id;
      extent ← match it_range it, f_extent f with
               | Some r, Some e => Some <$> mul e (r_extent r)
               | _, _ => Ok None
               end;
      fuse_loop stage_id stage attached (Some id) ids
        {| f_name := f_name f +:+ it_name it +:+ "@"; f_extent := extent;
           f_kind := match prev with
                     | None => it_kind it
                     | Some _ => if decide (f_kind f = it_kind it) then f_kind f else kMixed
                     end;
           f_orig := f_orig f ++ [it] |}
  end.

(** The iterators behind the first fused one and what they become *)
Definition fuse_moves (stage_id begin_id end_id : Z) (old_iter_size : nat) : list (IterKey * IterKey) :=
  omap (λ i, let i := Z.of_nat i in
             if i <=? begin_id then None
             else if end_id <? i then Some ((stage_id, i), (stage_id, i - end_id + begin_id))
             else Some ((stage_id, i), (stage_id, begin_id))) (seq 0 old_iter_size).

Definition FuseStep_ApplyToState (stage_id : Z) (fused_ids : list Z) : M world Iterator :=
  m ← get_attach_map;
  stage ← get_stage stage_id;
  f ← lift (fuse_loop stage_id stage (iter_to_attached_stages m) None fused_ids
              {| f_name := ""; f_extent := Some (int32 1); f_kind := kSpecial; f_orig := [] |});
  let range := (λ e, {| r_min := int32 0; r_extent := e |}) <$> f_extent f in
  new_it ← new_iterator (f_name f) range (f_kind f) kNone (f_orig f);
  match head fused_ids, last fused_ids with
  | Some front, Some back =>
      let iters := st_iters stage in
      _ ← set_stage stage_id (with_iters stage (take (Z.to_nat front) iters ++ new_it :: drop (Z.to_nat (back + 1)) iters));
      let moves := fuse_moves stage_id front back (length iters) in
      _ ← set_attach_map (λ m, UpdateIters m moves.*1 moves.*2);
      mret new_it
  | _, _ => _ ← set_stage stage_id (with_iters stage [new_it]); mret new_it
  end.

(** The characters behind the first dollar sign *)
Fixpoint after_dollar (s : string) : option string :=
  match s with
  | EmptyString => None
  | String c s => if decide (c = "$"%char) then Some s else after_dollar s
  end.

(** [atoi]: leading space, a sign and digits; a number that is not an [int] is undefined. *)
Fixpoint atoi_digits (acc : Z) (s : string) : Z :=
  match s with
  | String c s' =>
      let d := Z.of_nat (nat_of_ascii c) - 48 in
      if (0 <=? d) && (d <=? 9) then atoi_digits (10 * acc + d) s' else acc
  | EmptyString => acc
  end.
Definition is_space (c : ascii) : bool :=
  let n := Z.of_nat (nat_of_ascii c) in (n =? 32) || ((9 <=? n) && (n <=? 13)).
Fixpoint atoi_sign (s : string) : Z :=
  match s with
  | String c s' =>
      if is_space c then atoi_sign s'
      else if decide (c = "-"%char) then - atoi_digits 0 s'
      else if decide (c = "+"%char) then atoi_digits 0 s'
      else atoi_digits 0 s
  | EmptyString => 0
  end.
Definition atoi (s : string) : result Z :=
  let v := atoi_sign s in
  if (- 2 ^ 31 <=? v) && (v <? 2 ^ 31) then Ok v else Raise OverflowError.

Definition PragmaStep_ApplyToState (stage_id iter_id : Z) (pragma_type : string) : M world unit :=
  if decide (pragma_type = "debug_skip_region") then
    set_attach_map (λ m, DeleteStage m stage_id)
  else if StrStartsWith pragma_type "auto_unroll_max_step" then
    stage ← get_stage stage_id;
    value ← lift (of_option AssertionError (after_dollar pragma_type));
    v ← lift (atoi value);
    set_stage stage_id (with_attrs stage {| auto_unroll_max_step := v; storage_offset := storage_offset (st_attrs stage) |})
  else raise RuntimeError.

Definition ReorderStep_ApplyToState (stage_id : Z) (after_ids : list Z) : M world unit :=
  stage ← get_stage stage_id;
  iters ← lift (mmapr (arr_get (st_iters stage)) after_ids);
  set_stage stage_id (with_iters stage iters).

(** ** Splits *)

Definition split_name (name : string) (i : nat) : string := name +:+ "." +:+ pretty i.

(** The part of the iterator that is still to be split *)
Record tosplit := { ts_min : option PrimExpr; ts_extent : option PrimExpr; ts_concrete : bool }.

(** [(extent + l - 1) / l] *)
Definition rest_extent (extent l : PrimExpr) : result PrimExpr :=
  e ← add extent l; one ← MakeConstScalar (dtype_of e) 1; e ← sub e one; indexdiv e l.

(** The loop of [ApplySplitToState] over the numbers of the parts with their lengths *)
Fixpoint split_loop (it : Iterator) (parts : list (nat * option Z)) (t : tosplit) : M world (list Iterator * tosplit) :=
  match parts with
  | [] => mret ([], t)
  | (i, l) :: parts =>
      '(res, t) ←
        match l, ts_min t, ts_extent t with
        | Some l, Some lo, Some extent =>
            res ← new_iterator (split_name (it_name it) i) (Some {| r_min := lo; r_extent := int32 l |}) (it_kind it) kNone [];
            rest ← lift (rest_extent extent (int32 l));
            mret (res, {| ts_min := Some (int32 0); ts_extent := Some rest; ts_concrete := ts_concrete t |})
        | _, _, _ =>
            res ← new_iterator (split_name (it_name it) i) None (it_kind it) kNone [];
            mret (res, {| ts_min := None; ts_extent := None; ts_concrete := ts_concrete t && bool_decide (l ≠ None) |})
        end;
      '(outs, t) ← split_loop it parts t;
      mret (res :: outs, t)
  end.

(** The parts in the order of the loop: from the innermost if [inner_to_outer] *)
Definition split_parts (lengths : list (option Z)) (inner_to_outer : bool) : list (nat * option Z) :=
  if inner_to_outer then reverse (imap (λ i l, (S i, l)) lengths) else imap (λ i l, (i, l)) lengths.

Definition ApplySplitToState (stage_id iter_id : Z) (lengths : list (option Z)) (inner_to_outer : bool) : M world (list Iterator) :=
  stage ← get_stage stage_id;
  it ← lift (arr_get (st_iters stage) iter_id);
  '(outs, t) ← split_loop it (split_parts lengths inner_to_outer)
                 {| ts_min := r_min <$> it_range it; ts_extent := r_extent <$> it_range it; ts_concrete := true |};
  let range := match ts_min t, ts_extent t with
               | Some lo, Some e => Some {| r_min := lo; r_extent := e |}
               | _, _ => None
               end in
  last ← new_iterator (split_name (it_name it) (if inner_to_outer then 0 else length lengths)) range (it_kind it) kNone [];
  let outs := if inner_to_outer then reverse (outs ++ [last]) else outs ++ [last] in
  let iters := st_iters stage in
  _ ← set_stage stage_id
        (with_iters stage (take (Z.to_nat iter_id) iters ++ outs ++ drop (Z.to_nat (iter_id + 1)) iters));
  _ ← and_concrete (ts_concrete t);
  let moves := (λ i, ((stage_id, i), (stage_id, i + Z.of_nat (length lengths)))) <$>
                 seqZ iter_id (Z.of_nat (length iters) - iter_id) in
  _ ← set_attach_map (λ m, UpdateIters m moves.*1 moves.*2);
  mret outs.

(** A [SplitStep] of the history *)
Definition get_split_lengths (steps : list Step) (src_step_id : Z) : result (list (option Z)) :=
  _ ← py_assert ((0 <=? src_step_id) && (src_step_id <? Z.of_nat (length steps)));
  step ← arr_get steps src_step_id;
  match step with SplitStep _ _ _ lengths _ => Ok lengths | _ => Raise AssertionError end.

(** The product of lengths, none if one of them is not given *)
Fixpoint length_product (acc : Z) (lengths : list (option Z)) : result (option Z) :=
  match lengths with
  | [] => Ok (Some acc)
  | Some l :: lengths => acc ← mul64 acc l; length_product acc lengths
  | None :: _ => Ok None
  end.

Definition FollowSplit_ExtractSplitLengths (src_step_id n_split : Z) (steps : list Step) : result (list (option Z)) :=
  ps ← get_split_lengths steps src_step_id;
  _ ← py_assert ((0 <=? n_split) && (n_split <=? Z.of_nat (length ps) + 1));
  last_factor ← length_product 1 (drop (Z.to_nat (n_split - 1)) ps);
  Ok (take (Z.to_nat (n_split - 1)) ps ++ [last_factor]).

(** The loop of [FollowFusedSplitStepNode::ExtractSplitLength] *)
Fixpoint FollowFusedSplit_ExtractSplitLength (ret : Z) (src_step_ids : list Z) (level : Z) (steps : list Step) : result (option Z) :=
  match src_step_ids with
  | [] => Ok (Some ret)
  | src_step_id :: src_step_ids =>
      ps ← get_split_lengths steps src_step_id;
      l ← arr_get ps level;
      match l with
      | Some l => ret ← mul64 ret l; FollowFusedSplit_ExtractSplitLength ret src_step_ids level steps
      | None => Ok None
      end
  end.

Definition FollowSplitStep_ApplyToState (stage_id iter_id src_step_id n_split : Z) : M world (list Iterator) :=
  steps ← get_steps;
  lengths ← lift (FollowSplit_ExtractSplitLengths src_step_id n_split steps);
  ApplySplitToState stage_id iter_id lengths true.

Definition FollowFusedSplitStep_ApplyToState (stage_id iter_id : Z) (src_step_ids : list Z) (level : Z) (factor_or_nparts : bool)
    : M world (list Iterator) :=
  steps ← get_steps;
  l ← lift (FollowFusedSplit_ExtractSplitLength 1 src_step_ids level steps);
  ApplySplitToState stage_id iter_id [l] factor_or_nparts.

Definition StorageAlignStep_ApplyToState (stage_id offset : Z) : M world unit :=
  stage ← get_stage stage_id;
  set_stage stage_id (with_attrs stage {| auto_unroll_max_step := auto_unroll_max_step (st_attrs stage); storage_offset := offset |}).

(** ** Steps on several stages *)

(** The iterators without their ranges *)
Definition forget_ranges (iters : list Iterator) : M world (list Iterator) :=
  mmap (λ it, new_iterator (it_name it) None (it_kind it) (it_annotation it) (it_orig_iters it)) iters.

Definition ComputeAtStep_ApplyToState (stage_id target_stage_id target_iter_id : Z) : M world unit :=
  stage ← get_stage stage_id;
  new_iters ← forget_ranges (st_iters stage);
  _ ← set_stage stage_id (with_compute_at (with_iters stage new_iters) kIter);
  set_attach_map (λ m, SetComputeAtIter m stage_id target_stage_id target_iter_id).

Definition ComputeInlineStep_ApplyToState (stage_id : Z) : M world unit :=
  m ← get_attach_map;
  stage ← get_stage stage_id;
  _ ← lift (py_assert (forallb (λ i, bool_decide (iter_to_attached_stages m !! (stage_id, Z.of_nat i) = None))
                         (seq 0 (length (st_iters stage)))));
  _ ← set_stage stage_id (with_compute_at stage kInlined);
  set_attach_map (λ m, DeleteStage m stage_id).

Definition ComputeRootStep_ApplyToState (stage_id : Z) : M world unit :=
  stage ← get_stage stage_id;
  new_iters ← forget_ranges (st_iters stage);
  _ ← set_stage stage_id (with_compute_at (with_iters stage new_iters) kRoot);
  set_attach_map (λ m, DeleteStage m stage_id).

(** ** Steps that add stages *)

(** The loop of [GetFormerStageModifiableSteps] over the steps up to the current one; [prev1] and
    [prev2] are the steps one and two before. *)
Fixpoint former_steps (prev2 prev1 : option Step) (steps : list Step) : result (list Step) :=
  match steps with
  | [] => Ok []
  | step :: steps =>
      added ← match step with
              | CacheWriteStep _ _ | CacheReadStep _ _ _ => Ok [step]
              | RfactorStep stage_id _ _ =>
                  let fuse := match prev2 with
                              | Some (FuseStep i _ as f) => if i =? stage_id then [f] else []
                              | _ => []
                              end in
                  match prev1 with
                  | Some (SplitStep i _ _ _ _ as sp) => _ ← py_assert (i =? stage_id); Ok (fuse ++ [sp; step])
                  | _ => Raise AssertionError
                  end
              | _ => Ok []
              end;
      rest ← former_steps prev1 (Some step) steps;
      Ok (added ++ rest)
  end.

(** [GetFormerStageModifiableSteps]; the current step is given by its place in the history. *)
Definition GetFormerStageModifiableSteps (current : nat) (transform_steps : list Step) : result (list Step) :=
  former_steps None None (take (S current) transform_steps).

(** The loop that gives the stages from a place on their new operations *)
Fixpoint update_ops (ids : list Z) (ops : list Operation) (l : list Stage) : result (list Stage) :=
  match ids with
  | [] => Ok l
  | i :: ids =>
      stage ← arr_get l i;
      op ← arr_get ops i;
      l ← arr_set l i (with_op stage op);
      update_ops ids ops l
  end.

Section dag.
(** The operations of the compute DAG, and those of the DAG after replaying steps *)
Variable dag_ops : list Operation.
Variable ReplayAndGetDAG : list Step → result (list Operation).

(** The operations after the steps so far *)
Definition replayed_ops (current : nat) : M world (list Operation) :=
  steps ← get_steps;
  steps ← lift (GetFormerStageModifiableSteps current steps);
  lift (ReplayAndGetDAG steps).

(** The end of the steps that add stages: the attach map is renumbered and the DAG kept. *)
Definition finish_stages (start_id offset : Z) (ops : list Operation) : M world unit :=
  s ← get_state;
  put_state (with_dag (with_attach_map s (ApplyStageIdOffset (attach_map s) start_id offset)) ops).

Definition CacheReadStep_ApplyToState (current : nat) (stage_id : Z) : M world Z :=
  ops ← replayed_ops current;
  let added_stage_id := stage_id + 1 in
  tmp_stage ← get_stage stage_id;
  op ← lift (arr_get ops stage_id);
  _ ← set_stage stage_id (with_op tmp_stage op);
  op ← lift (arr_get ops added_stage_id);
  added ← new_stage op;
  l ← get_stages;
  l ← lift (arr_insert l added_stage_id added);
  l ← lift (update_ops (seqZ (added_stage_id + 1) (Z.of_nat (length l) - (added_stage_id + 1))) ops l);
  _ ← put_stages l;
  _ ← finish_stages added_stage_id 1 ops;
  mret added_stage_id.

Definition CacheWriteStep_ApplyToState (current : nat) (stage_id : Z) : M world Z :=
  dag ← get_dag;
  let last_dag_op_size := length (default dag_ops dag) in
  ops ← replayed_ops current;
  let added_ops := Z.of_nat (length ops) - Z.of_nat last_dag_op_size in
  _ ← lift (py_assert (1 <=? added_ops));
  op ← lift (arr_get ops stage_id);
  added ← new_stage op;
  l ← get_stages;
  l ← lift (arr_insert l stage_id added);
  op ← lift (arr_get ops (stage_id + 1));
  target ← new_stage op;
  l ← lift (arr_set l (stage_id + 1) target);
  let next_stage_id := stage_id + 2 in
  '(l, next_stage_id) ←
    (if added_ops =? 2 then
       op ← lift (arr_get ops next_stage_id);
       third ← new_stage op;
       l ← lift (arr_insert l next_stage_id third);
       mret (l, next_stage_id + 1)
     else mret (l, next_stage_id));
  l ← lift (update_ops (seqZ next_stage_id (Z.of_nat (length ops) - next_stage_id)) ops l);
  _ ← put_stages l;
  _ ← finish_stages stage_id added_ops ops;
  mret stage_id.

Definition RfactorStep_ApplyToState (current : nat) (stage_id : Z) : M world Z :=
  stage ← get_stage stage_id;
  ops ← replayed_ops current;
  op ← lift (arr_get ops stage_id);
  added ← new_stage op;
  l ← get_stages;
  l ← lift (arr_insert l stage_id added);
  op ← lift (arr_get ops (stage_id + 1));
  target_stage ← new_stage op;
  l ← lift (arr_set l (stage_id + 1) (with_compute_at target_stage (st_compute_at stage)));
  l ← lift (update_ops (seqZ (stage_id + 2) (Z.of_nat (length l) - (stage_id + 2))) ops l);
  _ ← put_stages l;
  _ ← finish_stages stage_id 1 ops;
  mret stage_id.

(** [StepApplyToState] for the step at a place of the history *)
Definition StepApplyToState (current : nat) (step : Step) : M world unit :=
  match step with
  | AnnotationStep stage_id iter_id annotation => _ ← AnnotationStep_ApplyToState stage_id iter_id annotation; mret tt
  | FuseStep stage_id fused_ids => _ ← FuseStep_ApplyToState stage_id fused_ids; mret tt
  | PragmaStep stage_id iter_id pragma_type => PragmaStep_ApplyToState stage_id iter_id pragma_type
  | ReorderStep stage_id after_ids => ReorderStep_ApplyToState stage_id after_ids
  | SplitStep stage_id iter_id _ lengths inner_to_outer => _ ← ApplySplitToState stage_id iter_id lengths inner_to_outer; mret tt
  | FollowSplitStep stage_id iter_id src_step_id n_split =>
      _ ← FollowSplitStep_ApplyToState stage_id iter_id src_step_id n_split; mret tt
  | FollowFusedSplitStep stage_id iter_id src_step_ids level factor_or_nparts =>
      _ ← FollowFusedSplitStep_ApplyToState stage_id iter_id src_step_ids level factor_or_nparts; mret tt
  | StorageAlignStep stage_id _ _ offset => StorageAlignStep_ApplyToState stage_id offset
  | ComputeAtStep stage_id target_stage_id target_iter_id => ComputeAtStep_ApplyToState stage_id target_stage_id target_iter_id
  | ComputeInlineStep stage_id => ComputeInlineStep_ApplyToState stage_id
  | ComputeRootStep stage_id => ComputeRootStep_ApplyToState stage_id
  | CacheReadStep stage_id _ _ => _ ← CacheReadStep_ApplyToState current stage_id; mret tt
  | CacheWriteStep stage_id _ => _ ← CacheWriteStep_ApplyToState current stage_id; mret tt
  | RfactorStep stage_id _ _ => _ ← RfactorStep_ApplyToState current stage_id; mret tt
  end.

(** The loop of [ComputeDAG::InferBound] that replays a history on a state that holds it *)
Fixpoint replay_from (current : nat) (steps : list Step) : M world unit :=
  match steps with
  | [] => mret tt
  | step :: steps => _ ← StepApplyToState current step; replay_from (S current) steps
  end.

(** The state with the stages of a history: the initial state of the DAG with the history replayed *)
Definition replay (steps : list Step) : M world unit :=
  _ ← new_state dag_ops;
  s ← get_state;
  _ ← put_state (with_steps s steps);
  replay_from 0 steps.

(** ** The methods of [State] *)

(** [GetIndex] and [GetIndices] on iterators *)
Fixpoint GetIndex_from (i : Z) (array : list Iterator) (to_locate : Iterator) : result Z :=
  match array with
  | [] => Raise RuntimeError
  | x :: array => if (it_addr x =? it_addr to_locate)%nat then Ok i else GetIndex_from (i + 1) array to_locate
  end.
Definition GetIndex : list Iterator → Iterator → result Z := GetIndex_from 0.
Definition GetIndices (array to_locate : list Iterator) : result (list Z) := mmapr (GetIndex array) to_locate.

(** [CopyOnWrite()->transform_steps.push_back(step)]; the result is the place of the step. *)
Definition push_step (step : Step) : M world nat :=
  s ← get_state;
  _ ← put_state (with_steps s (transform_steps s ++ [step]));
  mret (length (transform_steps s)).

Definition annotate (stage_id : Z) (it : Iterator) (annotation : IteratorAnnotation) : M world Iterator :=
  stage ← get_stage stage_id;
  i ← lift (GetIndex (st_iters stage) it);
  _ ← push_step (AnnotationStep stage_id i annotation);
  AnnotationStep_ApplyToState stage_id i annotation.

Definition bind (stage_id : Z) (it : Iterator) (thread_type : IteratorAnnotation) : M world Iterator :=
  _ ← get_stage stage_id;
  if (annotation_int thread_type <? annotation_int kVThread) || (annotation_int kThreadZ <? annotation_int thread_type)
  then raise RuntimeError
  else annotate stage_id it thread_type.

Definition parallel (stage_id : Z) (it : Iterator) : M world Iterator := annotate stage_id it kParallel.
Definition vectorize (stage_id : Z) (it : Iterator) : M world Iterator := annotate stage_id it kVectorize.

(** Whether the extent is a number larger than [max_unroll], if one is given *)
Definition too_long (it : Iterator) (max_unroll : Z) : bool :=
  negb (max_unroll =? -1) &&
  match it_range it with
  | Some {| r_extent := IntImm _ value |} => max_unroll <? value
  | _ => false
  end.

Definition unroll (stage_id : Z) (it : Iterator) (max_unroll : Z) : M world Iterator :=
  _ ← get_stage stage_id;
  if too_long it max_unroll then mret it else annotate stage_id it kUnroll.

Definition fuse (stage_id : Z) (iters : list Iterator) : M world Iterator :=
  stage ← get_stage stage_id;
  indices ← lift (GetIndices (st_iters stage) iters);
  _ ← push_step (FuseStep stage_id indices);
  FuseStep_ApplyToState stage_id indices.

Definition pragma (stage_id : Z) (it : Iterator) (pragma_type : string) : M world unit :=
  stage ← get_stage stage_id;
  i ← lift (GetIndex (st_iters stage) it);
  _ ← push_step (PragmaStep stage_id i pragma_type);
  PragmaStep_ApplyToState stage_id i pragma_type.

Definition reorder (stage_id : Z) (order : list Iterator) : M world unit :=
  stage ← get_stage stage_id;
  _ ← lift (py_assert (length order =? length (st_iters stage))%nat);
  after_ids ← lift (GetIndices (st_iters stage) order);
  _ ← push_step (ReorderStep stage_id after_ids);
  ReorderStep_ApplyToState stage_id after_ids.

Definition split (stage_id : Z) (it : Iterator) (lengths : list (option Z)) (inner_to_outer : bool) : M world (list Iterator) :=
  stage ← get_stage stage_id;
  i ← lift (GetIndex (st_iters stage) it);
  let extent := match it_range it with Some {| r_extent := IntImm _ value |} => Some value | _ => None end in
  _ ← push_step (SplitStep stage_id i extent lengths inner_to_outer);
  ApplySplitToState stage_id i lengths inner_to_outer.

Definition follow_split (stage_id : Z) (it : Iterator) (src_step_id n_split : Z) : M world (list Iterator) :=
  stage ← get_stage stage_id;
  i ← lift (GetIndex (st_iters stage) it);
  _ ← push_step (FollowSplitStep stage_id i src_step_id n_split);
  FollowSplitStep_ApplyToState stage_id i src_step_id n_split.

Definition follow_fused_split (stage_id : Z) (it : Iterator) (src_step_ids : list Z) (level : Z) (factor_or_nparts : bool)
    : M world (list Iterator) :=
  stage ← get_stage stage_id;
  i ← lift (GetIndex (st_iters stage) it);
  _ ← push_step (FollowFusedSplitStep stage_id i src_step_ids level factor_or_nparts);
  FollowFusedSplitStep_ApplyToState stage_id i src_step_ids level factor_or_nparts.

Definition storage_align (stage_id : Z) (it : Iterator) (factor offset : Z) : M world unit :=
  stage ← get_stage stage_id;
  i ← lift (GetIndex (st_iters stage) it);
  _ ← push_step (StorageAlignStep stage_id i factor offset);
  StorageAlignStep_ApplyToState stage_id offset.

Definition compute_at (stage_id target_stage_id : Z) (target_iter : Iterator) : M world unit :=
  target_stage ← get_stage target_stage_id;
  i ← lift (GetIndex (st_iters target_stage) target_iter);
  _ ← push_step (ComputeAtStep stage_id target_stage_id i);
  ComputeAtStep_ApplyToState stage_id target_stage_id i.

Definition compute_inline (stage_id : Z) : M world unit :=
  _ ← push_step (ComputeInlineStep stage_id);
  ComputeInlineStep_ApplyToState stage_id.

Definition compute_root (stage_id : Z) : M world unit :=
  _ ← push_step (ComputeRootStep stage_id);
  ComputeRootStep_ApplyToState stage_id.

Definition cache_read (stage_id : Z) (scope_name : string) (reader_stage_ids : list Z) : M world Z :=
  current ← push_step (CacheReadStep stage_id scope_name reader_stage_ids);
  CacheReadStep_ApplyToState current stage_id.

Definition cache_write (stage_id : Z) (scope_name : string) : M world Z :=
  current ← push_step (CacheWriteStep stage_id scope_name);
  CacheWriteStep_ApplyToState current stage_id.

Definition rfactor (stage_id : Z) (it : Iterator) (factor_iter_id : Z) : M world Z :=
  stage ← get_stage stage_id;
  i ← lift (GetIndex (st_iters stage) it);
  current ← push_step (RfactorStep stage_id i factor_iter_id);
  RfactorStep_ApplyToState current stage_id.
End dag.
