(* ===== verification/StepReplay.v ===== *)
(** * Replaying transform steps

    The steps a state records reproduce it: replaying them from the initial state of the DAG gives
    the state, addresses of iterators included. Reading a record relies on that. *)

From stdpp Require Import strings.
From S2P Require Import Prelude PyStr Int64 TIR ConstFold LoopState TransformStep.

(** A state with a longer history *)
Definition extend (extra : list Step) (w : world) : world :=
  {| w_next := w_next w; w_state := with_steps (w_state w) (transform_steps (w_state w) ++ extra) |}.

(** A computation that keeps the history, and does not depend on what follows its first [n] steps *)
Definition framed {A} (n : nat) (m : M world A) : Prop :=
  ∀ extra w r w', (n ≤ length (transform_steps (w_state w)))%nat → m w = (Ok r, w') →
    transform_steps (w_state w') = transform_steps (w_state w) ∧ m (extend extra w) = (Ok r, extend extra w').

Create HintDb framed discriminated.

Section framed.
Context {A B : Type} (n : nat).

Lemma framed_ret (a : A) : framed n (mret a).
Proof. by intros extra w r w' _ [= <- <-]. Qed.

Lemma framed_lift (x : result A) : framed n (lift x).
Proof. by intros extra w r w' _ [-> ->]%lift_inv. Qed.

Lemma framed_raise e : framed n (raise e : M world A).
Proof. by intros extra w r w' _ [=]. Qed.

Lemma framed_bind (m : M world A) (k : A → M world B) : framed n m → (∀ a, framed n (k a)) → framed n (m ≫= k).
Proof.
  intros Hm Hk extra w r w' Hn (a & w1 & H1 & H2)%M_bind_inv.
  destruct (Hm extra w a w1 Hn H1) as [E1 H1']. destruct (Hk a extra w1 r w') as [E2 H2']; [by rewrite E1|done|].
  split; [by rewrite E2|]. by rewrite (M_bind_ok _ _ _ _ _ H1').
Qed.

(** A computation that reads the history in a way further steps do not change *)
Lemma framed_steps (f : list Step → result A) (k : A → M world B) :
  (∀ steps extra a, (n ≤ length steps)%nat → f steps = Ok a → f (steps ++ extra) = Ok a) → (∀ a, framed n (k a)) →
  framed n (steps ← get_steps; a ← lift (f steps); k a).
Proof.
  intros Hf Hk extra w r w' Hn H. apply M_bind_inv in H as (steps & w1 & [= <- <-] & H).
  apply M_bind_inv in H as (a & w1 & [Ha ->]%lift_inv & H). destruct (Hk a extra w r w' Hn H) as [E H'].
  split; [done|]. rewrite (M_bind_ok get_steps _ _ (transform_steps (w_state w) ++ extra) (extend extra w)) by done.
  unfold lift. rewrite (Hf _ extra _ Hn Ha). by rewrite (M_bind_ok _ _ _ a (extend extra w)).
Qed.
End framed.

Lemma framed_new_iterator n name range kind ann orig : framed n (new_iterator name range kind ann orig).
Proof. by intros extra w r w' _ [= <- <-]. Qed.
Lemma framed_get_stages n : framed n get_stages.
Proof. by intros extra w r w' _ [= <- <-]. Qed.
Lemma framed_get_attach_map n : framed n get_attach_map.
Proof. by intros extra w r w' _ [= <- <-]. Qed.
Lemma framed_get_dag n : framed n get_dag.
Proof. by intros extra w r w' _ [= <- <-]. Qed.
Lemma framed_put_stages n l : framed n (put_stages l).
Proof. by intros extra w r w' _ [= <- <-]. Qed.
Lemma framed_and_concrete n b : framed n (and_concrete b).
Proof. by intros extra w r w' _ [= <- <-]. Qed.
Lemma framed_finish_stages n start offset ops : framed n (finish_stages start offset ops).
Proof. by intros extra w r w' _ [= <- <-]. Qed.
Lemma framed_set_attach_map n f : framed n (set_attach_map f).
Proof.
  intros extra w r w' _ H. unfold set_attach_map in *. apply M_bind_inv in H as (s & w1 & [= <- <-] & H).
  apply M_bind_inv in H as (m & w1 & [Hm ->]%lift_inv & [= <- <-]). split; [done|].
  rewrite (M_bind_ok _ _ _ (w_state (extend extra w)) (extend extra w)) by done. unfold lift. cbn. by rewrite Hm.
Qed.

#[export] Hint Resolve framed_ret framed_lift framed_raise framed_new_iterator framed_get_stages framed_get_attach_map
  framed_get_dag framed_put_stages framed_and_concrete framed_finish_stages framed_set_attach_map : framed.

(** Compositions of framed computations *)
Ltac framed := repeat first
  [ progress intros | by eauto with framed | apply framed_bind | case_match ].

Lemma framed_get_stage n i : framed n (get_stage i).
Proof. unfold get_stage. framed. Qed.
Lemma framed_set_stage n i st : framed n (set_stage i st).
Proof. unfold set_stage. framed. Qed.
Lemma framed_mmap {A B} n (f : A → M world B) l : (∀ a, framed n (f a)) → framed n (mmap f l).
Proof. intros Hf. induction l as [|a l IH]; cbn [mmap]; framed. Qed.
#[export] Hint Resolve framed_get_stage framed_set_stage framed_mmap : framed.

Lemma framed_new_stage n op : framed n (new_stage op).
Proof. unfold new_stage. framed. Qed.
Lemma framed_forget_ranges n iters : framed n (forget_ranges iters).
Proof. unfold forget_ranges. framed. Qed.
Lemma framed_split_loop n it parts : ∀ t, framed n (split_loop it parts t).
Proof. induction parts as [|[i l] parts IH]; intros t; cbn [split_loop]; framed. Qed.
#[export] Hint Resolve framed_new_stage framed_forget_ranges framed_split_loop : framed.

Lemma framed_split n stage_id iter_id lengths io : framed n (ApplySplitToState stage_id iter_id lengths io).
Proof. unfold ApplySplitToState. framed. Qed.
#[export] Hint Resolve framed_split : framed.

(** ** Reading the history *)

Lemma get_split_lengths_app steps extra i l : get_split_lengths steps i = Ok l → get_split_lengths (steps ++ extra) i = Ok l.
Proof.
  unfold get_split_lengths. intros (? & Hi%py_assert_ok & H)%result_bind_ok. apply andb_prop in Hi as [Hi1 Hi2%Z.ltb_lt].
  rewrite Hi1, (proj2 (Z.ltb_lt _ _)) by (rewrite length_app; lia). cbn. apply Z.leb_le in Hi1.
  unfold arr_get in *. rewrite (proj2 (Z.leb_le 0 i) Hi1) in *. rewrite lookup_app_l by lia. exact H.
Qed.

Lemma FollowSplit_app src n steps extra l : FollowSplit_ExtractSplitLengths src n steps = Ok l →
  FollowSplit_ExtractSplitLengths src n (steps ++ extra) = Ok l.
Proof.
  unfold FollowSplit_ExtractSplitLengths. intros (ps & Hps & H)%result_bind_ok.
  by rewrite (get_split_lengths_app _ _ _ _ Hps).
Qed.

Lemma FollowFusedSplit_app srcs level steps extra : ∀ acc l, FollowFusedSplit_ExtractSplitLength acc srcs level steps = Ok l →
  FollowFusedSplit_ExtractSplitLength acc srcs level (steps ++ extra) = Ok l.
Proof.
  induction srcs as [|src srcs IH]; intros acc l; cbn [FollowFusedSplit_ExtractSplitLength]; [done|].
  intros (ps & Hps & H)%result_bind_ok. rewrite (get_split_lengths_app _ _ _ _ Hps). cbn.
  apply result_bind_ok in H as (f & Hf & H). rewrite Hf. cbn. destruct f; [|done].
  apply result_bind_ok in H as (acc' & Ha & H). rewrite Ha. cbn. by apply IH.
Qed.

Lemma GetFormer_app cur steps extra l : (S cur ≤ length steps)%nat → GetFormerStageModifiableSteps cur steps = Ok l →
  GetFormerStageModifiableSteps cur (steps ++ extra) = Ok l.
Proof. intros Hn. unfold GetFormerStageModifiableSteps. by rewrite take_app_le. Qed.

Lemma get_stage_inv i w st w' : get_stage i w = (Ok st, w') → w' = w ∧ arr_get (stages (w_state w)) i = Ok st.
Proof. unfold get_stage. intros (l & w1 & [= <- <-] & [? ->]%lift_inv)%M_bind_inv. done. Qed.

Lemma push_step_run {A} step (k : nat → M world A) w : (push_step step ≫= k) w = k (length (transform_steps (w_state w))) (extend [step] w).
Proof. done. Qed.

(** The part of a method before the step is recorded *)
Ltac before_step H := repeat
  match type of H with
  | (get_stage _ ≫= _) _ = _ => apply M_bind_inv in H as (? & ? & [-> _]%get_stage_inv & H)
  | (lift _ ≫= _) _ = _ => apply M_bind_inv in H as (? & ? & [_ ->]%lift_inv & H)
  | (push_step _ ≫= _) _ = _ => rewrite push_step_run in H
  end.

Section dag.
Variable dag_ops : list Operation.
Variable ReplayAndGetDAG : list Step → result (list Operation).
Abbreviation apply_step := (StepApplyToState dag_ops ReplayAndGetDAG).

Lemma framed_replayed_ops {B} cur (k : list Operation → M world B) : (∀ ops, framed (S cur) (k ops)) →
  framed (S cur) (replayed_ops ReplayAndGetDAG cur ≫= k).
Proof.
  intros Hk. apply framed_bind; [|done]. unfold replayed_ops. apply framed_steps; [|intros; apply framed_lift].
  intros steps extra l Hn. by apply GetFormer_app.
Qed.

(** Applying a step depends on the history up to it only. *)
Lemma framed_apply cur step : framed (S cur) (apply_step cur step).
Proof.
  destruct step; cbn [StepApplyToState].
  - unfold AnnotationStep_ApplyToState. framed.
  - unfold FuseStep_ApplyToState. framed.
  - unfold PragmaStep_ApplyToState. framed.
  - unfold ReorderStep_ApplyToState. framed.
  - framed.
  - apply framed_bind; [|framed]. apply framed_steps; [intros; by apply FollowSplit_app|framed].
  - apply framed_bind; [|framed]. apply framed_steps; [intros; by apply FollowFusedSplit_app|framed].
  - unfold StorageAlignStep_ApplyToState. framed.
  - unfold ComputeAtStep_ApplyToState. framed.
  - unfold ComputeInlineStep_ApplyToState. framed.
  - unfold ComputeRootStep_ApplyToState. framed.
  - apply framed_bind; [|framed]. unfold CacheReadStep_ApplyToState. apply framed_replayed_ops. framed.
  - apply framed_bind; [|framed]. unfold CacheWriteStep_ApplyToState. apply framed_bind; [framed|]. intros dag.
    apply framed_replayed_ops. framed.
  - apply framed_bind; [|framed]. unfold RfactorStep_ApplyToState. apply framed_bind; [framed|]. intros stage.
    apply framed_replayed_ops. framed.
Qed.

Lemma framed_mono {A} n n' (m : M world A) : (n ≤ n')%nat → framed n m → framed n' m.
Proof. intros Hn Hm extra w r w' Hl. apply Hm. lia. Qed.

Lemma framed_replay steps : ∀ cur n, (cur + length steps ≤ n)%nat → framed n (replay_from dag_ops ReplayAndGetDAG cur steps).
Proof.
  induction steps as [|step steps IH]; intros cur n Hn; cbn [replay_from]; [framed|]. cbn [length] in Hn.
  apply framed_bind; [|intros _; apply IH; lia]. apply (framed_mono (S cur)); [lia|apply framed_apply].
Qed.

Lemma replay_from_app steps steps' w w1 : ∀ cur,
  replay_from dag_ops ReplayAndGetDAG cur steps w = (Ok tt, w1) →
  replay_from dag_ops ReplayAndGetDAG cur (steps ++ steps') w
  = replay_from dag_ops ReplayAndGetDAG (cur + length steps) steps' w1.
Proof.
  revert w. induction steps as [|step steps IH]; intros w cur H; cbn [replay_from app length] in *.
  - injection H as <-. by rewrite Nat.add_0_r.
  - apply M_bind_inv in H as ([] & w2 & H1 & H). rewrite (M_bind_ok _ _ _ _ _ H1), (IH _ _ H). f_equal. lia.
Qed.

(** ** The methods of a state *)

(** Calls of the methods *)
Inductive call :=
| CallBind (stage_id : Z) (it : Iterator) (thread_type : IteratorAnnotation)
| CallParallel (stage_id : Z) (it : Iterator)
| CallUnroll (stage_id : Z) (it : Iterator) (max_unroll : Z)
| CallVectorize (stage_id : Z) (it : Iterator)
| CallFuse (stage_id : Z) (iters : list Iterator)
| CallPragma (stage_id : Z) (it : Iterator) (pragma_type : string)
| CallReorder (stage_id : Z) (order : list Iterator)
| CallSplit (stage_id : Z) (it : Iterator) (lengths : list (option Z)) (inner_to_outer : bool)
| CallFollowSplit (stage_id : Z) (it : Iterator) (src_step_id n_split : Z)
| CallFollowFusedSplit (stage_id : Z) (it : Iterator) (src_step_ids : list Z) (level : Z) (factor_or_nparts : bool)
| CallStorageAlign (stage_id : Z) (it : Iterator) (factor offset : Z)
| CallComputeAt (stage_id target_stage_id : Z) (target_iter : Iterator)
| CallComputeInline (stage_id : Z)
| CallComputeRoot (stage_id : Z)
| CallCacheRead (stage_id : Z) (scope_name : string) (reader_stage_ids : list Z)
| CallCacheWrite (stage_id : Z) (scope_name : string)
| CallRfactor (stage_id : Z) (it : Iterator) (factor_iter_id : Z).

Definition run_call (c : call) : M world unit :=
  match c with
  | CallBind i it t => _ ← bind i it t; mret tt
  | CallParallel i it => _ ← parallel i it; mret tt
  | CallUnroll i it m => _ ← unroll i it m; mret tt
  | CallVectorize i it => _ ← vectorize i it; mret tt
  | CallFuse i iters => _ ← fuse i iters; mret tt
  | CallPragma i it p => pragma i it p
  | CallReorder i order => reorder i order
  | CallSplit i it lengths io => _ ← split i it lengths io; mret tt
  | CallFollowSplit i it src n => _ ← follow_split i it src n; mret tt
  | CallFollowFusedSplit i it srcs level f => _ ← follow_fused_split i it srcs level f; mret tt
  | CallStorageAlign i it factor offset => storage_align i it factor offset
  | CallComputeAt i t it => compute_at i t it
  | CallComputeInline i => compute_inline i
  | CallComputeRoot i => compute_root i
  | CallCacheRead i scope readers => _ ← cache_read ReplayAndGetDAG i scope readers; mret tt
  | CallCacheWrite i scope => _ ← cache_write dag_ops ReplayAndGetDAG i scope; mret tt
  | CallRfactor i it f => _ ← rfactor ReplayAndGetDAG i it f; mret tt
  end.

(** The states a program can make of the initial state *)
Inductive built (w0 : world) : world → Prop :=
| built_init : built w0 w0
| built_call c w w' : built w0 w → run_call c w = (Ok tt, w') → built w0 w'.

Lemma annotate_step i it ann r w w' : annotate i it ann w = (Ok r, w') →
  w' = w ∨ ∃ step, apply_step (length (transform_steps (w_state w))) step (extend [step] w) = (Ok tt, w').
Proof.
  unfold annotate. intros H. before_step H. right. eexists (AnnotationStep _ _ _). cbn [StepApplyToState].
  by rewrite (M_bind_ok _ _ _ _ _ H).
Qed.

(** A call records one step and applies it, or does nothing. *)
Lemma run_call_step c w w' : run_call c w = (Ok tt, w') →
  w' = w ∨ ∃ step, apply_step (length (transform_steps (w_state w))) step (extend [step] w) = (Ok tt, w').
Proof.
  intros H. destruct c; cbn [run_call] in H;
    try lazymatch type of H with (_ ≫= _) _ = _ => apply M_bind_inv in H as (r & w1 & H & [= <-]) end.
  - unfold bind in H. before_step H. destruct (_ || _); [done|]. by eapply annotate_step.
  - by eapply annotate_step.
  - unfold unroll in H. before_step H. destruct (too_long _ _); [injection H as _ <-; by left|]. by eapply annotate_step.
  - by eapply annotate_step.
  - unfold fuse in H. before_step H. right. eexists (FuseStep _ _). cbn [StepApplyToState]. by rewrite (M_bind_ok _ _ _ _ _ H).
  - unfold pragma in H. before_step H. right. eexists (PragmaStep _ _ _). exact H.
  - unfold reorder in H. before_step H. right. eexists (ReorderStep _ _). exact H.
  - unfold split in H. before_step H. right. eexists (SplitStep _ _ _ _ _). cbn [StepApplyToState]. by rewrite (M_bind_ok _ _ _ _ _ H).
  - unfold follow_split in H. before_step H. right. eexists (FollowSplitStep _ _ _ _). cbn [StepApplyToState].
    by rewrite (M_bind_ok _ _ _ _ _ H).
  - unfold follow_fused_split in H. before_step H. right. eexists (FollowFusedSplitStep _ _ _ _ _). cbn [StepApplyToState].
    by rewrite (M_bind_ok _ _ _ _ _ H).
  - unfold storage_align in H. before_step H. right. eexists (StorageAlignStep _ _ _ _). exact H.
  - unfold compute_at in H. before_step H. right. eexists (ComputeAtStep _ _ _). exact H.
  - unfold compute_inline in H. before_step H. right. eexists (ComputeInlineStep _). exact H.
  - unfold compute_root in H. before_step H. right. eexists (ComputeRootStep _). exact H.
  - unfold cache_read in H. before_step H. right. eexists (CacheReadStep _ _ _). cbn [StepApplyToState].
    by rewrite (M_bind_ok _ _ _ _ _ H).
  - unfold cache_write in H. before_step H. right. eexists (CacheWriteStep _ _). cbn [StepApplyToState].
    by rewrite (M_bind_ok _ _ _ _ _ H).
  - unfold rfactor in H. before_step H. right. eexists (RfactorStep _ _ _). cbn [StepApplyToState].
    by rewrite (M_bind_ok _ _ _ _ _ H).
Qed.
Lemma extend_extend a b w : extend b (extend a w) = extend (a ++ b) w.
Proof. unfold extend. cbn. by rewrite <-app_assoc. Qed.

Lemma built_replays w0 w : transform_steps (w_state w0) = [] → built w0 w →
  replay_from dag_ops ReplayAndGetDAG 0 (transform_steps (w_state w)) (extend (transform_steps (w_state w)) w0) = (Ok tt, w).
Proof.
  intros H0. induction 1 as [|c w w' Hb IH Hc].
  - rewrite H0. cbn [replay_from]. unfold mret, M_ret, extend. rewrite app_nil_r. by destruct w0 as [n []].
  - apply run_call_step in Hc as [->|(step & Hs)]; [done|]. set (steps := transform_steps (w_state w)) in *.
    destruct (framed_apply (length steps) step [] (extend [step] w) tt w') as [E _]; [cbn; rewrite length_app; cbn; subst steps; lia|exact Hs|].
    rewrite E. change (transform_steps (w_state (extend [step] w))) with (steps ++ [step]).
    assert (replay_from dag_ops ReplayAndGetDAG 0 steps (extend (steps ++ [step]) w0) = (Ok tt, extend [step] w)) as IH'.
    { rewrite <-extend_extend. apply (framed_replay steps 0 (length steps)) with (w := extend steps w0); [done| |exact IH].
      cbn. rewrite H0. done. }
    rewrite (replay_from_app _ _ _ _ _ IH'). cbn [replay_from]. rewrite (M_bind_ok _ _ _ _ _ Hs). done.
Qed.

(** A state is determined by its history. Whatever methods were called on the initial state of
    the DAG, replaying the recorded steps from the start succeeds and gives the state itself: stages,
    iterators with their addresses, attach map and operations. *)
Theorem replay_reproduces start w0 w :
  new_state dag_ops start = (Ok tt, w0) → built w0 w →
  replay dag_ops ReplayAndGetDAG (transform_steps (w_state w)) start = (Ok tt, w).
Proof.
  intros Hinit Hb. unfold replay. rewrite (M_bind_ok _ _ _ _ _ Hinit).
  assert (transform_steps (w_state w0) = []) as H0.
  { unfold new_state in Hinit. by apply M_bind_inv in Hinit as (l & w1 & _ & [= <-]). }
  pose proof (built_replays w0 w H0 Hb) as H. unfold extend in H. by rewrite H0 in H.
Qed.
End dag.

(** *** Sample: a matrix product, tiled, with its output stage cached *)

Definition sample_range (n : Z) : Range := {| r_min := int32 0; r_extent := int32 n |}.
Definition sample_ops : list Operation :=
  [PlaceholderOp "A"; PlaceholderOp "B";
   ComputeOp "C" [("i", sample_range 512); ("j", sample_range 512)] [("k", sample_range 64)];
   ComputeOp "D" [("x", sample_range 512); ("y", sample_range 512)] []].
(** The operations after caching the writes of [C] *)
Definition sample_replay (steps : list Step) : result (list Operation) :=
  match steps with
  | [] => Ok sample_ops
  | _ => Ok [PlaceholderOp "A"; PlaceholderOp "B";
             ComputeOp "C.local" [("i", sample_range 512); ("j", sample_range 512)] [("k", sample_range 64)];
             ComputeOp "C" [("i", sample_range 512); ("j", sample_range 512)] [];
             ComputeOp "D" [("x", sample_range 512); ("y", sample_range 512)] []]
  end.
Definition sample_start : world :=
  {| w_next := 0; w_state := {| stages := []; transform_steps := []; attach_map := empty_attach_map;
                                current_compute_dag := None; concrete := true |} |}.
Definition sample_init : world := (new_state sample_ops sample_start).2.
Definition iter_of (w : world) (stage_id iter_id : nat) : Iterator :=
  default {| it_addr := 0; it_name := ""; it_range := None; it_kind := kSpecial; it_annotation := kNone; it_orig_iters := [] |}
    (st ← stages (w_state w) !! stage_id; st_iters st !! iter_id).
Definition step_world (c : call) (w : world) : world := (run_call sample_ops sample_replay c w).2.
Definition sample_1 : world := step_world (CallCacheWrite 2 "local") sample_init.
Definition sample_2 : world := step_world (CallSplit 3 (iter_of sample_1 3 0) [Some 4; Some 8] true) sample_1.
Definition sample_3 : world := step_world (CallFollowSplit 4 (iter_of sample_2 4 0) 1 2) sample_2.
Definition sample_4 : world := step_world (CallComputeAt 2 3 (iter_of sample_3 3 1)) sample_3.
Definition sample_5 : world := step_world (CallFuse 3 [iter_of sample_4 3 0; iter_of sample_4 3 1]) sample_4.

Lemma sample_built : built sample_ops sample_replay sample_init sample_5.
Proof.
  apply (built_call _ _ _ (CallFuse 3 [iter_of sample_4 3 0; iter_of sample_4 3 1]) sample_4); [|vm_compute; reflexivity].
  apply (built_call _ _ _ (CallComputeAt 2 3 (iter_of sample_3 3 1)) sample_3); [|vm_compute; reflexivity].
  apply (built_call _ _ _ (CallFollowSplit 4 (iter_of sample_2 4 0) 1 2) sample_2); [|vm_compute; reflexivity].
  apply (built_call _ _ _ (CallSplit 3 (iter_of sample_1 3 0) [Some 4; Some 8] true) sample_1); [|vm_compute; reflexivity].
  apply (built_call _ _ _ (CallCacheWrite 2 "local") sample_init); [|vm_compute; reflexivity]. apply built_init.
Qed.
