(* ===== verification/AttachMapInv.v ===== *)
(** * The attach map

    The two directions of an attach map are inverse to each other; every operation keeps that. In
    particular the entry that [DeleteStageEntry] relies on is always there. *)

From S2P Require Import Prelude LoopState.

(** Both directions say the same, and no list is empty or has repetitions. *)
Record attach_wf (m : AttachMap) : Prop := {
  wf_inverse s k : stage_to_attach_iter m !! s = Some k ↔ ∃ l, iter_to_attached_stages m !! k = Some l ∧ s ∈ l;
  wf_lists k l : iter_to_attached_stages m !! k = Some l → NoDup l ∧ l ≠ [] }.

Lemma empty_wf : attach_wf empty_attach_map.
Proof.
  split.
  - intros s k. split; [intros [=]|by intros (l & [=] & _)].
  - intros k l [=].
Qed.

(** Removing the first occurrence *)
Lemma FindAndDeleteItem_elem {A} `{EqDecision A} (l : list A) x y : NoDup l → (y ∈ FindAndDeleteItem l x ↔ y ∈ l ∧ y ≠ x).
Proof.
  induction l as [|z l IH]; intros Hl; cbn [FindAndDeleteItem]; [set_solver|].
  apply NoDup_cons in Hl as [Hz Hl]. case_decide; [set_solver|]. rewrite !elem_of_cons, IH by done. set_solver.
Qed.

Lemma FindAndDeleteItem_nodup {A} `{EqDecision A} (l : list A) x : NoDup l → NoDup (FindAndDeleteItem l x).
Proof.
  induction l as [|z l IH]; intros Hl; cbn [FindAndDeleteItem]; [done|]. pose proof Hl as [Hz Hl']%NoDup_cons.
  case_decide; [done|]. apply NoDup_cons. rewrite FindAndDeleteItem_elem by done. split; [tauto|auto].
Qed.

(** ** Deleting *)

Lemma DeleteStageEntry_ok m s : attach_wf m →
  ∃ m', DeleteStageEntry m s = Ok m' ∧ attach_wf m' ∧ stage_to_attach_iter m' = delete s (stage_to_attach_iter m).
Proof.
  intros Hm. unfold DeleteStageEntry. destruct (stage_to_attach_iter m !! s) as [k|] eqn:E.
  2: { exists m. split; [done|]. split; [done|]. by rewrite delete_id. }
  pose proof E as (l & Hl & Hs)%(wf_inverse m Hm). rewrite Hl. cbn [of_option mbind result_bind].
  pose proof (wf_lists m Hm k l Hl) as [Hnd _].
  eexists. split; [done|]. split; [|done]. split; cbn.
  - intros s' k'. rewrite lookup_delete_Some, (wf_inverse m Hm). case_decide as Hempty.
    + rewrite lookup_delete. case_decide as Hk; subst.
      * split; [|by intros (? & [=] & _)]. intros (Hs' & l' & Hl' & Hin). simplify_eq.
        assert (s' ∈ FindAndDeleteItem l s) as H by (apply FindAndDeleteItem_elem; auto). rewrite Hempty in H. set_solver.
      * split; [by intros (_ & ?)|]. intros (l' & Hl' & Hin). split; [|eauto]. intros ->.
        assert (stage_to_attach_iter m !! s' = Some k') as E' by (apply (wf_inverse m Hm); eauto). congruence.
    + rewrite lookup_insert. case_decide as Hk; subst.
      * split.
        -- intros (Hs' & l' & Hl' & Hin). simplify_eq. eexists. split; [done|]. apply FindAndDeleteItem_elem; auto.
        -- intros (l' & [= <-] & Hin%FindAndDeleteItem_elem); [|done]. destruct Hin. eauto.
      * split; [by intros (_ & ?)|]. intros (l' & Hl' & Hin). split; [|eauto]. intros ->.
        assert (stage_to_attach_iter m !! s' = Some k') as E' by (apply (wf_inverse m Hm); eauto). congruence.
  - intros k' l'. case_decide as Hempty.
    + rewrite lookup_delete. case_decide; [done|]. apply (wf_lists m Hm).
    + rewrite lookup_insert. case_decide; [|apply (wf_lists m Hm)]. intros [= <-].
      split; [by apply FindAndDeleteItem_nodup|done].
Qed.

Lemma SetComputeAtIter_ok m s t i : attach_wf m →
  ∃ m', SetComputeAtIter m s t i = Ok m' ∧ attach_wf m' ∧ stage_to_attach_iter m' = <[s := (t, i)]> (stage_to_attach_iter m).
Proof.
  intros Hm. unfold SetComputeAtIter. destruct (DeleteStageEntry_ok m s Hm) as (m1 & -> & Hm1 & E).
  eexists. split; [done|]. split; [|by cbn; rewrite E, insert_delete_eq].
  assert (∀ k l, iter_to_attached_stages m1 !! k = Some l → s ∉ l) as Hnot.
  { intros k l Hl Hin. assert (stage_to_attach_iter m1 !! s = Some k) as H by (apply (wf_inverse m1 Hm1); eauto).
    by rewrite E, lookup_delete_eq in H. }
  set (k := (t, i)). set (old := default [] (iter_to_attached_stages m1 !! k)).
  assert (∀ x, x ∈ old ↔ ∃ l, iter_to_attached_stages m1 !! k = Some l ∧ x ∈ l) as Hold.
  { intros x. unfold old. destruct (iter_to_attached_stages m1 !! k); cbn; [naive_solver|]. split; [set_solver|naive_solver]. }
  split; cbn.
  - intros s' k'. rewrite !lookup_insert. case_decide as Hs; subst.
    + split; [intros [= <-]; rewrite decide_True by done; eexists; split; [done|]; set_solver|].
      case_decide; [by subst|]. by intros (l & Hl & Hin%(Hnot _ _ Hl)).
    + rewrite (wf_inverse m1 Hm1). case_decide; [|done]. subst k'. rewrite <-Hold. split.
      * intros Hin. eexists. split; [done|]. set_solver.
      * intros (l & [= <-] & [?|?%list_elem_of_singleton]%elem_of_app); [done|congruence].
  - intros k' l'. rewrite lookup_insert. case_decide; [|apply (wf_lists m1 Hm1)]. intros [= <-]. split; [|by destruct old].
    apply NoDup_app. split; [|split; [|apply NoDup_singleton]].
    + unfold old. destruct (iter_to_attached_stages m1 !! k) as [l|] eqn:El; [by apply (wf_lists m1 Hm1) in El as [? _]|apply NoDup_nil_2].
    + intros x (l & Hl & Hx)%Hold ->%list_elem_of_singleton. by apply (Hnot _ _ Hl).
Qed.

(** ** Renaming iterators *)

(** What an iterator becomes *)
Fixpoint moved (pairs : list (IterKey * IterKey)) (k : IterKey) : IterKey :=
  match pairs with
  | [] => k
  | (original, new) :: pairs => if decide (k = original) then new else moved pairs k
  end.

Lemma moved_out pairs k : k ∉ pairs.*1 → moved pairs k = k.
Proof. induction pairs as [|[o n] pairs IH]; cbn; [done|]. rewrite not_elem_of_cons. intros [??]. rewrite decide_False by done. auto. Qed.

Lemma moved_app pre post k : moved (pre ++ post) k = if decide (k ∈ pre.*1) then moved pre k else moved post k.
Proof.
  induction pre as [|[o n] pre IH]; [by rewrite decide_False by apply not_elem_of_nil|]. cbn [moved app]. rewrite IH.
  rewrite (decide_ext (k ∈ ((o, n) :: pre).*1) (k = o ∨ k ∈ pre.*1)) by (cbn; apply elem_of_cons).
  destruct (decide (k = o)), (decide (k ∈ pre.*1)); (rewrite decide_True by auto) || (rewrite decide_False by tauto); done.
Qed.

Lemma foldl_insert_lookup (l : list Z) (k : IterKey) (m : gmap Z IterKey) s :
  foldl (λ m s, <[s := k]> m) m l !! s = if decide (s ∈ l) then Some k else m !! s.
Proof.
  revert m. induction l as [|x l IH]; intros m; cbn [foldl]; [by rewrite decide_False by apply not_elem_of_nil|].
  rewrite IH, (decide_ext (s ∈ x :: l) (s = x ∨ s ∈ l)) by apply elem_of_cons. rewrite lookup_insert.
  destruct (decide (s ∈ l)), (decide (x = s)); (rewrite decide_True by auto) || (rewrite decide_False by intuition congruence); done.
Qed.

Section update.
Variable m : AttachMap.
Hypothesis Hm : attach_wf m.

(** The maps after the pairs [pre] of the loop *)
Record updated (pre : list (IterKey * IterKey)) (p : AttachMap) (nm : gmap IterKey (list Z)) : Prop := {
  up_stage s : stage_to_attach_iter p !! s = moved pre <$> stage_to_attach_iter m !! s;
  up_iter k : iter_to_attached_stages p !! k = if decide (k ∈ pre.*1) then None else iter_to_attached_stages m !! k;
  up_new k' l : nm !! k' = Some l ↔ ∃ k, k ∈ pre.*1 ∧ iter_to_attached_stages m !! k = Some l ∧ moved pre k = k' }.

(** Attached iterators stay apart. *)
Definition apart (pairs : list (IterKey * IterKey)) : Prop :=
  ∀ k1 k2, is_Some (iter_to_attached_stages m !! k1) → is_Some (iter_to_attached_stages m !! k2) →
    moved pairs k1 = moved pairs k2 → k1 = k2.

Lemma update_step pre o n p nm : o ∉ pre.*1 →
  (∀ k, k ∈ pre.*1 → is_Some (iter_to_attached_stages m !! k) → is_Some (iter_to_attached_stages m !! o) → moved pre k ≠ n) →
  updated pre p nm →
  match iter_to_attached_stages p !! o with
  | None => updated (pre ++ [(o, n)]) p nm
  | Some l => updated (pre ++ [(o, n)])
      {| stage_to_attach_iter := foldl (λ m s, <[s := n]> m) (stage_to_attach_iter p) l;
         iter_to_attached_stages := delete o (iter_to_attached_stages p) |} (<[n := l]> nm)
  end.
Proof.
  intros Ho Hap [Hs Hi Hn]. rewrite Hi, decide_False by done.
  assert (∀ k, moved (pre ++ [(o, n)]) k = if decide (k = o) then n else moved pre k) as Hmv.
  { intros k. rewrite moved_app. cbn [moved]. destruct (decide (k = o)) as [->|Hk]; [by rewrite decide_False|].
    destruct (decide (k ∈ pre.*1)); [done|]. by rewrite moved_out. }
  assert (∀ k, k ∈ (pre ++ [(o, n)]).*1 ↔ k ∈ pre.*1 ∨ k = o) as Hin
    by (intros k; rewrite fmap_app, elem_of_app; cbn; by rewrite list_elem_of_singleton).
  destruct (iter_to_attached_stages m !! o) as [l|] eqn:El; split; cbn.
  - intros s. rewrite foldl_insert_lookup, Hs. case_decide as Hsl.
    + rewrite (proj2 (wf_inverse m Hm s o) (ex_intro _ l (conj El Hsl))). cbn. by rewrite Hmv, decide_True.
    + destruct (stage_to_attach_iter m !! s) as [k|] eqn:E; [|done]. cbn. rewrite Hmv, decide_False; [done|]. intros ->.
      apply (wf_inverse m Hm) in E as (l' & ? & ?). by simplify_eq.
  - intros k. rewrite lookup_delete, Hi. destruct (decide (o = k)) as [<-|Hk]; [by rewrite decide_True by (apply Hin; auto)|].
    destruct (decide (k ∈ pre.*1)); [by rewrite decide_True by (apply Hin; auto)|].
    rewrite decide_False; [done|]. rewrite Hin. intros [?|?]; congruence.
  - intros k' l'. rewrite lookup_insert. case_decide as Hk; subst.
    + split; [intros [= <-]; exists o; rewrite Hmv, decide_True by done; split; [apply Hin; auto|done]|].
      intros (k & [Hk| ->]%Hin & Hl' & Hmk); [|by simplify_eq]. rewrite Hmv, decide_False in Hmk by (by intros ->).
      by destruct (Hap k Hk (mk_is_Some _ _ Hl') (mk_is_Some _ _ eq_refl)).
    + rewrite Hn. split; intros (k & Hk1 & Hl' & Hmk); exists k.
      * split; [apply Hin; auto|]. split; [done|]. rewrite Hmv, decide_False; [done|]. by intros ->.
      * rewrite Hmv in Hmk. destruct (decide (k = o)); [done|]. apply Hin in Hk1 as [?|?]; done.
  - intros s. rewrite Hs. destruct (stage_to_attach_iter m !! s) as [k|] eqn:E; [|done]. cbn. rewrite Hmv, decide_False; [done|].
    intros ->. apply (wf_inverse m Hm) in E as (l' & ? & ?). by simplify_eq.
  - intros k. rewrite Hi. destruct (decide (k ∈ pre.*1)); [by rewrite decide_True by (apply Hin; auto)|].
    destruct (decide (k = o)) as [->|Hk]; [by rewrite decide_True by (apply Hin; auto)|].
    rewrite decide_False; [done|]. rewrite Hin. tauto.
  - intros k' l'. rewrite Hn. split; intros (k & Hk1 & Hl' & Hmk); exists k.
    + split; [apply Hin; auto|]. split; [done|]. rewrite Hmv, decide_False; [done|]. by intros ->.
    + apply Hin in Hk1 as [Hk1| ->]; [|congruence]. split; [done|]. split; [done|].
      rewrite Hmv, decide_False in Hmk; [done|]. by intros ->.
Qed.

Lemma update_loop_ok post : ∀ pre p nm, NoDup (pre ++ post).*1 → apart (pre ++ post) → updated pre p nm →
  updated (pre ++ post) (update_loop post p nm).1 (update_loop post p nm).2.
Proof.
  induction post as [|[o n] post IH]; intros pre p nm Hnd Hap Hup; [by rewrite app_nil_r|].
  assert (o ∉ pre.*1) as Ho.
  { rewrite fmap_app in Hnd. apply NoDup_app in Hnd as (_ & Hdisj & _). intros Hin. by apply (Hdisj o Hin); left. }
  replace (pre ++ (o, n) :: post) with ((pre ++ [(o, n)]) ++ post) in * by (by rewrite <-app_assoc).
  pose proof (update_step pre o n p nm Ho) as Hstep. cbn [update_loop].
  assert (∀ k, k ∈ pre.*1 → is_Some (iter_to_attached_stages m !! k) → is_Some (iter_to_attached_stages m !! o) → moved pre k ≠ n) as H.
  { intros k Hk Hk1 Ho1 Hmk. apply Ho. cut (o = k); [by intros ->|]. apply Hap; [done|done|]. rewrite <-app_assoc, !moved_app. cbn [moved].
    rewrite (decide_False (P := o ∈ pre.*1)), (decide_True (P := k ∈ pre.*1)), (decide_True (P := o ∈ _)), decide_True by (done || left). congruence. }
  specialize (Hstep H Hup). destruct (iter_to_attached_stages p !! o) as [l|] eqn:E; by apply IH.
Qed.

Lemma UpdateIters_ok pairs : NoDup pairs.*1 → apart pairs →
  ∃ m', UpdateIters m pairs.*1 pairs.*2 = Ok m' ∧ attach_wf m' ∧
    stage_to_attach_iter m' = moved pairs <$> stage_to_attach_iter m.
Proof.
  intros Hnd Hap. unfold UpdateIters. rewrite !length_fmap, Nat.eqb_refl. cbn [py_assert mbind result_bind].
  rewrite zip_fst_snd. pose proof (update_loop_ok pairs [] m ∅ Hnd Hap) as Hup. cbn [app] in Hup.
  destruct (update_loop pairs m ∅) as [p nm]. cbn [fst snd] in Hup.
  assert (updated [] m ∅) as H0.
  { split; cbn; [intros s; by destruct (stage_to_attach_iter m !! s)|intros k; by rewrite decide_False by apply not_elem_of_nil|].
    intros k' l. split; [done|]. by intros (k & ?%not_elem_of_nil & _). }
  specialize (Hup H0) as [Hs Hi Hn]. eexists. split; [done|].
  assert (∀ k' l, (nm ∪ iter_to_attached_stages p) !! k' = Some l ↔
            ∃ k, iter_to_attached_stages m !! k = Some l ∧ moved pairs k = k') as Hl.
  { intros k' l. rewrite lookup_union_Some_raw, Hn. split.
    - intros [(k & _ & ? & ?)|[_ H]]; [eauto|]. rewrite Hi in H. case_decide; [done|]. exists k'. by rewrite moved_out.
    - intros (k & Hk & <-). destruct (decide (k ∈ pairs.*1)) as [Hin|Hout]; [left; eauto|]. right. rewrite moved_out by done.
      rewrite Hi, decide_False by done. split; [|done]. destruct (nm !! k) as [l'|] eqn:E; [|done].
      apply Hn in E as (k2 & Hk2 & Hl2 & Hmk2). assert (k = k2) as ->; [|done].
      apply Hap; [by rewrite Hk|by rewrite Hl2|]. by rewrite Hmk2, moved_out. }
  split; [|apply map_eq; intros s; by rewrite Hs, lookup_fmap].
  split; cbn.
  - intros s k'. rewrite Hs, fmap_Some. split.
    + intros (k & (l & Hk & Hin)%(wf_inverse m Hm) & ->). exists l. split; [apply Hl; eauto|done].
    + intros (l & (k & Hk & <-)%Hl & Hin). exists k. split; [apply (wf_inverse m Hm); eauto|done].
  - intros k' l (k & Hk & _)%Hl. by apply (wf_lists m Hm) in Hk.
Qed.
End update.

(** ** Renumbering stages *)

Lemma offset_id_inj start off : 0 ≤ off → Inj (=) (=) (offset_id start off).
Proof. intros Hoff x y. unfold offset_id. destruct (Z.leb_spec start x), (Z.leb_spec start y); lia. Qed.

Lemma offset_key_inj start off : 0 ≤ off → Inj (=) (=) (offset_key start off).
Proof. intros Hoff [a b] [c d]. unfold offset_key. cbn. intros [= ->%(offset_id_inj start off Hoff) ->]. done. Qed.

(** Renumbering keys and values of a map *)
Lemma renamed_lookup {K1 A B} `{Countable K1} (f : K1 → K1) (g : A → B) `{!Inj (=) (=) f} (m : gmap K1 A) k' b :
  (list_to_map (prod_map f g <$> map_to_list m) : gmap K1 B) !! k' = Some b ↔ ∃ k a, m !! k = Some a ∧ f k = k' ∧ g a = b.
Proof.
  assert (NoDup (prod_map f g <$> map_to_list m).*1) as Hnd.
  { replace ((prod_map f g <$> map_to_list m).*1) with (f <$> (map_to_list m).*1) by (by rewrite <-!list_fmap_compose).
    apply (NoDup_fmap_2 f), NoDup_fst_map_to_list. }
  rewrite <-elem_of_list_to_map by done. rewrite list_elem_of_fmap. split.
  - intros ([k a] & [= -> ->] & Hin%elem_of_map_to_list). eauto.
  - intros (k & a & Hk & <- & <-). exists (k, a). split; [done|]. by apply elem_of_map_to_list.
Qed.

Lemma ApplyStageIdOffset_wf m start off : 0 ≤ off → attach_wf m → attach_wf (ApplyStageIdOffset m start off).
Proof.
  intros Hoff Hm. pose proof (offset_id_inj start off Hoff) as Hi. pose proof (offset_key_inj start off Hoff) as Hk. split; cbn.
  - intros s k. rewrite renamed_lookup by done. setoid_rewrite (renamed_lookup _ _ _ k). split.
    + intros (s0 & k0 & (l & Hl & Hs)%(wf_inverse m Hm) & <- & <-). eexists. split; [eauto|]. by apply list_elem_of_fmap_2.
    + intros (l & (k0 & l0 & Hl & <- & <-) & (s0 & -> & Hs)%list_elem_of_fmap). exists s0, k0. split; [|done].
      apply (wf_inverse m Hm). eauto.
  - intros k l (k0 & l0 & [Hnd Hne]%(wf_lists m Hm) & <- & <-)%renamed_lookup; [|done]. split; [by apply NoDup_fmap_2|]. by destruct l0.
Qed.

Lemma ApplyStageIdOffset_lookup m start off s k : 0 ≤ off →
  stage_to_attach_iter (ApplyStageIdOffset m start off) !! s = Some k ↔
  ∃ s0 k0, stage_to_attach_iter m !! s0 = Some k0 ∧ offset_id start off s0 = s ∧ offset_key start off k0 = k.
Proof. intros Hoff. pose proof (offset_id_inj start off Hoff). cbn. apply renamed_lookup. done. Qed.
