(* ===== verification/LoopStateInv.v ===== *)
(** * Well-formed loop states

    In every state that the methods of [State] make, and that steps of whatever history make when
    they are applied under the conditions the methods check, the attach map is consistent, attached
    stages are computed at iterators, and the iterators they are attached to exist. *)

From stdpp Require Import strings.
From S2P Require Import Prelude PyStr Int64 TIR ConstFold LoopState TransformStep StepReplay AttachMapInv.

(** Stages with an attach map *)
Record loops_wf (l : list Stage) (m : AttachMap) : Prop := {
  lw_map : attach_wf m;
  lw_stage a k : stage_to_attach_iter m !! a = Some k → ∃ st, arr_get l a = Ok st ∧ st_compute_at st = kIter;
  lw_target a t j : stage_to_attach_iter m !! a = Some (t, j) →
    ∃ st, arr_get l t = Ok st ∧ 0 ≤ j < Z.of_nat (length (st_iters st)) }.

Definition state_wf (s : State) : Prop := loops_wf (stages s) (attach_map s).

(** ** Arrays *)

Lemma arr_get_inv {A} (l : list A) i a : arr_get l i = Ok a → 0 ≤ i < Z.of_nat (length l) ∧ l !! Z.to_nat i = Some a.
Proof.
  unfold arr_get. destruct (Z.leb_spec 0 i); [|done]. destruct (l !! Z.to_nat i) as [b|] eqn:E; [|done].
  intros [= <-]. split; [|done]. apply lookup_lt_Some in E. lia.
Qed.

Lemma arr_get_lookup {A} (l : list A) i a : 0 ≤ i → l !! Z.to_nat i = Some a → arr_get l i = Ok a.
Proof. unfold arr_get. intros ->%Z.leb_le ->. done. Qed.

Lemma arr_set_inv {A} (l l' : list A) i a : arr_set l i a = Ok l' →
  0 ≤ i < Z.of_nat (length l) ∧ l' = <[Z.to_nat i := a]> l.
Proof.
  unfold arr_set. destruct (_ && _) eqn:E; [|done]. apply andb_prop in E as [?%Z.leb_le ?%Z.ltb_lt]. by intros [= <-].
Qed.

Lemma arr_get_set {A} (l l' : list A) i a j : arr_set l i a = Ok l' → arr_get l' j = if decide (j = i) then Ok a else arr_get l j.
Proof.
  intros [Hi ->]%arr_set_inv. unfold arr_get. destruct (decide (j = i)) as [->|Hj].
  - rewrite (proj2 (Z.leb_le 0 i)) by lia. rewrite list_lookup_insert_eq by lia. done.
  - destruct (Z.leb_spec 0 j); [|done]. rewrite list_lookup_insert_ne by lia. done.
Qed.

Lemma arr_insert_inv {A} (l l' : list A) i a : arr_insert l i a = Ok l' →
  0 ≤ i ≤ Z.of_nat (length l) ∧ l' = take (Z.to_nat i) l ++ a :: drop (Z.to_nat i) l.
Proof.
  unfold arr_insert. destruct (_ && _) eqn:E; [|done]. apply andb_prop in E as [?%Z.leb_le ?%Z.leb_le]. by intros [= <-].
Qed.

(** Where an element is after an insertion *)
Lemma arr_get_insert {A} (l l' : list A) i a j b : arr_insert l i a = Ok l' → arr_get l j = Ok b →
  arr_get l' (offset_id i 1 j) = Ok b.
Proof.
  intros [Hi ->]%arr_insert_inv [Hj Hb]%arr_get_inv. unfold offset_id. destruct (Z.leb_spec i j).
  - apply arr_get_lookup; [lia|]. rewrite lookup_app_r by (rewrite length_take; lia). rewrite length_take, Nat.min_l by lia.
    replace (Z.to_nat (j + 1) - Z.to_nat i)%nat with (S (Z.to_nat j - Z.to_nat i)) by lia.
    rewrite lookup_cons, lookup_drop. rewrite <-Hb. f_equal. lia.
  - apply arr_get_lookup; [lia|]. rewrite lookup_app_l by (rewrite length_take; lia). rewrite lookup_take_lt by lia. done.
Qed.

Lemma GetIndex_from_range array it : ∀ i j, GetIndex_from i array it = Ok j → i ≤ j < i + Z.of_nat (length array).
Proof.
  induction array as [|x array IH]; intros i j; cbn; [done|]. destruct (_ =? _)%nat; [intros [= <-]; lia|].
  intros ?%IH. lia.
Qed.

(** ** Replacing a stage *)

Lemma loops_wf_replace l l' m m' i st st' : loops_wf l m → arr_get l i = Ok st → arr_set l i st' = Ok l' → attach_wf m' →
  (∀ a t j, stage_to_attach_iter m' !! a = Some (t, j) →
     (if decide (a = i) then st_compute_at st' = kIter else is_Some (stage_to_attach_iter m !! a)) ∧
     (if decide (t = i) then 0 ≤ j < Z.of_nat (length (st_iters st'))
      else ∃ st, arr_get l t = Ok st ∧ 0 ≤ j < Z.of_nat (length (st_iters st)))) →
  loops_wf l' m'.
Proof.
  intros Hwf Hst Hset Hm' H. split; [done| |].
  - intros a [t j] Ha. destruct (H a t j Ha) as [Hc _]. rewrite (arr_get_set _ _ _ _ a Hset).
    case_decide; [by exists st'|]. destruct Hc as [k Hk]. by apply (lw_stage l m Hwf a k).
  - intros a t j Ha. destruct (H a t j Ha) as [_ Hc]. rewrite (arr_get_set _ _ _ _ t Hset). case_decide; [by exists st'|done].
Qed.

(** A stage that keeps its place and at least as many iterators, with the same map *)
Lemma loops_wf_stage l l' m i st st' : loops_wf l m → arr_get l i = Ok st → arr_set l i st' = Ok l' →
  st_compute_at st' = st_compute_at st → length (st_iters st') = length (st_iters st) → loops_wf l' m.
Proof.
  intros Hwf Hst Hset Hc Hn. eapply loops_wf_replace; [exact Hwf|exact Hst|exact Hset|apply Hwf|]. intros a t j Ha. split.
  - case_decide as E; [|done]. subst. destruct (lw_stage l m Hwf i _ Ha) as (st1 & H1 & H2). congruence.
  - destruct (lw_target l m Hwf a t j Ha) as (st1 & H1 & H2). case_decide; [|eauto]. subst.
    rewrite Hst in H1. injection H1 as ->. lia.
Qed.

(** The stage leaves the map. *)
Lemma loops_wf_delete l l' m m' i st st' : loops_wf l m → arr_get l i = Ok st → arr_set l i st' = Ok l' →
  length (st_iters st') = length (st_iters st) → attach_wf m' →
  stage_to_attach_iter m' = delete i (stage_to_attach_iter m) → loops_wf l' m'.
Proof.
  intros Hwf Hst Hset Hn Hm' E. eapply loops_wf_replace; [exact Hwf|exact Hst|exact Hset|exact Hm'|]. intros a t j Ha.
  rewrite E in Ha. apply lookup_delete_Some in Ha as [Hai Ha]. rewrite decide_False by done. split; [by rewrite Ha|].
  destruct (lw_target l m Hwf a t j Ha) as (st1 & H1 & H2). case_decide; [|eauto]. subst.
  rewrite Hst in H1. injection H1 as ->. lia.
Qed.

Lemma loops_wf_skip l m m' i : loops_wf l m → attach_wf m' → stage_to_attach_iter m' = delete i (stage_to_attach_iter m) →
  loops_wf l m'.
Proof.
  intros Hwf Hm' E. split; [done| |]; intros a; [intros k|intros t j]; rewrite E; intros [_ Ha]%lookup_delete_Some;
    by eapply Hwf.
Qed.

(** ** Computations that leave the state alone *)

Definition keeps {A} (m : M world A) : Prop := ∀ w r w', m w = (Ok r, w') → w_state w' = w_state w.

Lemma keeps_state_bind {A B} (m : M world A) (k : A → M world B) : keeps m → (∀ a, keeps (k a)) → keeps (m ≫= k).
Proof. intros Hm Hk w r w' (a & w1 & H1%Hm & H2%Hk)%M_bind_inv. congruence. Qed.
Lemma keeps_state_ret {A} (a : A) : keeps (mret a).
Proof. by intros w r w' [= <- <-]. Qed.
Lemma keeps_state_lift {A} (x : result A) : keeps (lift x).
Proof. by intros w r w' [-> ->]%lift_inv. Qed.
Lemma keeps_raise {A} e : keeps (raise e : M world A).
Proof. by intros w r w' [=]. Qed.
Lemma keeps_new_iterator name range kind ann orig : keeps (new_iterator name range kind ann orig).
Proof. by intros w r w' [= <- <-]. Qed.
Lemma keeps_mmap {A B} (f : A → M world B) l : (∀ a, keeps (f a)) → keeps (mmap f l).
Proof.
  intros Hf. induction l as [|a l IH]; cbn [mmap]; [apply keeps_state_ret|].
  apply keeps_state_bind; [done|]. intros b. apply keeps_state_bind; [done|]. intros bs. apply keeps_state_ret.
Qed.
Create HintDb keeps discriminated.
#[export] Hint Resolve keeps_state_ret keeps_state_lift keeps_raise keeps_new_iterator keeps_mmap : keeps.
Ltac keeps := repeat first [ progress intros | by eauto with keeps | apply keeps_state_bind | case_match ].

Lemma keeps_new_stage op : keeps (new_stage op).
Proof. unfold new_stage. keeps. Qed.
Lemma keeps_forget_ranges iters : keeps (forget_ranges iters).
Proof. unfold forget_ranges. keeps. Qed.
Lemma keeps_split_loop it parts : ∀ t, keeps (split_loop it parts t).
Proof. induction parts as [|[i l] parts IH]; intros t; cbn [split_loop]; keeps. Qed.
#[export] Hint Resolve keeps_new_stage keeps_forget_ranges keeps_split_loop : keeps.

Lemma mmap_length {A B} (f : A → M world B) l : ∀ w l' w', mmap f l w = (Ok l', w') → length l' = length l.
Proof.
  induction l as [|a l IH]; intros w l' w'; cbn [mmap]; [by intros [= <- <-]|].
  intros (b & w1 & _ & H)%M_bind_inv. apply M_bind_inv in H as (bs & w2 & Hbs & [= <- <-]). cbn. by rewrite (IH _ _ _ Hbs).
Qed.

Lemma split_loop_length it parts : ∀ t w outs t' w', split_loop it parts t w = (Ok (outs, t'), w') → length outs = length parts.
Proof.
  induction parts as [|[i l] parts IH]; intros t w outs t' w'; cbn [split_loop]; [by intros [= <- <- <-]|].
  intros ([res t1] & w1 & _ & H)%M_bind_inv. apply M_bind_inv in H as ([outs1 t2] & w2 & H & [= <- <- <-]).
  cbn. by rewrite (IH _ _ _ _ _ H).
Qed.

Lemma set_stage_inv i st w u w' : set_stage i st w = (Ok u, w') →
  ∃ l, arr_set (stages (w_state w)) i st = Ok l ∧ w_state w' = with_stages (w_state w) l.
Proof.
  unfold set_stage. intros (l & w1 & [= <- <-] & H)%M_bind_inv. apply M_bind_inv in H as (l' & w1 & [Hl ->]%lift_inv & [= <- <-]).
  eauto.
Qed.

Lemma set_attach_map_inv f w u w' : set_attach_map f w = (Ok u, w') →
  ∃ m, f (attach_map (w_state w)) = Ok m ∧ w_state w' = with_attach_map (w_state w) m.
Proof.
  unfold set_attach_map. intros (s & w1 & [= <- <-] & H)%M_bind_inv. apply M_bind_inv in H as (m & w1 & [Hm ->]%lift_inv & [= <- <-]).
  eauto.
Qed.

(** Invert the next steps of a run. *)
Ltac minvert H :=
  repeat match type of H with
  | (get_stage _ ≫= _) _ = _ => let st := fresh "st" in let Hst := fresh "Hst" in apply M_bind_inv in H as (st & ? & [-> Hst]%get_stage_inv & H)
  | (get_attach_map ≫= _) _ = _ => apply M_bind_inv in H as (? & ? & [= <- <-] & H)
  | (get_stages ≫= _) _ = _ => apply M_bind_inv in H as (? & ? & [= <- <-] & H)
  | (get_steps ≫= _) _ = _ => apply M_bind_inv in H as (? & ? & [= <- <-] & H)
  | (get_dag ≫= _) _ = _ => apply M_bind_inv in H as (? & ? & [= <- <-] & H)
  | (lift _ ≫= _) _ = _ => let x := fresh "x" in let Hx := fresh "Hx" in apply M_bind_inv in H as (x & ? & [Hx ->]%lift_inv & H)
  | mret _ _ = _ => injection H as ? ?; subst
  end.

(** ** Steps on a single stage *)

Lemma annotation_wf i j ann w r w' : AnnotationStep_ApplyToState i j ann w = (Ok r, w') → state_wf (w_state w) → state_wf (w_state w').
Proof.
  unfold AnnotationStep_ApplyToState. intros H Hwf. minvert H. apply M_bind_inv in H as (it & w1 & Hk%keeps_new_iterator & H).
  minvert H. apply M_bind_inv in H as (u & w2 & Hset & [= <- <-]). apply set_stage_inv in Hset as (l & Hl & ->).
  rewrite Hk in Hl. unfold state_wf. cbn. rewrite Hk. eapply loops_wf_stage; [exact Hwf|exact Hst|exact Hl|done|].
  cbn. apply arr_set_inv in Hx1 as [_ ->]. by rewrite length_insert.
Qed.

Lemma pragma_wf i j p w r w' : PragmaStep_ApplyToState i j p w = (Ok r, w') → state_wf (w_state w) → state_wf (w_state w').
Proof.
  unfold PragmaStep_ApplyToState. intros H Hwf. case_decide.
  - apply set_attach_map_inv in H as (m & Hm & ->). destruct (DeleteStageEntry_ok _ i (lw_map _ _ Hwf)) as (m' & E & Hm' & Es).
    unfold DeleteStage in Hm. assert (m = m') as -> by congruence. by eapply loops_wf_skip.
  - destruct (StrStartsWith _ _); [|done]. minvert H. apply set_stage_inv in H as (l & Hl & ->). by eapply loops_wf_stage.
Qed.

Lemma reorder_wf i ids w r w' : ReorderStep_ApplyToState i ids w = (Ok r, w') →
  (∀ st, arr_get (stages (w_state w)) i = Ok st → length ids = length (st_iters st)) →
  state_wf (w_state w) → state_wf (w_state w').
Proof.
  unfold ReorderStep_ApplyToState. intros H Hids Hwf. minvert H. apply set_stage_inv in H as (l & Hl & ->).
  eapply loops_wf_stage; [exact Hwf|exact Hst|exact Hl|done|]. cbn. rewrite (mmapr_length _ _ _ Hx). by apply Hids.
Qed.

Lemma storage_align_wf i offset w r w' : StorageAlignStep_ApplyToState i offset w = (Ok r, w') →
  state_wf (w_state w) → state_wf (w_state w').
Proof.
  unfold StorageAlignStep_ApplyToState. intros H Hwf. minvert H. apply set_stage_inv in H as (l & Hl & ->). by eapply loops_wf_stage.
Qed.

(** ** Steps on several stages *)

Lemma compute_at_wf i t j w r w' : ComputeAtStep_ApplyToState i t j w = (Ok r, w') →
  (∃ st, arr_get (stages (w_state w)) t = Ok st ∧ 0 ≤ j < Z.of_nat (length (st_iters st))) →
  state_wf (w_state w) → state_wf (w_state w').
Proof.
  unfold ComputeAtStep_ApplyToState. intros H (tst & Ht & Hj) Hwf. minvert H. apply M_bind_inv in H as (iters & w1 & Hit & H).
  pose proof (keeps_forget_ranges _ _ _ _ Hit) as Hk. apply mmap_length in Hit.
  apply M_bind_inv in H as (u & w2 & (l & Hl & Hw2)%set_stage_inv & (m & Hm & ->)%set_attach_map_inv).
  rewrite Hk in Hl. rewrite Hw2, Hk in *. cbn in Hm.
  destruct (SetComputeAtIter_ok _ i t j (lw_map _ _ Hwf)) as (m' & E & Hm' & Es). assert (m = m') as -> by congruence.
  eapply loops_wf_replace; [exact Hwf|exact Hst|exact Hl|exact Hm'|]. cbn [st_iters with_iters with_compute_at st_compute_at].
  intros a t' j'. cbn [attach_map with_attach_map]. rewrite Es. destruct (decide (a = i)) as [->|Ha].
  - rewrite lookup_insert_eq. intros [= <- <-]. split; [done|]. case_decide; [|eauto]. subst.
    rewrite Hst in Ht. injection Ht as ->. lia.
  - rewrite lookup_insert_ne by done. intros Ha'. split; [by rewrite Ha'|].
    destruct (lw_target _ _ Hwf a t' j' Ha') as (st1 & H1 & H2). case_decide; [|eauto]. subst.
    rewrite Hst in H1. injection H1 as ->. lia.
Qed.

Lemma compute_inline_wf i w r w' : ComputeInlineStep_ApplyToState i w = (Ok r, w') → state_wf (w_state w) → state_wf (w_state w').
Proof.
  unfold ComputeInlineStep_ApplyToState. intros H Hwf. minvert H.
  apply M_bind_inv in H as (u & w2 & (l & Hl & Hw2)%set_stage_inv & (m & Hm & ->)%set_attach_map_inv). rewrite Hw2 in *. cbn in Hm.
  destruct (DeleteStageEntry_ok _ i (lw_map _ _ Hwf)) as (m' & E & Hm' & Es). unfold DeleteStage in Hm. assert (m = m') as -> by congruence.
  by eapply loops_wf_delete.
Qed.

Lemma compute_root_wf i w r w' : ComputeRootStep_ApplyToState i w = (Ok r, w') → state_wf (w_state w) → state_wf (w_state w').
Proof.
  unfold ComputeRootStep_ApplyToState. intros H Hwf. minvert H. apply M_bind_inv in H as (iters & w1 & Hit & H).
  pose proof (keeps_forget_ranges _ _ _ _ Hit) as Hk. apply mmap_length in Hit.
  apply M_bind_inv in H as (u & w2 & (l & Hl & Hw2)%set_stage_inv & (m & Hm & ->)%set_attach_map_inv).
  rewrite Hk in Hl. rewrite Hw2, Hk in *. cbn in Hm.
  destruct (DeleteStageEntry_ok _ i (lw_map _ _ Hwf)) as (m' & E & Hm' & Es). unfold DeleteStage in Hm. assert (m = m') as -> by congruence.
  by eapply loops_wf_delete.
Qed.

(** ** Steps that move iterators *)

(** Moves inside one stage *)
Lemma moved_stage s (g : Z → Z) l t k :
  moved ((λ i, ((s, i), (s, g i))) <$> l) (t, k) = if decide (t = s ∧ k ∈ l) then (s, g k) else (t, k).
Proof.
  induction l as [|x l IH]; cbn [fmap list_fmap moved]; [by rewrite decide_False by set_solver|]. rewrite IH.
  destruct (decide ((t, k) = (s, x))) as [[= -> ->]|Hk]; [by rewrite decide_True by set_solver|].
  destruct (decide (t = s ∧ k ∈ l)) as [[-> ?]|]; [by rewrite decide_True by set_solver|].
  rewrite decide_False; [done|]. intros [-> [->|?]%elem_of_cons]; [done|tauto].
Qed.

(** The map after iterators of one stage moved and the stage was replaced *)
Lemma loops_wf_move l l' m m' i st st' (g : Z → Z) ids : loops_wf l m → arr_get l i = Ok st → arr_set l i st' = Ok l' →
  st_compute_at st' = st_compute_at st → NoDup ids →
  (∀ j k, is_Some (iter_to_attached_stages m !! (i, j)) → is_Some (iter_to_attached_stages m !! (i, k)) →
     (if decide (j ∈ ids) then g j else j) = (if decide (k ∈ ids) then g k else k) → j = k) →
  (∀ j, is_Some (iter_to_attached_stages m !! (i, j)) → 0 ≤ j < Z.of_nat (length (st_iters st)) →
     0 ≤ (if decide (j ∈ ids) then g j else j) < Z.of_nat (length (st_iters st'))) →
  let pairs := (λ j, ((i, j), (i, g j))) <$> ids in
  UpdateIters m pairs.*1 pairs.*2 = Ok m' → loops_wf l' m'.
Proof.
  intros Hwf Hst Hset Hc Hnd Hinj Hrange pairs H.
  assert (∀ t k, moved pairs (t, k) = (t, if decide (t = i ∧ k ∈ ids) then g k else k)) as Hmv
    by (intros t k; unfold pairs; rewrite moved_stage; case_decide as E; [by destruct E as [-> _]|done]).
  destruct (UpdateIters_ok m (lw_map _ _ Hwf) pairs) as (m1 & E & Hm1 & Es).
  { unfold pairs. rewrite <-list_fmap_compose. apply NoDup_fmap_2; [|done]. by intros ? ? [= ->]. }
  { intros [t1 k1] [t2 k2] H1 H2. rewrite !Hmv. intros [= <- Hk]. f_equal.
    destruct (decide (t1 = i)) as [->|Ht].
    - apply Hinj; [done..|]. rewrite (decide_ext (i = i ∧ k1 ∈ ids) (k1 ∈ ids)), (decide_ext (i = i ∧ k2 ∈ ids) (k2 ∈ ids)) in Hk by tauto. done.
    - rewrite !decide_False in Hk by tauto. done. }
  assert (m' = m1) as -> by congruence.
  eapply loops_wf_replace; [exact Hwf|exact Hst|exact Hset|exact Hm1|]. intros a t j. rewrite Es, lookup_fmap.
  intros ([t0 j0] & Ha & Hk)%fmap_Some. rewrite Hmv in Hk. injection Hk as -> ->. split.
  - case_decide; [|by rewrite Ha]. subst. destruct (lw_stage _ _ Hwf i _ Ha) as (st1 & H1 & H2). congruence.
  - destruct (lw_target _ _ Hwf a t0 j0 Ha) as (st1 & H1 & H2). destruct (decide (t0 = i)) as [->|Ht].
    + rewrite Hst in H1. injection H1 as <-. rewrite (decide_ext (i = i ∧ j0 ∈ ids) (j0 ∈ ids)) by tauto. apply Hrange; [|done].
      apply (wf_inverse _ (lw_map _ _ Hwf)) in Ha as (l0 & Hl0 & _). by rewrite Hl0.
    + exists st1. rewrite decide_False by tauto. done.
Qed.

Lemma attached_range l m i st c lc : loops_wf l m → arr_get l i = Ok st → iter_to_attached_stages m !! (i, c) = Some lc →
  0 ≤ c < Z.of_nat (length (st_iters st)).
Proof.
  intros Hwf Hst Hc. destruct (wf_lists _ (lw_map _ _ Hwf) _ _ Hc) as [_ Hne]. destruct lc as [|s lc]; [done|].
  assert (stage_to_attach_iter m !! s = Some (i, c)) as Hs by (apply (wf_inverse _ (lw_map _ _ Hwf)); eexists; split; [done|left]).
  destruct (lw_target _ _ Hwf s i c Hs) as (st1 & H1 & H2). rewrite Hst in H1. by injection H1 as <-.
Qed.

Lemma split_wf i j lengths io w r w' : ApplySplitToState i j lengths io w = (Ok r, w') → state_wf (w_state w) → state_wf (w_state w').
Proof.
  unfold ApplySplitToState. intros H Hwf. minvert H. apply M_bind_inv in H as ([outs t] & w1 & Hloop & H).
  pose proof (keeps_split_loop _ _ _ _ _ _ Hloop) as Hk1. apply split_loop_length in Hloop.
  assert (length (split_parts lengths io) = length lengths) as Hparts
    by (unfold split_parts; destruct io; by rewrite ?length_reverse, length_imap).
  apply M_bind_inv in H as (last & w2 & Hk2%keeps_new_iterator & H).
  apply M_bind_inv in H as (u & w3 & (l & Hl & Hw3)%set_stage_inv & H).
  apply M_bind_inv in H as (u' & w4 & [= _ <-] & H). apply M_bind_inv in H as (u'' & w5 & (m & Hm & Hw5)%set_attach_map_inv & [= <- <-]).
  rewrite Hw5. rewrite Hk2, Hk1 in Hl, Hw3. cbn in Hm |- *. rewrite Hw3 in *. cbn in Hm |- *. unfold state_wf. cbn.
  apply arr_get_inv in Hx as [Hj _]. set (n := Z.of_nat (length (st_iters st))) in *.
  assert (∀ c, (if decide (c ∈ seqZ j (n - j)) then c + Z.of_nat (length lengths) else c)
               = if decide (j ≤ c < n) then c + Z.of_nat (length lengths) else c) as Hseq
    by (intros c; apply decide_ext; rewrite elem_of_seqZ; lia).
  eapply loops_wf_move; [exact Hwf|exact Hst|exact Hl|done|apply NoDup_seqZ| | |exact Hm]; cbn [st_iters with_iters].
  - intros a b. rewrite !Hseq. intros [la Ha] [lb Hb].
    pose proof (attached_range _ _ _ _ _ _ Hwf Hst Ha). pose proof (attached_range _ _ _ _ _ _ Hwf Hst Hb). repeat case_decide; unfold n in *; lia.
  - intros a _ Ha. rewrite Hseq, !length_app, length_take, length_drop.
    assert (length (if io then reverse (outs ++ [last]) else outs ++ [last]) = S (length lengths)) as ->
      by (destruct io; rewrite ?length_reverse, length_app; cbn; lia).
    case_decide; unfold n in *; lia.
Qed.

(** *** Fusing *)

Lemma fuse_loop_inv i st attached ids : ∀ prev f f', fuse_loop i st attached prev ids f = Ok f' →
  (∀ p, prev = Some p → ids = seqZ (p + 1) (Z.of_nat (length ids))) ∧
  (∀ x, head ids = Some x → ids = seqZ x (Z.of_nat (length ids))) ∧
  (∀ x, x ∈ ids → 0 ≤ x < Z.of_nat (length (st_iters st))) ∧
  (∀ x, x ∈ ids → last ids ≠ Some x → attached !! (i, x) = None).
Proof.
  induction ids as [|id ids IH]; intros prev f f'; cbn [fuse_loop]; [intros _; split_and!; set_solver|].
  intros H. apply result_bind_ok in H as (u & Hp & H). apply result_bind_ok in H as (u' & Ha & H).
  apply result_bind_ok in H as (it & [Hit _]%arr_get_inv & H). apply result_bind_ok in H as (e & _ & H).
  apply IH in H as (H1 & _ & H3 & H4). specialize (H1 id eq_refl).
  assert (id :: ids = seqZ id (Z.of_nat (length (id :: ids)))) as Hseq.
  { cbn [length]. rewrite seqZ_cons by lia. rewrite H1 at 1. f_equal. f_equal; lia. }
  split; [|split; [|split]].
  - intros p ->. apply py_assert_ok, Z.eqb_eq in Hp as ->. exact Hseq.
  - intros x [= <-]. exact Hseq.
  - intros x [->|Hx]%elem_of_cons; [done|by apply H3].
  - intros x [->|Hx]%elem_of_cons Hlast.
    + destruct (decide (ids = [])) as [->|Hne]; [by cbn in Hlast|]. by destruct (attached !! (i, id)).
    + apply H4; [done|]. intros Hl. apply Hlast. rewrite last_cons. by rewrite Hl.
Qed.

Lemma fuse_moves_eq i b e n : fuse_moves i b e n =
  (λ j, ((i, j), (i, if e <? j then j - e + b else b))) <$> filter (λ j, b < j) (seqZ 0 (Z.of_nat n)).
Proof.
  assert (seqZ 0 (Z.of_nat n) = Z.of_nat <$> seq 0 n) as -> by (unfold seqZ; rewrite Nat2Z.id; apply list_fmap_ext; lia).
  unfold fuse_moves.
  induction (seq 0 n) as [|x l IH]; [done|]. cbn [omap list_omap fmap list_fmap]. rewrite filter_cons.
  destruct (Z.leb_spec (Z.of_nat x) b).
  - rewrite decide_False by lia. apply IH.
  - rewrite decide_True by lia. cbn [fmap list_fmap]. destruct (e <? Z.of_nat x); f_equal; apply IH.
Qed.

Lemma fuse_wf i ids w r w' : FuseStep_ApplyToState i ids w = (Ok r, w') →
  (ids = [] → ∀ st, arr_get (stages (w_state w)) i = Ok st → st_iters st = []) →
  state_wf (w_state w) → state_wf (w_state w').
Proof.
  unfold FuseStep_ApplyToState. intros H Hempty Hwf. minvert H. apply M_bind_inv in H as (it & w1 & Hk%keeps_new_iterator & H).
  destruct (head ids) as [b|] eqn:Hb; [|destruct ids; [|done]].
  2: { apply M_bind_inv in H as (u & w2 & (l & Hl & Hw2)%set_stage_inv & [= <- <-]). rewrite Hw2. rewrite Hk in *.
       eapply loops_wf_replace; [exact Hwf|exact Hst|exact Hl|apply Hwf|]. intros a t j Ha. cbn in Ha.
       destruct (lw_target _ _ Hwf a t j Ha) as (st1 & H1 & H2). split.
       - case_decide; [|by rewrite Ha]. subst. destruct (lw_stage _ _ Hwf i _ Ha) as (st2 & H3 & H4). cbn. congruence.
       - case_decide; [|eauto]. subst. rewrite Hst in H1. injection H1 as <-. rewrite (Hempty eq_refl st Hst) in H2. cbn in *. lia. }
  destruct (last ids) as [e|] eqn:He; [|by apply last_None in He as ->].
  apply fuse_loop_inv in Hx as (_ & Hseq & Hrange & Hfree). specialize (Hseq b Hb).
  apply M_bind_inv in H as (u & w2 & (l & Hl & Hw2)%set_stage_inv & H).
  apply M_bind_inv in H as (u' & w3 & (m & Hm & Hw3)%set_attach_map_inv & [= <- <-]). rewrite Hw3, Hw2 in *. rewrite Hk in *.
  cbn in Hm. unfold state_wf. cbn. rewrite fuse_moves_eq in Hm. set (n := Z.of_nat (length (st_iters st))) in *.
  assert (0 ≤ b ∧ e < n ∧ e = b + Z.of_nat (length ids) - 1 ∧ b ≤ e) as (Hb0 & Hen & Hebl & Hbe).
  { assert (b ∈ ids) as Hbi by (by apply head_Some_elem_of). assert (e ∈ ids) as Hei by (by apply last_Some_elem_of).
    apply Hrange in Hbi as ?. apply Hrange in Hei as ?. destruct ids as [|x0 ids]; [done|].
    split; [lia|]. split; [lia|]. rewrite Hseq, last_lookup, length_seqZ in He. apply lookup_seqZ in He as [-> ?]. cbn in *. lia. }
  assert (∀ c lc, iter_to_attached_stages (attach_map (w_state w)) !! (i, c) = Some lc → 0 ≤ c < n ∧ (c < b ∨ e ≤ c)) as Hatt.
  { intros c lc Hc. split; [by eapply attached_range|]. destruct (decide (b ≤ c < e)); [|lia].
    rewrite Hfree in Hc; [done|rewrite Hseq; apply elem_of_seqZ; lia|]. rewrite He. intros [= ->]. lia. }
  assert (∀ c, (if decide (c ∈ filter (λ j, b < j) (seqZ 0 n)) then if e <? c then c - e + b else b else c)
               = if decide (b < c < n) then if e <? c then c - e + b else b else c) as Hif.
  { intros c. apply decide_ext. rewrite list_elem_of_filter, elem_of_seqZ. lia. }
  eapply (loops_wf_move _ _ _ _ _ _ _ (λ j, if e <? j then j - e + b else b) (filter (λ j, b < j) (seqZ 0 n)));
    [exact Hwf|exact Hst|exact Hl|done|apply NoDup_filter, NoDup_seqZ| | |exact Hm]; cbn [st_iters with_iters].
  - intros c d [lc Hc] [ld Hd]. rewrite !Hif. apply Hatt in Hc, Hd.
    repeat case_decide; destruct (Z.ltb_spec e c), (Z.ltb_spec e d); lia.
  - intros c [lc Hc] _. rewrite Hif, length_app, length_take. cbn [length]. rewrite length_drop. apply Hatt in Hc.
    case_decide; destruct (Z.ltb_spec e c); unfold n in *; lia.
Qed.

(** ** Steps that add stages *)

(** Stages that differ in their operations only *)
Definition same_loops (a b : Stage) : Prop := st_compute_at a = st_compute_at b ∧ st_iters a = st_iters b.

#[export] Instance same_loops_trans : Transitive same_loops.
Proof. intros a b c [] []. split; congruence. Qed.

Lemma arr_get_shape l l' i st : Forall2 same_loops l l' → arr_get l i = Ok st → ∃ st', arr_get l' i = Ok st' ∧ same_loops st st'.
Proof.
  intros H [Hi Hst]%arr_get_inv. destruct (Forall2_lookup_l _ _ _ _ _ H Hst) as (st' & Hst' & Hs).
  exists st'. split; [|done]. apply arr_get_lookup; [lia|done].
Qed.

Lemma loops_wf_shape l l' m : Forall2 same_loops l l' → loops_wf l m → loops_wf l' m.
Proof.
  intros H Hwf. split; [apply Hwf| |].
  - intros a k (st & Hst & Hc)%(lw_stage _ _ Hwf). destruct (arr_get_shape _ _ _ _ H Hst) as (st' & Hst' & E & _).
    exists st'. split; [done|]. congruence.
  - intros a t j (st & Hst & Hj)%(lw_target _ _ Hwf). destruct (arr_get_shape _ _ _ _ H Hst) as (st' & Hst' & _ & E).
    exists st'. split; [done|]. by rewrite <-E.
Qed.

Lemma same_loops_refl l : Forall2 same_loops l l.
Proof. by apply Forall_Forall2_diag, Forall_true. Qed.

Lemma same_loops_set l l' i st op : arr_get l i = Ok st → arr_set l i (with_op st op) = Ok l' → Forall2 same_loops l l'.
Proof.
  intros [Hi Hst]%arr_get_inv [_ ->]%arr_set_inv. rewrite <-(list_insert_id l _ _ Hst) at 1.
  apply Forall2_insert; [apply same_loops_refl|done].
Qed.

Lemma update_ops_shape ids ops : ∀ l l', update_ops ids ops l = Ok l' → Forall2 same_loops l l'.
Proof.
  induction ids as [|i ids IH]; intros l l'; cbn [update_ops]; [intros [= <-]; apply same_loops_refl|].
  intros (st & Hst & H)%result_bind_ok. apply result_bind_ok in H as (op & _ & H). apply result_bind_ok in H as (l1 & H1 & H).
  etrans; [by eapply same_loops_set|by apply IH].
Qed.

(** The map after stages were added: where the old stages are, with enough iterators *)
Lemma loops_wf_offset l l' m i off : loops_wf l m → 0 ≤ off →
  (∀ a k st, stage_to_attach_iter m !! a = Some k → arr_get l a = Ok st → st_compute_at st = kIter →
     ∃ st', arr_get l' (offset_id i off a) = Ok st' ∧ st_compute_at st' = kIter) →
  (∀ a t j st, stage_to_attach_iter m !! a = Some (t, j) → arr_get l t = Ok st →
     ∃ st', arr_get l' (offset_id i off t) = Ok st' ∧ st_iters st' = st_iters st) →
  loops_wf l' (ApplyStageIdOffset m i off).
Proof.
  intros Hwf Hoff Hs Ht. split; [apply ApplyStageIdOffset_wf; [done|apply Hwf]| |].
  - intros a k (a0 & k0 & Ha & <- & <-)%ApplyStageIdOffset_lookup; [|done].
    destruct (lw_stage _ _ Hwf _ _ Ha) as (st & Hst & Hc). by eapply Hs.
  - intros a t j (a0 & [t0 j0] & Ha & <- & [= <- <-])%ApplyStageIdOffset_lookup; [|done].
    destruct (lw_target _ _ Hwf _ _ _ Ha) as (st & Hst & Hj). destruct (Ht _ _ _ _ Ha Hst) as (st' & Hst' & E).
    exists st'. by rewrite E.
Qed.

Lemma put_stages_inv l w u w' : put_stages l w = (Ok u, w') → w_state w' = with_stages (w_state w) l.
Proof. by intros [= <- <-]. Qed.
Lemma finish_stages_inv i off ops w u w' : finish_stages i off ops w = (Ok u, w') →
  stages (w_state w') = stages (w_state w) ∧ attach_map (w_state w') = ApplyStageIdOffset (attach_map (w_state w)) i off ∧
  current_compute_dag (w_state w') = Some ops.
Proof. by intros [= <- <-]. Qed.

Section dag.
Variable dag_ops : list Operation.
Variable ReplayAndGetDAG : list Step → result (list Operation).

Lemma keeps_replayed_ops cur : keeps (replayed_ops ReplayAndGetDAG cur).
Proof.
  unfold replayed_ops. apply keeps_state_bind; [by intros w r w' [= <- <-]|]. keeps.
Qed.

Lemma cache_read_wf cur i w r w' : CacheReadStep_ApplyToState ReplayAndGetDAG cur i w = (Ok r, w') →
  state_wf (w_state w) → state_wf (w_state w').
Proof.
  unfold CacheReadStep_ApplyToState. intros H Hwf. apply M_bind_inv in H as (ops & w1 & Hk1%keeps_replayed_ops & H).
  minvert H. apply M_bind_inv in H as (u & w2 & (l1 & Hl1 & Hw2)%set_stage_inv & H). minvert H.
  apply M_bind_inv in H as (added & w3 & Hk3%keeps_new_stage & H). minvert H.
  apply M_bind_inv in H as (u' & w4 & Hw4%put_stages_inv & H).
  apply M_bind_inv in H as (u'' & w5 & (E1 & E2 & _)%finish_stages_inv & [= <- <-]).
  unfold state_wf. rewrite E1, E2, Hw4. cbn. rewrite Hk3, Hw2, Hk1 in *. cbn in *.
  eapply loops_wf_shape; [by eapply update_ops_shape|].
  assert (loops_wf l1 (attach_map (w_state w))) as Hwf1 by (eapply loops_wf_shape; [by eapply same_loops_set|exact Hwf]).
  apply (loops_wf_offset l1); [exact Hwf1|done| |].
  - intros a k st' _ Ha Hc. exists st'. split; [|done]. by eapply arr_get_insert.
  - intros a t j st' _ Ht. exists st'. split; [|done]. by eapply arr_get_insert.
Qed.

(** No stage is computed at an iterator of the stage. *)
Definition no_consumers (m : AttachMap) (i : Z) : Prop := ∀ a j, stage_to_attach_iter m !! a ≠ Some (i, j).

(** An old stage, other than the one that was replaced, after an insertion and a replacement *)
Lemma arr_get_insert_set {A} (l l1 l2 : list A) i a b j c : arr_insert l i a = Ok l1 → arr_set l1 (i + 1) b = Ok l2 →
  arr_get l j = Ok c → j ≠ i → arr_get l2 (offset_id i 1 j) = Ok c.
Proof.
  intros H1 H2 Hj Hi. rewrite (arr_get_set _ _ _ _ _ H2), decide_False; [by eapply arr_get_insert|].
  unfold offset_id. destruct (Z.leb_spec i j); lia.
Qed.

Lemma offset_twice i j : j ≠ i → offset_id (i + 2) 1 (offset_id i 1 j) = offset_id i 2 j.
Proof. unfold offset_id. intros Hj. destruct (Z.leb_spec i j); [rewrite (proj2 (Z.leb_le _ _)) by lia; lia|]. destruct (Z.leb_spec (i + 2) j); lia. Qed.

Lemma cache_write_wf cur i w r w' : CacheWriteStep_ApplyToState dag_ops ReplayAndGetDAG cur i w = (Ok r, w') →
  no_consumers (attach_map (w_state w)) i → stage_to_attach_iter (attach_map (w_state w)) !! i = None →
  (∀ ops, current_compute_dag (w_state w') = Some ops →
     (length ops ≤ length (default dag_ops (current_compute_dag (w_state w))) + 2)%nat) →
  state_wf (w_state w) → state_wf (w_state w').
Proof.
  unfold CacheWriteStep_ApplyToState. intros H Hnc Hna Hops Hwf. minvert H.
  apply M_bind_inv in H as (ops & w1 & Hk1%keeps_replayed_ops & H). minvert H.
  apply M_bind_inv in H as (added & w2 & Hk2%keeps_new_stage & H). minvert H.
  apply M_bind_inv in H as (target & w3 & Hk3%keeps_new_stage & H). minvert H.
  apply M_bind_inv in H as ([l next] & w4 & Hadd & H). minvert H.
  apply M_bind_inv in H as (u' & w5 & Hw5%put_stages_inv & H).
  apply M_bind_inv in H as (u'' & w6 & (E1 & E2 & E3)%finish_stages_inv & [= <- <-]).
  specialize (Hops _ E3). apply py_assert_ok, Z.leb_le in Hx.
  set (off := Z.of_nat (length ops) - _) in *. rewrite Hk2, Hk1 in Hx1. rewrite Hw5 in E1, E2. cbn in E1, E2.
  assert (w_state w4 = w_state w ∧ ∀ j st, arr_get (stages (w_state w)) j = Ok st → j ≠ i →
            arr_get l (offset_id i off j) = Ok st) as [Hk4 Hget].
  { destruct (Z.eqb_spec off 2) as [->|].
    - minvert Hadd. apply M_bind_inv in Hadd as (third & w7 & Hk7%keeps_new_stage & H). minvert H. split; [congruence|].
      intros j st Hj Hji. rewrite <-offset_twice by done. eapply arr_get_insert; [exact Hx6|]. by eapply arr_get_insert_set.
    - injection Hadd as <- _ <-. split; [congruence|]. intros j st Hj Hji. assert (off = 1) as -> by lia.
      by eapply arr_get_insert_set. }
  unfold state_wf. rewrite E1, E2, Hk4. eapply loops_wf_shape; [by eapply update_ops_shape|].
  apply (loops_wf_offset (stages (w_state w))); [exact Hwf|lia| |].
  - intros a k st Ha Hst Hc. exists st. split; [|done]. apply Hget; [done|]. intros ->. congruence.
  - intros a t j st Ha Hst. exists st. split; [|done]. apply Hget; [done|]. intros ->. by apply Hnc in Ha.
Qed.

Lemma rfactor_wf cur i w r w' : RfactorStep_ApplyToState ReplayAndGetDAG cur i w = (Ok r, w') →
  no_consumers (attach_map (w_state w)) i → state_wf (w_state w) → state_wf (w_state w').
Proof.
  unfold RfactorStep_ApplyToState. intros H Hnc Hwf. minvert H.
  apply M_bind_inv in H as (ops & w1 & Hk1%keeps_replayed_ops & H). minvert H.
  apply M_bind_inv in H as (added & w2 & Hk2%keeps_new_stage & H). minvert H.
  apply M_bind_inv in H as (target & w3 & Hk3%keeps_new_stage & H). minvert H.
  apply M_bind_inv in H as (u' & w5 & Hw5%put_stages_inv & H).
  apply M_bind_inv in H as (u'' & w6 & (E1 & E2 & _)%finish_stages_inv & [= <- <-]).
  unfold state_wf. rewrite E1, E2, Hw5. cbn. rewrite Hk3, Hk2, Hk1 in *.
  eapply loops_wf_shape; [by eapply update_ops_shape|]. apply (loops_wf_offset (stages (w_state w))); [exact Hwf|done| |].
  - intros a k st' Ha Hst' Hc. destruct (decide (a = i)) as [->|Hai].
    + exists (with_compute_at target (st_compute_at st)). split; [|cbn; congruence]. unfold offset_id.
      rewrite Z.leb_refl. rewrite (arr_get_set _ _ _ _ _ Hx2). by rewrite decide_True.
    + exists st'. split; [|done]. by eapply arr_get_insert_set.
  - intros a t j st' Ha Hst'. exists st'. split; [|done]. eapply arr_get_insert_set; [done..|]. intros ->. by apply Hnc in Ha.
Qed.

(** ** All states *)

(** The stage has no stage attached to it and is not attached itself, and its cache adds at most
    two operations. *)
Definition cache_alone (i : Z) (w w' : world) : Prop :=
  no_consumers (attach_map (w_state w)) i ∧ stage_to_attach_iter (attach_map (w_state w)) !! i = None ∧
  (∀ ops, current_compute_dag (w_state w') = Some ops →
     (length ops ≤ length (default dag_ops (current_compute_dag (w_state w))) + 2)%nat).

(** Uses of the methods the code is meant for: an empty list of iterators is fused only in a stage
    that has none, and only stages on which nothing depends yet are cached or factored. *)
Definition intended (c : call) (w w' : world) : Prop :=
  match c with
  | CallFuse i [] => ∀ st, arr_get (stages (w_state w)) i = Ok st → st_iters st = []
  | CallCacheWrite i _ => cache_alone i w w'
  | CallRfactor i _ _ => no_consumers (attach_map (w_state w)) i
  | _ => True
  end.

(** The same for a step that is applied without its method, as replays of recorded or edited
    histories do; the methods also see to it that a reordering names as many iterators as the stage has
    and that a stage is attached to an existing iterator. *)
Definition applicable (step : Step) (w w' : world) : Prop :=
  match step with
  | FuseStep i [] => ∀ st, arr_get (stages (w_state w)) i = Ok st → st_iters st = []
  | ReorderStep i ids => ∀ st, arr_get (stages (w_state w)) i = Ok st → length ids = length (st_iters st)
  | ComputeAtStep _ t j => ∃ st, arr_get (stages (w_state w)) t = Ok st ∧ 0 ≤ j < Z.of_nat (length (st_iters st))
  | CacheWriteStep i _ => cache_alone i w w'
  | RfactorStep i _ _ => no_consumers (attach_map (w_state w)) i
  | _ => True
  end.

(** The initial states, what the methods make of a state, what the application of a step makes of it,
    and states with another history. *)
Inductive reachable : world → Prop :=
| reach_new start w : new_state dag_ops start = (Ok tt, w) → reachable w
| reach_call c w w' : reachable w → run_call dag_ops ReplayAndGetDAG c w = (Ok tt, w') → intended c w w' → reachable w'
| reach_history steps w w' : reachable w → put_state (with_steps (w_state w) steps) w = (Ok tt, w') → reachable w'
| reach_step current step w w' : reachable w → StepApplyToState dag_ops ReplayAndGetDAG current step w = (Ok tt, w') →
    applicable step w w' → reachable w'.

Lemma StepApplyToState_wf current step w w' : StepApplyToState dag_ops ReplayAndGetDAG current step w = (Ok tt, w') →
  applicable step w w' → state_wf (w_state w) → state_wf (w_state w').
Proof.
  intros H Hi Hwf. destruct step; cbn [StepApplyToState] in H;
    try lazymatch type of H with (_ ≫= _) _ = _ => apply M_bind_inv in H as (r & w1 & H & [= <-]) end.
  - by eapply annotation_wf.
  - eapply fuse_wf; [exact H| |exact Hwf]. intros ->. exact Hi.
  - by eapply pragma_wf.
  - by eapply reorder_wf.
  - by eapply split_wf.
  - unfold FollowSplitStep_ApplyToState in H. minvert H. by eapply split_wf.
  - unfold FollowFusedSplitStep_ApplyToState in H. minvert H. by eapply split_wf.
  - by eapply storage_align_wf.
  - by eapply compute_at_wf.
  - by eapply compute_inline_wf.
  - by eapply compute_root_wf.
  - by eapply cache_read_wf.
  - destruct Hi as (? & ? & ?). by eapply cache_write_wf.
  - by eapply rfactor_wf.
Qed.

Lemma annotate_wf i it ann w r w' : annotate i it ann w = (Ok r, w') → state_wf (w_state w) → state_wf (w_state w').
Proof. unfold annotate. intros H Hwf. before_step H. by eapply annotation_wf. Qed.

Lemma GetIndices_nil array to_locate : GetIndices array to_locate = Ok [] → to_locate = [].
Proof. intros H%mmapr_length. by destruct to_locate. Qed.

Lemma run_call_wf c w w' : run_call dag_ops ReplayAndGetDAG c w = (Ok tt, w') → intended c w w' →
  state_wf (w_state w) → state_wf (w_state w').
Proof.
  intros H Hi Hwf. destruct c; cbn [run_call] in H;
    try lazymatch type of H with (_ ≫= _) _ = _ => apply M_bind_inv in H as (r & w1 & H & [= <-]) end.
  - unfold bind in H. before_step H. destruct (_ || _); [done|]. by eapply annotate_wf.
  - by eapply annotate_wf.
  - unfold unroll in H. before_step H. destruct (too_long _ _); [by injection H as _ <-|]. by eapply annotate_wf.
  - by eapply annotate_wf.
  - unfold fuse in H. minvert H. rewrite push_step_run in H. eapply fuse_wf; [exact H| |exact Hwf].
    intros ->. apply GetIndices_nil in Hx as ->. exact Hi.
  - unfold pragma in H. before_step H. by eapply pragma_wf.
  - unfold reorder in H. minvert H. rewrite push_step_run in H. eapply reorder_wf; [exact H| |exact Hwf].
    intros st'. cbn. rewrite Hst. intros [= <-]. apply mmapr_length in Hx0 as ->. by apply py_assert_ok, Nat.eqb_eq in Hx.
  - unfold split in H. before_step H. by eapply split_wf.
  - unfold follow_split, FollowSplitStep_ApplyToState in H. before_step H. minvert H. by eapply split_wf.
  - unfold follow_fused_split, FollowFusedSplitStep_ApplyToState in H. before_step H. minvert H. by eapply split_wf.
  - unfold storage_align in H. before_step H. by eapply storage_align_wf.
  - unfold compute_at in H. minvert H. rewrite push_step_run in H. eapply compute_at_wf; [exact H| |exact Hwf].
    exists st. split; [exact Hst|]. by apply GetIndex_from_range in Hx.
  - unfold compute_inline in H. before_step H. by eapply compute_inline_wf.
  - unfold compute_root in H. before_step H. by eapply compute_root_wf.
  - unfold cache_read in H. before_step H. by eapply cache_read_wf.
  - unfold cache_write in H. before_step H. destruct Hi as (? & ? & ?). by eapply cache_write_wf.
  - unfold rfactor in H. before_step H. by eapply rfactor_wf.
Qed.

(** C11: take any state that is made of the initial one by the methods of [State] and by applying
    steps directly, as the replays of recorded and of edited histories do, where no empty list of
    iterators is fused in a stage that has iterators, only stages on which nothing depends yet are
    cached or factored, and a step applied directly names as many iterators as it reorders and an
    existing iterator to attach to. In it both directions of the attach map agree, no stage is
    listed twice, an attached stage is computed at an iterator, and that iterator exists. In
    particular removing a stage from the map always finds the entry it looks for. *)
Theorem loop_state_invariant w : reachable w →
  state_wf (w_state w) ∧
  (∀ i, ∃ m, DeleteStageEntry (attach_map (w_state w)) i = Ok m ∧ stage_to_attach_iter m = delete i (stage_to_attach_iter (attach_map (w_state w)))).
Proof.
  intros Hr. assert (state_wf (w_state w)) as Hwf.
  { induction Hr as [start w H|c w w' _ IH H Hi|steps w w' _ IH [= <-]|cur step w w' _ IH H Hi];
      [|by eapply run_call_wf|done|by eapply StepApplyToState_wf].
    unfold new_state in H. apply M_bind_inv in H as (l & w1 & _ & [= <-]). split; [apply empty_wf|..]; intros ? ? [=] || intros ? ? ? [=]. }
  split; [done|]. intros i. destruct (DeleteStageEntry_ok _ i (lw_map _ _ Hwf)) as (m & ? & _ & ?). eauto.
Qed.
End dag.

(** The state after a fusion that was edited: only the outermost of the two iterators is fused. *)
Definition sample_edited : world := (StepApplyToState sample_ops sample_replay 4 (FuseStep 3 [0]) sample_4).2.

Lemma loop_state_invariant_witness :
  (stage_to_attach_iter (attach_map (w_state sample_5)) !! 2 = Some (3, 0) ∧ state_wf (w_state sample_5)) ∧
  stage_to_attach_iter (attach_map (w_state sample_edited)) !! 2 = Some (3, 1) ∧ state_wf (w_state sample_edited).
Proof.
  assert (reachable sample_ops sample_replay sample_4) as Hr.
  { apply (reach_call _ _ (CallComputeAt 2 3 (iter_of sample_3 3 1)) sample_3); [|vm_compute; reflexivity|exact I].
    apply (reach_call _ _ (CallFollowSplit 4 (iter_of sample_2 4 0) 1 2) sample_2); [|vm_compute; reflexivity|exact I].
    apply (reach_call _ _ (CallSplit 3 (iter_of sample_1 3 0) [Some 4; Some 8] true) sample_1); [|vm_compute; reflexivity|exact I].
    apply (reach_call _ _ (CallCacheWrite 2 "local") sample_init); [|vm_compute; reflexivity|].
    - apply (reach_new _ _ sample_start). vm_compute; reflexivity.
    - split; [intros a j; vm_compute; discriminate|]. split; [vm_compute; reflexivity|]. intros ops. vm_compute. intros [= <-]. cbn. lia. }
  split; (split; [vm_compute; reflexivity|]).
  - refine (proj1 (loop_state_invariant sample_ops sample_replay sample_5 _)).
    apply (reach_call _ _ (CallFuse 3 [iter_of sample_4 3 0; iter_of sample_4 3 1]) sample_4); [exact Hr|vm_compute; reflexivity|exact I].
  - refine (proj1 (loop_state_invariant sample_ops sample_replay sample_edited _)).
    apply (reach_step _ _ 4 (FuseStep 3 [0]) sample_4); [exact Hr|vm_compute; reflexivity|exact I].
Defined.

(** An attached stage outlives an empty fusion of the stage it is attached to, although the iterator
    is gone. *)
Example empty_fuse_dangles :
  let w := step_world (CallFuse 3 []) sample_4 in
  (length ∘ st_iters) <$> stages (w_state w) !! 3%nat = Some 1%nat ∧
  stage_to_attach_iter (attach_map (w_state w)) !! 2 = Some (3, 1).
Proof. by split; vm_compute. Qed.

(** Reordering moves iterators but not the stages attached to them. *)
Example reorder_keeps_places :
  let w := step_world (CallReorder 3 [iter_of sample_4 3 1; iter_of sample_4 3 0; iter_of sample_4 3 2; iter_of sample_4 3 3]) sample_4 in
  it_name (iter_of sample_4 3 1) = "i.1" ∧ stage_to_attach_iter (attach_map (w_state sample_4)) !! 2 = Some (3, 1) ∧
  it_name (iter_of w 3 1) = "i.0" ∧ stage_to_attach_iter (attach_map (w_state w)) !! 2 = Some (3, 1).
Proof. by vm_compute. Qed.
