(* ===== verification/LoopExtents.v ===== *)
(** * What splitting and fusing do to loop extents

    Splitting an iterator of constant extent into parts of given lengths leaves an outer (or, from the
    outside, an inner) loop that is just long enough; fusing multiplies. *)

From stdpp Require Import strings.
From S2P Require Import Prelude PyStr Int64 TIR ConstFold LoopState TransformStep StepReplay LoopStateInv.

(** The extent of an iterator with a constant range *)
Definition const_extent (it : Iterator) : option Z := r ← it_range it; as_imm (r_extent r).

Lemma int32_op fold op a b r : match_and_fold fold op (int32 a) (int32 b) = Ok r → ∃ o, fold (int32 a) (int32 b) = Ok o ∧ r = default (Bin op (int32 a) (int32 b)) o.
Proof. unfold match_and_fold, BinaryOpMatchTypes. cbn [dtype_of int32]. rewrite decide_True by done. cbn. intros (o & Ho & [= <-])%result_bind_ok. eauto. Qed.

Lemma made_imm dt v o : Some <$> MakeIntImm dt v = Ok o → o = Some (IntImm dt v).
Proof. destruct (MakeIntImm dt v) as [e|] eqn:E; [|done]. apply MakeIntImm_inv in E as ->. by intros [= <-]. Qed.

Lemma add_int32 a b r : add (int32 a) (int32 b) = Ok r → r = int32 (a + b).
Proof. intros (o & Ho & ->)%int32_op. unfold TryConstFold_Add in Ho. cbn [as_imm int32] in Ho. by apply result_bind_ok in Ho as (v & [-> _]%i64_inv & ->%made_imm). Qed.
Lemma sub_int32 a b r : sub (int32 a) (int32 b) = Ok r → r = int32 (a - b).
Proof. intros (o & Ho & ->)%int32_op. unfold TryConstFold_Sub in Ho. cbn [as_imm int32] in Ho. by apply result_bind_ok in Ho as (v & [-> _]%i64_inv & ->%made_imm). Qed.
Lemma mul_int32 a b r : mul (int32 a) (int32 b) = Ok r → r = int32 (a * b).
Proof. intros (o & Ho & ->)%int32_op. unfold TryConstFold_Mul in Ho. cbn [as_imm int32] in Ho. by apply result_bind_ok in Ho as (v & [-> _]%i64_inv & ->%made_imm). Qed.
Lemma indexdiv_int32 a b r : indexdiv (int32 a) (int32 b) = Ok r → r = int32 (a / b).
Proof.
  intros (? & _ & (o & Ho & ->)%int32_op)%result_bind_ok. unfold TryConstFold_FloorDiv, fold_division in Ho. cbn [as_imm int32] in Ho.
  apply result_bind_ok in Ho as (? & _ & (v & [_ ->]%floordiv_inv & ->%made_imm)%result_bind_ok). done.
Qed.

Lemma rest_extent_int32 n l r : rest_extent (int32 n) (int32 l) = Ok r → r = int32 ((n + l - 1) / l).
Proof.
  unfold rest_extent. intros (e & ->%add_int32 & (one & Hone & (d & Hd & H)%result_bind_ok)%result_bind_ok)%result_bind_ok.
  injection Hone as <-. apply sub_int32 in Hd as ->. by apply indexdiv_int32 in H.
Qed.

(** ** Splitting *)

(** What is left after dividing by the lengths one after the other, rounding up each time *)
Definition ceil_div (n l : Z) : Z := (n + l - 1) / l.

Lemma ceil_div_spec n l q : 0 < l → ceil_div n l = q ↔ n ≤ q * l < n + l.
Proof.
  intros Hl. unfold ceil_div. split; [intros <-|intros H].
  - pose proof (Z.div_mod (n + l - 1) l ltac:(lia)). pose proof (Z.mod_pos_bound (n + l - 1) l Hl). lia.
  - symmetry. apply (Z.div_unique _ _ _ (n + l - 1 - q * l)); lia.
Qed.

Lemma ceil_div_product n l p : 0 < l → 0 < p → ceil_div (ceil_div n l) p = ceil_div n (l * p).
Proof.
  intros Hl Hp. apply ceil_div_spec; [done|]. destruct (proj1 (ceil_div_spec n l _ Hl) eq_refl).
  destruct (proj1 (ceil_div_spec n (l * p) _ ltac:(lia)) eq_refl). set (a := ceil_div n l) in *. set (b := ceil_div n (l * p)) in *. nia.
Qed.

Lemma ceil_div_fold n ls : Forall (λ x, 0 < x) ls → foldl ceil_div n ls = ceil_div n (Zprod ls).
Proof.
  intros H. revert n. induction H as [|l ls Hl Hls IH]; intros n; cbn [foldl Zprod foldr].
  - unfold ceil_div. rewrite Z.div_1_r. lia.
  - rewrite IH. apply ceil_div_product; [done|]. by apply Zprod_pos.
Qed.

(** The loop over the parts makes iterators of the given lengths, and leaves the rest. *)
Lemma split_loop_extents it parts ls : parts.*2 = Some <$> ls → ∀ lo n c w outs t w',
  split_loop it parts {| ts_min := Some lo; ts_extent := Some (int32 n); ts_concrete := c |} w = (Ok (outs, t), w') →
  const_extent <$> outs = Some <$> ls ∧ (∃ lo', ts_min t = Some lo') ∧ ts_extent t = Some (int32 (foldl ceil_div n ls)) ∧ ts_concrete t = c ∧
  Forall (λ o, it_kind o = it_kind it ∧ it_annotation o = kNone) outs.
Proof.
  revert ls. induction parts as [|[i l] parts IH]; intros ls Hls lo n c w outs t w' H; destruct ls as [|x ls]; try discriminate Hls; cbn [split_loop] in H.
  - injection H as <- <- <-. cbn. by eauto 10.
  - injection Hls as -> Hls. cbn [ts_min ts_extent ts_concrete] in H.
    apply M_bind_inv in H as ([res t1] & w1 & H1 & H). apply M_bind_inv in H1 as (res' & w2 & Hres & H1).
    apply M_bind_inv in H1 as (rest & w3 & [Hrest%rest_extent_int32 ->]%lift_inv & [= <- <- <-]).
    apply M_bind_inv in H as ([outs' t'] & w4 & H & [= <- <- <-]). subst rest.
    destruct (IH ls ltac:(done) _ _ _ _ _ _ _ H) as (He & Hlo & Ht & Hc & Hk). unfold new_iterator in Hres. injection Hres as <- <-.
    split_and!; [|done..|by constructor]. cbn [fmap list_fmap]. by rewrite He.
Qed.

Lemma imap_snd {A} (f : nat → nat) (l : list A) : (imap (λ i x, (f i, x)) l).*2 = l.
Proof. revert f. induction l as [|x l IH]; intros f; cbn; [done|]. f_equal. apply (IH (f ∘ S)). Qed.

Lemma split_parts_lengths ls inner_to_outer :
  (split_parts (Some <$> ls) inner_to_outer).*2 = Some <$> (if inner_to_outer then reverse ls else ls).
Proof.
  unfold split_parts. destruct inner_to_outer.
  - by rewrite fmap_reverse, imap_snd, <-fmap_reverse.
  - apply imap_snd.
Qed.

(** C16: a split iterates over at least what the loop did. Splitting an iterator of constant extent
    into parts of positive lengths replaces it, in its place, by loops of those lengths and one more
    (the outermost, or the innermost when the lengths are given from the outside) that is just long
    enough: the new loops iterate at least as often as the old one, and by less than one round of the
    extra loop too often. They have the kind of the old one, and no annotation. *)
Theorem split_extents stage_id iter_id ls inner_to_outer w outs w' st it lo n :
  ApplySplitToState stage_id iter_id (Some <$> ls) inner_to_outer w = (Ok outs, w') →
  arr_get (stages (w_state w)) stage_id = Ok st → arr_get (st_iters st) iter_id = Ok it →
  it_range it = Some {| r_min := lo; r_extent := int32 n |} → Forall (λ l, 0 < l) ls →
  ∃ extra st',
    const_extent <$> outs = Some <$> (if inner_to_outer then extra :: ls else ls ++ [extra]) ∧
    n ≤ extra * Zprod ls < n + Zprod ls ∧
    Forall (λ o, it_kind o = it_kind it ∧ it_annotation o = kNone) outs ∧
    arr_get (stages (w_state w')) stage_id = Ok st' ∧
    st_iters st' = take (Z.to_nat iter_id) (st_iters st) ++ outs ++ drop (S (Z.to_nat iter_id)) (st_iters st) ∧
    concrete (w_state w') = concrete (w_state w).
Proof.
  unfold ApplySplitToState. intros H Hst Hit Hrange Hls. minvert H. assert (st0 = st) as -> by congruence. assert (x = it) as -> by congruence.
  apply M_bind_inv in H as ([os t] & w1 & Hloop & H). rewrite Hrange in Hloop. cbn [fmap option_fmap option_map r_min r_extent] in Hloop.
  pose proof (keeps_split_loop _ _ _ _ _ _ Hloop) as Hk1.
  apply (split_loop_extents _ _ (if inner_to_outer then reverse ls else ls)) in Hloop as (He & [lo' Hlo'] & Ht & Hc & Hkind); [|apply split_parts_lengths].
  assert (Zprod (if inner_to_outer then reverse ls else ls) = Zprod ls) as Hp by (destruct inner_to_outer; [apply Zprod_reverse|done]).
  assert (Forall (λ l, 0 < l) (if inner_to_outer then reverse ls else ls)) as Hpos by (destruct inner_to_outer; [by apply Forall_reverse|done]).
  rewrite ceil_div_fold, Hp in Ht by done. rewrite Hlo', Ht, Hc in H. apply M_bind_inv in H as (last & w2 & Hlast & H). pose proof (keeps_new_iterator _ _ _ _ _ _ _ _ Hlast) as Hk2.
  apply M_bind_inv in H as (u & w3 & (l & Hl & Hw3)%set_stage_inv & H). apply M_bind_inv in H as (u' & w4 & Hconc & H).
  apply M_bind_inv in H as (u'' & w5 & (m & Hm & Hw5)%set_attach_map_inv & H). injection H as <- <-.
  rewrite Hk2, Hk1 in *. injection Hconc as _ <-. cbn [w_state] in *. rewrite Hw3 in Hm, Hw5. unfold new_iterator in Hlast. injection Hlast as <- _.
  exists (ceil_div n (Zprod ls)). eexists. split_and!.
  - destruct inner_to_outer.
    + rewrite reverse_snoc, fmap_cons, fmap_reverse, He, <-fmap_reverse, reverse_involutive. done.
    + by rewrite !fmap_app, He.
  - apply (ceil_div_spec n (Zprod ls)); [by apply Zprod_pos|done].
  - apply (ceil_div_spec n (Zprod ls)); [by apply Zprod_pos|done].
  - destruct inner_to_outer; [apply Forall_reverse|]; (apply Forall_app; split; [done|by repeat constructor]).
  - rewrite Hw5. cbn. rewrite (arr_get_set _ _ _ _ _ Hl), decide_True by done. reflexivity.
  - replace (S (Z.to_nat iter_id)) with (Z.to_nat (iter_id + 1)); [reflexivity|]. apply arr_get_inv in Hit as [? _]. lia.
  - rewrite Hw5. cbn. by rewrite andb_true_r.
Qed.

(** ** Fusing *)

(** An iterator from somewhere, with extent [n] *)
Definition has_extent (it : Iterator) (n : Z) : Prop := ∃ lo, it_range it = Some {| r_min := lo; r_extent := int32 n |}.

(** One round of the loop *)
Lemma fuse_loop_cons stage_id st attached prev id ids f f' a es :
  fuse_loop stage_id st attached prev (id :: ids) f = Ok f' → f_extent f = Some (int32 a) → Forall2 has_extent (st_iters st) es →
  ∃ n f1, 0 ≤ id ∧ (match prev with Some p => id = p + 1 | None => True end) ∧ es !! Z.to_nat id = Some n ∧
    f_extent f1 = Some (int32 (a * n)) ∧ fuse_loop stage_id st attached (Some id) ids f1 = Ok f'.
Proof.
  cbn [fuse_loop]. intros H Ha Hes. apply result_bind_ok in H as (? & Hp & H). apply result_bind_ok in H as (? & _ & H).
  apply result_bind_ok in H as (it & [Hid Hit]%arr_get_inv & H). destruct (Forall2_lookup_l _ _ _ _ _ Hes Hit) as (n & Hn & lo & Hr).
  rewrite Hr, Ha in H. cbn [r_extent] in H. apply result_bind_ok in H as (e & He & H).
  destruct (mul (int32 a) (int32 n)) as [m|] eqn:Em; [|done]. injection He as <-. apply mul_int32 in Em as ->.
  eexists n, _. split_and!; [lia| |done| |exact H]; [|done]. destruct prev; [|done]. by apply py_assert_ok, Z.eqb_eq in Hp.
Qed.

(** The identifiers follow each other, name iterators, and the extents are multiplied. *)
Lemma fuse_loop_extents stage_id st attached prev id ids f f' a es :
  fuse_loop stage_id st attached prev (id :: ids) f = Ok f' → f_extent f = Some (int32 a) → Forall2 has_extent (st_iters st) es →
  0 ≤ id ∧ id :: ids = seqZ id (Z.of_nat (S (length ids))) ∧ (Z.to_nat id + S (length ids) ≤ length es)%nat ∧
  f_extent f' = Some (int32 (a * Zprod (take (S (length ids)) (drop (Z.to_nat id) es)))).
Proof.
  intros H Ha Hes. revert prev id f a H Ha. induction ids as [|id' ids IH]; intros prev id f a H Ha;
    destruct (fuse_loop_cons _ _ _ _ _ _ _ _ _ _ H Ha Hes) as (n & f1 & Hid & _ & Hn & Hf1 & H1); pose proof (lookup_lt_Some _ _ _ Hn) as Hlt;
    rewrite (drop_S _ _ _ Hn).
  - injection H1 as <-. split_and!; [lia| |cbn; lia|].
    + cbn. by rewrite seqZ_cons, seqZ_nil by lia.
    + rewrite Hf1. cbn. rewrite take_0. cbn. do 2 f_equal. lia.
  - destruct (fuse_loop_cons _ _ _ _ _ _ _ _ _ _ H1 Hf1 Hes) as (_ & _ & _ & -> & _).
    destruct (IH _ _ _ _ H1 Hf1) as (H0 & Hseq & Hlen & Hext). cbn [length] in *. split_and!; [lia| |lia|].
    + rewrite (seqZ_cons id) by lia. f_equal. rewrite Hseq. unfold Z.succ. f_equal. lia.
    + rewrite Hext. replace (Z.to_nat (id + 1)) with (S (Z.to_nat id)) by lia.
      change (take (S (S (length ids))) (n :: ?l)) with (n :: take (S (length ids)) l). cbn [Zprod foldr]. unfold Zprod. do 2 f_equal. ring.
Qed.

(** C17: fusing keeps the iterations. On a stage whose loops have constant extents, fusing some of them
    replaces those, which are neighbours, by a single loop, so that the stage iterates exactly as often
    as before. *)
Theorem fuse_volume stage_id ids w it w' st es :
  FuseStep_ApplyToState stage_id ids w = (Ok it, w') → ids ≠ [] →
  arr_get (stages (w_state w)) stage_id = Ok st → Forall2 has_extent (st_iters st) es →
  ∃ st' es', arr_get (stages (w_state w')) stage_id = Ok st' ∧ it ∈ st_iters st' ∧
    Forall2 has_extent (st_iters st') es' ∧ Zprod es' = Zprod es ∧
    length (st_iters st) = (length (st_iters st') + (length ids - 1))%nat.
Proof.
  unfold FuseStep_ApplyToState. intros H Hids Hst Hes. destruct ids as [|id ids]; [done|]. minvert H. assert (st0 = st) as -> by congruence.
  destruct (fuse_loop_extents _ _ _ _ _ _ _ _ _ _ Hx eq_refl Hes) as (H0 & Hseq & Hlen & Hext). rewrite Hext in H. cbn [head] in H.
  assert (last (id :: ids) = Some (id + Z.of_nat (length ids))) as Hlast.
  { rewrite Hseq, last_lookup, length_seqZ. apply lookup_seqZ. lia. }
  rewrite Hlast in H. apply M_bind_inv in H as (new & w1 & Hnew & H). pose proof (keeps_new_iterator _ _ _ _ _ _ _ _ Hnew) as Hk.
  apply M_bind_inv in H as (u & w2 & (l & Hl & Hw2)%set_stage_inv & H).
  apply M_bind_inv in H as (u' & w3 & (m & Hm & Hw3)%set_attach_map_inv & H). injection H as <- <-. rewrite Hk in *.
  set (n := Z.to_nat id) in *. replace (Z.to_nat (id + Z.of_nat (length ids) + 1)) with (n + S (length ids))%nat in * by lia.
  set (k := S (length ids)) in *. pose proof (Forall2_length _ _ _ Hes) as Hles.
  eexists _, (take n es ++ Zprod (take k (drop n es)) :: drop (n + k) es). rewrite Hw3, Hw2. cbn [stages with_attach_map with_stages].
  rewrite (arr_get_set _ _ _ _ _ Hl), decide_True by done. cbn [st_iters with_iters]. split_and!.
  - done.
  - set_solver.
  - apply Forall2_app; [by apply Forall2_take|]. constructor; [|by apply Forall2_drop]. unfold new_iterator in Hnew. injection Hnew as <- _.
    eexists. cbn. rewrite Z.mul_1_l. done.
  - rewrite <-(take_drop n es) at 4. rewrite <-(take_drop k (drop n es)) at 2. rewrite drop_drop, !Zprod_app. cbn. unfold Zprod. ring.
  - cbn. rewrite length_app, length_take. cbn [length]. rewrite length_drop. unfold k in *. cbn [length]. lia.
Qed.

(** *** Samples *)

Definition split_result : list Iterator * world :=
  let '(r, w) := ApplySplitToState 3 0 [Some 4; Some 8] true sample_1 in
  (match r with Ok l => l | Raise _ => [] end, w).
Definition sample_stage (w : world) (i : nat) : Stage :=
  default {| st_op := PlaceholderOp ""; st_op_type := kPlaceholder; st_iters := []; st_compute_at := kRoot;
             st_attrs := {| auto_unroll_max_step := 0; storage_offset := 0 |} |} (stages (w_state w) !! i).

Lemma split_extents_witness :
  const_extent <$> split_result.1 = [Some 16; Some 4; Some 8] ∧
  ∃ extra st', const_extent <$> split_result.1 = Some <$> [extra; 4; 8] ∧ 512 ≤ extra * 32 < 512 + 32 ∧
    Forall (λ o, it_kind o = kSpatial ∧ it_annotation o = kNone) split_result.1 ∧
    arr_get (stages (w_state split_result.2)) 3 = Ok st' ∧
    st_iters st' = split_result.1 ++ drop 1 (st_iters (sample_stage sample_1 3)) ∧
    concrete (w_state split_result.2) = concrete (w_state sample_1).
Proof.
  split; [vm_compute; reflexivity|].
  apply (split_extents 3 0 [4; 8] true sample_1 split_result.1 split_result.2 (sample_stage sample_1 3) (iter_of sample_1 3 0) (int32 0) 512);
    [vm_compute; reflexivity..|]. by repeat constructor.
Defined.

Definition fuse_result : Iterator * world :=
  let '(r, w) := FuseStep_ApplyToState 3 [0; 1] sample_4 in
  (match r with Ok it => it | Raise _ => iter_of sample_4 3 0 end, w).

Lemma fuse_volume_witness : ∃ st' es',
  arr_get (stages (w_state fuse_result.2)) 3 = Ok st' ∧ fuse_result.1 ∈ st_iters st' ∧
  Forall2 has_extent (st_iters st') es' ∧ Zprod es' = Zprod [16; 4; 8; 512] ∧
  length (st_iters (sample_stage sample_4 3)) = (length (st_iters st') + 1)%nat.
Proof.
  apply (fuse_volume 3 [0; 1] sample_4 fuse_result.1 fuse_result.2 (sample_stage sample_4 3) [16; 4; 8; 512]);
    [vm_compute; reflexivity|done|vm_compute; reflexivity|].
  assert (st_iters (sample_stage sample_4 3) = iter_of sample_4 3 <$> [0; 1; 2; 3]%nat) as -> by (vm_compute; reflexivity).
  cbn [fmap list_fmap]. repeat constructor; eexists; vm_compute; reflexivity.
Defined.
