(* ===== verification/DmlcJson.v ===== *)
(** * JSON text of the native code ([dmlc::JSONReader], [dmlc::JSONWriter])

    The streaming reader and writer of [dmlc/json.h], on which the native tuning records are built,
    with the stream operators [<<] and [>>] they call: integers are read at the width of [int] and a
    double is printed with six significant digits.

    The reader keeps the rest of the text and the stack [scope_counter_]; the two line counters only
    serve error messages and are left out. The writer keeps the text so far and its two stacks. A
    failed [CHECK] raises. Using the top of an empty stack is undefined; here it raises [IndexError]. *)

From Stdlib Require Import SpecFloat.
From S2P Require Import Prelude PyStr PyFloat JsonText.

(** ** The reader *)

Record reader := { is_ : text; r_scope : list nat }.

Definition set_is (t : text) (r : reader) : reader := {| is_ := t; r_scope := r_scope r |}.
Definition set_scope (sc : list nat) (r : reader) : reader := {| is_ := is_ r; r_scope := sc |}.

(** [isspace] *)
Definition isspace (c : ascii) : bool := bool_decide (code c = 32 ∨ 9 ≤ code c ≤ 13).

Fixpoint skip_space (t : text) : text :=
  match t with c :: t' => if isspace c then skip_space t' else t | [] => [] end.

Definition CHECK (c : bool) : M reader unit := lift (py_assert c).

Definition NextChar : M reader (option ascii) := λ r,
  match is_ r with [] => (Ok None, r) | c :: t => (Ok (Some c), set_is t r) end.
Definition PeekNextChar : M reader (option ascii) := λ r, (Ok (head (is_ r)), r).

Definition skip_spaces : M reader unit := modify (λ r, set_is (skip_space (is_ r)) r).
Definition NextNonSpace : M reader (option ascii) := skip_spaces ≫= λ _, NextChar.
Definition PeekNextNonSpace : M reader (option ascii) := skip_spaces ≫= λ _, PeekNextChar.

(** The characters of a string after its opening quote *)
Fixpoint read_chars (t : text) : result (text * text) :=
  match t with
  | [] => Raise ValueError
  | ch :: t =>
      if decide (ch = bslash) then
        match t with
        | [] => Raise ValueError
        | sch :: t =>
            out ← (if decide (sch = "r"%char) then Ok (chr 13)
                   else if decide (sch = "n"%char) then Ok (chr 10)
                   else if decide (sch = bslash) then Ok bslash
                   else if decide (sch = "t"%char) then Ok (chr 9)
                   else if decide (sch = dquote) then Ok dquote
                   else Raise ValueError);
            '(s, rest) ← read_chars t; Ok (out :: s, rest)
        end
      else if decide (ch = dquote) then Ok ([], t)
      else if decide (ch = chr 13 ∨ ch = chr 10) then Raise ValueError
      else '(s, rest) ← read_chars t; Ok (ch :: s, rest)
  end.

(** Running a function on the rest of the text *)
Definition on_text {A} (f : text → result (A * text)) : M reader A := λ r,
  match f (is_ r) with Ok (a, t) => (Ok a, set_is t r) | Raise e => (Raise e, r) end.

Definition ReadString : M reader string :=
  ch ← NextNonSpace;
  CHECK (bool_decide (ch = Some dquote)) ≫= λ _,
  s ← on_text read_chars;
  mret (of_chars s).

(** The sign of a number *)
Definition read_sign (t : text) : bool * text :=
  match t with
  | c :: t' => if decide (c = "-"%char) then (true, t') else if decide (c = "+"%char) then (false, t') else (false, t)
  | [] => (false, t)
  end.

Definition read_integer (t : text) : result (Z * text) :=
  let '(neg, t) := read_sign (skip_space t) in
  match span_digits t with
  | ([], _) => Raise ValueError
  | (ds, rest) => Ok ((if (neg : bool) then - digits_val ds else digits_val ds), rest)
  end.

(** [int]: 32 bits *)
Definition is_int32 (z : Z) : bool := (- 2 ^ 31 <=? z) && (z <? 2 ^ 31).

(** [is >> v] for an [int] and for a [bool]; a value that does not fit fails *)
Definition extract_int (t : text) : result (Z * text) :=
  '(z, rest) ← read_integer t; if is_int32 z then Ok (z, rest) else Raise ValueError.
Definition extract_bool (t : text) : result (bool * text) :=
  '(z, rest) ← read_integer t;
  if z =? 0 then Ok (false, rest) else if z =? 1 then Ok (true, rest) else Raise ValueError.

(** [is >> v] for a [double]: digits with an optional fraction and exponent, rounded to the nearest
    double; an exponent without digits, or a value that is too large, fails *)
Definition extract_double (t : text) : result (float * text) :=
  let '(neg, t) := read_sign (skip_space t) in
  let '(ds, t) := span_digits t in
  let '(fs, t) := match t with
                  | c :: t' => if decide (c = "."%char) then span_digits t' else ([], t)
                  | [] => ([], t)
                  end in
  if decide (ds ++ fs = []) then Raise ValueError else
  '(ex, t) ← match t with
             | c :: t' =>
                 if decide (c = "e"%char ∨ c = "E"%char) then
                   let '(eneg, t') := read_sign t' in
                   match span_digits t' with
                   | ([], _) => Raise ValueError
                   | (es, t') => Ok ((if (eneg : bool) then - digits_val es else digits_val es), t')
                   end
                 else Ok (0, t)
             | [] => Ok (0, t)
             end;
  let f := dec_float neg (digits_val (ds ++ fs)) (ex - Z.of_nat (length fs)) in
  if is_finite f then Ok (f, t) else Raise ValueError.

(** [ReadNumber<ValueType>] *)
Definition ReadNumber_int : M reader Z := on_text extract_int.
Definition ReadNumber_bool : M reader bool := on_text extract_bool.
Definition ReadNumber_double : M reader float := on_text extract_double.

Definition push_scope : M reader unit := modify (λ r, set_scope (O :: r_scope r) r).

Definition BeginObject : M reader unit :=
  ch ← NextNonSpace; CHECK (bool_decide (ch = Some "{"%char)) ≫= λ _, push_scope.
Definition BeginArray : M reader unit :=
  ch ← NextNonSpace; CHECK (bool_decide (ch = Some "["%char)) ≫= λ _, push_scope.

(** The shared part of [NextObjectItem] and [NextArrayItem]: is there another item before [close]? *)
Definition next_item (close : ascii) : M reader bool :=
  r ← get_st;
  match r_scope r with
  | [] => raise IndexError
  | c :: sc =>
      next ← (if decide (c ≠ O) then
                ch ← NextNonSpace;
                if decide (ch = None) then mret false
                else if decide (ch = Some close) then mret false
                else CHECK (bool_decide (ch = Some ","%char)) ≫= λ _, mret true
              else
                ch ← PeekNextNonSpace;
                if decide (ch = Some close) then NextChar ≫= λ _, mret false else mret true);
      if (next : bool) then modify (set_scope (S c :: sc)) ≫= λ _, mret true
      else modify (set_scope sc) ≫= λ _, mret false
  end.

Definition NextArrayItem : M reader bool := next_item "]"%char.

Definition NextObjectItem : M reader (option string) :=
  next ← next_item "}"%char;
  if (next : bool) then
    out_key ← ReadString;
    ch ← NextNonSpace;
    CHECK (bool_decide (ch = Some ":"%char)) ≫= λ _,
    mret (Some out_key)
  else mret None.

(** [while (reader->NextArrayItem()) { value = read; array->push_back(value); }]. Every round but the
    first takes a comma, so the length of the text bounds the rounds. *)
Fixpoint array_loop {A} (fuel : nat) (read : M reader A) : M reader (list A) :=
  match fuel with
  | O => raise OutOfFuel
  | S fuel =>
      s ← NextArrayItem;
      if (s : bool) then value ← read; rest ← array_loop fuel read; mret (value :: rest) else mret []
  end.

Definition read_items {A} (read : M reader A) : M reader (list A) :=
  r ← get_st; array_loop (S (S (length (is_ r)))) read.

(** [ArrayHandler::Read] *)
Definition ArrayHandler_Read {A} (read : M reader A) : M reader (list A) := BeginArray ≫= λ _, read_items read.

(** ** The writer *)

Record writer := { os_ : text; w_scope : list nat; w_multi : list bool }.

Definition Extend (t : text) : M writer unit :=
  modify (λ w, {| os_ := os_ w ++ t; w_scope := w_scope w; w_multi := w_multi w |}).

Definition write_char (ch : ascii) : text :=
  if decide (ch = chr 13) then [bslash; "r"%char]
  else if decide (ch = chr 10) then [bslash; "n"%char]
  else if decide (ch = bslash) then [bslash; bslash]
  else if decide (ch = chr 9) then [bslash; "t"%char]
  else if decide (ch = dquote) then [bslash; dquote]
  else [ch].

Definition WriteString (s : string) : M writer unit :=
  Extend [dquote] ≫= λ _, mfor (λ ch, Extend (write_char ch)) (chars s) ≫= λ _, Extend [dquote].

(** [os << v] for an integer of any width *)
Definition WriteNumber_int (z : Z) : M writer unit := Extend (chars (pretty z)).

(** [os << v] for a finite double [m * 2 ^ e]: the value as a fraction, the decimal exponent of its
    leading digit, and the first six digits, rounded to nearest with ties to even *)
Definition fraction (m : positive) (e : Z) : Z * Z :=
  if 0 <=? e then (Zpos m * 2 ^ e, 1) else (Zpos m, 2 ^ (- e)).

Definition ndigits (n : Z) : Z := Z.of_nat (length (chars (pretty n))).

Definition pow10_le (x num den : Z) : bool :=
  if 0 <=? x then 10 ^ x * den <=? num else den <=? num * 10 ^ (- x).

Definition exponent10 (num den : Z) : Z :=
  let x := ndigits num - ndigits den in if pow10_le x num den then x else x - 1.

Definition round_div (num den : Z) : Z :=
  let q := num / den in
  let r := num mod den in
  if (den <? 2 * r) || ((2 * r =? den) && Z.odd q) then q + 1 else q.

Definition six_digits (num den : Z) : Z * Z :=
  let x := exponent10 num den in
  let d := if x <=? 5 then round_div (num * 10 ^ (5 - x)) den else round_div num (den * 10 ^ (x - 5)) in
  if d =? 10 ^ 6 then (10 ^ 5, x + 1) else (d, x).

(** [%g] drops the zeros at the end of the fraction *)
Fixpoint skip_zeros (t : text) : text :=
  match t with c :: t' => if decide (c = "0"%char) then skip_zeros t' else t | [] => [] end.
Definition strip_zeros (t : text) : text := rev (skip_zeros (rev t)).

(** The digits before and after the point, and the exponent if there is one *)
Definition general_format (d x : Z) : text * text * option Z :=
  let ds := chars (pretty d) in
  if (x <? -4) || (6 <=? x) then (take 1 ds, strip_zeros (drop 1 ds), Some x)
  else if 0 <=? x then (take (Z.to_nat (x + 1)) ds, strip_zeros (drop (Z.to_nat (x + 1)) ds), None)
  else (["0"%char], replicate (Z.to_nat (- x - 1)) "0"%char ++ strip_zeros ds, None).

Definition double_format (f : float) : bool * (text * text * option Z) :=
  match f with
  | S754_finite s m e =>
      let '(num, den) := fraction m e in
      let '(d, x) := six_digits num den in (s, general_format d x)
  | S754_zero s | S754_infinity s => (s, (["0"%char], [], None))
  | S754_nan => (false, (["0"%char], [], None))
  end.

(** An exponent has a sign and at least two digits. *)
Definition exponent_text (x : Z) : text :=
  "e"%char :: (if x <? 0 then "-"%char else "+"%char) ::
  (if Z.abs x <? 10 then ["0"%char] else []) ++ chars (pretty (Z.abs x)).

Definition double_text (f : float) : text :=
  match f with
  | S754_nan => chars "nan"
  | S754_infinity s => (if s then ["-"%char] else []) ++ chars "inf"
  | _ =>
      let '(s, (ds, fs, ex)) := double_format f in
      (if s then ["-"%char] else []) ++ ds ++ (if decide (fs = []) then [] else "."%char :: fs) ++
      (match ex with Some x => exponent_text x | None => [] end)
  end.

Definition WriteNumber_double (f : float) : M writer unit := Extend (double_text f).

(** [WriteSeperator]: a new line in a scope of several lines *)
Definition WriteSeperator : M writer unit :=
  w ← get_st;
  match w_multi w with
  | false :: _ => mret tt
  | l => Extend (chr 10 :: replicate (length l * 2) " "%char)
  end.

Definition begin_scope (open : ascii) (multi_line : bool) : M writer unit :=
  Extend [open] ≫= λ _, modify (λ w, {| os_ := os_ w; w_scope := O :: w_scope w; w_multi := multi_line :: w_multi w |}).
Definition end_scope (close : ascii) : M writer unit :=
  w ← get_st;
  match w_multi w, w_scope w with
  | newline :: ml, nelem :: sc =>
      put_st {| os_ := os_ w; w_scope := sc; w_multi := ml |} ≫= λ _,
      (if (newline : bool) && bool_decide (nelem ≠ O) then WriteSeperator else mret tt) ≫= λ _,
      Extend [close]
  | _, _ => raise AssertionError
  end.

Definition WriteBeginArray (multi_line : bool) : M writer unit := begin_scope "["%char multi_line.
Definition WriteEndArray : M writer unit := end_scope "]"%char.
Definition WriteBeginObject (multi_line : bool) : M writer unit := begin_scope "{"%char multi_line.
Definition WriteEndObject : M writer unit := end_scope "}"%char.

(** [scope_counter_.back() += 1], returning the counter before *)
Definition count_item : M writer nat :=
  w ← get_st;
  match w_scope w with
  | [] => raise IndexError
  | c :: sc => put_st {| os_ := os_ w; w_scope := S c :: sc; w_multi := w_multi w |} ≫= λ _, mret c
  end.

Definition WriteArraySeperator : M writer unit :=
  c ← count_item;
  (if decide (c ≠ O) then Extend [","%char; " "%char] else mret tt) ≫= λ _, WriteSeperator.

Definition WriteArrayItem (write : M writer unit) : M writer unit := WriteArraySeperator ≫= λ _, write.

Definition WriteObjectKeyValue (key : string) (write : M writer unit) : M writer unit :=
  c ← count_item;
  (if decide (c ≠ O) then Extend [","%char; " "%char] else mret tt) ≫= λ _,
  WriteSeperator ≫= λ _,
  Extend [dquote] ≫= λ _, Extend (chars key) ≫= λ _, Extend [dquote; ":"%char; " "%char] ≫= λ _,
  write.

(** [writer->BeginArray(false); ... writer->EndArray();] *)
Definition write_array (write : M writer unit) : M writer unit := WriteBeginArray false ≫= λ _, write ≫= λ _, WriteEndArray.

(** ** Handlers

    [Handler<T>] pairs the writing and the reading of a type. *)
Record Handler (A : Type) := { h_Write : A → M writer unit; h_Read : M reader A }.
Arguments h_Write {A} h a.
Arguments h_Read {A} h.

Definition Handler_int : Handler Z := {| h_Write := WriteNumber_int; h_Read := ReadNumber_int |}.
Definition Handler_double : Handler float := {| h_Write := WriteNumber_double; h_Read := ReadNumber_double |}.
Definition Handler_string : Handler string := {| h_Write := WriteString; h_Read := ReadString |}.

(** [s = reader->NextArrayItem(); ICHECK(s); reader->Read(&value);] *)
Definition item {A} (read : M reader A) : M reader A :=
  s ← NextArrayItem; CHECK s ≫= λ _, read.

(** [s = reader->NextArrayItem(); ICHECK(!s);] *)
Definition no_item : M reader unit := s ← NextArrayItem; CHECK (negb s).
