(* ===== verification/DmlcJsonInv.v ===== *)
(** * What the native reader gets back from what the native writer wrote

    [writes] says what text a computation of the writer adds, [reads] what a computation of the reader
    gets from a text, however it goes on. Items of an array compose: [writes_items] and [reads_items]
    describe a sequence of items in the innermost scope. *)

From Stdlib Require Import SpecFloat.
From S2P Require Import Prelude PyStr PyFloat JsonText DmlcJson.

Definition writes (m : M writer unit) (t : text) : Prop := ∀ w,
  m w = (Ok tt, {| os_ := os_ w ++ t; w_scope := w_scope w; w_multi := w_multi w |}).

Definition spaces (t : text) : Prop := Forall (λ c, isspace c = true) t.

Definition reads {A} (r : M reader A) (t : text) (a : A) : Prop := ∀ ws rest sc,
  spaces ws → num_end rest →
  r {| is_ := ws ++ t ++ rest; r_scope := sc |} = (Ok a, {| is_ := rest; r_scope := sc |}).

(** The text of a value: it starts a value, and stays on its line *)
Definition value_text (t : text) : Prop :=
  (∃ c t', t = c :: t' ∧ isspace c = false ∧ c ≠ "]"%char ∧ c ≠ "}"%char) ∧ Forall (λ c, c ≠ chr 10) t.

(** A written value is read back. *)
Definition codec {A} (write : M writer unit) (read : M reader A) (a : A) : Prop :=
  ∃ t, value_text t ∧ writes write t ∧ reads read t a.

(** A handler reads back what it wrote, as [back] of it. *)
Definition lawful {A} (h : Handler A) (good : A → Prop) (back : A → A) : Prop :=
  ∀ a, good a → codec (h_Write h a) (h_Read h) (back a).

Create HintDb records discriminated.

(** ** Spaces *)

Lemma skip_space_app ws c t : spaces ws → isspace c = false → skip_space (ws ++ c :: t) = c :: t.
Proof. intros H Hc. induction H as [|d ws Hd _ IH]; simpl; [by rewrite Hc|by rewrite Hd]. Qed.

Lemma NextNonSpace_app ws c t sc : spaces ws → isspace c = false →
  NextNonSpace {| is_ := ws ++ c :: t; r_scope := sc |} = (Ok (Some c), {| is_ := t; r_scope := sc |}).
Proof.
  intros Hw Hc. unfold NextNonSpace, skip_spaces. rewrite M_modify_bind. cbn [is_]. by rewrite skip_space_app.
Qed.

Lemma PeekNextNonSpace_app ws c t sc : spaces ws → isspace c = false →
  PeekNextNonSpace {| is_ := ws ++ c :: t; r_scope := sc |} = (Ok (Some c), {| is_ := c :: t; r_scope := sc |}).
Proof.
  intros Hw Hc. unfold PeekNextNonSpace, skip_spaces. rewrite M_modify_bind. cbn [is_]. by rewrite skip_space_app.
Qed.

Lemma digit_not_space c : is_digit c = true → isspace c = false.
Proof. unfold is_digit, isspace. intros H. bool_to_prop. apply bool_decide_eq_false. lia. Qed.

(** ** Strings *)

Lemma read_write_char c t : read_chars (write_char c ++ t) = ('(s, rest) ← read_chars t; Ok (c :: s, rest)).
Proof. destruct c as [[] [] [] [] [] [] [] []]; reflexivity. Qed.

Lemma write_char_line c : Forall (λ c, c ≠ chr 10) (write_char c).
Proof. destruct c as [[] [] [] [] [] [] [] []]; cbn; repeat constructor; discriminate. Qed.

Lemma read_string_text t rest :
  read_chars (concat (write_char <$> t) ++ dquote :: rest) = Ok (t, rest).
Proof.
  induction t as [|c t IH]; [done|]. rewrite fmap_cons, concat_cons, <-app_assoc, read_write_char, IH. done.
Qed.

Definition string_text (s : string) : text := dquote :: concat (write_char <$> chars s) ++ [dquote].

Lemma writes_ret : writes (mret tt) [].
Proof. intros [? ? ?]. cbn. by rewrite app_nil_r. Qed.
Lemma writes_Extend t : writes (Extend t) t.
Proof. done. Qed.
Lemma writes_bind m k t u : writes m t → writes k u → writes (m ≫= λ _, k) (t ++ u).
Proof. intros Hm Hk w. rewrite (M_bind_ok _ _ _ _ _ (Hm w)), Hk. cbn. by rewrite app_assoc. Qed.
Lemma writes_mfor {A} (f : A → M writer unit) (g : A → text) l :
  (∀ a, writes (f a) (g a)) → writes (mfor f l) (concat (g <$> l)).
Proof. intros H. induction l as [|a l IH]; [exact writes_ret|]. by apply writes_bind. Qed.

Lemma string_value_text s : value_text (string_text s).
Proof.
  split; [by eexists _, _|]. constructor; [done|]. apply Forall_app. split; [|by repeat constructor].
  apply Forall_concat, Forall_fmap. apply Forall_true. intros c. apply write_char_line.
Qed.

Lemma writes_string s : writes (WriteString s) (string_text s).
Proof. apply (writes_bind _ _ [dquote]); [done|]. apply writes_bind; [|done]. by apply writes_mfor. Qed.

Lemma reads_string s : reads ReadString (string_text s) s.
Proof.
  intros ws rest sc Hw Hr. unfold ReadString, string_text. cbn [app]. rewrite <-app_assoc. cbn [app].
  rewrite (M_bind_ok _ _ _ _ _ (NextNonSpace_app _ dquote _ _ Hw eq_refl)). rewrite bool_decide_true by done.
  unfold CHECK, on_text. mrun. cbn [py_assert]. mrun. unfold mbind at 1, M_bind. cbn [is_].
  rewrite read_string_text. unfold set_is. cbn. unfold mret, M_ret. unfold of_chars, chars.
  by rewrite String.string_of_list_ascii_of_string.
Qed.

Lemma string_codec s : codec (WriteString s) ReadString s.
Proof. exists (string_text s). split_and!; [apply string_value_text|apply writes_string|apply reads_string]. Qed.

(** ** Integers *)

Definition sign_text (neg : bool) : text := if neg then ["-"%char] else [].
Definition signed (neg : bool) (z : Z) : Z := if neg then - z else z.

Lemma pretty_form z : ∃ c ds,
  chars (pretty z) = sign_text (z <? 0) ++ c :: ds ∧ digit_text (c :: ds) ∧ digits_val (c :: ds) = Z.abs z.
Proof.
  destruct z as [|p|p].
  - exists "0"%char, []. split_and!; [done| |done]. by repeat constructor.
  - destruct (pretty_go_digits (Npos p) EmptyString) as (c & ds & Hc & Hd & _ & Hv); [done|].
    exists c, ds. split_and!; [|done|done]. rewrite app_nil_r in Hc. exact Hc.
  - destruct (pretty_go_digits (Npos p) EmptyString) as (c & ds & Hc & Hd & _ & Hv); [done|].
    exists c, ds. split_and!; [|done|done]. rewrite app_nil_r in Hc.
    change (chars (pretty (Zneg p))) with ("-"%char :: chars (pretty_N_go (Npos p) EmptyString)). by rewrite Hc.
Qed.

Lemma digit_not_sign c : is_digit c = true → c ≠ "-"%char ∧ c ≠ "+"%char ∧ c ≠ "]"%char ∧ c ≠ "}"%char ∧ c ≠ chr 10.
Proof. intros H. split_and!; intros ->; discriminate. Qed.

Lemma read_sign_app ws neg c t : spaces ws → is_digit c = true →
  read_sign (skip_space (ws ++ sign_text neg ++ c :: t)) = (neg, c :: t).
Proof.
  intros Hw Hc. destruct neg; cbn [sign_text app]; rewrite skip_space_app by (try done; by apply digit_not_space).
  - done.
  - destruct (digit_not_sign c Hc) as (H1 & H2 & _). unfold read_sign. by rewrite !decide_False.
Qed.

Lemma read_integer_app ws neg c ds rest : spaces ws → digit_text (c :: ds) → num_end rest →
  read_integer (ws ++ sign_text neg ++ (c :: ds) ++ rest) = Ok (signed neg (digits_val (c :: ds)), rest).
Proof.
  intros Hw Hd Hr. unfold read_integer. cbn [app]. rewrite read_sign_app by (try done; exact (Forall_inv Hd)).
  change (c :: ds ++ rest) with ((c :: ds) ++ rest). by rewrite (span_digits_app _ _ Hd Hr).
Qed.

Lemma sign_abs z : signed (z <? 0) (Z.abs z) = z.
Proof. unfold signed. destruct (Z.ltb_spec z 0); lia. Qed.

Lemma read_pretty ws z rest : spaces ws → num_end rest → read_integer (ws ++ chars (pretty z) ++ rest) = Ok (z, rest).
Proof.
  intros Hw Hr. destruct (pretty_form z) as (c & ds & -> & Hd & Hv).
  rewrite <-app_assoc, read_integer_app by done. by rewrite Hv, sign_abs.
Qed.

Lemma digits_value_text neg c t : is_digit c = true → Forall (λ c, c ≠ chr 10) t → value_text (sign_text neg ++ c :: t).
Proof.
  intros Hc Ht. destruct (digit_not_sign c Hc) as (_ & _ & H1 & H2 & H3). destruct neg; cbn [sign_text app].
  - split; [by eexists _, _|]. by repeat constructor.
  - split; [|by constructor]. eexists _, _. by rewrite digit_not_space.
Qed.

Lemma digit_text_line ds : digit_text ds → Forall (λ c, c ≠ chr 10) ds.
Proof. intros H. eapply Forall_impl; [exact H|]. intros c Hc. by apply digit_not_sign. Qed.

Lemma pretty_value_text (z : Z) : value_text (chars (pretty z)).
Proof.
  destruct (pretty_form z) as (c & ds & -> & Hd & _).
  apply digits_value_text; [exact (Forall_inv Hd)|]. apply digit_text_line. exact (Forall_inv_tail Hd).
Qed.

(** Reading a number is reading the rest of the text. *)
Lemma reads_on_text {A} (f : text → result (A * text)) t a :
  (∀ ws rest, spaces ws → num_end rest → f (ws ++ t ++ rest) = Ok (a, rest)) → reads (on_text f) t a.
Proof. intros H ws rest sc Hw Hr. unfold on_text. cbn [is_]. by rewrite H. Qed.

Lemma number_codec {A} (z : Z) (f : text → result (A * text)) a :
  (∀ ws rest, spaces ws → num_end rest → f (ws ++ chars (pretty z) ++ rest) = Ok (a, rest)) →
  codec (WriteNumber_int z) (on_text f) a.
Proof. intros H. exists (chars (pretty z)). split_and!; [apply pretty_value_text|done|by apply reads_on_text]. Qed.

Lemma int_codec z : is_int32 z = true → codec (WriteNumber_int z) ReadNumber_int z.
Proof.
  intros Hz. apply number_codec. intros ws rest Hw Hr. unfold extract_int. rewrite read_pretty by done. cbn. by rewrite Hz.
Qed.

Lemma bool_codec (b : bool) : codec (WriteNumber_int (Z.b2z b)) ReadNumber_bool b.
Proof.
  apply number_codec. intros ws rest Hw Hr. unfold extract_bool. rewrite read_pretty by done. by destruct b.
Qed.
#[export] Hint Resolve string_codec int_codec bool_codec : records.

(** ** Doubles *)

(** The double that is read from the six digits *)
Definition back_double (f : float) : float :=
  let '(s, (ds, fs, ex)) := double_format f in dec_float s (digits_val (ds ++ fs)) (default 0 ex - Z.of_nat (length fs)).

Definition no_digit (t : text) : Prop := match t with c :: _ => is_digit c = false | [] => True end.

Lemma span_digits_stop ds t : digit_text ds → no_digit t → span_digits (ds ++ t) = (ds, t).
Proof.
  intros Hd Ht. induction Hd as [|c ds Hc _ IH]; simpl.
  - destruct t as [|c t]; [done|]. simpl. by rewrite Ht.
  - by rewrite Hc, IH.
Qed.

Lemma num_end_no_digit t : num_end t → no_digit t.
Proof. destruct t; [done|]. by intros [? _]. Qed.

(** The exponent *)
Definition exponent_part (ex : option Z) : text := match ex with Some x => exponent_text x | None => [] end.

Lemma exponent_digits x : ∃ c es, digit_text (c :: es) ∧ digits_val (c :: es) = Z.abs x ∧
  exponent_text x = "e"%char :: (if x <? 0 then "-"%char else "+"%char) :: c :: es.
Proof.
  unfold exponent_text. destruct (pretty_form (Z.abs x)) as (c & ds & Hp & Hd & Hv).
  rewrite (proj2 (Z.ltb_ge (Z.abs x) 0)) in Hp by lia. cbn [sign_text app] in Hp. rewrite Hp, Z.abs_idemp in *.
  destruct (Z.abs x <? 10); cbn [app].
  - exists "0"%char, (c :: ds). split_and!; [by constructor|done|done].
  - by exists c, ds.
Qed.

Lemma read_exponent x rest : num_end rest → ∃ t,
  exponent_text x ++ rest = "e"%char :: t ∧
  (let '(eneg, t') := read_sign t in
   match span_digits t' with
   | ([], _) => Raise ValueError
   | (es, t') => Ok ((if (eneg : bool) then - digits_val es else digits_val es), t')
   end) = Ok (x, rest).
Proof.
  intros Hr. destruct (exponent_digits x) as (c & es & Hd & Hv & ->). cbn [app].
  eexists. split; [reflexivity|]. unfold read_sign.
  pose proof (span_digits_app _ _ Hd Hr) as Hs. cbn [app] in Hs.
  destruct (Z.ltb_spec x 0).
  - rewrite decide_True by done. rewrite Hs, Hv. do 2 f_equal. lia.
  - rewrite decide_False by done. rewrite decide_True by done. rewrite Hs, Hv. do 2 f_equal. lia.
Qed.

Definition point_text (fs : text) : text := if decide (fs = []) then [] else "."%char :: fs.

Lemma no_digit_exponent ex rest : num_end rest → no_digit (exponent_part ex ++ rest).
Proof. destruct ex; [done|]. apply num_end_no_digit. Qed.

Lemma read_fraction fs ex rest : digit_text fs → num_end rest →
  (match point_text fs ++ exponent_part ex ++ rest with
   | c :: t' => if decide (c = "."%char) then span_digits t' else ([], point_text fs ++ exponent_part ex ++ rest)
   | [] => ([], point_text fs ++ exponent_part ex ++ rest)
   end) = (fs, exponent_part ex ++ rest).
Proof.
  intros Hf Hr. unfold point_text. destruct (decide (fs = [])) as [->|Hne]; cbn [app].
  - destruct ex as [x|]; cbn [exponent_part app].
    + destruct (exponent_digits x) as (c & es & _ & _ & ->). done.
    + destruct rest as [|c rest]; [done|]. destruct Hr as (_ & Hr & _). by rewrite decide_False.
  - rewrite decide_True by done. apply span_digits_stop; [done|]. by apply no_digit_exponent.
Qed.

Lemma extract_double_app ws neg c ds fs ex rest :
  spaces ws → digit_text (c :: ds) → digit_text fs → num_end rest →
  let f := dec_float neg (digits_val ((c :: ds) ++ fs)) (default 0 ex - Z.of_nat (length fs)) in
  is_finite f = true →
  extract_double (ws ++ (sign_text neg ++ (c :: ds) ++ point_text fs ++ exponent_part ex) ++ rest) = Ok (f, rest).
Proof.
  intros Hw Hd Hf Hr f Hfin. unfold extract_double. rewrite <-!app_assoc. cbn [app].
  rewrite read_sign_app by (try done; exact (Forall_inv Hd)).
  assert (no_digit (point_text fs ++ exponent_part ex ++ rest)) as Hn.
  { unfold point_text. destruct (decide (fs = [])); [by apply no_digit_exponent|done]. }
  pose proof (span_digits_stop _ _ Hd Hn) as Hs. cbn [app] in Hs. rewrite Hs, read_fraction by done. rewrite decide_False by done.
  destruct ex as [x|]; cbn [exponent_part].
  - destruct (read_exponent x rest Hr) as (t & -> & Ht). rewrite decide_True by by left. rewrite Ht. subst f. cbn in Hfin |- *. by rewrite Hfin.
  - cbn [app]. subst f. cbn in Hfin. destruct rest as [|e rest]; [by cbn; rewrite Hfin|].
    destruct Hr as (_ & _ & H1 & H2). rewrite decide_False by naive_solver. by cbn; rewrite Hfin.
Qed.

Lemma round_div_nonneg num den : 0 ≤ num → 0 < den → 0 ≤ round_div num den.
Proof. intros Hn Hd. unfold round_div. pose proof (Z.div_pos num den Hn Hd). destruct (_ || _); lia. Qed.

Lemma fraction_pos m e num den : fraction m e = (num, den) → 0 < num ∧ 0 < den.
Proof.
  unfold fraction. destruct (Z.leb_spec 0 e); intros [= <- <-]; split; lia.
Qed.

Lemma six_digits_nonneg num den d x : 0 < num → 0 < den → six_digits num den = (d, x) → 0 ≤ d.
Proof.
  intros Hn Hd. unfold six_digits. set (y := exponent10 num den). clearbody y.
  assert (0 ≤ (if y <=? 5 then round_div (num * 10 ^ (5 - y)) den else round_div num (den * 10 ^ (y - 5)))) as H.
  { destruct (Z.leb_spec y 5); apply round_div_nonneg; lia. }
  destruct (_ =? _); intros [= <- <-]; [done|exact H].
Qed.

Lemma skip_zeros_digits t : digit_text t → digit_text (skip_zeros t).
Proof. intros H. induction H as [|c t Hc Ht IH]; cbn [skip_zeros]; [constructor|]. destruct (decide _); [done|by constructor]. Qed.
Lemma strip_zeros_digits t : digit_text t → digit_text (strip_zeros t).
Proof. intros H. unfold digit_text, strip_zeros. apply Forall_rev, skip_zeros_digits, Forall_rev, H. Qed.

(** A list of digits that starts a number *)
Definition number_digits (ds : text) : Prop := digit_text ds ∧ ds ≠ [].

Lemma pretty_nonneg d : 0 ≤ d → number_digits (chars (pretty d)) ∧ digits_val (chars (pretty d)) = d.
Proof.
  intros Hd. destruct (pretty_form d) as (c & ds & -> & Hds & Hv).
  rewrite (proj2 (Z.ltb_ge d 0)) by lia. cbn [sign_text app]. rewrite Hv. split; [done|lia].
Qed.

Lemma general_format_digits d x ds fs ex : 0 ≤ d → general_format d x = (ds, fs, ex) → number_digits ds ∧ digit_text fs.
Proof.
  intros Hd. destruct (pretty_nonneg d Hd) as [[Hp Hne] _]. unfold general_format.
  destruct (chars (pretty d)) as [|c t]; [done|]. destruct (_ || _); [|destruct (Z.leb_spec 0 x)]; intros [= <- <- <-].
  - split; [split; [|done]|]; [by apply (Forall_take _ 1 (c :: t))|]. apply strip_zeros_digits. exact (Forall_inv_tail Hp).
  - replace (Z.to_nat (x + 1)) with (S (Z.to_nat x)) by lia. cbn [take drop]. split; [split; [|done]|].
    + constructor; [exact (Forall_inv Hp)|]. apply Forall_take. exact (Forall_inv_tail Hp).
    + apply strip_zeros_digits, Forall_drop. exact (Forall_inv_tail Hp).
  - split; [split; [|done]; by repeat constructor|]. apply Forall_app. split; [|by apply strip_zeros_digits].
    apply Forall_replicate. done.
Qed.

Lemma double_format_digits f s ds fs ex : double_format f = (s, (ds, fs, ex)) → number_digits ds ∧ digit_text fs.
Proof.
  assert (number_digits ["0"%char] ∧ digit_text []) as H0 by (split; [split; [|done]|]; by repeat constructor).
  destruct f as [b|b| |b m e]; cbn; [by intros [= <- <- <- <-]..|].
  destruct (fraction m e) as [num den] eqn:Hf. destruct (six_digits num den) as [d x] eqn:Hd. intros [= <- H].
  apply fraction_pos in Hf as [Hnum Hden]. apply (general_format_digits d x ds fs ex); [|exact H]. exact (six_digits_nonneg _ _ _ _ Hnum Hden Hd).
Qed.

Lemma double_text_parts f s ds fs ex : is_finite f = true → double_format f = (s, (ds, fs, ex)) →
  double_text f = sign_text s ++ ds ++ point_text fs ++ exponent_part ex.
Proof. intros Hf H. unfold double_text. by destruct f; try done; rewrite H. Qed.

Lemma exponent_line ex : Forall (λ c, c ≠ chr 10) (exponent_part ex).
Proof.
  destruct ex as [x|]; [|constructor]. destruct (exponent_digits x) as (c & es & Hd & _ & E). cbn [exponent_part]. rewrite E.
  constructor; [done|]. constructor; [by destruct (x <? 0)|]. by apply digit_text_line.
Qed.

Definition good_double (f : float) : bool := is_finite f && is_finite (back_double f).

Lemma double_codec f : good_double f = true → codec (WriteNumber_double f) ReadNumber_double (back_double f).
Proof.
  intros [Hf Hb]%andb_prop. exists (double_text f). unfold back_double in *.
  destruct (double_format f) as [s [[ds fs] ex]] eqn:E.
  destruct (double_format_digits _ _ _ _ _ E) as [[Hd Hne] Hfs]. rewrite (double_text_parts _ _ _ _ _ Hf E).
  destruct ds as [|c ds]; [done|]. split_and!.
  - apply digits_value_text; [exact (Forall_inv Hd)|]. apply Forall_app. split; [apply digit_text_line; exact (Forall_inv_tail Hd)|].
    apply Forall_app. split; [|apply exponent_line]. unfold point_text. destruct (decide _); [constructor|].
    constructor; [done|by apply digit_text_line].
  - unfold WriteNumber_double. by rewrite (double_text_parts _ _ _ _ _ Hf E).
  - apply reads_on_text. intros ws rest Hw Hr. by apply extract_double_app.
Qed.
#[export] Hint Resolve double_codec : records.

(** An integer that is read as a double *)
Definition int_double (z : Z) : float := dec_float (z <? 0) (Z.abs z) 0.

Lemma int_double_codec z : is_finite (int_double z) = true → codec (WriteNumber_int z) ReadNumber_double (int_double z).
Proof.
  intros Hf. apply number_codec. intros ws rest Hw Hr. destruct (pretty_form z) as (c & ds & -> & Hd & Hv).
  unfold int_double in *. rewrite <-Hv, <-(app_nil_r (c :: ds)) in Hf |- *.
  exact (extract_double_app ws (z <? 0) c ds [] None rest Hw Hd (List.Forall_nil _) Hr Hf).
Qed.
#[export] Hint Resolve int_double_codec : records.

(** ** Items of an array *)

Definition separator (c : nat) : text := if decide (c ≠ O) then [","%char; " "%char] else [].

Fixpoint items (c : nat) (ts : list text) : text :=
  match ts with [] => [] | t :: ts => separator c ++ t ++ items (S c) ts end.

Definition writes_items (m : M writer unit) (ts : list text) : Prop := ∀ os c sc ml,
  m {| os_ := os; w_scope := c :: sc; w_multi := false :: ml |}
  = (Ok tt, {| os_ := os ++ items c ts; w_scope := (c + length ts)%nat :: sc; w_multi := false :: ml |}).

Definition reads_items {A} (r : M reader A) (ts : list text) (a : A) : Prop := ∀ c sc rest,
  num_end rest →
  r {| is_ := items c ts ++ rest; r_scope := c :: sc |} = (Ok a, {| is_ := rest; r_scope := (c + length ts)%nat :: sc |}).

(** Items that are written, then read back *)
Definition items_codec {A} (write : M writer unit) (read : M reader A) (a : A) : Prop :=
  ∃ ts, Forall value_text ts ∧ writes_items write ts ∧ reads_items read ts a.

Lemma items_app c ts us : items c (ts ++ us) = items c ts ++ items (c + length ts) us.
Proof.
  revert c. induction ts as [|t ts IH]; intros c; cbn [items app length]; [by rewrite Nat.add_0_r|].
  rewrite IH, <-!app_assoc. do 4 f_equal. lia.
Qed.

Lemma items_line c ts : Forall value_text ts → Forall (λ c, c ≠ chr 10) (items c ts).
Proof.
  intros H. revert c. induction H as [|t ts [_ Ht] _ IH]; intros c; [constructor|]. cbn [items]. apply Forall_app. split.
  - unfold separator. destruct (decide _); by repeat constructor.
  - by apply Forall_app.
Qed.

Lemma items_num_end c ts rest : num_end rest → num_end (items (S c) ts ++ rest).
Proof. by destruct ts. Qed.

Lemma writes_items_bind m k ts us : writes_items m ts → writes_items k us → writes_items (m ≫= λ _, k) (ts ++ us).
Proof.
  intros Hm Hk os c sc ml. rewrite (M_bind_ok _ _ _ _ _ (Hm os c sc ml)), Hk, items_app, length_app, app_assoc. by rewrite Nat.add_assoc.
Qed.

Lemma writes_array_item m t : writes m t → writes_items (WriteArrayItem m) [t].
Proof.
  intros Hm os c sc ml. unfold WriteArrayItem, WriteArraySeperator, count_item, WriteSeperator, mbind, M_bind. cbn.
  unfold separator. destruct (decide (c ≠ O)); cbn; rewrite Hm; cbn; rewrite ?app_nil_r, <-?app_assoc; do 3 f_equal; lia.
Qed.

(** [BeginArray(false); items; EndArray()] *)
Lemma writes_array m ts : writes_items m ts →
  writes (WriteBeginArray false ≫= λ _, m ≫= λ _, WriteEndArray) ("["%char :: items 0 ts ++ ["]"%char]).
Proof.
  intros Hm [os sc ml]. unfold WriteBeginArray, begin_scope. unfold mbind, M_bind. cbn. rewrite Hm.
  unfold WriteEndArray, end_scope. rewrite M_get_bind. cbn. mrun. unfold Extend, modify. cbn.
  by rewrite <-!app_assoc.
Qed.

(** Another item before the end of an array or of an object *)
Lemma next_item_more close c sc t rest : value_text t → close = "]"%char ∨ close = "}"%char → ∃ ws, spaces ws ∧
  next_item close {| is_ := separator c ++ t ++ rest; r_scope := c :: sc |} = (Ok true, {| is_ := ws ++ t ++ rest; r_scope := S c :: sc |}).
Proof.
  intros [(d & t' & -> & Hd & Hb & Hb') _] Hclose. unfold next_item. rewrite M_get_bind. cbn [r_scope].
  unfold separator. destruct (decide (c ≠ O)) as [Hc|Hc].
  - exists [" "%char]. split; [by repeat constructor|].
    pose proof (NextNonSpace_app [] ","%char (" "%char :: d :: t' ++ rest) (c :: sc) (List.Forall_nil _) eq_refl) as H.
    cbn [app] in *. unfold mbind at 1, M_bind. rewrite (M_bind_ok _ _ _ _ _ H).
    by destruct Hclose as [-> | ->].
  - exists []. split; [constructor|]. cbn [app].
    pose proof (PeekNextNonSpace_app [] d (t' ++ rest) (c :: sc) (List.Forall_nil _) Hd) as H.
    cbn [app] in *. unfold mbind at 1, M_bind. rewrite (M_bind_ok _ _ _ _ _ H). by rewrite decide_False by naive_solver.
Qed.

Lemma next_item_none close c sc rest : close = "]"%char ∨ close = "}"%char →
  next_item close {| is_ := close :: rest; r_scope := c :: sc |} = (Ok false, {| is_ := rest; r_scope := sc |}).
Proof.
  intros Hc. unfold next_item. rewrite M_get_bind. cbn [r_scope]. unfold mbind at 1, M_bind.
  by destruct (decide (c ≠ O)), Hc as [-> | ->].
Qed.

Lemma next_item_true c sc t ts rest : value_text t → ∃ ws, spaces ws ∧
  NextArrayItem {| is_ := items c (t :: ts) ++ rest; r_scope := c :: sc |}
  = (Ok true, {| is_ := ws ++ t ++ items (S c) ts ++ rest; r_scope := S c :: sc |}).
Proof. intros Ht. cbn [items]. rewrite <-!app_assoc. apply next_item_more; [done|by left]. Qed.

Lemma next_item_false c sc rest :
  NextArrayItem {| is_ := "]"%char :: rest; r_scope := c :: sc |} = (Ok false, {| is_ := rest; r_scope := sc |}).
Proof. apply next_item_none. by left. Qed.

(** The items of an array up to and including its end *)
Definition reads_body {A} (r : M reader A) (ts : list text) (a : A) : Prop := ∀ c sc rest,
  num_end rest →
  r {| is_ := items c ts ++ "]"%char :: rest; r_scope := c :: sc |} = (Ok a, {| is_ := rest; r_scope := sc |}).

Lemma item_run {A} (r : M reader A) c sc t ts rest a : value_text t → reads r t a → num_end rest →
  item r {| is_ := items c (t :: ts) ++ rest; r_scope := c :: sc |}
  = (Ok a, {| is_ := items (S c) ts ++ rest; r_scope := S c :: sc |}).
Proof.
  intros Ht Hr Hrest. destruct (next_item_true c sc t ts rest Ht) as (ws & Hws & Hn).
  unfold item. rewrite (M_bind_ok _ _ _ _ _ Hn). unfold CHECK. cbn [py_assert]. rewrite M_lift_ok_bind.
  apply Hr; [done|by apply items_num_end].
Qed.

Lemma next_run {A B} (f : bool → M reader B) (r : M reader A) (k : A → M reader B) c sc t ts rest a :
  f true = r ≫= k → value_text t → reads r t a → num_end rest →
  (s ← NextArrayItem; f s) {| is_ := items c (t :: ts) ++ rest; r_scope := c :: sc |}
  = k a {| is_ := items (S c) ts ++ rest; r_scope := S c :: sc |}.
Proof.
  intros Hf Ht Hr Hrest. destruct (next_item_true c sc t ts rest Ht) as (ws & Hws & Hn).
  rewrite (M_bind_ok _ _ _ _ _ Hn), Hf. apply M_bind_ok. apply Hr; [done|by apply items_num_end].
Qed.

Section items.
Context {A B : Type}.
Implicit Types (r : M reader A) (k : A → M reader B) (a : A) (b : B).

Lemma reads_items_ret b : reads_items (mret b) [] b.
Proof. intros c sc rest _. cbn. by rewrite Nat.add_0_r. Qed.

Lemma reads_items_item r k t ts a b : value_text t → reads r t a → reads_items (k a) ts b →
  reads_items (item r ≫= k) (t :: ts) b.
Proof.
  intros Ht Hr Hk c sc rest Hrest. rewrite (M_bind_ok _ _ _ _ _ (item_run r c sc t ts rest a Ht Hr Hrest)), Hk by done.
  cbn [length]. by rewrite Nat.add_succ_r.
Qed.

Lemma reads_body_item r k t ts a b : value_text t → reads r t a → reads_body (k a) ts b →
  reads_body (item r ≫= k) (t :: ts) b.
Proof.
  intros Ht Hr Hk c sc rest Hrest. rewrite (M_bind_ok _ _ _ _ _ (item_run r c sc t ts ("]"%char :: rest) a Ht Hr ltac:(done))).
  by apply Hk.
Qed.

Lemma reads_body_next (f : bool → M reader B) r k t ts a b : f true = r ≫= k → value_text t → reads r t a → reads_body (k a) ts b →
  reads_body (s ← NextArrayItem; f s) (t :: ts) b.
Proof. intros Hf Ht Hr Hk c sc rest Hrest. rewrite (next_run f r k c sc t ts _ a Hf Ht Hr) by done. by apply Hk. Qed.

Lemma no_item_run c sc rest :
  no_item {| is_ := "]"%char :: rest; r_scope := c :: sc |} = (Ok tt, {| is_ := rest; r_scope := sc |}).
Proof. unfold no_item. by rewrite (M_bind_ok _ _ _ _ _ (next_item_false c sc rest)). Qed.

Lemma reads_body_closed b : reads_body (no_item ≫= λ _, mret b) [] b.
Proof. intros c sc rest _. cbn [items app]. by rewrite (M_bind_ok _ _ _ _ _ (no_item_run c sc rest)). Qed.

(** A sequence of items, then the end *)
Lemma reads_items_body r k ts a b : reads_items r ts a → reads_body (k a) [] b → reads_body (r ≫= k) ts b.
Proof. intros Hr Hk c sc rest Hrest. rewrite (M_bind_ok _ _ _ _ _ (Hr c sc ("]"%char :: rest) ltac:(done))). by apply Hk. Qed.

Lemma reads_array r ts a : reads_body r ts a → reads (BeginArray ≫= λ _, r) ("["%char :: items 0 ts ++ ["]"%char]) a.
Proof.
  intros Hr ws rest sc Hws Hrest. cbn [app]. rewrite <-app_assoc. cbn [app].
  assert (BeginArray {| is_ := ws ++ "["%char :: items 0 ts ++ "]"%char :: rest; r_scope := sc |}
    = (Ok tt, {| is_ := items 0 ts ++ "]"%char :: rest; r_scope := O :: sc |})) as Hb.
  { unfold BeginArray. by rewrite (M_bind_ok _ _ _ _ _ (NextNonSpace_app ws "["%char _ sc Hws eq_refl)). }
  rewrite (M_bind_ok _ _ _ _ _ Hb). by apply Hr.
Qed.

(** The loop over all items *)
Lemma array_loop_run r n c sc ts l rest : Forall2 (reads r) ts l → Forall value_text ts → (length ts < n)%nat →
  array_loop n r {| is_ := items c ts ++ "]"%char :: rest; r_scope := c :: sc |} = (Ok l, {| is_ := rest; r_scope := sc |}).
Proof.
  intros H Hts. revert n c. induction H as [|t a ts l Hr _ IH]; intros n c Hn; destruct n as [|n]; cbn [length] in Hn; try lia; cbn [array_loop].
  - by rewrite (M_bind_ok _ _ _ _ _ (next_item_false c sc rest)).
  - apply Forall_cons in Hts as [Ht Hts].
    rewrite (next_run _ r (λ value, rest ← array_loop n r; mret (value :: rest)) c sc t ts ("]"%char :: rest) a eq_refl Ht Hr) by done.
    rewrite (M_bind_ok _ _ _ _ _ (IH Hts n (S c) ltac:(lia))). done.
Qed.

Lemma items_length c ts : Forall value_text ts → (length ts ≤ length (items c ts))%nat.
Proof.
  intros H. revert c. induction H as [|t ts [(d & t' & -> & _) _] _ IH]; intros c; [done|]. cbn [items]. rewrite !length_app.
  specialize (IH (S c)). cbn [length]. lia.
Qed.

Lemma reads_body_loop r ts l : Forall2 (reads r) ts l → Forall value_text ts → reads_body (read_items r) ts l.
Proof.
  intros H Hts c sc rest Hrest. unfold read_items. rewrite M_get_bind. cbn [is_]. apply array_loop_run; [done..|].
  rewrite length_app. pose proof (items_length c ts Hts). lia.
Qed.
End items.

(** ** Arrays that are written and read *)

Lemma array_value_text ts : Forall value_text ts → value_text ("["%char :: items 0 ts ++ ["]"%char]).
Proof.
  intros H. split; [by eexists _, _|]. constructor; [done|]. apply Forall_app. split; [by apply items_line|by repeat constructor].
Qed.

Definition body_codec {A} (write : M writer unit) (read : M reader A) (a : A) : Prop :=
  ∃ ts, Forall value_text ts ∧ writes_items write ts ∧ reads_body read ts a.

Section array_codec.
Context {A B : Type}.
Implicit Types (r : M reader A) (k : A → M reader B) (a : A) (b : B).

Lemma array_codec ws r a : body_codec ws r a → codec (write_array ws) (BeginArray ≫= λ _, r) a.
Proof.
  intros (ts & Hts & Hw & Hr). exists ("["%char :: items 0 ts ++ ["]"%char]).
  split_and!; [by apply array_value_text|by apply writes_array|by apply reads_array].
Qed.

Lemma writes_items_nil : writes_items (mret tt) [].
Proof. intros os c sc ml. cbn. by rewrite app_nil_r, Nat.add_0_r. Qed.

Lemma items_codec_ret b : items_codec (mret tt) (mret b) b.
Proof. exists []. split_and!; [constructor|apply writes_items_nil|apply reads_items_ret]. Qed.

Lemma items_codec_item w ws r k a b : codec w r a → items_codec (mfor WriteArrayItem ws) (k a) b →
  items_codec (mfor WriteArrayItem (w :: ws)) (item r ≫= k) b.
Proof.
  intros (t & Ht & Hw & Hr) (ts & Hts & Hws & Hrs). exists (t :: ts). split_and!; [by constructor| |by eapply reads_items_item].
  apply (writes_items_bind _ _ [t] ts); [by apply writes_array_item|done].
Qed.

Lemma body_codec_item w ws r k a b : codec w r a → body_codec (mfor WriteArrayItem ws) (k a) b →
  body_codec (mfor WriteArrayItem (w :: ws)) (item r ≫= k) b.
Proof.
  intros (t & Ht & Hw & Hr) (ts & Hts & Hws & Hrs). exists (t :: ts). split_and!; [by constructor| |by eapply reads_body_item].
  apply (writes_items_bind _ _ [t] ts); [by apply writes_array_item|done].
Qed.

Lemma body_codec_next (f : bool → M reader B) w ws r k a b : f true = r ≫= k → codec w r a → body_codec (mfor WriteArrayItem ws) (k a) b →
  body_codec (mfor WriteArrayItem (w :: ws)) (s ← NextArrayItem; f s) b.
Proof.
  intros Hf (t & Ht & Hw & Hr) (ts & Hts & Hws & Hrs). exists (t :: ts). split_and!; [by constructor| |by eapply reads_body_next].
  apply (writes_items_bind _ _ [t] ts); [by apply writes_array_item|done].
Qed.

Lemma body_codec_closed b : body_codec (mret tt) (no_item ≫= λ _, mret b) b.
Proof. exists []. split_and!; [constructor|apply writes_items_nil|apply reads_body_closed]. Qed.

Lemma body_codec_no_item : body_codec (mret tt) no_item tt.
Proof. exists []. split_and!; [constructor|apply writes_items_nil|]. intros c sc rest _. apply no_item_run. Qed.

Lemma items_codec_body ws r k a b : items_codec ws r a → reads_body (k a) [] b → body_codec ws (r ≫= k) b.
Proof. intros (ts & Hts & Hw & Hr) Hk. exists ts. split_and!; [done..|by eapply reads_items_body]. Qed.

(** All elements of a list *)
Lemma list_codec (w : A → M writer unit) (r : M reader B) l l' :
  Forall2 (λ a b, codec (w a) r b) l l' → codec (write_array (mfor (λ a, WriteArrayItem (w a)) l)) (ArrayHandler_Read r) l'.
Proof.
  intros H. assert (∃ ts, Forall value_text ts ∧ writes_items (mfor (λ a, WriteArrayItem (w a)) l) ts ∧ Forall2 (reads r) ts l')
    as (ts & Hts & Hw & Hr).
  { induction H as [|a b l l' (t & Ht & Hw & Hr) _ (ts & Hts & Hws & Hrs)].
    - exists []. split_and!; [constructor|apply writes_items_nil|constructor].
    - exists (t :: ts). split_and!; [by constructor| |by constructor].
      apply (writes_items_bind _ _ [t] ts); [by apply writes_array_item|done]. }
  exists ("["%char :: items 0 ts ++ ["]"%char]).
  split_and!; [by apply array_value_text|by apply writes_array|by apply reads_array, reads_body_loop].
Qed.
End array_codec.

(** ** Objects *)

(** A key without characters that have to be escaped *)
Definition plain_key (key : string) : Prop := concat (write_char <$> chars key) = chars key.

(** A field of an object with plain key [key], after [c] fields *)
Definition field_text (c : nat) (key : string) (t : text) : text :=
  separator c ++ dquote :: chars key ++ [dquote; ":"%char; " "%char] ++ t.

Lemma writes_field key m t os c sc ml : writes m t →
  WriteObjectKeyValue key m {| os_ := os; w_scope := c :: sc; w_multi := false :: ml |}
  = (Ok tt, {| os_ := os ++ field_text c key t; w_scope := S c :: sc; w_multi := false :: ml |}).
Proof.
  intros Hm. unfold WriteObjectKeyValue, count_item, WriteSeperator, field_text, separator, mbind, M_bind. cbn.
  destruct (decide (c ≠ O)); cbn; rewrite Hm; cbn; by rewrite <-!app_assoc.
Qed.

(** The key is read, and what is left starts with the space before the value. *)
Lemma NextObjectItem_field key c sc t rest : plain_key key →
  NextObjectItem {| is_ := field_text c key t ++ rest; r_scope := c :: sc |}
  = (Ok (Some key), {| is_ := " "%char :: t ++ rest; r_scope := S c :: sc |}).
Proof.
  intros Hk. assert (string_text key = dquote :: chars key ++ [dquote]) as E by (unfold string_text; by rewrite Hk).
  destruct (next_item_more "}"%char c sc _ ([":"%char; " "%char] ++ t ++ rest) (string_value_text key) (or_intror eq_refl))
    as (ws & Hws & Hn).
  unfold NextObjectItem, field_text. rewrite E, <-!app_assoc in *. cbn [app] in *. rewrite <-!app_assoc in *. cbn [app] in *.
  rewrite (M_bind_ok _ _ _ _ _ Hn).
  pose proof (reads_string key ws (":"%char :: " "%char :: t ++ rest) (S c :: sc) Hws ltac:(done)) as Hr.
  rewrite E in Hr. cbn [app] in Hr. rewrite <-app_assoc in Hr. by rewrite (M_bind_ok _ _ _ _ _ Hr).
Qed.

Lemma NextObjectItem_end c sc rest :
  NextObjectItem {| is_ := "}"%char :: rest; r_scope := c :: sc |} = (Ok None, {| is_ := rest; r_scope := sc |}).
Proof. unfold NextObjectItem. by rewrite (M_bind_ok _ _ _ _ _ (next_item_none "}"%char c sc rest (or_intror eq_refl))). Qed.

Lemma begin_object_run os sc ml :
  WriteBeginObject false {| os_ := os; w_scope := sc; w_multi := ml |}
  = (Ok tt, {| os_ := os ++ ["{"%char]; w_scope := O :: sc; w_multi := false :: ml |}).
Proof. done. Qed.

Lemma end_object_run os c sc ml :
  WriteEndObject {| os_ := os; w_scope := c :: sc; w_multi := false :: ml |}
  = (Ok tt, {| os_ := os ++ ["}"%char]; w_scope := sc; w_multi := ml |}).
Proof. done. Qed.
