(* ===== verification/DoubleText.v ===== *)
(** * The precision of doubles in records

    A stream prints a double with six significant digits, so the costs of a log are not those that
    were measured. The number in the log is off by at most one part in 200000. *)

From Stdlib Require Import SpecFloat.
From S2P Require Import Prelude PyStr PyFloat JsonText DmlcJson DmlcJsonInv.

(** ** Digits *)

Lemma digit_code c : is_digit c = true → 0 ≤ code c - 48 ≤ 9.
Proof. unfold is_digit. intros H. bool_to_prop. lia. Qed.

Lemma digits_val_bounds ds : digit_text ds → 0 ≤ digits_val ds < 10 ^ Z.of_nat (length ds).
Proof.
  induction ds as [|c ds IH] using rev_ind; [done|]. intros [Hds Hc]%Forall_app. apply Forall_inv in Hc.
  pose proof (digit_code c Hc). specialize (IH Hds). rewrite digits_val_app, length_app. cbn [length].
  rewrite Nat2Z.inj_add, Z.pow_add_r by lia. lia.
Qed.

Lemma digits_val_lower c ds : digit_text (c :: ds) → c ≠ "0"%char → 10 ^ Z.of_nat (length ds) ≤ digits_val (c :: ds).
Proof.
  intros Hd Hc. induction ds as [|d ds IH] using rev_ind.
  - apply Forall_inv in Hd. pose proof (digit_code c Hd). cbn. change (Z.pow_pos 10 1) with 10.
    assert (code c ≠ 48); [|lia]. intros E. apply Hc. destruct c as [[] [] [] [] [] [] [] []]; done.
  - rewrite app_comm_cons in Hd. apply Forall_app in Hd as [Hds Hd]. apply Forall_inv in Hd.
    pose proof (digit_code d Hd). specialize (IH Hds). rewrite app_comm_cons, digits_val_app, length_app. cbn [length].
    rewrite Nat2Z.inj_add, Z.pow_add_r by lia. lia.
Qed.

Lemma ndigits_bounds n : 0 < n → 1 ≤ ndigits n ∧ 10 ^ (ndigits n - 1) ≤ n < 10 ^ ndigits n.
Proof.
  intros Hn. destruct n as [|p|p]; try lia. unfold ndigits.
  destruct (pretty_go_digits (Npos p) EmptyString) as (c & ds & Hc & Hd & Hnz & Hv); [done|]. rewrite app_nil_r in Hc.
  change (chars (pretty (Zpos p))) with (chars (pretty_N_go (Npos p) EmptyString)). rewrite Hc.
  pose proof (digits_val_bounds _ Hd). pose proof (digits_val_lower _ _ Hd Hnz). rewrite Hv in *.
  cbn [length] in *. replace (Z.of_nat (S (length ds)) - 1) with (Z.of_nat (length ds)) by lia. lia.
Qed.

(** ** Six digits *)

(** [10 ^ x <= num / den], with the exponent split into a difference *)
Lemma pow10_le_spec x num den : 0 < num → 0 < den → ∃ a b, 0 ≤ a ∧ 0 ≤ b ∧ x = a - b ∧
  pow10_le x num den = (10 ^ a * den <=? num * 10 ^ b).
Proof.
  intros Hn Hd. unfold pow10_le. destruct (Z.leb_spec 0 x).
  - exists x, 0. split_and!; [lia..|]. by rewrite Z.pow_0_r, Z.mul_1_r.
  - exists 0, (- x). split_and!; [lia..|]. by rewrite Z.pow_0_r, Z.mul_1_l.
Qed.

(** The comparison does not depend on how the exponent is split. *)
Lemma pow10_scale num den u v c d : 0 ≤ u → 0 ≤ v → 0 ≤ c → 0 ≤ d → u - v = c - d →
  (10 ^ u * den ≤ num * 10 ^ v ↔ 10 ^ c * den ≤ num * 10 ^ d).
Proof.
  intros Hu Hv Hc Hd E. rewrite (Z.mul_le_mono_pos_r _ _ (10 ^ d)) by lia.
  rewrite (Z.mul_le_mono_pos_r (10 ^ c * den) _ (10 ^ v)) by lia.
  replace (10 ^ u * den * 10 ^ d) with (10 ^ (u + d) * den) by (rewrite Z.pow_add_r by lia; ring).
  replace (10 ^ c * den * 10 ^ v) with (10 ^ (c + v) * den) by (rewrite Z.pow_add_r by lia; ring).
  replace (u + d) with (c + v) by lia. replace (num * 10 ^ v * 10 ^ d) with (num * 10 ^ d * 10 ^ v) by ring. done.
Qed.

(** The exponent of the leading digit *)
Lemma exponent10_spec num den : 0 < num → 0 < den → ∃ a b, 0 ≤ a ∧ 0 ≤ b ∧ exponent10 num den = a - b ∧
  10 ^ a * den ≤ num * 10 ^ b < 10 ^ (a + 1) * den.
Proof.
  intros Hn Hd. destruct (ndigits_bounds num Hn) as (Hn1 & Hnl & Hnu), (ndigits_bounds den Hd) as (Hd1 & Hdl & Hdu).
  set (p := ndigits num) in *. set (q := ndigits den) in *.
  assert (num * 10 ^ (q - 1) < 10 ^ p * den) as Hup by nia.
  assert (10 ^ (p - 1) * den < num * 10 ^ q) as Hlo by nia.
  unfold exponent10. fold p q. destruct (pow10_le_spec (p - q) num den Hn Hd) as (a & b & Ha & Hb & Hab & ->).
  destruct (Z.leb_spec (10 ^ a * den) (num * 10 ^ b)) as [Hle|Hgt].
  - exists a, b. split_and!; [done..|]. apply Z.nle_gt. rewrite (pow10_scale num den _ _ p (q - 1)) by lia. lia.
  - exists a, (b + 1). split_and!; [lia..| |].
    + rewrite (pow10_scale num den _ _ (p - 1) q) by lia. lia.
    + rewrite !Z.pow_add_r by lia. lia.
Qed.

Lemma round_div_close n d : 0 < d → 2 * Z.abs (round_div n d * d - n) ≤ d.
Proof.
  intros Hd. unfold round_div. pose proof (Z.div_mod n d ltac:(lia)). pose proof (Z.mod_pos_bound n d Hd).
  set (q := n / d) in *. set (r := n mod d) in *.
  destruct (Z.ltb_spec d (2 * r)); cbn [orb]; [nia|]. destruct (Z.eqb_spec (2 * r) d); destruct (Z.odd q); cbn [andb]; nia.
Qed.

(** [d * 10 ^ e] is within one part in 200000 of [num / den]. *)
Definition close (d e num den : Z) : Prop := ∃ a b, 0 ≤ a ∧ 0 ≤ b ∧ e = a - b ∧
  200000 * Z.abs (d * 10 ^ a * den - num * 10 ^ b) ≤ num * 10 ^ b.

Lemma close_scale d j e num den : 0 ≤ j → close (d * 10 ^ j) e num den → close d (e + j) num den.
Proof.
  intros Hj (a & b & Ha & Hb & -> & H). exists (a + j), b. split_and!; [lia..|]. rewrite Z.pow_add_r by lia.
  replace (d * (10 ^ a * 10 ^ j)) with (d * 10 ^ j * 10 ^ a) by ring. done.
Qed.

(** The rounded digits before the carry *)
Lemma rounded_digits num den x a b : 0 < num → 0 < den → 0 ≤ a → 0 ≤ b → x = a - b →
  10 ^ a * den ≤ num * 10 ^ b < 10 ^ (a + 1) * den →
  let d := if x <=? 5 then round_div (num * 10 ^ (5 - x)) den else round_div num (den * 10 ^ (x - 5)) in
  10 ^ 5 ≤ d ≤ 10 ^ 6 ∧ close d (x - 5) num den.
Proof.
  intros Hn Hd Ha Hb Hx [Hl Hu].
  assert (∃ p q, 0 ≤ p ∧ 0 ≤ q ∧ x - 5 = p - q ∧
    (if x <=? 5 then round_div (num * 10 ^ (5 - x)) den else round_div num (den * 10 ^ (x - 5)))
    = round_div (num * 10 ^ q) (den * 10 ^ p)) as (p & q & Hp & Hq & Hpq & ->).
  { destruct (Z.leb_spec x 5).
    - exists 0, (5 - x). split_and!; [lia..|]. by rewrite Z.mul_1_r.
    - exists (x - 5), 0. split_and!; [lia..|]. by rewrite Z.mul_1_r. }
  apply Z.nle_gt in Hu. rewrite (pow10_scale num den _ _ (p + 5) q) in Hl by lia.
  rewrite (pow10_scale num den _ _ (p + 6) q) in Hu by lia. rewrite Z.pow_add_r in Hl, Hu by lia.
  pose proof (round_div_close (num * 10 ^ q) (den * 10 ^ p) ltac:(lia)) as Hr. set (d := round_div _ _) in *. split; [nia|].
  exists p, q. split_and!; [done..|]. nia.
Qed.

Lemma six_digits_close num den d x : 0 < num → 0 < den → six_digits num den = (d, x) →
  10 ^ 5 ≤ d < 10 ^ 6 ∧ close d (x - 5) num den.
Proof.
  intros Hn Hd. destruct (exponent10_spec num den Hn Hd) as (a & b & Ha & Hb & Hx & Hab). unfold six_digits. cbv zeta.
  destruct (rounded_digits num den _ a b Hn Hd Ha Hb Hx Hab) as [Hr Hc]. set (r := if _ <=? _ then _ else _) in *.
  destruct (Z.eqb_spec r (10 ^ 6)) as [E|E]; intros [= <- <-]; [|split; [lia|done]].
  split; [lia|]. replace (exponent10 num den + 1 - 5) with (exponent10 num den - 5 + 1) by lia. apply close_scale; [lia|]. by rewrite E in Hc.
Qed.

(** ** The printed form *)

Lemma strip_zeros_spec t : ∃ j, t = strip_zeros t ++ replicate j "0"%char.
Proof.
  unfold strip_zeros. assert (∀ u, ∃ j, u = replicate j "0"%char ++ skip_zeros u) as H.
  { induction u as [|c u [j IH]]; [by exists 0%nat|]. cbn [skip_zeros]. destruct (decide (c = "0"%char)) as [->|]; [|by exists 0%nat].
    exists (S j). cbn. by rewrite <-IH. }
  destruct (H (rev t)) as [j Hj]. exists j. apply (f_equal (@rev _)) in Hj. rewrite rev_involutive, rev_app_distr in Hj. rewrite Hj at 1. f_equal.
  clear. induction j as [|j IH]; [done|]. cbn [replicate rev]. rewrite IH. by rewrite <-replicate_cons_app.
Qed.

Lemma digits_val_zeros u j : digits_val (u ++ replicate j "0"%char) = digits_val u * 10 ^ Z.of_nat j.
Proof.
  induction j as [|j IH]; [by rewrite app_nil_r, Z.mul_1_r|]. cbn [replicate]. rewrite replicate_cons_app, app_assoc, digits_val_app, IH.
  rewrite Nat2Z.inj_succ, Z.pow_succ_r by lia. change (code "0"%char) with 48. ring.
Qed.

Lemma digits_val_leading j u : digits_val (replicate j "0"%char ++ u) = digits_val u.
Proof. induction j as [|j IH]; [done|]. exact IH. Qed.

Lemma general_format_value d x ds fs ex : 10 ^ 5 ≤ d < 10 ^ 6 → general_format d x = (ds, fs, ex) → ∃ j, 0 ≤ j ∧
  digits_val (ds ++ fs) * 10 ^ j = d ∧ default 0 ex - Z.of_nat (length fs) = x - 5 + j.
Proof.
  intros Hd. destruct (pretty_nonneg d) as [_ Hv]; [lia|].
  assert (length (chars (pretty d)) = 6%nat) as Hlen.
  { destruct (ndigits_bounds d) as (H1 & Hl & Hu); [lia|]. unfold ndigits in *. set (n := length (chars (pretty d))) in *.
    assert (Z.of_nat n - 1 < 6) by (apply (Z.pow_lt_mono_r_iff 10); lia). assert (5 < Z.of_nat n) by (apply (Z.pow_lt_mono_r_iff 10); lia). lia. }
  unfold general_format. set (t := chars (pretty d)) in *.
  assert (∀ n, (n ≤ 6)%nat → ∃ j, digits_val (take n t ++ strip_zeros (drop n t)) * 10 ^ Z.of_nat j = d ∧
    (length (strip_zeros (drop n t)) + j = 6 - n)%nat) as Hcut.
  { intros n Hn. destruct (strip_zeros_spec (drop n t)) as [j Hj]. exists j. split.
    - rewrite <-digits_val_zeros, <-app_assoc, <-Hj, take_drop. exact Hv.
    - pose proof (length_drop t n) as Hl. rewrite Hj, length_app, length_replicate in Hl. lia. }
  destruct (_ || _) eqn:Hrange; [|destruct (Z.leb_spec 0 x)]; intros [= <- <- <-].
  - destruct (Hcut 1%nat) as (j & Hj & Hlj); [lia|]. exists (Z.of_nat j). split_and!; [lia|exact Hj|]. cbn [default]. unfold id. lia.
  - apply orb_false_elim in Hrange as [_ Hx6%Z.leb_gt]. destruct (Hcut (Z.to_nat (x + 1))) as (j & Hj & Hlj); [lia|].
    exists (Z.of_nat j). split_and!; [lia|exact Hj|]. cbn [default]. lia.
  - destruct (Hcut 0%nat) as (j & Hj & Hlj); [lia|]. rewrite take_0, drop_0 in *. cbn [app] in Hj. exists (Z.of_nat j). split_and!; [lia| |].
    + change (["0"%char] ++ ?u) with (replicate 1 "0"%char ++ u). by rewrite !digits_val_leading.
    + cbn [default]. rewrite length_app, length_replicate. lia.
Qed.

(** The digits of a finite double *)
Lemma double_format_close s m e ds fs ex neg num den :
  double_format (S754_finite s m e) = (neg, (ds, fs, ex)) → fraction m e = (num, den) →
  neg = s ∧ close (digits_val (ds ++ fs)) (default 0 ex - Z.of_nat (length fs)) num den.
Proof.
  intros Hf Hfr. unfold double_format in Hf. rewrite Hfr in Hf. destruct (six_digits num den) as [d x] eqn:Hd.
  injection Hf as <- Hf. split; [done|]. destruct (fraction_pos _ _ _ _ Hfr) as [Hnum Hden].
  destruct (six_digits_close num den d x Hnum Hden Hd) as [Hb Hc].
  destruct (general_format_value d x ds fs ex Hb Hf) as (j & Hj & <- & ->). by apply close_scale.
Qed.

(** C40: a log keeps five digits of a cost. [WriteNumber] writes a finite double, whose absolute value
    is [num / den], as a sign, digits, a point with more digits and an exponent; the decimal number
    they denote differs from the double by at most one part in 200000. [ReadNumber] reads the
    double that is nearest to this decimal number, with the same sign, if it is in range. *)
Theorem printed_double_close s m e num den :
  fraction m e = (num, den) →
  ∃ ds fs ex, let t := sign_text s ++ ds ++ point_text fs ++ exponent_part ex in
    let d := digits_val (ds ++ fs) in let x := default 0 ex - Z.of_nat (length fs) in
    number_digits ds ∧ digit_text fs ∧ writes (WriteNumber_double (S754_finite s m e)) t ∧
    close d x num den ∧
    (is_finite (dec_float s d x) = true → reads ReadNumber_double t (dec_float s d x)).
Proof.
  intros Hfr. destruct (double_format (S754_finite s m e)) as [neg [[ds fs] ex]] eqn:E.
  destruct (double_format_digits _ _ _ _ _ E) as [Hds Hfs]. destruct (double_format_close _ _ _ _ _ _ _ _ _ E Hfr) as [-> Hc].
  exists ds, fs, ex. cbv zeta. split_and!; [done|done| |done|].
  - unfold WriteNumber_double. by rewrite (double_text_parts (S754_finite s m e) _ _ _ _ eq_refl E).
  - intros Hfin. destruct ds as [|c ds]; [by destruct Hds|]. destruct Hds as [Hd _]. apply reads_on_text.
    intros ws rest Hw Hr. by apply extract_double_app.
Qed.

(** The double nearest to 0.0001441294 *)
Definition sample_cost : float := S754_finite false 5317436310594627 (-65).

Lemma printed_double_close_witness :
  of_dec 1441294 10 = sample_cost ∧
  ∃ ds fs ex, close (digits_val (ds ++ fs)) (default 0 ex - Z.of_nat (length fs)) 5317436310594627 (2 ^ 65) ∧
    writes (WriteNumber_double sample_cost) (sign_text false ++ ds ++ point_text fs ++ exponent_part ex) ∧
    of_chars (sign_text false ++ ds ++ point_text fs ++ exponent_part ex) = "0.000144129".
Proof.
  split; [vm_compute; reflexivity|].
  destruct (printed_double_close false 5317436310594627 (-65) 5317436310594627 (2 ^ 65) eq_refl)
    as (ds & fs & ex & _ & _ & Hw & Hc & _).
  exists ds, fs, ex. split; [exact Hc|]. split; [exact Hw|].
  specialize (Hw {| os_ := []; w_scope := []; w_multi := [] |}). apply (f_equal (os_ ∘ snd)) in Hw.
  cbn [compose snd os_ app] in Hw. rewrite <-Hw. vm_compute. reflexivity.
Defined.
