(* ===== verification/StepRecord.v ===== *)
(** * Records of transform steps

    [WriteToRecord] of the steps, the constructors that read them and [StepReadFromRecord]
    ([src/auto_scheduler/transform_step.cc]), as text: each step is the contents of one JSON array,
    its prefix first. A step that is written and read back is the same step, as long as its integers
    fit an [int], its split lengths are defined and its extent is not zero. *)

From stdpp Require Import strings.
From S2P Require Import Prelude PyStr PyFloat JsonText DmlcJson DmlcJsonInv LoopState.

(** [Handler<Array<Integer>>] *)
Definition Handler_Integers : Handler (list Z) :=
  {| h_Write array := write_array (mfor (λ i, WriteArrayItem (WriteNumber_int i)) array);
     h_Read := ArrayHandler_Read ReadNumber_int |}.

(** [Handler<Array<Optional<Integer>>>] *)
Definition Handler_Optional_Integers : Handler (list (option Z)) :=
  {| h_Write array := write_array (mfor (λ i, match i with
                                              | Some value => WriteArrayItem (WriteNumber_int value)
                                              | None => raise AssertionError
                                              end) array);
     h_Read := array ← ArrayHandler_Read ReadNumber_int; mret (Some <$> array) |}.

(** ** Writing *)

Definition write_int (z : Z) : M writer unit := WriteNumber_int z.
Definition write_flag (b : bool) : M writer unit := WriteNumber_int (Z.b2z b).

(** The items [WriteToRecord] of each step writes into an array *)
Definition AnnotationStep_WriteToRecord (stage_id : Z) (iter_id : Z) (annotation : IteratorAnnotation) : list (M writer unit) :=
  [WriteString "AN"; write_int stage_id; write_int iter_id; write_int (annotation_int annotation)].
Definition FuseStep_WriteToRecord (stage_id : Z) (fused_ids : list Z) : list (M writer unit) :=
  [WriteString "FU"; write_int stage_id; h_Write Handler_Integers fused_ids].
Definition PragmaStep_WriteToRecord (stage_id : Z) (iter_id : Z) (pragma_type : string) : list (M writer unit) :=
  [WriteString "PR"; write_int stage_id; write_int iter_id; WriteString pragma_type].
Definition ReorderStep_WriteToRecord (stage_id : Z) (after_ids : list Z) : list (M writer unit) :=
  [WriteString "RE"; write_int stage_id; h_Write Handler_Integers after_ids].
Definition SplitStep_WriteToRecord (stage_id : Z) (iter_id : Z) (extent : option Z) (lengths : list (option Z)) (inner_to_outer : bool) : list (M writer unit) :=
  [WriteString "SP"; write_int stage_id; write_int iter_id; write_int (default 0 extent);
   h_Write Handler_Optional_Integers lengths; write_flag inner_to_outer].
Definition FollowSplitStep_WriteToRecord (stage_id : Z) (iter_id : Z) (src_step_id : Z) (n_split : Z) : list (M writer unit) :=
  [WriteString "FSP"; write_int stage_id; write_int iter_id; write_int src_step_id; write_int n_split].
Definition FollowFusedSplitStep_WriteToRecord (stage_id : Z) (iter_id : Z) (src_step_ids : list Z) (level : Z) (factor_or_nparts : bool) : list (M writer unit) :=
  [WriteString "FFSP"; write_int stage_id; write_int iter_id;
   h_Write Handler_Integers src_step_ids; write_int level; write_flag factor_or_nparts].
Definition StorageAlignStep_WriteToRecord (stage_id : Z) (iter_id : Z) (factor : Z) (offset : Z) : list (M writer unit) :=
  [WriteString "SA"; write_int stage_id; write_int iter_id; write_int factor; write_int offset].
Definition ComputeAtStep_WriteToRecord (stage_id : Z) (target_stage_id : Z) (target_iter_id : Z) : list (M writer unit) :=
  [WriteString "CA"; write_int stage_id; write_int target_stage_id; write_int target_iter_id].
Definition ComputeInlineStep_WriteToRecord (stage_id : Z) : list (M writer unit) :=
  [WriteString "CI"; write_int stage_id].
Definition ComputeRootStep_WriteToRecord (stage_id : Z) : list (M writer unit) :=
  [WriteString "CR"; write_int stage_id].
Definition CacheReadStep_WriteToRecord (stage_id : Z) (scope_name : string) (reader_stage_ids : list Z) : list (M writer unit) :=
  [WriteString "CHR"; write_int stage_id; WriteString scope_name;
   h_Write Handler_Integers reader_stage_ids].
Definition CacheWriteStep_WriteToRecord (stage_id : Z) (scope_name : string) : list (M writer unit) :=
  [WriteString "CHW"; write_int stage_id; WriteString scope_name].
Definition RfactorStep_WriteToRecord (stage_id : Z) (iter_id : Z) (factor_iter_id : Z) : list (M writer unit) :=
  [WriteString "RF"; write_int stage_id; write_int iter_id; write_int factor_iter_id].

(** [step->WriteToRecord(writer)] *)
Definition record_items (step : Step) : list (M writer unit) :=
  match step with
  | AnnotationStep stage_id iter_id annotation => AnnotationStep_WriteToRecord stage_id iter_id annotation
  | FuseStep stage_id fused_ids => FuseStep_WriteToRecord stage_id fused_ids
  | PragmaStep stage_id iter_id pragma_type => PragmaStep_WriteToRecord stage_id iter_id pragma_type
  | ReorderStep stage_id after_ids => ReorderStep_WriteToRecord stage_id after_ids
  | SplitStep stage_id iter_id extent lengths inner_to_outer => SplitStep_WriteToRecord stage_id iter_id extent lengths inner_to_outer
  | FollowSplitStep stage_id iter_id src_step_id n_split => FollowSplitStep_WriteToRecord stage_id iter_id src_step_id n_split
  | FollowFusedSplitStep stage_id iter_id src_step_ids level factor_or_nparts => FollowFusedSplitStep_WriteToRecord stage_id iter_id src_step_ids level factor_or_nparts
  | StorageAlignStep stage_id iter_id factor offset => StorageAlignStep_WriteToRecord stage_id iter_id factor offset
  | ComputeAtStep stage_id target_stage_id target_iter_id => ComputeAtStep_WriteToRecord stage_id target_stage_id target_iter_id
  | ComputeInlineStep stage_id => ComputeInlineStep_WriteToRecord stage_id
  | ComputeRootStep stage_id => ComputeRootStep_WriteToRecord stage_id
  | CacheReadStep stage_id scope_name reader_stage_ids => CacheReadStep_WriteToRecord stage_id scope_name reader_stage_ids
  | CacheWriteStep stage_id scope_name => CacheWriteStep_WriteToRecord stage_id scope_name
  | RfactorStep stage_id iter_id factor_iter_id => RfactorStep_WriteToRecord stage_id iter_id factor_iter_id
  end.

Definition WriteToRecord (step : Step) : M writer unit := mfor WriteArrayItem (record_items step).

(** ** Reading *)

Definition read_int : M reader Z := item ReadNumber_int.
Definition read_ints : M reader (list Z) := item (h_Read Handler_Integers).
Definition read_str : M reader string := item ReadString.
Definition read_flag : M reader bool := item ReadNumber_bool.

(** The constructors [AnnotationStep(reader)], ... The source keeps a value that is no annotation in
    [IteratorAnnotation(int_val)]; such a value is outside of the model. *)
Definition AnnotationStep_Read : M reader Step :=
  stage_id ← read_int; iter_id ← read_int; int_val ← read_int;
  annotation ← lift (of_option ValueError (annotation_of_int int_val));
  mret (AnnotationStep stage_id iter_id annotation).
Definition FuseStep_Read : M reader Step :=
  stage_id ← read_int; fused_ids ← read_ints; mret (FuseStep stage_id fused_ids).
Definition PragmaStep_Read : M reader Step :=
  stage_id ← read_int; iter_id ← read_int; pragma_type ← read_str; mret (PragmaStep stage_id iter_id pragma_type).
Definition ReorderStep_Read : M reader Step :=
  stage_id ← read_int; after_ids ← read_ints; mret (ReorderStep stage_id after_ids).
Definition SplitStep_Read : M reader Step :=
  stage_id ← read_int; iter_id ← read_int; int_val ← read_int;
  lengths ← item (h_Read Handler_Optional_Integers); inner_to_outer ← read_flag;
  mret (SplitStep stage_id iter_id (if int_val =? 0 then None else Some int_val) lengths inner_to_outer).
Definition FollowSplitStep_Read : M reader Step :=
  stage_id ← read_int; iter_id ← read_int; src_step_id ← read_int; n_split ← read_int;
  mret (FollowSplitStep stage_id iter_id src_step_id n_split).
Definition FollowFusedSplitStep_Read : M reader Step :=
  stage_id ← read_int; iter_id ← read_int; src_step_ids ← read_ints; level ← read_int; factor_or_nparts ← read_flag;
  mret (FollowFusedSplitStep stage_id iter_id src_step_ids level factor_or_nparts).
Definition StorageAlignStep_Read : M reader Step :=
  stage_id ← read_int; iter_id ← read_int; factor ← read_int; offset ← read_int;
  mret (StorageAlignStep stage_id iter_id factor offset).
Definition ComputeAtStep_Read : M reader Step :=
  stage_id ← read_int; target_stage_id ← read_int; target_iter_id ← read_int;
  mret (ComputeAtStep stage_id target_stage_id target_iter_id).
Definition ComputeInlineStep_Read : M reader Step := stage_id ← read_int; mret (ComputeInlineStep stage_id).
Definition ComputeRootStep_Read : M reader Step := stage_id ← read_int; mret (ComputeRootStep stage_id).
Definition CacheReadStep_Read : M reader Step :=
  stage_id ← read_int; scope_name ← read_str; reader_stage_ids ← read_ints;
  mret (CacheReadStep stage_id scope_name reader_stage_ids).
Definition CacheWriteStep_Read : M reader Step :=
  stage_id ← read_int; scope_name ← read_str; mret (CacheWriteStep stage_id scope_name).
Definition RfactorStep_Read : M reader Step :=
  stage_id ← read_int; iter_id ← read_int; factor_iter_id ← read_int; mret (RfactorStep stage_id iter_id factor_iter_id).

Definition step_readers : list (string * M reader Step) :=
  [("AN", AnnotationStep_Read); ("FU", FuseStep_Read); ("PR", PragmaStep_Read); ("RE", ReorderStep_Read);
   ("SP", SplitStep_Read); ("FSP", FollowSplitStep_Read); ("FFSP", FollowFusedSplitStep_Read);
   ("SA", StorageAlignStep_Read); ("CA", ComputeAtStep_Read); ("CI", ComputeInlineStep_Read);
   ("CR", ComputeRootStep_Read); ("CHR", CacheReadStep_Read); ("CHW", CacheWriteStep_Read);
   ("RF", RfactorStep_Read)].

(** The chain of comparisons with the prefixes *)
Fixpoint read_by_prefix (name : string) (l : list (string * M reader Step)) : M reader Step :=
  match l with
  | [] => raise AssertionError
  | (prefix, read) :: l => if decide (name = prefix) then read else read_by_prefix name l
  end.

Definition StepReadFromRecord : M reader Step := name ← read_str; read_by_prefix name step_readers.

(** [Handler<Array<Step>>] *)
Definition Handler_Steps : Handler (list Step) :=
  {| h_Write data := write_array (mfor (λ step, WriteArrayItem (write_array (WriteToRecord step))) data);
     h_Read := ArrayHandler_Read (BeginArray ≫= λ _, step ← StepReadFromRecord; no_item ≫= λ _, mret step) |}.

(** ** The round trip *)

Definition ints_good (l : list Z) : bool := forallb is_int32 l.

(** A step whose record gives it back *)
Definition step_good (step : Step) : bool :=
  match step with
  | AnnotationStep stage_id iter_id _ | PragmaStep stage_id iter_id _ => is_int32 stage_id && is_int32 iter_id
  | FuseStep stage_id ids | ReorderStep stage_id ids | CacheReadStep stage_id _ ids => is_int32 stage_id && ints_good ids
  | SplitStep stage_id iter_id extent lengths _ =>
      is_int32 stage_id && is_int32 iter_id && match extent with Some e => is_int32 e && negb (e =? 0) | None => true end
      && forallb (λ o, match o with Some z => is_int32 z | None => false end) lengths
  | FollowSplitStep a b c d | StorageAlignStep a b c d => is_int32 a && is_int32 b && is_int32 c && is_int32 d
  | FollowFusedSplitStep stage_id iter_id ids level _ => is_int32 stage_id && is_int32 iter_id && ints_good ids && is_int32 level
  | ComputeAtStep a b c | RfactorStep a b c => is_int32 a && is_int32 b && is_int32 c
  | ComputeInlineStep stage_id | ComputeRootStep stage_id | CacheWriteStep stage_id _ => is_int32 stage_id
  end.

Lemma integers_codec l : ints_good l = true → codec (h_Write Handler_Integers l) (h_Read Handler_Integers) l.
Proof.
  intros H. apply list_codec. apply Forall_Forall2_diag, Forall_forall. intros z Hz. apply int_codec.
  apply (proj1 (forallb_forall _ _) H z). by apply list_elem_of_In.
Qed.

Lemma codec_map {A B} (f : A → B) w r a : codec w r a → codec w (a ← r; mret (f a)) (f a).
Proof.
  intros (t & Ht & Hw & Hr). exists t. split_and!; [done..|]. intros ws rest sc Hws Hrest.
  by rewrite (M_bind_ok _ _ _ _ _ (Hr ws rest sc Hws Hrest)).
Qed.

Lemma mfor_fmap {S A B} (f : B → M S unit) (g : A → B) l : mfor f (g <$> l) = mfor (λ a, f (g a)) l.
Proof. induction l as [|a l IH]; [done|]. cbn. by rewrite <-IH. Qed.

Lemma optional_integers_codec l : forallb (λ o, match o with Some z => is_int32 z | None => false end) l = true →
  codec (h_Write Handler_Optional_Integers l) (h_Read Handler_Optional_Integers) l.
Proof.
  intros H. assert (∃ k, l = Some <$> k ∧ ints_good k = true) as (k & -> & Hk).
  { induction l as [|[z|] l IH]; cbn in H; [by exists []| |done]. apply andb_prop in H as [Hz H].
    destruct (IH H) as (k & -> & Hk). exists (z :: k). split; [done|]. cbn. by rewrite Hz. }
  cbn [h_Write h_Read Handler_Optional_Integers]. rewrite mfor_fmap. by apply codec_map, integers_codec.
Qed.

Lemma annotation_round_trip a : annotation_of_int (annotation_int a) = Some a ∧ is_int32 (annotation_int a) = true.
Proof. by destruct a. Qed.

#[export] Hint Resolve integers_codec optional_integers_codec : records.

(** Take conjunctions of tests apart *)
Ltac split_andb := repeat match goal with H : (_ && _) = true |- _ => apply andb_prop in H as [? ?] end.

(** Read the next item with the handler that wrote it *)
Ltac next_field := eapply items_codec_item; [by eauto with records|].

Ltac choose_reader :=
  cbn [read_by_prefix step_readers]; repeat (rewrite decide_False by done); rewrite decide_True by done.

Ltac unfold_record :=
  unfold AnnotationStep_WriteToRecord, FuseStep_WriteToRecord, PragmaStep_WriteToRecord, ReorderStep_WriteToRecord, SplitStep_WriteToRecord, FollowSplitStep_WriteToRecord, FollowFusedSplitStep_WriteToRecord, StorageAlignStep_WriteToRecord, ComputeAtStep_WriteToRecord, ComputeInlineStep_WriteToRecord, ComputeRootStep_WriteToRecord, CacheReadStep_WriteToRecord, CacheWriteStep_WriteToRecord, RfactorStep_WriteToRecord,
    write_int, write_flag.

Lemma step_record step : step_good step = true → items_codec (WriteToRecord step) StepReadFromRecord step.
Proof.
  intros H. unfold WriteToRecord, StepReadFromRecord, read_str.
  destruct step as [? ? a| | | |? ? extent lengths|? ? ? ?|? ? ? ? ?|? ? ? ?|? ? ?|?|?|? ? ?|? ?|? ? ?]; cbn [step_good] in H;
    split_andb; cbn [record_items]; unfold_record; next_field; choose_reader.
  1: { destruct (annotation_round_trip a) as [Ha Hi]. unfold AnnotationStep_Read. do 3 next_field. rewrite Ha. apply items_codec_ret. }
  4: { assert (is_int32 (default 0 extent) = true ∧ (if default 0 extent =? 0 then None else Some (default 0 extent)) = extent) as [He Ee].
       { destruct extent as [e|]; [|done]. split_andb. cbn. by destruct (e =? 0). }
       unfold SplitStep_Read. do 5 next_field. rewrite Ee. apply items_codec_ret. }
  all: repeat next_field; apply items_codec_ret.
Qed.

Lemma steps_record l : forallb step_good l = true → codec (h_Write Handler_Steps l) (h_Read Handler_Steps) l.
Proof.
  intros H. apply list_codec. apply Forall_Forall2_diag, Forall_forall. intros step Hs. apply array_codec.
  eapply items_codec_body; [apply step_record|apply reads_body_closed].
  apply (proj1 (forallb_forall _ _) H). by apply list_elem_of_In.
Qed.
#[export] Hint Resolve steps_record : records.

(** *** An extent of [2 ^ 31] is written, but the record cannot be read. *)
Example large_extent_unreadable :
  let w := (write_array (WriteToRecord (SplitStep 0 0 (Some (2 ^ 31)) [Some 2] true)) {| os_ := []; w_scope := []; w_multi := [] |}).2 in
  of_chars (tail (os_ w)) = of_chars (dquote :: chars "SP" ++ dquote :: chars ", 0, 0, 2147483648, [2], 1]") ∧
  ((BeginArray ≫= λ _, StepReadFromRecord) {| is_ := os_ w; r_scope := [] |}).1 = Raise ValueError.
Proof. vm_compute. done. Qed.
