(* ===== verification/MeasureRecord.v ===== *)
(** * Measure records of the native auto-scheduler

    The handlers of [src/auto_scheduler/measure_record.cc] for states, hardware parameters, search
    tasks, measure inputs and results, [WriteMeasureRecords], [ReadMeasureRecord] and the record
    reader on the lines of a log file. A state is written as its steps alone, a task without its
    compute DAG. A cost is a [FloatImm] or some other expression, which cannot be written. *)

From stdpp Require Import strings.
From S2P Require Import Prelude PyStr PyFloat JsonText DmlcJson LoopState StepRecord.

(** ** Data *)

Record HardwareParams := {
  num_cores : Z; vector_unit_bytes : Z; cache_line_bytes : Z; max_shared_memory_per_block : Z;
  max_local_memory_per_block : Z; max_threads_per_block : Z; max_vthread_extent : Z; warp_size : Z }.

Inductive Cost := FloatImm (value : float) | OtherExpr.

Record MeasureResult := {
  costs : list Cost; error_no : Z; error_msg : string; all_cost : float; timestamp : float }.

(** A node that has been made and not filled: the arithmetic fields are zero. *)
Definition new_result : MeasureResult :=
  {| costs := []; error_no := 0; error_msg := ""; all_cost := fzero; timestamp := fzero |}.

(** ** States *)

(** [Handler<Array<Stage>>]: nothing is written, and nothing is read *)
Definition Handler_Stages_Write : M writer unit := write_array (mret tt).
Definition Handler_Stages_Read : M reader unit := BeginArray ≫= λ _, no_item.

(** A [StateNode] that has been made and not filled *)
Definition new_state_node : State :=
  {| stages := []; transform_steps := []; attach_map := empty_attach_map; current_compute_dag := None; concrete := false |}.

Definition Handler_State_Write (data : State) : M writer unit :=
  write_array (mfor WriteArrayItem [Handler_Stages_Write; h_Write Handler_Steps (transform_steps data)]).
Definition Handler_State_Read (data : State) : M reader State :=
  BeginArray ≫= λ _,
  item Handler_Stages_Read ≫= λ _,
  steps ← item (h_Read Handler_Steps);
  no_item ≫= λ _,
  mret (with_steps data steps).

(** ** Hardware parameters *)

Definition Handler_HardwareParams_Write (data : HardwareParams) : M writer unit :=
  write_array (mfor WriteArrayItem (WriteNumber_int <$>
    [num_cores data; vector_unit_bytes data; cache_line_bytes data; max_shared_memory_per_block data;
     max_local_memory_per_block data; max_threads_per_block data; max_vthread_extent data; warp_size data])).
Definition Handler_HardwareParams_Read : M reader HardwareParams :=
  BeginArray ≫= λ _,
  a ← read_int; b ← read_int; c ← read_int; d ← read_int; e ← read_int; f ← read_int; g ← read_int; h ← read_int;
  no_item ≫= λ _,
  mret {| num_cores := a; vector_unit_bytes := b; cache_line_bytes := c; max_shared_memory_per_block := d;
          max_local_memory_per_block := e; max_threads_per_block := f; max_vthread_extent := g; warp_size := h |}.

(** ** Results *)

(** [static_cast<int>(d)]; undefined if the value does not fit *)
Definition cast_int (d : float) : result Z :=
  z ← py_int d; if is_int32 z then Ok z else Raise OverflowError.

Definition Handler_MeasureResult_Write (data : MeasureResult) : M writer unit :=
  write_array (mfor WriteArrayItem
    [write_array (mfor (λ x, match x with
                             | FloatImm value => WriteArrayItem (WriteNumber_double value)
                             | OtherExpr => raise AssertionError
                             end) (costs data));
     WriteNumber_int (error_no data);
     WriteNumber_double (all_cost data);
     z ← lift (cast_int (timestamp data)); WriteNumber_int z]).

(** Reading replaces every field but the error message, which no record has. *)
Definition Handler_MeasureResult_Read (data : MeasureResult) : M reader MeasureResult :=
  BeginArray ≫= λ _,
  double_list ← item (ArrayHandler_Read ReadNumber_double);
  error_no ← item ReadNumber_int;
  all_cost ← item ReadNumber_double;
  timestamp ← item ReadNumber_double;
  no_item ≫= λ _,
  mret {| costs := FloatImm <$> double_list; error_no := error_no; error_msg := error_msg data;
          all_cost := all_cost; timestamp := timestamp |}.

(** ** Tasks, inputs and records *)

Section tasks.
(** [Target], its printing [target->str()] and the constructor that parses a string *)
Context {Target : Type} (target_str : Target → string) (MakeTarget : string → result Target).

Record SearchTask := {
  compute_dag : option (list Operation); workload_key : string; target : option Target; target_host : option Target;
  hardware_params : option HardwareParams; layout_rewrite_option : Z; task_input_names : list string }.

(** A reference that has to be defined *)
Definition deref {A} (o : option A) : M writer A := lift (of_option AttributeError o).

Definition Handler_SearchTask_Write (data : SearchTask) : M writer unit :=
  write_array (mfor WriteArrayItem
    [WriteString (workload_key data);
     t ← deref (target data); WriteString (target_str t);
     h ← deref (hardware_params data); Handler_HardwareParams_Write h;
     match target_host data with Some t => WriteString (target_str t) | None => WriteString "" end;
     WriteNumber_int (layout_rewrite_option data);
     write_array (mfor (λ i, WriteArrayItem (WriteString i)) (task_input_names data))]).

(** The record may end after the target, after the hardware parameters, or after the layout option. *)
Definition Handler_SearchTask_Read : M reader SearchTask :=
  BeginArray ≫= λ _,
  workload_key ← item ReadString;
  str_value ← item ReadString;
  target ← lift (MakeTarget str_value);
  let data host hw layout names :=
    {| compute_dag := None; workload_key := workload_key; target := Some target; target_host := host;
       hardware_params := hw; layout_rewrite_option := layout; task_input_names := names |} in
  s ← NextArrayItem;
  if negb s then mret (data None None 0 []) else
  hw ← Handler_HardwareParams_Read;
  s ← NextArrayItem;
  if negb s then mret (data None (Some hw) 0 []) else
  str_value ← ReadString;
  host ← (if decide (str_value = "") then mret None else t ← lift (MakeTarget str_value); mret (Some t));
  layout ← item ReadNumber_int;
  s ← NextArrayItem;
  if negb s then mret (data host (Some hw) layout []) else
  names ← ArrayHandler_Read ReadString;
  no_item ≫= λ _,
  mret (data host (Some hw) layout names).

Record MeasureInput := { mi_task : SearchTask; mi_state : State }.

Definition Handler_MeasureInput_Write (data : MeasureInput) : M writer unit :=
  write_array (mfor WriteArrayItem [Handler_SearchTask_Write (mi_task data); Handler_State_Write (mi_state data)]).
Definition Handler_MeasureInput_Read : M reader MeasureInput :=
  BeginArray ≫= λ _,
  task ← item Handler_SearchTask_Read;
  state ← item (Handler_State_Read (with_concrete new_state_node true));
  no_item ≫= λ _,
  mret {| mi_task := task; mi_state := state |}.

Definition AUTO_SCHEDULER_LOG_VERSION : string := "v0.6".

(** One line of a log *)
Definition write_record (input : MeasureInput) (res : MeasureResult) : M writer unit :=
  WriteBeginObject false ≫= λ _,
  WriteObjectKeyValue "i" (Handler_MeasureInput_Write input) ≫= λ _,
  WriteObjectKeyValue "r" (Handler_MeasureResult_Write res) ≫= λ _,
  WriteObjectKeyValue "v" (WriteString AUTO_SCHEDULER_LOG_VERSION) ≫= λ _,
  WriteEndObject ≫= λ _,
  Extend [chr 10].

(** [WriteMeasureRecords]; [results[i]] is checked to be in range. *)
Fixpoint write_records (inputs : list MeasureInput) (results : list MeasureResult) : M writer unit :=
  match inputs, results with
  | [], _ => mret tt
  | input :: inputs, res :: results => write_record input res ≫= λ _, write_records inputs results
  | _ :: _, [] => raise IndexError
  end.
Definition WriteMeasureRecords (os : text) (inputs : list MeasureInput) (results : list MeasureResult) : result unit * text :=
  let '(r, w) := write_records inputs results {| os_ := os; w_scope := []; w_multi := [] |} in (r, os_ w).

(** What a record is read into. Before the first record the nodes are empty: the input then has
    neither a task nor a state. *)
Record slots := { s_input : option MeasureInput; s_result : MeasureResult; s_version : string }.
Definition new_slots : slots := {| s_input := None; s_result := new_result; s_version := "" |}.

(** The loop over the keys of a record; each round takes at least a key *)
Fixpoint record_loop (fuel : nat) (sl : slots) : M reader slots :=
  match fuel with
  | O => raise OutOfFuel
  | S fuel =>
      key ← NextObjectItem;
      match key with
      | None => mret sl
      | Some key =>
          if decide (key = "i") then
            inp ← Handler_MeasureInput_Read;
            record_loop fuel {| s_input := Some inp; s_result := s_result sl; s_version := s_version sl |}
          else if decide (key = "r") then
            res ← Handler_MeasureResult_Read (s_result sl);
            record_loop fuel {| s_input := s_input sl; s_result := res; s_version := s_version sl |}
          else if decide (key = "v") then
            v ← ReadString;
            record_loop fuel {| s_input := s_input sl; s_result := s_result sl; s_version := v |}
          else raise AssertionError
      end
  end.

Definition ReadMeasureRecord (str : text) (sl : slots) : result slots :=
  ((BeginObject ≫= λ _, record_loop (S (length str)) sl) {| is_ := str; r_scope := [] |}).1.

(** ** The record reader *)

(** The lines [std::getline] returns *)
Fixpoint getlines (t : text) : list text :=
  match t with
  | [] => []
  | c :: t => if decide (c = chr 10) then [] :: getlines t
              else match getlines t with [] => [[c]] | l :: ls => (c :: l) :: ls end
  end.

(** A comment starts with [#] or a space *)
Definition is_comment (line : text) : bool := bool_decide (head line = Some "#"%char ∨ head line = Some " "%char).

(** [ReadNext] on the lines that are left: the next record, and the lines after it *)
Fixpoint ReadNext (infile : list text) (sl : slots) : result (option (slots * list text)) :=
  match infile with
  | [] => Ok None
  | cur_line :: infile =>
      if is_comment cur_line then ReadNext infile sl
      else sl ← ReadMeasureRecord cur_line {| s_input := s_input sl; s_result := s_result sl; s_version := "" |};
           Ok (Some (sl, infile))
  end.

(** [ReadLines]: the nodes are shared by all records, and copied. A record takes a line, so the
    number of lines bounds the rounds. *)
Fixpoint read_lines_loop (fuel : nat) (max_size skip_size : Z) (infile : list text) (sl : slots)
    (inputs : list (option MeasureInput)) (results : list MeasureResult)
    : result (list (option MeasureInput) * list MeasureResult) :=
  match fuel with
  | O => Raise OutOfFuel
  | S fuel =>
      next ← ReadNext infile sl;
      match next with
      | None => Ok (inputs, results)
      | Some (sl, infile) =>
          if 0 <? skip_size then read_lines_loop fuel max_size (skip_size - 1) infile sl inputs results
          else
            let inputs := inputs ++ [s_input sl] in
            let results := results ++ [s_result sl] in
            if (0 <? max_size) && (max_size <=? Z.of_nat (length inputs)) then Ok (inputs, results)
            else read_lines_loop fuel max_size skip_size infile sl inputs results
      end
  end.
Definition ReadLines (max_size skip_size : Z) (infile : list text) : result (list (option MeasureInput) * list MeasureResult) :=
  read_lines_loop (S (length infile)) max_size skip_size infile new_slots [] [].
End tasks.
