(* ===== verification/MeasureRecordInv.v ===== *)
(** * The round trip of measure records

    What [WriteMeasureRecords] appends to a log is what [ReadLines] reads from it: the tasks without
    their DAGs, the steps of the states, the results with their numbers at the precision of the log.
    Together with the replay of steps, a state is recovered from its record. *)

From stdpp Require Import strings.
From S2P Require Import Prelude PyStr PyFloat JsonText DmlcJson DmlcJsonInv TIR LoopState TransformStep StepReplay StepRecord MeasureRecord.

Lemma stages_codec : codec Handler_Stages_Write Handler_Stages_Read tt.
Proof. apply array_codec, body_codec_no_item. Qed.
#[export] Hint Resolve stages_codec : records.

Ltac next_body := eapply body_codec_item; [by eauto with records|].

Lemma state_codec st data : forallb step_good (transform_steps st) = true →
  codec (Handler_State_Write st) (Handler_State_Read data) (with_steps data (transform_steps st)).
Proof. intros H. apply array_codec. do 2 next_body. apply body_codec_closed. Qed.

Definition hardware_good (h : HardwareParams) : bool :=
  ints_good [num_cores h; vector_unit_bytes h; cache_line_bytes h; max_shared_memory_per_block h;
             max_local_memory_per_block h; max_threads_per_block h; max_vthread_extent h; warp_size h].

Lemma hardware_codec h : hardware_good h = true → codec (Handler_HardwareParams_Write h) Handler_HardwareParams_Read h.
Proof.
  destruct h as [a b c d e f g i]. intros H. unfold hardware_good in H. cbn -[is_int32] in H. split_andb.
  apply array_codec. rewrite !fmap_cons. do 8 next_body. apply body_codec_closed.
Qed.

(** ** Results *)

Definition good_cost (x : Cost) : bool := match x with FloatImm f => good_double f | OtherExpr => false end.
Definition back_cost (x : Cost) : Cost := match x with FloatImm f => FloatImm (back_double f) | OtherExpr => OtherExpr end.

Definition result_good (r : MeasureResult) : bool :=
  forallb good_cost (costs r) && is_int32 (error_no r) && good_double (all_cost r) &&
  match cast_int (timestamp r) with Ok z => is_finite (int_double z) | Raise _ => false end.

(** What is read: numbers as printed, the time in whole seconds, and the old error message *)
Definition back_result (r : MeasureResult) (msg : string) : MeasureResult :=
  {| costs := back_cost <$> costs r; error_no := error_no r; error_msg := msg; all_cost := back_double (all_cost r);
     timestamp := match cast_int (timestamp r) with Ok z => int_double z | Raise _ => fzero end |}.

Lemma costs_codec l : forallb good_cost l = true → ∃ k,
  FloatImm <$> k = back_cost <$> l ∧
  codec (write_array (mfor (λ x, match x with
                                 | FloatImm value => WriteArrayItem (WriteNumber_double value)
                                 | OtherExpr => raise AssertionError
                                 end) l)) (ArrayHandler_Read ReadNumber_double) k.
Proof.
  intros H. assert (∃ m, l = FloatImm <$> m ∧ Forall (λ f, good_double f = true) m) as (m & -> & Hm).
  { induction l as [|[f|] l IH]; cbn in H; [by exists []| |done]. split_andb.
    destruct IH as (m & -> & Hm); [done|]. exists (f :: m). split; [done|by constructor]. }
  exists (back_double <$> m). split; [by rewrite <-!list_fmap_compose|]. rewrite mfor_fmap. apply list_codec.
  apply Forall2_fmap_r, Forall_Forall2_diag. eapply Forall_impl; [exact Hm|]. apply double_codec.
Qed.

Lemma result_codec r data : result_good r = true →
  codec (Handler_MeasureResult_Write r) (Handler_MeasureResult_Read data) (back_result r (error_msg data)).
Proof.
  intros H. unfold result_good in H. split_andb. destruct (costs_codec (costs r)) as (k & Ek & Hk); [done|].
  apply array_codec. unfold back_result. rewrite <-Ek. destruct (cast_int (timestamp r)) as [z|]; [|done].
  eapply body_codec_item; [exact Hk|]. do 2 next_body. eapply body_codec_item; [by apply int_double_codec|]. apply body_codec_closed.
Qed.

(** ** Tasks and inputs *)

Section tasks.
Context {Target : Type} (target_str : Target → string) (MakeTarget : string → result Target).

Abbreviation SearchTask := (@SearchTask Target).
Abbreviation MeasureInput := (@MeasureInput Target).
Abbreviation slots := (@slots Target).

(** A target that its string denotes *)
Definition target_good (t : Target) : Prop := MakeTarget (target_str t) = Ok t.

Record task_good (t : SearchTask) : Prop := {
  tg_target : ∃ tg, target t = Some tg ∧ target_good tg;
  tg_host : ∀ h, target_host t = Some h → target_good h ∧ target_str h ≠ "";
  tg_hardware : ∃ hw, hardware_params t = Some hw ∧ hardware_good hw = true;
  tg_layout : is_int32 (layout_rewrite_option t) = true }.

(** A record has no compute DAG. *)
Definition back_task (t : SearchTask) : SearchTask :=
  {| compute_dag := None; workload_key := workload_key t; target := target t; target_host := target_host t;
     hardware_params := hardware_params t; layout_rewrite_option := layout_rewrite_option t;
     task_input_names := task_input_names t |}.

Lemma names_codec l : codec (write_array (mfor (λ i, WriteArrayItem (WriteString i)) l)) (ArrayHandler_Read ReadString) l.
Proof. apply list_codec, Forall_Forall2_diag, Forall_true. apply string_codec. Qed.

Lemma task_codec t : task_good t →
  codec (Handler_SearchTask_Write target_str t) (Handler_SearchTask_Read MakeTarget) (back_task t).
Proof.
  intros [(tg & Et & Ht) Hh (hw & Ehw & Hhw) Hl]. apply array_codec. unfold back_task. rewrite Et, Ehw. next_body.
  eapply body_codec_item; [exact (string_codec (target_str tg))|]. rewrite Ht. eapply body_codec_next; [reflexivity|by apply hardware_codec|].
  destruct (target_host t) as [h|].
  - destruct (Hh h eq_refl) as [Hg Hne]. eapply body_codec_next; [reflexivity|apply string_codec|].
    cbv beta. rewrite decide_False by done. rewrite Hg. next_body.
    eapply body_codec_next; [reflexivity|apply names_codec|]. apply body_codec_closed.
  - eapply body_codec_next; [reflexivity|apply string_codec|]. cbv beta. rewrite decide_True by done. next_body.
    eapply body_codec_next; [reflexivity|apply names_codec|]. apply body_codec_closed.
Qed.

Definition input_good (i : MeasureInput) : Prop :=
  task_good (mi_task i) ∧ forallb step_good (transform_steps (mi_state i)) = true.

Definition back_state (st : State) : State := with_steps (with_concrete new_state_node true) (transform_steps st).
Definition back_input (i : MeasureInput) : MeasureInput :=
  {| mi_task := back_task (mi_task i); mi_state := back_state (mi_state i) |}.

Lemma input_codec i : input_good i →
  codec (Handler_MeasureInput_Write target_str i) (Handler_MeasureInput_Read MakeTarget) (back_input i).
Proof.
  intros [Ht Hs]. apply array_codec. eapply body_codec_item; [by apply task_codec|].
  eapply body_codec_item; [by apply state_codec|]. apply body_codec_closed.
Qed.

(** ** Records *)

Section record.
Context (i : MeasureInput) (r : MeasureResult) (ti tr : text).
Context (Vi : value_text ti) (Vr : value_text tr).
Context (Ri : reads (Handler_MeasureInput_Read MakeTarget) ti (back_input i))
  (Rr : ∀ data, reads (Handler_MeasureResult_Read data) tr (back_result r (error_msg data))).

Definition record_line : text :=
  "{"%char :: field_text 0 "i" ti ++ field_text 1 "r" tr ++ field_text 2 "v" (string_text AUTO_SCHEDULER_LOG_VERSION) ++ ["}"%char].

Lemma writes_record : writes (Handler_MeasureInput_Write target_str i) ti → writes (Handler_MeasureResult_Write r) tr →
  writes (write_record target_str i r) (record_line ++ [chr 10]).
Proof.
  intros Wi Wr [os sc ml]. unfold write_record. rewrite (M_bind_ok _ _ _ _ _ (begin_object_run os sc ml)).
  rewrite (M_bind_ok _ _ _ _ _ (writes_field "i" _ ti _ _ _ _ Wi)).
  rewrite (M_bind_ok _ _ _ _ _ (writes_field "r" _ tr _ _ _ _ Wr)).
  rewrite (M_bind_ok _ _ _ _ _ (writes_field "v" _ _ _ _ _ _ (writes_string _))).
  rewrite (M_bind_ok _ _ _ _ _ (end_object_run _ _ _ _)). rewrite writes_Extend. cbn [os_ w_scope w_multi]. unfold record_line.
  cbn [app]. rewrite <-!app_assoc. done.
Qed.

Lemma record_line_text : Forall (λ c, c ≠ chr 10) record_line.
Proof.
  destruct Vi as [_ Hi], Vr as [_ Hr]. unfold record_line, field_text. constructor; [done|]. rewrite !Forall_app.
  split_and!; repeat (constructor || done); by rewrite ?Forall_app.
Qed.

Lemma reads_record sl : ReadMeasureRecord MakeTarget record_line sl
  = Ok {| s_input := Some (back_input i); s_result := back_result r (error_msg (s_result sl));
          s_version := AUTO_SCHEDULER_LOG_VERSION |}.
Proof.
  unfold ReadMeasureRecord. assert (∃ n, length record_line = S (S (S n))) as [n ->].
  { unfold record_line, field_text. cbn. eauto. }
  set (rest1 := field_text 1 "r" tr ++ field_text 2 "v" (string_text AUTO_SCHEDULER_LOG_VERSION) ++ ["}"%char]).
  set (rest2 := field_text 2 "v" (string_text AUTO_SCHEDULER_LOG_VERSION) ++ ["}"%char]).
  assert (BeginObject {| is_ := record_line; r_scope := [] |}
    = (Ok tt, {| is_ := field_text 0 "i" ti ++ rest1; r_scope := [O] |})) as Hb by done.
  rewrite (M_bind_ok _ _ _ _ _ Hb). cbn [record_loop].
  rewrite (M_bind_ok _ _ _ _ _ (NextObjectItem_field "i" 0 [] ti rest1 eq_refl)). rewrite decide_True by done.
  rewrite (M_bind_ok _ _ _ _ _ (Ri [" "%char] rest1 [1%nat] ltac:(by repeat constructor) ltac:(done))).
  rewrite (M_bind_ok _ _ _ _ _ (NextObjectItem_field "r" 1 [] tr rest2 eq_refl)). rewrite decide_False, decide_True by done.
  rewrite (M_bind_ok _ _ _ _ _ (Rr _ [" "%char] rest2 [2%nat] ltac:(by repeat constructor) ltac:(done))).
  unfold rest2. rewrite (M_bind_ok _ _ _ _ _ (NextObjectItem_field "v" 2 [] (string_text AUTO_SCHEDULER_LOG_VERSION) ["}"%char] eq_refl)).
  rewrite !decide_False, decide_True by done.
  rewrite (M_bind_ok _ _ _ _ _ (reads_string AUTO_SCHEDULER_LOG_VERSION [" "%char] ["}"%char] [3%nat] ltac:(by repeat constructor) ltac:(done))).
  by rewrite (M_bind_ok _ _ _ _ _ (NextObjectItem_end 3 [] [])).
Qed.
End record.

(** A record is one line; read into nodes that hold [sl] it gives the input and the result, whose
    error message stays. *)
Lemma record_codec i r : input_good i → result_good r = true → ∃ line,
  writes (write_record target_str i r) (line ++ [chr 10]) ∧ Forall (λ c, c ≠ chr 10) line ∧ head line = Some "{"%char ∧
  ∀ sl, ReadMeasureRecord MakeTarget line sl
        = Ok {| s_input := Some (back_input i); s_result := back_result r (error_msg (s_result sl));
                s_version := AUTO_SCHEDULER_LOG_VERSION |}.
Proof.
  intros Hi Hr. destruct (input_codec i Hi) as (ti & Vi & Wi & Ri).
  destruct (result_codec r new_result Hr) as (tr & Vr & Wr & _).
  exists (record_line ti tr). split_and!; [by apply writes_record|by apply record_line_text|done|].
  intros sl. apply reads_record; [done|]. intros data. destruct (result_codec r data Hr) as (tr' & _ & Wr' & Rr).
  pose proof (Wr {| os_ := []; w_scope := []; w_multi := [] |}) as E. rewrite Wr' in E. by injection E as <-.
Qed.

(** ** Logs *)

(** A line that gives a record, whatever the nodes held *)
Definition line_of (line : text) (p : MeasureInput * MeasureResult) : Prop :=
  is_comment line = false ∧
  ∀ sl, ReadMeasureRecord MakeTarget line sl
        = Ok {| s_input := Some (back_input p.1); s_result := back_result p.2 (error_msg (s_result sl));
                s_version := AUTO_SCHEDULER_LOG_VERSION |}.

Lemma getlines_app line t : Forall (λ c, c ≠ chr 10) line → getlines (line ++ chr 10 :: t) = line :: getlines t.
Proof.
  intros H. induction H as [|c line Hc _ IH]; cbn [app getlines].
  - by rewrite decide_True.
  - by rewrite decide_False, IH.
Qed.

Lemma write_records_lines inputs results : Forall input_good inputs → Forall (λ r, result_good r = true) results →
  length inputs = length results → ∃ t, writes (write_records target_str inputs results) t ∧
  Forall2 line_of (getlines t) (zip inputs results).
Proof.
  intros Hi. revert results. induction Hi as [|i inputs Hi _ IH]; intros results Hr Hlen; destruct results as [|r results]; try done.
  - exists []. split; [apply writes_ret|constructor].
  - apply Forall_cons in Hr as [Hr Hrs]. destruct (IH results Hrs) as (t & Wt & Ht); [by injection Hlen|].
    destruct (record_codec i r Hi Hr) as (line & Wl & Hl & Hh & Rl).
    exists ((line ++ [chr 10]) ++ t). split; [by apply writes_bind|]. rewrite <-app_assoc. cbn [app]. rewrite getlines_app by done.
    constructor; [|done]. split; [|exact Rl]. unfold is_comment. rewrite Hh. by apply bool_decide_eq_false; naive_solver.
Qed.

(** The records [ReadLines] returns: [skip_size] are skipped, and then at most [max_size] taken *)
Definition window {A} (max_size skip_size : Z) (l : list A) : list A :=
  let l := drop (Z.to_nat skip_size) l in if 0 <? max_size then take (Z.to_nat max_size) l else l.

Lemma read_lines_run lines ps : Forall2 line_of lines ps → ∀ fuel max_size skip_size sl ins ress,
  (length lines < fuel)%nat → error_msg (s_result sl) = "" → length ins = length ress →
  (0 < max_size → Z.of_nat (length ins) < max_size) → (ins = [] ∨ skip_size ≤ 0) →
  read_lines_loop MakeTarget fuel max_size skip_size lines sl ins ress
  = Ok (ins ++ (if 0 <? max_size then take (Z.to_nat max_size - length ins) else id) (drop (Z.to_nat skip_size) ((λ p, Some (back_input p.1)) <$> ps)),
        ress ++ (if 0 <? max_size then take (Z.to_nat max_size - length ins) else id) (drop (Z.to_nat skip_size) ((λ p, back_result p.2 "") <$> ps))).
Proof.
  induction 1 as [|line p lines ps [Hc Hl] _ IH]; intros fuel m k sl ins ress Hf Hmsg Hlen Hm Hk;
    (destruct fuel as [|fuel]; [cbn in Hf; lia|]); cbn [read_lines_loop ReadNext].
  - cbn. rewrite !drop_nil. destruct (0 <? m); cbn; by rewrite ?take_nil, !app_nil_r.
  - rewrite Hc, Hl. cbn [mbind result_bind s_result s_input error_msg]. rewrite Hmsg. cbn in Hf.
    destruct (Z.ltb_spec 0 k) as [Hpos|Hpos].
    + rewrite IH by (try done; cbn; lia || naive_solver lia). destruct Hk as [->|]; [|lia].
      replace (Z.to_nat k) with (S (Z.to_nat (k - 1))) by lia. done.
    + replace (Z.to_nat k) with 0%nat by lia. cbn [drop fmap list_fmap]. rewrite length_app. cbn [length].
      destruct (Z.ltb_spec 0 m) as [Hm0|Hm0]; cbn [andb].
      * specialize (Hm Hm0). destruct (Z.leb_spec m (Z.of_nat (length ins + 1))).
        -- replace (Z.to_nat m - length ins)%nat with 1%nat by lia. cbn. done.
        -- rewrite IH by (try done; cbn; rewrite ?length_app; cbn; lia). rewrite (proj2 (Z.ltb_lt 0 m)) by done.
           replace (Z.to_nat k) with 0%nat by lia. rewrite length_app. cbn [length drop].
           replace (Z.to_nat m - length ins)%nat with (S (Z.to_nat m - (length ins + 1))) by lia.
           cbn [take]. by rewrite <-!app_assoc.
      * rewrite IH by (try done; cbn; rewrite ?length_app; cbn; lia). rewrite (proj2 (Z.ltb_ge 0 m)) by done.
        replace (Z.to_nat k) with 0%nat by lia. cbn [drop id]. by rewrite <-!app_assoc.
Qed.


(** C12: a state is recovered from its record. Whatever methods built the state [w] from the initial
    state of a DAG: when the numbers of its steps are 32-bit integers (an extent may be unknown but is
    not 0, the lengths of splits are all given), the targets of its task are those that their
    strings denote, and the numbers of the result are finite, its record is one line without a line
    break in it, and reading that line gives an input whose steps, replayed from the start, give
    [w] itself. *)
Theorem record_recovers_state dag_ops ReplayAndGetDAG start w0 w i r sl :
  new_state dag_ops start = (Ok tt, w0) → built dag_ops ReplayAndGetDAG w0 w → mi_state i = w_state w →
  input_good i → result_good r = true →
  ∃ line sl' inp, writes (write_record target_str i r) (line ++ [chr 10]) ∧ Forall (λ c, c ≠ chr 10) line ∧
    ReadMeasureRecord MakeTarget line sl = Ok sl' ∧ s_input sl' = Some inp ∧
    mi_task inp = back_task (mi_task i) ∧
    replay dag_ops ReplayAndGetDAG (transform_steps (mi_state inp)) start = (Ok tt, w).
Proof.
  intros Hinit Hb Hst Hi Hr. destruct (record_codec i r Hi Hr) as (line & Wl & Hl & _ & Rl).
  exists line. eexists _, _. split_and!; [exact Wl|exact Hl|apply Rl|reflexivity|reflexivity|].
  cbn. rewrite Hst. by apply (replay_reproduces _ _ _ w0).
Qed.
End tasks.

(** *** Samples *)

Definition sample_task : @SearchTask string :=
  {| compute_dag := Some sample_ops; workload_key := "[matmul, 512]"; target := Some "llvm"; target_host := None;
     hardware_params := Some {| num_cores := 8; vector_unit_bytes := 64; cache_line_bytes := 64;
       max_shared_memory_per_block := 0; max_local_memory_per_block := 0; max_threads_per_block := 0;
       max_vthread_extent := 0; warp_size := 0 |};
     layout_rewrite_option := 1; task_input_names := ["A"; "B"] |}.
Definition sample_input : MeasureInput := {| mi_task := sample_task; mi_state := w_state sample_5 |}.
(** 0.000144129 seconds, and a time with a fraction *)
Definition sample_result : MeasureResult :=
  {| costs := [FloatImm (of_dec 1441294 10); FloatImm (of_dec 2 4)]; error_no := 0; error_msg := "none";
     all_cost := of_dec 15 1; timestamp := of_dec 16000000005 1 |}.

Lemma sample_input_good : input_good id Ok sample_input.
Proof.
  split; [|vm_compute; reflexivity]. constructor.
  - by eexists.
  - done.
  - by eexists.
  - done.
Qed.


Lemma record_recovers_state_witness : ∃ line sl' inp,
  writes (write_record id sample_input sample_result) (line ++ [chr 10]) ∧ Forall (λ c, c ≠ chr 10) line ∧
  ReadMeasureRecord Ok line new_slots = Ok sl' ∧ s_input sl' = Some inp ∧ mi_task inp = back_task sample_task ∧
  replay sample_ops sample_replay (transform_steps (mi_state inp)) sample_start = (Ok tt, sample_5).
Proof.
  apply (record_recovers_state id Ok sample_ops sample_replay sample_start sample_init sample_5 sample_input sample_result new_slots).
  - vm_compute. reflexivity.
  - apply sample_built.
  - reflexivity.
  - apply sample_input_good.
  - vm_compute. reflexivity.
Defined.

(** *** A line without an input repeats the input of the line before. *)
Example stale_record :
  let log := (WriteMeasureRecords id [] [sample_input] [sample_result]).2 in
  let line := "{"%char :: dquote :: chars "v" ++ dquote :: chars ": " ++ dquote :: chars "v0.6" ++ dquote :: chars "}" in
  (λ p, length p.1) <$> ReadLines Ok (-1) 0 (getlines (log ++ line)) = Ok 2%nat ∧
  (λ p, head p.1) <$> ReadLines (Target := string) Ok (-1) 0 (getlines line) = Ok (Some None) ∧
  match ReadLines Ok (-1) 0 (getlines (log ++ line)) with Ok ([a; b], _) => a = b | _ => False end.
Proof. vm_compute. done. Qed.
